(** * CCGate: a shallow embedding of the proxy core

    The development follows the JavaScript sources of the gateway:
    - [src/utils/helpers.js]         (modules [Glob] and [Extract])
    - [src/services/usageService.js] (module [Usage])
    - [src/core/loadBalancer.js]     (module [LB])
    - [src/utils/formatConverter.js] (modules [Format], [Obj] and [Messages])
    - [src/core/proxy.js]            (modules [Http], [Proxy] and [OpenAI])

    and, for the further properties at the end,
    - [src/core/loadBalancer.js]     (module [Balancer])
    - [src/utils/helpers.js]         (modules [Helpers], [Sse] and [Forward])
    - [src/services/usageService.js] (modules [Reports], [Keys] and [Registry])
    - the authentication middleware  (module [Auth])
    - [src/config/validator.js]      (modules [Validator], [Config] and
                                      [UsageRoutes])

    JavaScript numbers are embedded as exact integers ([Z]) where the code
    counts (weights, counters, tokens, durations and status codes: integers
    below 2^53, on which the arithmetic of JavaScript is exact), as the
    mathematical value of their literal ([Q]) inside JSON documents, and as
    IEEE 754 doubles (module [Num]: every operation rounds to the nearest
    double, ties to even) where the code prices; the value of
    [Math.random()] and what the balancer computes from it are exact
    rationals. [undefined] is made explicit with [option].

    A string is the sequence of its UTF-16 code units, here those below 256:
    the Latin-1 range, which holds every header value that Node hands over.
    The texts of messages are written as they stand in the sources. *)

From Stdlib Require Import ZArith QArith Qround Qabs Qpower Ascii String List Lia Lqa.
From stdpp Require Import base option list gmap strings pretty.

Local Open Scope string_scope.
Local Open Scope Z_scope.
Local Open Scope list_scope.

#[local] Set Warnings "-clear-no-such-hyp".

(** ** Exceptions *)

(** A computation that may [throw]. *)
Inductive outcome (E A : Type) : Type :=
| Ok (a : A)
| Throw (e : E).
Arguments Ok {E A} a.
Arguments Throw {E A} e.

#[global] Instance outcome_bind E : MBind (outcome E) := λ A B k x,
  match x with
  | Ok a => k a
  | Throw e => Throw e
  end.

#[global] Instance outcome_fmap E : FMap (outcome E) := λ A B f x,
  match x with
  | Ok a => Ok (f a)
  | Throw e => Throw e
  end.

(** ** Strings ([String.prototype] methods used by the sources) *)

Module Str.

Definition chars (s : string) : list ascii := list_ascii_of_string s.
Definition of_chars (l : list ascii) : string := string_of_list_ascii l.

(** [s.startsWith(p)] *)
Fixpoint startsWith (p s : list ascii) : bool :=
  match p, s with
  | [], _ => true
  | a :: p', b :: s' => bool_decide (a = b) && startsWith p' s'
  | _ :: _, [] => false
  end.

(** [s.includes(p)] *)
Fixpoint includes (p s : list ascii) : bool :=
  startsWith p s ||
  match s with
  | [] => false
  | _ :: s' => includes p s'
  end.

(** The white space and line terminators of JavaScript below U+0100: what
    [\s] matches and [trim] removes. ["160"] is the no-break space. *)
Definition is_space (c : ascii) : bool :=
  bool_decide (c ∈ ["009"; "010"; "011"; "012"; "013"; " "; "160"]%char).

Fixpoint trimStart (s : list ascii) : list ascii :=
  match s with
  | c :: s' => if is_space c then trimStart s' else s
  | [] => []
  end.

(** [s.trim()] *)
Definition trim (s : list ascii) : list ascii :=
  rev (trimStart (rev (trimStart s))).

(** [s.split('\n')] *)
Fixpoint split_lines_aux (cur : list ascii) (s : list ascii) : list (list ascii) :=
  match s with
  | [] => [rev cur]
  | c :: s' =>
      if bool_decide (c = "010"%char) then rev cur :: split_lines_aux [] s'
      else split_lines_aux (c :: cur) s'
  end.
Definition split_lines (s : list ascii) : list (list ascii) := split_lines_aux [] s.

End Str.

(** ** The wildcard matcher ([Helpers.matchPattern]) *)

Module Glob.

(** The characters escaped by [/[.+^${}()|[\]\\]/g]. *)
Definition escaped : list ascii :=
  ["."; "+"; "^"; "$"; "{"; "}"; "("; ")"; "|"; "["; "]"; "\"]%char.

(** [pattern.replace(/[.+^${}()|[\]\\]/g, '\\$&')] *)
Definition escape (p : list ascii) : list ascii :=
  p ≫= λ c, if bool_decide (c ∈ escaped) then ["\"; c]%char else [c].

(** [.replace(/\*/g, '.*')] *)
Definition star_to_dotstar (p : list ascii) : list ascii :=
  p ≫= λ c, if bool_decide (c = "*"%char) then ["."; "*"]%char else [c].

(** *** The fragment of [RegExp] those two replacements can produce *)

Inductive atom :=
| Lit (c : ascii)    (* a pattern character or an identity escape *)
| Dot.               (* [.] *)

Inductive quant := One | Star | Opt.

(** A term is an atom with its quantifier; [lazy] records a [?] after the
    quantifier. *)
Record term := mkTerm { t_atom : atom; t_quant : quant; t_lazy : bool }.

(** [new RegExp(src)] for a source made of plain characters, identity
    escapes, [.], [*] and [?]. [None] is the [SyntaxError]. Terms are
    accumulated with the latest first. *)
Fixpoint parse (src : list ascii) (acc : list term) : option (list term) :=
  match src with
  | [] => Some (rev acc)
  | c :: rest =>
      if bool_decide (c = "\"%char) then
        match rest with
        | e :: rest' =>
            if bool_decide (e ∈ escaped) then parse rest' (mkTerm (Lit e) One false :: acc)
            else None
        | [] => None
        end
      else if bool_decide (c = "."%char) then parse rest (mkTerm Dot One false :: acc)
      else if bool_decide (c = "*"%char) then
        match acc with
        | mkTerm a One false :: acc' => parse rest (mkTerm a Star false :: acc')
        | _ => None      (* nothing to repeat *)
        end
      else if bool_decide (c = "?"%char) then
        match acc with
        | mkTerm a One false :: acc' => parse rest (mkTerm a Opt false :: acc')
        | mkTerm a q false :: acc' => parse rest (mkTerm a q true :: acc')
        | _ => None      (* nothing to repeat *)
        end
      else if bool_decide (c ∈ escaped) then None
      else parse rest (mkTerm (Lit c) One false :: acc)
  end.

(** [Canonicalize] under the [i] flag, for a code unit below 256: the upper
    case of [a]-[z] and of the Latin-1 letters U+00E0-U+00FE other than the
    division sign U+00F7. The sharp s (its upper case has two letters), the
    micro sign and the y with diaeresis (their upper cases lie above
    U+00FF, where no other character of this range is taken to) stand for
    themselves. *)
Definition canonicalize (c : ascii) : ascii :=
  let n := nat_of_ascii c in
  if bool_decide (97 ≤ n ≤ 122)%nat
     || bool_decide (224 ≤ n ≤ 254)%nat && negb (bool_decide (n = 247)%nat)
  then ascii_of_nat (n - 32) else c.

(** Line terminators, which [.] does not match: the line feed and the
    carriage return are those below U+0100. *)
Definition is_line_terminator (c : ascii) : bool :=
  bool_decide (c = "010"%char) || bool_decide (c = "013"%char).

Definition atom_matches (a : atom) (c : ascii) : bool :=
  match a with
  | Lit d => bool_decide (canonicalize d = canonicalize c)
  | Dot => negb (is_line_terminator c)
  end.

(** [a*] followed by the continuation [k]. *)
Fixpoint star_match (ok : ascii → bool) (k : list ascii → bool) (s : list ascii) : bool :=
  k s ||
  match s with
  | c :: s' => ok c && star_match ok k s'
  | [] => false
  end.

(** Does the whole of [s] match the sequence of terms ([^...$])? *)
Fixpoint match_terms (ts : list term) (s : list ascii) : bool :=
  match ts with
  | [] => bool_decide (s = [])
  | t :: ts' =>
      match t_quant t with
      | One =>
          match s with
          | c :: s' => atom_matches (t_atom t) c && match_terms ts' s'
          | [] => false
          end
      | Opt =>
          match_terms ts' s ||
          match s with
          | c :: s' => atom_matches (t_atom t) c && match_terms ts' s'
          | [] => false
          end
      | Star => star_match (atom_matches (t_atom t)) (match_terms ts') s
      end
  end.

(** [Helpers.matchPattern] *)
Definition matchPattern (pattern text : string) : bool :=
  if bool_decide (pattern = EmptyString) || bool_decide (text = EmptyString) then false
  else if bool_decide (pattern = "*") then true
  else if bool_decide (pattern = text) then true
  else
    let regexPattern := star_to_dotstar (escape (Str.chars pattern)) in
    match parse regexPattern [] with
    | Some regex => match_terms regex (Str.chars text)
    | None => false
    end.

(** [Helpers.findMatchingPattern] *)
Fixpoint findMatchingPattern (patterns : list string) (text : string) : option string :=
  if bool_decide (text = EmptyString) then None
  else
    match patterns with
    | [] => None
    | pattern :: rest =>
        if matchPattern pattern text then Some pattern
        else findMatchingPattern rest text
    end.

(** *** The matcher as the specification words it

    [*] stands for a run of characters accepted by [run_ok]; every other
    pattern character stands for itself, letters compared without regard
    to case. *)

Definition to_lower (c : ascii) : ascii :=
  let n := nat_of_ascii c in
  if bool_decide (65 ≤ n ≤ 90)%nat
     || bool_decide (192 ≤ n ≤ 222)%nat && negb (bool_decide (n = 215)%nat)
  then ascii_of_nat (n + 32) else c.

Definition same_letter (c d : ascii) : Prop := to_lower c = to_lower d.

Inductive wildcard (run_ok : ascii → bool) : list ascii → list ascii → Prop :=
| wild_nil : wildcard run_ok [] []
| wild_star p run t :
    forallb run_ok run = true → wildcard run_ok p t →
    wildcard run_ok ("*"%char :: p) (run ++ t)
| wild_char c d p t :
    c ≠ "*"%char → same_letter c d → wildcard run_ok p t →
    wildcard run_ok (c :: p) (d :: t).

(** What [parse] makes of an escaped pattern without [?]. *)
Definition terms_of (p : list ascii) : list term :=
  (λ c, if bool_decide (c = "*"%char) then mkTerm Dot Star false
        else mkTerm (Lit c) One false) <$> p.

Definition any_char (c : ascii) : bool := true.
Definition not_line_terminator (c : ascii) : bool := negb (is_line_terminator c).

(** Every code unit below 256, and the upper and the lower case of each
    as numbers. *)
Definition code_units : list ascii := ascii_of_nat <$> seq 0 256.

Definition case_table : list (N * N) :=
  (λ c, (N_of_ascii (canonicalize c), N_of_ascii (to_lower c))) <$> code_units.

End Glob.

(** ** Numbers ([+], [*], [/], [Math.round] and the comparisons on doubles) *)

Module Num.

(** A JavaScript number. A finite one is given by its value; [-0] is not
    told apart from [0], whose sign the sources neither print nor divide
    by. *)
Inductive t :=
| NaN
| Inf (negative : bool)
| Fin (q : Q).

Definition zero : t := Fin 0.

(** An integer below 2^53, which is a double. *)
Definition of_Z (z : Z) : t := Fin (inject_Z z).

(** [2^k] *)
Definition pow2 (k : Z) : Q := (2 ^ k)%Q.

(** The [k] with [2^k <= a < 2^(k+1)], for [0 < a]. *)
Definition ilog2 (a : Q) : Z :=
  if Qle_bool 1 a then Z.log2 (Qfloor a) else - Z.log2_up (Qceiling (/ a)).

(** The nearest integer, the even one of two that are equally near. *)
Definition nearest_even (x : Q) : Z :=
  let f := Qfloor x in
  match (x - inject_Z f ?= 1 # 2)%Q with
  | Lt => f
  | Gt => f + 1
  | Eq => if Z.even f then f else f + 1
  end.

Definition negative (q : Q) : bool := negb (Qle_bool 0 q).

(** The double nearest to [q], ties to even: a significand of 53 bits
    rounded at the exponent of [q], at [2^-1074] for the subnormal
    numbers; what reaches [2^1024] is infinite. *)
Definition nearest (q : Q) : t :=
  let a := Qabs q in
  if Qeq_bool a 0 then Fin 0
  else
    let e := Z.max (ilog2 a - 52) (-1074) in
    let m := nearest_even (a / pow2 e) in
    let v := (inject_Z m * pow2 e)%Q in
    if Qle_bool (pow2 1024) v then Inf (negative q)
    else Fin (Qred (if negative q then - v else v)).

(** The number value of the real number [q]: of a numeric literal of a
    JSON document, and of the exact result of an operation. It is kept in
    lowest terms. *)
Definition round (q : Q) : t := nearest (Qred q).

(** [x + y] *)
Definition add (x y : t) : t :=
  match x, y with
  | NaN, _ | _, NaN => NaN
  | Inf s, Inf s' => if Bool.eqb s s' then Inf s else NaN
  | Inf s, Fin _ | Fin _, Inf s => Inf s
  | Fin a, Fin b => round (a + b)
  end.

(** [x * y] *)
Definition mul (x y : t) : t :=
  match x, y with
  | NaN, _ | _, NaN => NaN
  | Inf s, Inf s' => Inf (xorb s s')
  | Inf s, Fin b | Fin b, Inf s =>
      if Qeq_bool b 0 then NaN else Inf (xorb s (negative b))
  | Fin a, Fin b => round (a * b)
  end.

(** [x / y]; a zero divisor is taken as [+0]. *)
Definition div (x y : t) : t :=
  match x, y with
  | NaN, _ | _, NaN => NaN
  | Inf _, Inf _ => NaN
  | Inf s, Fin b => Inf (xorb s (negative b))
  | Fin _, Inf _ => Fin 0
  | Fin a, Fin b =>
      if Qeq_bool b 0 then (if Qeq_bool a 0 then NaN else Inf (negative a))
      else round (a / b)
  end.

(** [Math.round(x)]: the nearest integer, halves upwards; exact. *)
Definition Math_round (x : t) : t :=
  match x with
  | Fin q => Fin (inject_Z (Qfloor (q + (1 # 2))))
  | _ => x
  end.

(** [Math.round(x * 1000000) / 1000000] *)
Definition round6 (x : t) : t :=
  div (Math_round (mul x (of_Z 1000000))) (of_Z 1000000).

(** [x < y] *)
Definition ltb (x y : t) : bool :=
  match x, y with
  | NaN, _ | _, NaN => false
  | Inf s, Inf s' => s && negb s'
  | Inf s, Fin _ => s
  | Fin _, Inf s => negb s
  | Fin a, Fin b => negb (Qle_bool b a)
  end.

(** [x <= y] *)
Definition leb (x y : t) : bool :=
  match x, y with
  | NaN, _ | _, NaN => false
  | Inf s, Inf s' => s || negb s'
  | Inf s, Fin _ => s
  | Fin _, Inf s => negb s
  | Fin a, Fin b => Qle_bool a b
  end.

(** [x > y] and [x >= y] *)
Definition gtb (x y : t) : bool := ltb y x.
Definition geb (x y : t) : bool := leb y x.

(** [!!x] *)
Definition truthy (x : t) : bool :=
  match x with
  | NaN => false
  | Inf _ => true
  | Fin q => negb (Qeq_bool q 0)
  end.

(** [x || 0] *)
Definition or0 (x : t) : t := if truthy x then x else zero.

End Num.

(** ** JavaScript values *)

Module JS.

(** What [JSON.parse] returns. *)
#[local] Set Warnings "-register-all".
Inductive json :=
| JNull
| JBool (b : bool)
| JNum (q : Q)
| JStr (s : string)
| JArr (items : list json)
| JObj (fields : list (string * json)).

(** A value read by the code is a [json] or [undefined] ([None]). *)

Inductive JsError := TypeError | SyntaxError.

Definition truthy (v : option json) : bool :=
  match v with
  | None | Some JNull => false
  | Some (JBool b) => b
  | Some (JNum q) => negb (Qeq_bool q 0)
  | Some (JStr s) => negb (bool_decide (s = EmptyString))
  | Some (JArr _) | Some (JObj _) => true
  end.

Fixpoint assoc {A} (k : string) (l : list (string * A)) : option A :=
  match l with
  | [] => None
  | (k', v) :: l' => if bool_decide (k' = k) then Some v else assoc k l'
  end.

(** [v.k] for [v] other than [null] and [undefined]. Only own properties
    of objects are modelled; the keys the sources read are never inherited
    ones. *)
Definition get (v : json) (k : string) : option json :=
  match v with
  | JObj fields => assoc k fields
  | _ => None
  end.

(** [v.k] *)
Definition prop (v : option json) (k : string) : outcome JsError (option json) :=
  match v with
  | None | Some JNull => Throw TypeError
  | Some j => Ok (get j k)
  end.

(** [v?.k] *)
Definition opt_prop (v : option json) (k : string) : option json :=
  match v with
  | None | Some JNull => None
  | Some j => get j k
  end.

(** [v === s] for a string literal [s] *)
Definition is_str (v : option json) (s : string) : bool :=
  match v with
  | Some (JStr s') => bool_decide (s' = s)
  | _ => false
  end.

(** [v || 0] *)
Definition or0 (v : option json) : json :=
  match v with
  | Some j => if truthy v then j else JNum 0
  | None => JNum 0
  end.

(** What the sources take from the JavaScript runtime and the clock. *)
Class Runtime := {
  JSON_parse : string → option json;          (* [None]: SyntaxError *)
  JSON_stringify : json → string;
  ToNumber : json → option Q;                 (* of a string, array or object; [None]: NaN *)
  ToString : json → string;                   (* of a value that is not a string *)
  plus : json → json → json;                  (* [+] unless both sides are numbers *)
  toFixed6 : Num.t → string;                  (* [x.toFixed(6)] *)
  Number_toString : Num.t → string;           (* a number inside a template literal *)
  Buffer_byteLength : string → Z;
  now_iso : string;                           (* [new Date().toISOString()] *)
  now_seconds : Z;                            (* [Math.floor(Date.now() / 1000)] *)
  generateId : string                         (* [FormatConverter.generateId()] *)
}.

(** The double quote character as a string. *)
Definition dquote : string := String "034"%char EmptyString.

(** A JavaScript number: [None] is [NaN]. *)
Definition toNumber {rt : Runtime} (v : json) : option Q :=
  match v with
  | JNum q => Some q
  | JNull => Some 0%Q
  | JBool b => Some (if b then 1%Q else 0%Q)
  | _ => ToNumber v
  end.

(** [a + b] *)
Definition add {rt : Runtime} (a b : json) : json :=
  match a, b with
  | JNum x, JNum y => JNum (x + y)
  | _, _ => plus a b
  end.

(** The number a value stands for in arithmetic; a numeric literal of a
    document stands for the double nearest to it. *)
Definition number {rt : Runtime} (v : json) : Num.t :=
  match toNumber v with
  | Some q => Num.round q
  | None => Num.NaN
  end.

(** The names of the properties of [Object.prototype]: every object
    literal inherits a function under each of them, and
    [Object.prototype] itself under [__proto__]. *)
Definition Object_prototype : list string :=
  ["constructor"; "__defineGetter__"; "__defineSetter__"; "hasOwnProperty";
   "__lookupGetter__"; "__lookupSetter__"; "isPrototypeOf"; "propertyIsEnumerable";
   "toString"; "valueOf"; "__proto__"; "toLocaleString"].

End JS.

(** ** Token usage extraction ([Helpers.extractTokenUsage]) *)

Module Extract.
Import JS.

Record TokenUsage := mkTokenUsage {
  inputTokens : json;
  outputTokens : json;
  cacheCreationTokens : json;
  cacheReadTokens : json
}.

(** The object literal built from a [usage] object. *)
Definition usage_of (usage : json) : TokenUsage :=
  mkTokenUsage (or0 (get usage "input_tokens"))
               (or0 (get usage "output_tokens"))
               (or0 (get usage "cache_creation_input_tokens"))
               (or0 (get usage "cache_read_input_tokens")).

Definition zeroUsage : TokenUsage :=
  mkTokenUsage (JNum 0) (JNum 0) (JNum 0) (JNum 0).

Section with_runtime.
Context {rt : Runtime}.

(** [Helpers.parseRequestBody]; [None] is the [null] of the [catch]. *)
Definition parseRequestBody (body : string) : option json := JSON_parse body.

(** [Helpers.extractModelFromBody]: [parsed?.model || null] *)
Definition extractModelFromBody (body : string) : option json :=
  let model := opt_prop (parseRequestBody body) "model" in
  if truthy model then model else None.

(** [Helpers.parseSSEUsageData] *)
Definition parseSSEUsageData (eventType eventData : list ascii) : option TokenUsage :=
  if bool_decide (eventType = Str.chars "message_start") then
    match JSON_parse (Str.of_chars eventData) with
    | None | Some JNull => None
    | Some messageStart =>
        let usage := opt_prop (get messageStart "message") "usage" in
        match usage with
        | Some u => if truthy usage then Some (usage_of u) else None
        | None => None
        end
    end
  else if bool_decide (eventType = Str.chars "message_delta") then
    match JSON_parse (Str.of_chars eventData) with
    | None | Some JNull => None
    | Some messageDelta =>
        let usage := get messageDelta "usage" in
        match usage with
        | Some u => if truthy usage then Some (usage_of u) else None
        | None => None
        end
    end
  else None.

(** The state of the loop over the lines of an SSE body. *)
Record Scan := mkScan {
  totalUsage : TokenUsage;
  currentEvent : list ascii;     (* [[]] stands for the initial [null] *)
  eventData : list ascii
}.

(** [currentEvent && eventData], then the usage of that event. *)
Definition pending (s : Scan) : option TokenUsage :=
  match currentEvent s, eventData s with
  | _ :: _, _ :: _ => parseSSEUsageData (currentEvent s) (eventData s)
  | _, _ => None
  end.

Definition scan_line (s : Scan) (line : list ascii) : Scan :=
  let trimmedLine := Str.trim line in
  if Str.startsWith (Str.chars "event: ") trimmedLine then
    let total :=
      match pending s with
      | Some usage =>
          if bool_decide (currentEvent s = Str.chars "message_start")
             || bool_decide (currentEvent s = Str.chars "message_delta")
          then usage else totalUsage s
      | None => totalUsage s
      end in
    mkScan total (drop 7 trimmedLine) []
  else if Str.startsWith (Str.chars "data: ") trimmedLine then
    mkScan (totalUsage s) (currentEvent s) (drop 6 trimmedLine)
  else s.

(** [x > 0] *)
Definition positive (v : json) : bool :=
  match toNumber v with
  | Some q => negb (Qle_bool q 0)
  | None => false
  end.

(** The branch of [extractTokenUsage] for server-sent events. *)
Definition extractFromSSE (responseBody : string) : option TokenUsage :=
  let body := Str.chars responseBody in
  if Str.includes (Str.chars "event: message_start") body
     || Str.includes (Str.chars "event: message_delta") body
  then
    let lines := Str.split_lines body in
    let s := foldl scan_line (mkScan zeroUsage [] []) lines in
    let total := match pending s with
                 | Some usage => usage
                 | None => totalUsage s
                 end in
    if positive (inputTokens total) || positive (outputTokens total)
       || positive (cacheCreationTokens total) || positive (cacheReadTokens total)
    then Some total else None
  else None.

(** [Helpers.extractTokenUsage] *)
Definition extractTokenUsage (responseBody : string) : option TokenUsage :=
  let parsed := parseRequestBody responseBody in
  let usage := opt_prop parsed "usage" in
  match usage with
  | Some u => if truthy usage then Some (usage_of u) else extractFromSSE responseBody
  | None => extractFromSSE responseBody
  end.

End with_runtime.
End Extract.

(** ** Pricing, usage files and the limit guard ([src/services/usageService.js]) *)

Module Usage.
Import JS Extract.

(** An entry of [pricing.json]: USD per 1000 tokens. A field is the number
    its value stands for in a product, [NaN] where the entry has no such
    field. *)
Record Pricing := mkPricing {
  p_input : Num.t;
  p_output : Num.t;
  p_cacheCreation : Num.t;
  p_cacheRead : Num.t
}.

(** What [limitsConfig[modelName]] finds along the prototype chain when the
    table has no key [modelName] of its own: a function, or
    [Object.prototype]. It is truthy, and none of the four prices is a
    property of it. *)
Definition inherited : Pricing := mkPricing Num.NaN Num.NaN Num.NaN Num.NaN.

(** [Helpers.findMatchingLimits] over the keys of [MODEL_PRICING] in their
    order; the entries of the table are objects. *)
Definition findMatchingLimits (limitsConfig : list (string * Pricing)) (modelName : string)
  : option Pricing :=
  if bool_decide (modelName = EmptyString) then None
  else
    match assoc modelName limitsConfig with
    | Some pricing => Some pricing
    | None =>
        if bool_decide (modelName ∈ Object_prototype) then Some inherited
        else snd <$> List.find (λ e, Glob.matchPattern (fst e) modelName) limitsConfig
    end.

(** The object returned by [calculateCost]. *)
Record Cost := mkCost {
  inputCost : Num.t;
  outputCost : Num.t;
  cacheCreationCost : Num.t;
  cacheReadCost : Num.t;
  totalCost : Num.t
}.

Section with_runtime.
Context {rt : Runtime}.

(** [(tokens || 0) / 1000 * price] *)
Definition category_cost (tokens : json) (price : Num.t) : Num.t :=
  Num.mul (Num.div (number (or0 (Some tokens))) (Num.of_Z 1000)) price.

(** [calculateCost]; [MODEL_PRICING] is the table of [config/pricing.json]. *)
Definition calculateCost (MODEL_PRICING : list (string * Pricing))
    (model : string) (usage : TokenUsage) : Cost :=
  match findMatchingLimits MODEL_PRICING model with
  | None => mkCost Num.zero Num.zero Num.zero Num.zero Num.zero
  | Some pricing =>
      let inputCost := category_cost (inputTokens usage) (p_input pricing) in
      let outputCost := category_cost (outputTokens usage) (p_output pricing) in
      let cacheCreationCost :=
        category_cost (cacheCreationTokens usage) (p_cacheCreation pricing) in
      let cacheReadCost := category_cost (cacheReadTokens usage) (p_cacheRead pricing) in
      let totalCost :=
        Num.add (Num.add (Num.add inputCost outputCost) cacheCreationCost) cacheReadCost in
      mkCost (Num.round6 inputCost) (Num.round6 outputCost)
             (Num.round6 cacheCreationCost) (Num.round6 cacheReadCost)
             (Num.round6 totalCost)
  end.

End with_runtime.

(** *** Daily files *)

(** A line of a daily file as [recordUsage] writes it. The counts are
    integers; a cost is the number found under its name, [NaN] for the
    [null] that [JSON.stringify] writes for [NaN]. *)
Record UsageRecord := mkUsageRecord {
  r_model : string;
  r_hour : Z;                        (* [new Date(timestamp).getHours()] *)
  r_totalTokens : Z;
  r_inputTokens : Z;
  r_outputTokens : Z;
  r_cacheCreationTokens : Z;
  r_cacheReadTokens : Z;
  r_totalCost : Num.t;
  r_inputCost : Num.t;
  r_outputCost : Num.t;
  r_cacheCreationCost : Num.t;
  r_cacheReadCost : Num.t;
  r_duration : Z;
  r_statusCode : Z
}.

(** The numeric fields of [getEmptyUsageAggregation()]. *)
Record Totals := mkTotals {
  totalRequests : Z;
  totalTokens : Z;
  sumInputTokens : Z;
  sumOutputTokens : Z;
  sumCacheCreationTokens : Z;
  sumCacheReadTokens : Z;
  sumTotalCost : Num.t;
  sumInputCost : Num.t;
  sumOutputCost : Num.t;
  sumCacheCreationCost : Num.t;
  sumCacheReadCost : Num.t;
  avgCost : Num.t;
  totalDuration : Z;
  avgDuration : Num.t;
  errorCount : Z;
  errorRate : Num.t
}.

(** [byModel] is an object literal and [byHour] an object whose keys are
    numbers: the maps hold their own properties. *)
Record Aggregation := mkAggregation {
  totals : Totals;
  byModel : gmap string Totals;
  byHour : gmap Z Totals
}.

Definition emptyTotals : Totals :=
  mkTotals 0 0 0 0 0 0 Num.zero Num.zero Num.zero Num.zero Num.zero Num.zero
           0 Num.zero 0 Num.zero.

(** [getEmptyUsageAggregation] *)
Definition getEmptyUsageAggregation : Aggregation :=
  mkAggregation emptyTotals ∅ ∅.

(** The object literal passed to [mergeUsageAggregation] for one record;
    it has no averages. *)
Definition single (r : UsageRecord) : Totals :=
  mkTotals 1 (r_totalTokens r) (r_inputTokens r) (r_outputTokens r)
           (r_cacheCreationTokens r) (r_cacheReadTokens r)
           (Num.or0 (r_totalCost r)) (Num.or0 (r_inputCost r)) (Num.or0 (r_outputCost r))
           (Num.or0 (r_cacheCreationCost r)) (Num.or0 (r_cacheReadCost r)) Num.zero
           (r_duration r) Num.zero
           (if bool_decide (400 ≤ r_statusCode r) then 1 else 0) Num.zero.

(** [mergeUsageAggregation] *)
Definition mergeUsageAggregation (target source : Totals) : Totals :=
  mkTotals (totalRequests target + totalRequests source)
           (totalTokens target + totalTokens source)
           (sumInputTokens target + sumInputTokens source)
           (sumOutputTokens target + sumOutputTokens source)
           (sumCacheCreationTokens target + sumCacheCreationTokens source)
           (sumCacheReadTokens target + sumCacheReadTokens source)
           (Num.add (sumTotalCost target) (Num.or0 (sumTotalCost source)))
           (Num.add (sumInputCost target) (Num.or0 (sumInputCost source)))
           (Num.add (sumOutputCost target) (Num.or0 (sumOutputCost source)))
           (Num.add (sumCacheCreationCost target) (Num.or0 (sumCacheCreationCost source)))
           (Num.add (sumCacheReadCost target) (Num.or0 (sumCacheReadCost source)))
           (avgCost target)
           (totalDuration target + totalDuration source)
           (avgDuration target)
           (errorCount target + errorCount source)
           (errorRate target).

(** The statements of the [forEach] of [aggregateUsageRecords] on the
    aggregation itself. *)
Definition count (t : Totals) (r : UsageRecord) : Totals :=
  mkTotals (totalRequests t + 1)
           (totalTokens t + r_totalTokens r)
           (sumInputTokens t + r_inputTokens r)
           (sumOutputTokens t + r_outputTokens r)
           (sumCacheCreationTokens t + r_cacheCreationTokens r)
           (sumCacheReadTokens t + r_cacheReadTokens r)
           (Num.add (sumTotalCost t) (Num.or0 (r_totalCost r)))
           (Num.add (sumInputCost t) (Num.or0 (r_inputCost r)))
           (Num.add (sumOutputCost t) (Num.or0 (r_outputCost r)))
           (Num.add (sumCacheCreationCost t) (Num.or0 (r_cacheCreationCost r)))
           (Num.add (sumCacheReadCost t) (Num.or0 (r_cacheReadCost r)))
           (avgCost t)
           (totalDuration t + r_duration r)
           (avgDuration t)
           (errorCount t + (if bool_decide (400 ≤ r_statusCode r) then 1 else 0))
           (errorRate t).

(** [byModel[record.model]] after the record was merged into it. Under a
    name of [Object.prototype] that [byModel] does not have itself, the
    test [!aggregation.byModel[record.model]] finds the inherited value, no
    entry is made, and the record is merged into that value. *)
Definition count_model (models : gmap string Totals) (r : UsageRecord)
  : gmap string Totals :=
  match models !! r_model r with
  | Some t => <[r_model r := mergeUsageAggregation t (single r)]> models
  | None =>
      if bool_decide (r_model r ∈ Object_prototype) then models
      else <[r_model r := mergeUsageAggregation emptyTotals (single r)]> models
  end.

(** The body of the [forEach] of [aggregateUsageRecords]. *)
Definition add_record (a : Aggregation) (r : UsageRecord) : Aggregation :=
  mkAggregation
    (count (totals a) r)
    (count_model (byModel a) r)
    (<[r_hour r := mergeUsageAggregation (default emptyTotals (byHour a !! r_hour r)) (single r)]>
       (byHour a)).

(** The averages computed once the records are summed. *)
Definition with_averages (t : Totals) : Totals :=
  if bool_decide (0 < totalRequests t) then
    let n := Num.of_Z (totalRequests t) in
    mkTotals (totalRequests t) (totalTokens t) (sumInputTokens t) (sumOutputTokens t)
             (sumCacheCreationTokens t) (sumCacheReadTokens t)
             (sumTotalCost t) (sumInputCost t) (sumOutputCost t)
             (sumCacheCreationCost t) (sumCacheReadCost t)
             (Num.round6 (Num.div (sumTotalCost t) n))
             (totalDuration t)
             (Num.Math_round (Num.div (Num.of_Z (totalDuration t)) n))
             (errorCount t)
             (Num.Math_round (Num.mul (Num.div (Num.of_Z (errorCount t)) n) (Num.of_Z 100)))
  else t.

(** [aggregateUsageRecords] *)
Definition aggregateUsageRecords (records : list UsageRecord) : Aggregation :=
  let a := foldl add_record getEmptyUsageAggregation records in
  mkAggregation (with_averages (totals a)) (byModel a) (byHour a).

(** What [fs.readFile] of the daily file ends with. *)
Inductive ReadResult :=
| Content (content : string)
| ENOENT
| ReadFailure.

Inductive UsageError :=
| ParseError      (* the SyntaxError of [JSON.parse] *)
| FsError.        (* a rejection of [readFile] other than ENOENT *)

(** The non-blank lines: [content.trim().split('
').filter(line => line.trim())] *)
Definition nonblank_lines (content : string) : list string :=
  Str.of_chars <$>
    filter (λ line, Str.trim line ≠ []) (Str.split_lines (Str.trim (Str.chars content))).

(** [lines.map(line => JSON.parse(line))]: the first line that does not
    parse throws. [parseLine] is [JSON.parse] on a line of a daily file. *)
Fixpoint parse_all (parseLine : string → option UsageRecord) (lines : list string)
  : outcome UsageError (list UsageRecord) :=
  match lines with
  | [] => Ok []
  | line :: rest =>
      match parseLine line with
      | None => Throw ParseError
      | Some r => rs ← parse_all parseLine rest; Ok (r :: rs)
      end
  end.

(** [getDailyUsage], given what reading the daily file gives. *)
Definition getDailyUsage (parseLine : string → option UsageRecord) (file : ReadResult)
  : outcome UsageError Aggregation :=
  match file with
  | Content content =>
      records ← parse_all parseLine (nonblank_lines content);
      Ok (aggregateUsageRecords records)
  | ENOENT => Ok getEmptyUsageAggregation
  | ReadFailure => Throw FsError
  end.

(** *** What summing the counters and costs of records means *)

Definition sumZ_of (f : UsageRecord → Z) (rs : list UsageRecord) : Z :=
  foldr (λ r a, f r + a) 0 rs.

(** The costs are added as numbers, one record after the other from zero
    on, each as [cost || 0]. *)
Definition sumN_from (f : UsageRecord → Num.t) (start : Num.t) (rs : list UsageRecord)
  : Num.t :=
  foldl (λ a r, Num.add a (Num.or0 (f r))) start rs.

Definition sumN_of (f : UsageRecord → Num.t) (rs : list UsageRecord) : Num.t :=
  sumN_from f Num.zero rs.

Definition sums_of (t : Totals) (rs : list UsageRecord) : Prop :=
  totalRequests t = Z.of_nat (length rs)
  ∧ totalTokens t = sumZ_of r_totalTokens rs
  ∧ sumInputTokens t = sumZ_of r_inputTokens rs
  ∧ sumOutputTokens t = sumZ_of r_outputTokens rs
  ∧ sumCacheCreationTokens t = sumZ_of r_cacheCreationTokens rs
  ∧ sumCacheReadTokens t = sumZ_of r_cacheReadTokens rs
  ∧ totalDuration t = sumZ_of r_duration rs
  ∧ errorCount t = sumZ_of (λ r, if bool_decide (400 ≤ r_statusCode r) then 1 else 0) rs
  ∧ sumTotalCost t = sumN_of r_totalCost rs
  ∧ sumInputCost t = sumN_of r_inputCost rs
  ∧ sumOutputCost t = sumN_of r_outputCost rs
  ∧ sumCacheCreationCost t = sumN_of r_cacheCreationCost rs
  ∧ sumCacheReadCost t = sumN_of r_cacheReadCost rs.

(** *** The limit guard *)

(** An entry of [tenants.json]; [t_maxUSD] is [limits.daily.maxUSD], a
    number, when every level of that path is present. *)
Record Tenant := mkTenant {
  t_id : string;
  t_name : string;
  t_enabled : bool;
  t_allowedModels : list string;
  t_maxUSD : option Num.t
}.

(** [configManager.getTenant] *)
Definition getTenant (tenants : list Tenant) (tenantId : string) : option Tenant :=
  List.find (λ t, bool_decide (t_id t = tenantId)) tenants.

Record LimitCheck := mkLimitCheck {
  exceeded : bool;
  message : string
}.

(** [!tenant.limits.daily.maxUSD] is false *)
Definition cap_of (t : Tenant) : option Num.t :=
  match t_maxUSD t with
  | Some cap => if Num.truthy cap then Some cap else None
  | None => None
  end.

Section guard.
Context {rt : Runtime}.

(** [checkLimitsExceeded] *)
Definition checkLimitsExceeded
    (tenants : list Tenant) (MODEL_PRICING : list (string * Pricing))
    (parseLine : string → option UsageRecord) (todayFile : ReadResult)
    (tenantId model : string) (tokensToAdd : TokenUsage)
  : outcome UsageError LimitCheck :=
  match getTenant tenants tenantId ≫= cap_of with
  | None => Ok (mkLimitCheck false ("租户 " ++ tenantId ++ " 无限制配置")%string)
  | Some maxUSD =>
      todayUsage ← getDailyUsage parseLine todayFile;
      let currentCost := Num.or0 (sumTotalCost (totals todayUsage)) in
      let additionalCost := calculateCost MODEL_PRICING model tokensToAdd in
      let newTotalCost := Num.add currentCost (totalCost additionalCost) in
      if Num.gtb newTotalCost maxUSD then
        Ok (mkLimitCheck true
              ("请求成本 $" ++ toFixed6 (totalCost additionalCost)
               ++ "，总计 $" ++ toFixed6 newTotalCost
               ++ " 将超出日限额 $" ++ Number_toString maxUSD)%string)
      else
        Ok (mkLimitCheck false
              ("当前成本 $" ++ toFixed6 currentCost
               ++ "，增加 $" ++ toFixed6 (totalCost additionalCost)
               ++ "，总计 $" ++ toFixed6 newTotalCost ++ "，未超出限额")%string)
  end.

End guard.
End Usage.

(** ** The load balancer ([src/core/loadBalancer.js]) *)

Module LB.

(** An entry of [upstreams.json]. [up_weight] is [None] when the [weight]
    field is absent. *)
Record Upstream := mkUpstream {
  up_id : string;
  up_name : string;
  up_url : string;
  up_weight : option Z;
  up_enabled : bool
}.

#[global] Instance Upstream_eq_dec : EqDecision Upstream.
Proof. solve_decision. Defined.

(** The [loadBalancer] object of [upstreams.json]. *)
Record Config := mkConfig {
  cfg_upstreams : list Upstream;
  cfg_strategy : option string;
  cfg_healthCheckEnabled : bool;
  cfg_failoverEnabled : bool
}.

(** The mutable fields of a [LoadBalancer] instance. A counter holds a
    JavaScript number: [None] is [NaN]. [weightCounters = None] is the
    [undefined]/[null] field before the first weighted selection. *)
Record State := mkState {
  upstreams : list Upstream;
  currentIndex : nat;
  healthStatus : gmap string bool;
  weightCounters : option (gmap string (option Z))
}.

(** The two [Error]s thrown by the selection code. They are plain
    [Error] objects, told apart by their message alone. *)
Inductive Error :=
| NoHealthyUpstream   (* thrown by selectUpstream *)
| NoUpstream.         (* thrown by a strategy on an empty list *)

(** [error.message] *)
Definition message (e : Error) : string :=
  match e with
  | NoHealthyUpstream => "没有可用的健康上游服务"
  | NoUpstream => "没有可用的上游服务"
  end.

(** [upstream.weight || 100]: an absent weight and the weight [0] both
    give [100]. *)
Definition weight_of (u : Upstream) : Z :=
  match up_weight u with
  | Some w => if decide (w = 0) then 100 else w
  | None => 100
  end.

(** [updateUpstreams] *)
Definition updateUpstreams (cfg : Config) (st : State) : State :=
  mkState (filter (λ u, up_enabled u = true) (cfg_upstreams cfg))
          (currentIndex st) (healthStatus st) (weightCounters st).

(** [constructor] followed by [updateUpstreams] *)
Definition initial (cfg : Config) : State :=
  updateUpstreams cfg (mkState [] 0 ∅ None).

(** [getHealthyUpstreams]: [isHealthy !== false] *)
Definition getHealthyUpstreams (st : State) : list Upstream :=
  filter (λ u, healthStatus st !! up_id u ≠ Some false) (upstreams st).

(** *** Health probing *)

(** What a probe of one upstream ends with. *)
Inductive Probe :=
| Responded (statusCode : Z)
| RequestError
| Timeout
| Exception.      (* [new URL(upstream.url)] or [request] threw *)

(** The value each branch of [checkUpstreamHealth] passes to
    [updateHealthStatus]. *)
Definition isHealthy (p : Probe) : bool :=
  match p with
  | Responded statusCode => bool_decide (200 ≤ statusCode) && bool_decide (statusCode < 400)
  | RequestError | Timeout | Exception => false
  end.

(** [updateHealthStatus] *)
Definition updateHealthStatus (upstreamId : string) (h : bool) (st : State) : State :=
  mkState (upstreams st) (currentIndex st)
          (<[upstreamId := h]> (healthStatus st)) (weightCounters st).

(** [checkUpstreamHealth] *)
Definition checkUpstreamHealth (u : Upstream) (p : Probe) (st : State) : State :=
  updateHealthStatus (up_id u) (isHealthy p) st.

(** [performHealthCheck], given the way each probe ends. *)
Definition performHealthCheck (probe : Upstream → Probe) (st : State) : State :=
  foldl (λ s u, checkUpstreamHealth u (probe u) s) st (upstreams st).

(** What [startHealthCheck] arms: the period handed to [setInterval], in
    milliseconds, and whether a round of probes is started at once. *)
Record Schedule := mkSchedule {
  interval_ms : Z;
  immediate : bool
}.

(** [startHealthCheck] *)
Definition startHealthCheck (cfg : Config) : option Schedule :=
  if cfg_healthCheckEnabled cfg then
    let interval := 300000 in
    Some (mkSchedule interval true)
  else None.

(** *** Strategies *)

(** [roundRobinSelection] *)
Definition roundRobinSelection (us : list Upstream) (st : State)
  : outcome Error (option Upstream * State) :=
  if decide (length us = 0%nat) then Throw NoUpstream
  else
    let selected := us !! (currentIndex st mod length us)%nat in
    Ok (selected,
        mkState (upstreams st) ((currentIndex st + 1) mod length us)%nat
                (healthStatus st) (weightCounters st)).

(** [upstreams.reduce((sum, u) => sum + (u.weight || 100), 0)] *)
Definition totalWeight (us : list Upstream) : Z :=
  foldl (λ sum u, sum + weight_of u) 0 us.

(** The map built on the first weighted selection. *)
Definition initCounters (us : list Upstream) : gmap string (option Z) :=
  foldl (λ m u, <[up_id u := Some 0]> m) ∅ us.

(** [this.weightCounters.get(id)] used as a number: a missing key reads
    [undefined], which arithmetic turns into [NaN]. *)
Definition counter (m : gmap string (option Z)) (i : string) : option Z :=
  mjoin (m !! i).

(** One turn of the [forEach] of [weightedRoundRobinSelection]; the
    accumulator is (counters, selected, maxCurrentWeight). *)
Definition bump (acc : gmap string (option Z) * option Upstream * Z) (u : Upstream)
  : gmap string (option Z) * option Upstream * Z :=
  let '(m, selected, maxCurrentWeight) := acc in
  let currentWeight := (λ c, c + weight_of u) <$> counter m (up_id u) in
  let m' := <[up_id u := currentWeight]> m in
  match currentWeight with
  | Some cw =>
      if decide (maxCurrentWeight < cw) then (m', Some u, cw)
      else (m', selected, maxCurrentWeight)
  | None => (m', selected, maxCurrentWeight)
  end.

(** [weightedRoundRobinSelection] *)
Definition weightedRoundRobinSelection (us : list Upstream) (st : State)
  : outcome Error (option Upstream * State) :=
  if decide (length us = 0%nat) then Throw NoUpstream
  else
    let total := totalWeight us in
    if decide (total = 0) then roundRobinSelection us st
    else
      let m0 := match weightCounters st with
                | Some m => m
                | None => initCounters us
                end in
      let '(m1, selected, _) := foldl bump (m0, None, -1) us in
      let m2 := match selected with
                | Some s => <[up_id s := (λ c, c - total) <$> counter m1 (up_id s)]> m1
                | None => m1
                end in
      Ok (match selected with Some s => Some s | None => us !! 0%nat end,
          mkState (upstreams st) (currentIndex st) (healthStatus st) (Some m2)).

(** [upstreams[index]] for a JavaScript number [index]. *)
Definition at_index (us : list Upstream) (index : Z) : option Upstream :=
  if decide (index < 0) then None else us !! Z.to_nat index.

(** [randomSelection]; [rnd] is the value of [Math.random()]. *)
Definition randomSelection (rnd : Q) (us : list Upstream) (st : State)
  : outcome Error (option Upstream * State) :=
  if decide (length us = 0%nat) then Throw NoUpstream
  else
    let index := Qfloor (rnd * inject_Z (Z.of_nat (length us))) in
    Ok (at_index us index, st).

(** The [for] loop of [weightedRandomSelection]. *)
Fixpoint weightedPick (randomNum : Q) (us : list Upstream) : option Upstream :=
  match us with
  | [] => None
  | u :: rest =>
      let randomNum' := (randomNum - inject_Z (weight_of u))%Q in
      if Qle_bool randomNum' 0 then Some u else weightedPick randomNum' rest
  end.

(** [weightedRandomSelection] *)
Definition weightedRandomSelection (rnd : Q) (us : list Upstream) (st : State)
  : outcome Error (option Upstream * State) :=
  if decide (length us = 0%nat) then Throw NoUpstream
  else
    let total := totalWeight us in
    if decide (total = 0) then randomSelection rnd us st
    else
      match weightedPick (rnd * inject_Z total)%Q us with
      | Some u => Ok (Some u, st)
      | None => Ok (last us, st)
      end.

(** The candidate list computed at the head of [selectUpstream]. *)
Definition candidates (cfg : Config) (st : State) : outcome Error (list Upstream) :=
  if cfg_healthCheckEnabled cfg then
    let healthy := getHealthyUpstreams st in
    if decide (length healthy = 0%nat) then
      if cfg_failoverEnabled cfg then Ok (upstreams st)
      else Throw NoHealthyUpstream
    else Ok healthy
  else Ok (upstreams st).

(** [config.loadBalancer.strategy || 'weighted_round_robin'] *)
Definition strategy_of (cfg : Config) : string :=
  match cfg_strategy cfg with
  | Some s => if decide (s = EmptyString) then "weighted_round_robin" else s
  | None => "weighted_round_robin"
  end.

(** [selectUpstream]; [rnd] is what [Math.random()] returns if called. *)
Definition selectUpstream (cfg : Config) (rnd : Q) (st : State)
  : outcome Error (option Upstream * State) :=
  cs ← candidates cfg st;
  let strategy := strategy_of cfg in
  if decide (strategy = "round_robin") then roundRobinSelection cs st
  else if decide (strategy = "weighted_round_robin") then weightedRoundRobinSelection cs st
  else if decide (strategy = "random") then randomSelection rnd cs st
  else if decide (strategy = "weighted_random") then weightedRandomSelection rnd cs st
  else weightedRoundRobinSelection cs st.

(** [reload], apart from the timer. *)
Definition reload (cfg : Config) (st : State) : State :=
  let st' := updateUpstreams cfg st in
  mkState (upstreams st') 0 (healthStatus st') None.

(** [n] consecutive weighted selections over the same candidate list. *)
Fixpoint wrr_run (us : list Upstream) (n : nat) (st : State)
  : outcome Error (list (option Upstream) * State) :=
  match n with
  | O => Ok ([], st)
  | S n' =>
'(s, st1) ← weightedRoundRobinSelection us st;
      '(ss, st2) ← wrr_run us n' st1;
      Ok (s :: ss, st2)
  end.

(** *** Vocabulary for the properties of the weighted rotation *)

Definition ids (us : list Upstream) : list string := up_id <$> us.

Definition sumZ (f : Upstream → Z) (us : list Upstream) : Z :=
  foldr (λ u a, f u + a) 0 us.

(** How often [u] occurs among the selections [sels]. *)
Definition occ (u : Upstream) (sels : list (option Upstream)) : nat :=
  length (filter (λ s, s = Some u) sels).

Definition with_counters (st : State) (m : gmap string (option Z)) : State :=
  mkState (upstreams st) (currentIndex st) (healthStatus st) (Some m).

(** The values of the counter map added up as JavaScript numbers. *)
Definition counterSum (m : gmap string (option Z)) : option Z :=
  map_fold (λ _ c acc, x ← c; a ← acc; Some (x + a)) (Some 0) m.

(** The counter map has a counter for the id of every candidate and for
    nothing else. *)
Definition counters_of (us : list Upstream) (m : gmap string (option Z)) : Prop :=
  ∀ i, is_Some (m !! i) ↔ i ∈ ids us.

(** The counters of all candidates are numbers. *)
Definition numbers (us : list Upstream) (m : gmap string (option Z)) : Prop :=
  ∀ u, u ∈ us → ∃ c, m !! up_id u = Some (Some c).

(** The counter map exists, holds the counters of the candidates, and
    these add up to zero. *)
Definition balanced (us : list Upstream) (st : State) : Prop :=
  ∃ m, weightCounters st = Some m ∧ counters_of us m ∧ counterSum m = Some 0.

(** The [forEach] of a weighted selection on the counters alone: the
    weight of every candidate is added to the counter of its id. *)
Definition add_weights (us : list Upstream) (m : gmap string (option Z))
  : gmap string (option Z) :=
  foldl (λ m u, <[up_id u := (λ c, c + weight_of u) <$> counter m (up_id u)]> m) m us.

(** The total weight is taken off the counter of the selected candidate. *)
Definition take_total (us : list Upstream) (s : Upstream) (m : gmap string (option Z))
  : gmap string (option Z) :=
  <[up_id s := (λ c, c - totalWeight us) <$> counter m (up_id s)]> m.

(** The counters are as a first weighted selection finds or makes them. *)
Definition zeroed (us : list Upstream) (st : State) : Prop :=
  weightCounters st = None ∨ weightCounters st = Some (initCounters us).

(** After the selections [hist], the counter of [u] is
    [|hist| * w(u) - W * occ u hist]. *)
Definition Inv (us : list Upstream) (hist : list (option Upstream))
    (m : gmap string (option Z)) : Prop :=
  ∀ u, u ∈ us →
    m !! up_id u =
      Some (Some (Z.of_nat (length hist) * weight_of u
                  - totalWeight us * Z.of_nat (occ u hist))).

Definition from_us (us : list Upstream) (hist : list (option Upstream)) : Prop :=
  ∀ x, x ∈ hist → ∃ u, u ∈ us ∧ x = Some u.

Definition within (us : list Upstream) (hist : list (option Upstream)) : Prop :=
  ∀ u, u ∈ us → Z.of_nat (occ u hist) ≤ weight_of u.

(** The configuration check of [validateUpstream]: a weight, when given,
    is not negative. *)
Definition valid_weights (us : list Upstream) : Prop :=
  ∀ u w, u ∈ us → up_weight u = Some w → 0 ≤ w.

End LB.

(** ** The format converter ([src/utils/formatConverter.js]) *)

Module Format.
Import JS.

Section with_runtime.
Context {rt : Runtime}.

(** [items.join('')] after [.map(item => item.text)] *)
Definition join_text (texts : list (option json)) : string :=
  foldr (λ t acc,
           (match t with
            | None | Some JNull => EmptyString
            | Some (JStr s) => s
            | Some j => ToString j
            end ++ acc)%string) EmptyString texts.

(** [content.filter(item => item.type === 'text')]; an item that is [null]
    makes [item.type] throw. *)
Fixpoint text_items (content : list json) : outcome JsError (list json) :=
  match content with
  | [] => Ok []
  | item :: rest =>
      ty ← prop (Some item) "type";
      items ← text_items rest;
      Ok (if is_str ty "text" then item :: items else items)
  end.

(** The body of the [try] of [convertNonStreamingResponse], after
    [JSON.parse]. *)
Definition convert_parsed (response : option json) : outcome JsError json :=
  model ← prop response "model";
  content ← prop response "content";
  choices ←
    match content with
    | Some (JArr items) =>
        texts ← text_items items;
        stop_reason ← prop response "stop_reason";
        let textContent := join_text ((λ item, get item "text") <$> texts) in
        Ok [JObj [("index", JNum 0);
                  ("message", JObj [("role", JStr "assistant");
                                    ("content", JStr textContent)]);
                  ("finish_reason",
                   JStr (if is_str stop_reason "end_turn"
                         then "stop" else "length"))]]
    | _ => Ok []
    end;
  usage ← prop response "usage";
  let base := [("id", JStr generateId);
               ("object", JStr "chat.completion");
               ("created", JNum (inject_Z now_seconds));
               ("model", if truthy model then default JNull model else JStr "gpt-4");
               ("choices", JArr choices)] in
  Ok (JObj (base ++
            match usage with
            | Some u =>
                if truthy usage then
                  [("usage",
                    JObj [("prompt_tokens", or0 (get u "input_tokens"));
                          ("completion_tokens", or0 (get u "output_tokens"));
                          ("total_tokens",
                           add (or0 (get u "input_tokens")) (or0 (get u "output_tokens")))])]
                else []
            | None => []
            end)).

(** The [Error] thrown by the [catch] of [convertNonStreamingResponse]. *)
Inductive ConvertError := ConversionFailed.

(** [convertNonStreamingResponse] on a string *)
Definition convertNonStreamingResponse (claudeResponse : string)
  : outcome ConvertError json :=
  match JSON_parse claudeResponse with
  | None => Throw ConversionFailed
  | Some response =>
      match convert_parsed (Some response) with
      | Ok openaiResponse => Ok openaiResponse
      | Throw _ => Throw ConversionFailed
      end
  end.

(** [convertErrorResponse] *)
Definition convertErrorResponse (message type : string) (requestId : string) : json :=
  JObj ([("error", JObj [("message", JStr (if bool_decide (message = EmptyString)
                                           then "未知错误" else message));
                         ("type", JStr (if bool_decide (type = EmptyString)
                                        then "invalid_request_error" else type));
                         ("code", JNull)])]
        ++ if bool_decide (requestId = EmptyString) then []
           else [("requestId", JStr requestId)]).

End with_runtime.
End Format.

(** ** The response object handed to the proxy *)

Module Http.
Import JS.

Inductive HeaderValue :=
| HStr (s : string)
| HNum (n : Z).

(** A call that reaches the original [writeHead], [write] or [end] of the
    client response. *)
Inductive ClientOp :=
| WriteHead (statusCode : Z) (headers : list (string * HeaderValue))
| Write (chunk : string)
| End (data : option string).

(** Which functions [res.writeHead], [res.write] and [res.end] hold:
    the original ones, or the interceptors installed by the non-streaming
    OpenAI handler for the request [requestId]. *)
Inductive Mode :=
| Direct
| Intercepted (requestId : string).

Record Res := mkRes {
  mode : Mode;
  ops : list ClientOp;        (* oldest first *)
  responseData : string       (* the interceptor's buffer *)
}.

(** [res.headersSent] *)
Definition headersSent (r : Res) : bool :=
  bool_decide (ops r ≠ []).

(** [res.writableEnded] *)
Definition ended (r : Res) : bool :=
  existsb (λ op, match op with End _ => true | _ => false end) (ops r).

Definition original (op : ClientOp) (r : Res) : Res :=
  mkRes (mode r) (ops r ++ [op]) (responseData r).

Definition fresh : Res := mkRes Direct [] EmptyString.

Definition json_headers : list (string * HeaderValue) :=
  [("Content-Type", HStr "application/json")].

Section with_runtime.
Context {rt : Runtime}.

(** [res.writeHead(statusCode, headers)] *)
Definition writeHead (statusCode : Z) (headers : list (string * HeaderValue)) (r : Res) : Res :=
  match mode r with
  | Direct => original (WriteHead statusCode headers) r
  | Intercepted _ => r
  end.

(** [res.write(chunk)] *)
Definition write (chunk : string) (r : Res) : Res :=
  match mode r with
  | Direct => original (Write chunk) r
  | Intercepted _ => mkRes (mode r) (ops r) (responseData r ++ chunk)%string
  end.

(** [res.end(data)]; under interception this is the function installed by
    [handleNonStreamingRequest]. *)
Definition end_ (data : option string) (r : Res) : Res :=
  match mode r with
  | Direct => original (End data) r
  | Intercepted requestId =>
      let responseData := (responseData r ++ default EmptyString data)%string in
      let restored := mkRes Direct (ops r) responseData in
      match Format.convertNonStreamingResponse responseData with
      | Ok openaiResponse =>
          let responseBody := JSON_stringify openaiResponse in
          original (End (Some responseBody))
            (original (WriteHead 200
                         [("Content-Type", HStr "application/json");
                          ("Content-Length", HNum (Buffer_byteLength responseBody))])
               restored)
      | Throw _ =>
          let errorBody :=
            JSON_stringify (Format.convertErrorResponse "响应格式转换失败" "internal_error"
                              requestId) in
          original (End (Some errorBody))
            (original (WriteHead 500
                         [("Content-Type", HStr "application/json");
                          ("Content-Length", HNum (Buffer_byteLength errorBody))])
               restored)
      end
  end.

End with_runtime.
End Http.

(** ** The proxy core ([ProxyCore] in [src/core/proxy.js]) *)

Module Proxy.
Import JS Http Extract Usage.

(** What [authMiddleware.authenticate] resolves to. *)
Inductive AuthResult :=
| AuthFailed (error message : string) (statusCode : Z)
| SkipAuth
| Authenticated (tenant : Tenant) (model : option string).

(** The calls [handleRequest] makes on its collaborators, in order. *)
Inductive Call :=
| CheckLimits (tenantId model : string) (usage : TokenUsage)
| SelectUpstream.

(** Where [handleRequest] leaves the request. *)
Inductive Next :=
| Finished                                  (* a response was sent *)
| SpecialRoute                              (* [handleSpecialRoutes] takes over *)
| Forward (upstream : option LB.Upstream).  (* [proxyRequest] takes over *)

Record Handled := mkHandled {
  calls : list Call;
  res : Res;
  balancer : LB.State;
  next : Next
}.

(** What the stream of a request emits to its listeners: the chunks of
    the body, then its end or an error, and nothing after that. *)
Inductive RequestEvent :=
| Chunk (data : string)
| EndOfBody
| StreamError (message : string).

(** Where [handleRequest] has come to: its promise has settled, or it
    waits for a body that never arrives, with the response as it was. *)
Inductive Progress :=
| Settled (h : Handled)
| Pending (r : Res).

(** The configuration and files a request is served from. *)
Record Env := mkEnv {
  tenants : list Tenant;
  MODEL_PRICING : list (string * Pricing);
  parseLine : string → option UsageRecord;
  todayFile : ReadResult;
  lbConfig : LB.Config;
  random : Q                        (* the next value of [Math.random()] *)
}.

Section with_runtime.
Context {rt : Runtime}.

(** The body built by [generateErrorResponse] and completed by
    [sendErrorResponse]. *)
Definition error_body (error message requestId : string) : json :=
  JObj ([("error", JObj [("type", JStr error);
                         ("message", JStr message);
                         ("timestamp", JStr now_iso)])]
        ++ if bool_decide (requestId = EmptyString) then []
           else [("requestId", JStr requestId)]).

(** The headers built by [generateErrorResponse]. *)
Definition error_headers (statusCode : Z) : list (string * HeaderValue) :=
  json_headers
  ++ if bool_decide (statusCode = 401)
     then [("WWW-Authenticate",
            HStr ("Bearer realm=" ++ dquote ++ "CCGate API" ++ dquote
                  ++ ", charset=" ++ dquote ++ "UTF-8" ++ dquote)%string)]
     else [].

(** [sendErrorResponse] *)
Definition sendErrorResponse (r : Res) (error message : string) (statusCode : Z)
    (requestId : string) : Res :=
  end_ (Some (JSON_stringify (error_body error message requestId)))
       (writeHead statusCode (error_headers statusCode) r).

(** The [catch] of [handleRequest]. *)
Definition internal_error (r : Res) (requestId : string) : Res :=
  sendErrorResponse r "internal_error" "内部服务器错误" 500 requestId.

(** [handleRequest] from the result of authentication on; [st] is the
    balancer's state. *)
Definition handleRequest (env : Env) (requestId : string) (authResult : AuthResult)
    (requestBody : string) (r : Res) (st : LB.State) : Handled :=
  let select (cs : list Call) :=
    match LB.selectUpstream (lbConfig env) (random env) st with
    | Ok (upstream, st') => mkHandled (cs ++ [SelectUpstream]) r st' (Forward upstream)
    | Throw _ => mkHandled (cs ++ [SelectUpstream]) (internal_error r requestId) st Finished
    end in
  match authResult with
  | AuthFailed error message statusCode =>
      mkHandled [] (sendErrorResponse r error message statusCode requestId) st Finished
  | SkipAuth => mkHandled [] r st SpecialRoute
  | Authenticated tenant model =>
      match model with
      | Some m =>
          if bool_decide (m = EmptyString) then select []
          else
            match extractTokenUsage requestBody with
            | Some usage =>
                let cs := [CheckLimits (t_id tenant) m usage] in
                match checkLimitsExceeded (tenants env) (MODEL_PRICING env)
                        (parseLine env) (todayFile env) (t_id tenant) m usage with
                | Ok limitCheck =>
                    if exceeded limitCheck then
                      mkHandled cs
                        (sendErrorResponse r "limit_exceeded" (message limitCheck) 429 requestId)
                        st Finished
                    else select cs
                | Throw _ => mkHandled cs (internal_error r requestId) st Finished
                end
            | None => select []
            end
      | None => select []
      end
  end.

(** The promise of [collectRequestBody] over what the request has left to
    emit when the listeners are attached: it resolves with the body at
    [end] and with [''] at [error]; on a request that has neither of them
    left, as one that was read to its end before, it never settles
    ([None]). *)
Fixpoint collectRequestBody (body : string) (events : list RequestEvent) : option string :=
  match events with
  | [] => None
  | Chunk data :: rest => collectRequestBody (body ++ data) rest
  | EndOfBody :: _ => Some body
  | StreamError _ :: _ => Some EmptyString
  end.

(** [handleRequest] from its first line on; [authenticate] is
    [authMiddleware.authenticate] on this request. While the body has not
    arrived nothing is called and nothing is written. *)
Definition handleRequest_stream (env : Env) (authenticate : string → AuthResult)
    (requestId : string) (events : list RequestEvent) (r : Res) (st : LB.State)
  : Progress :=
  match collectRequestBody EmptyString events with
  | Some requestBody =>
      Settled (handleRequest env requestId (authenticate requestBody) requestBody r st)
  | None => Pending r
  end.

(** The request was refused by the limit guard: the guard [guard] was the
    only call, and the client got 429 with the error type
    [limit_exceeded]. *)
Definition limit_rejected (h : Handled) (guard : Call) (requestId : string) : Prop :=
  calls h = [guard]
  ∧ next h = Finished
  ∧ ∃ message,
      ops (res h)
      = [WriteHead 429 [("Content-Type", HStr "application/json")];
         End (Some (JSON_stringify (error_body "limit_exceeded" message requestId)))].

(** *** [proxyRequest]: the listeners on the upstream request *)

(** What the upstream request emits. *)
Inductive UpstreamEvent :=
| Response (statusCode : Z) (headers : list (string * HeaderValue))
| Data (chunk : string)
| EndOfResponse
| RequestError (message : string).

Record Session := mkSession {
  client : Res;
  upstreamStatus : option Z;        (* set once the response callback ran *)
  responseBody : string;
  recordedUsage : list (Z * string);  (* [recordUsage] calls: status and body *)
  resolved : bool
}.

Definition start (r : Res) : Session := mkSession r None EmptyString [] false.

(** [Helpers.createErrorResponse] *)
Definition createErrorResponse (error message requestId : string) : json :=
  JObj [("error", JObj [("type", JStr error);
                        ("message", JStr message);
                        ("requestId", JStr requestId);
                        ("timestamp", JStr now_iso)])].

(** One event; [hasTenant] is [if (tenant)]. The [data] and [end]
    listeners exist only once the response callback has run. *)
Definition on_event (requestId : string) (hasTenant : bool) (s : Session)
    (ev : UpstreamEvent) : Session :=
  match ev with
  | Response statusCode headers =>
      mkSession (writeHead statusCode headers (client s)) (Some statusCode)
                (responseBody s) (recordedUsage s) (resolved s)
  | Data chunk =>
      match upstreamStatus s with
      | Some _ =>
          mkSession (write chunk (client s)) (upstreamStatus s)
                    (responseBody s ++ chunk)%string (recordedUsage s) (resolved s)
      | None => s
      end
  | EndOfResponse =>
      match upstreamStatus s with
      | Some statusCode =>
          mkSession (end_ None (client s)) (upstreamStatus s) (responseBody s)
                    (if hasTenant then recordedUsage s ++ [(statusCode, responseBody s)]
                     else recordedUsage s)
                    true
      | None => s
      end
  | RequestError message =>
      let r := client s in
      let r' :=
        if negb (headersSent r) then
          let errorResponse :=
            createErrorResponse "upstream_error" ("上游服务器错误: " ++ message)%string
                                requestId in
          end_ (Some (JSON_stringify errorResponse)) (writeHead 502 json_headers r)
        else r in
      mkSession r' (upstreamStatus s) (responseBody s) (recordedUsage s) true
  end.

(** [proxyRequest] over what the upstream request emits. *)
Definition proxyRequest (requestId : string) (hasTenant : bool) (r : Res)
    (events : list UpstreamEvent) : Session :=
  foldl (on_event requestId hasTenant) (start r) events.

End with_runtime.

(** The orders in which Node emits the events of one upstream request:
    an error alone, or one response, its data, and then its end or an
    error. *)
Fixpoint body_events (events : list UpstreamEvent) : bool :=
  match events with
  | [] => true
  | Data _ :: rest => body_events rest
  | [EndOfResponse] => true
  | [RequestError _] => true
  | _ => false
  end.

Definition well_formed (events : list UpstreamEvent) : bool :=
  match events with
  | [] => true
  | [RequestError _] => true
  | Response _ _ :: rest => body_events rest
  | _ => false
  end.

(** The number of times the status line and headers were written. *)
Definition is_writeHead (op : ClientOp) : bool :=
  match op with
  | WriteHead _ _ => true
  | _ => false
  end.

Definition head_writes (r : Res) : nat :=
  length (List.filter is_writeHead (ops r)).

End Proxy.

(** ** Objects ([obj.key = value], [Object.keys] and the spread of an object) *)

Module Obj.
Import JS.

(** [obj.key = value] on the fields of an object: a field that exists keeps
    its place. *)
Fixpoint set_field (key : string) (value : json) (fields : list (string * json))
  : list (string * json) :=
  match fields with
  | [] => [(key, value)]
  | (k, v) :: rest =>
      if bool_decide (k = key) then (k, value) :: rest
      else (k, v) :: set_field key value rest
  end.

(** The keys that are array indices: the decimal numerals below
    [2^32 - 1], which [Object.keys] lists first and in ascending order. *)
Definition digit (c : ascii) : option N :=
  let n := N_of_ascii c in
  if (48 <=? n)%N && (n <=? 57)%N then Some (n - 48)%N else None.

Fixpoint digits (cs : list ascii) (acc : N) : option N :=
  match cs with
  | [] => Some acc
  | c :: cs' => d ← digit c; digits cs' (acc * 10 + d)%N
  end.

Definition array_index (key : string) : option N :=
  match Str.chars key with
  | [] => None
  | c :: cs =>
      if bool_decide (c = "0"%char) && negb (bool_decide (cs = [])) then None
      else n ← digits (c :: cs) 0%N;
           if (n <? 4294967295)%N then Some n else None
  end.

(** The keys that are array indices, in ascending order. *)
Fixpoint insert_index (e : N * string) (sorted : list (N * string)) : list (N * string) :=
  match sorted with
  | [] => [e]
  | x :: rest => if (e.1 <? x.1)%N then e :: x :: rest else x :: insert_index e rest
  end.

(** [Object.keys(obj)] for the fields of an object, which are in the order
    of their creation: the array indices first, then the other keys. *)
Definition own_keys (fields : list (string * json)) : list string :=
  let keys := fst <$> fields in
  let indexed := omap (λ k, (λ n, (n, k)) <$> array_index k) keys in
  (snd <$> foldr insert_index [] indexed)
  ++ List.filter (λ k, bool_decide (array_index k = None)) keys.

(** [Object.keys(v)] with [v[key]] for each key. A string has one entry for
    each of its characters, and each of them is a string. *)
Definition entries (v : json) : list (string * json) :=
  match v with
  | JObj fields => (λ k, (k, default JNull (assoc k fields))) <$> own_keys fields
  | JArr items => imap (λ i item, (pretty i, item)) items
  | JStr s => imap (λ i c, (pretty i, JStr (String c EmptyString))) (Str.chars s)
  | _ => []
  end.

(** [{...a, ...b}]: the fields of the new object, in the order of their
    creation. *)
Definition spread (a b : json) : list (string * json) :=
  foldl (λ fields kv, set_field kv.1 kv.2 fields) (entries a) (entries b).

End Obj.

(** ** Requests in the OpenAI format ([FormatConverter.convertOpenAIToClaude]) *)

Module Messages.
Import JS.

(** [msg.role = 'user'] *)
Definition set_role (msg : json) : json :=
  match msg with
  | JObj fields => JObj (Obj.set_field "role" (JStr "user") fields)
  | _ => msg
  end.

(** [msg.role === 'developer' || msg.role === 'system'] *)
Definition is_system (msg : json) : bool :=
  is_str (get msg "role") "developer" || is_str (get msg "role") "system".

(** The texts that make the filter drop a system message. *)
Definition markers : list string :=
  ["Current model:"; "gpt-5"; "GPT"; "You are a helpful assistant"].

(** [content.includes(marker)]: a string is searched, an array is asked for
    an element that is this very string, and any other value has no
    [includes]. *)
Definition content_includes (content : json) (marker : string) : outcome JsError bool :=
  match content with
  | JStr s => Ok (Str.includes (Str.chars marker) (Str.chars s))
  | JArr items => Ok (existsb (λ item, is_str (Some item) marker) items)
  | _ => Throw TypeError
  end.

(** The chain of [||] over the markers. *)
Fixpoint includes_any (content : json) (ms : list string) : outcome JsError bool :=
  match ms with
  | [] => Ok false
  | marker :: rest =>
      b ← content_includes content marker;
      if (b : bool) then Ok true else includes_any content rest
  end.

(** [msg.content || ''] *)
Definition shown (msg : json) : json :=
  if truthy (get msg "content") then default JNull (get msg "content")
  else JStr EmptyString.

(** The callback of [filter]: [None] when the message is dropped, and
    otherwise the message as the callback leaves it. *)
Definition keep (msg : json) : outcome JsError (option json) :=
  role ← prop (Some msg) "role";
  if is_str role "developer" || is_str role "system" then
    let content := shown msg in
    b ← includes_any content markers;
    Ok (if (b : bool) then None else Some (set_role msg))
  else Ok (Some msg).

(** The callback of [map]: [{...msg, role: 'user'}] for a message that
    still has one of the two roles. *)
Definition to_user (msg : json) : outcome JsError json :=
  role ← prop (Some msg) "role";
  Ok (if is_str role "developer" || is_str role "system"
      then JObj (Obj.set_field "role" (JStr "user") (Obj.entries msg))
      else msg).

Fixpoint filter_messages (msgs : list json) : outcome JsError (list json) :=
  match msgs with
  | [] => Ok []
  | msg :: rest =>
      kept ← keep msg;
      others ← filter_messages rest;
      Ok (match kept with Some m => m :: others | None => others end)
  end.

Fixpoint map_messages (msgs : list json) : outcome JsError (list json) :=
  match msgs with
  | [] => Ok []
  | msg :: rest =>
      m ← to_user msg;
      others ← map_messages rest;
      Ok (m :: others)
  end.

(** The [messages] of [convertOpenAIToClaude]:
    [(openaiRequest.messages || []).filter(...).map(...)] *)
Definition convertMessages (openaiRequest : json) : outcome JsError (list json) :=
  messages ← prop (Some openaiRequest) "messages";
  match messages with
  | Some (JArr msgs) => filtered ← filter_messages msgs; map_messages filtered
  | _ => if truthy messages then Throw TypeError else Ok []
  end.

(** Whether the filter drops a system message: one of the markers is found
    in its content. *)
Definition drops (msg : json) : bool :=
  match includes_any (shown msg) markers with
  | Ok b => b
  | Throw _ => false
  end.

(** What becomes of one message of a request that converts. *)
Definition converted (msg : json) : option json :=
  if is_system msg then (if drops msg then None else Some (set_role msg))
  else Some msg.

(** The text blocks of a response's [content]. *)
Definition text_blocks (content : list json) : list json :=
  List.filter (λ item, is_str (get item "type") "text") content.

End Messages.

(** ** The OpenAI front end ([OpenAICompatLayer] in [src/core/proxy.js]) *)

Module OpenAI.
Import JS Http.

(** The interceptors installed by [handleNonStreamingRequest]. *)
Definition intercept (requestId : string) (r : Res) : Res :=
  mkRes (Intercepted requestId) (ops r) EmptyString.

(** What [handleOpenAICompatRequest] comes to. *)
Inductive Served :=
| Replied (r : Res)                (* the front end answered itself *)
| Streaming                        (* [handleStreamingRequest] takes over *)
| Core (p : Proxy.Progress)        (* [proxyCore.handleRequest] was called *)
| Waiting.                         (* the body of the request never ends *)

(** [OpenAICompatLayer.collectRequestBody]: as that of the core, but an
    [error] rejects. With the body comes what the request has left to emit
    to the listeners attached later. *)
Fixpoint collectRequestBody (body : string) (events : list Proxy.RequestEvent)
  : option (outcome string (string * list Proxy.RequestEvent)) :=
  match events with
  | [] => None
  | Proxy.Chunk data :: rest => collectRequestBody (body ++ data) rest
  | Proxy.EndOfBody :: rest => Some (Ok (body, rest))
  | Proxy.StreamError message :: _ => Some (Throw message)
  end.

(** [convertOpenAIToClaude(...).stream], or what the conversion throws:
    [stream] is [openaiRequest.stream || false]. *)
Definition wants_stream (openaiRequest : json) : outcome JsError bool :=
  _ ← prop (Some openaiRequest) "model";
  _ ← Messages.convertMessages openaiRequest;
  Ok (truthy (get openaiRequest "stream")).

Section with_runtime.
Context {rt : Runtime}.

(** [OpenAICompatLayer.sendErrorResponse]; [convertErrorResponse] reads
    [error.type], which the errors of this class do not have. *)
Definition sendErrorResponse (r : Res) (message : string) (statusCode : Z)
    (requestId : string) : Res :=
  let errorBody := JSON_stringify (Format.convertErrorResponse message EmptyString requestId) in
  end_ (Some errorBody)
       (writeHead statusCode
          [("Content-Type", HStr "application/json");
           ("Content-Length", HNum (Buffer_byteLength errorBody))] r).

(** [handleNonStreamingRequest]: the interceptors are installed and the
    request is handed to [proxyCore.handleRequest], which names it
    [coreRequestId] and collects its body anew from what the request has
    left to emit ([rest]). *)
Definition handleNonStreamingRequest (env : Proxy.Env)
    (authenticate : string → Proxy.AuthResult) (requestId coreRequestId : string)
    (rest : list Proxy.RequestEvent) (r : Res) (st : LB.State) : Proxy.Progress :=
  Proxy.handleRequest_stream env authenticate coreRequestId rest (intercept requestId r) st.

(** [handleOpenAICompatRequest]; [enabled] is [this.config.enabled]. *)
Definition handleOpenAICompatRequest (enabled : bool) (env : Proxy.Env)
    (authenticate : string → Proxy.AuthResult) (requestId coreRequestId : string)
    (events : list Proxy.RequestEvent) (r : Res) (st : LB.State) : Served :=
  if negb enabled then Replied (sendErrorResponse r "OpenAI 兼容层未启用" 503 requestId)
  else
    match collectRequestBody EmptyString events with
    | None => Waiting
    | Some (Throw _) => Replied (sendErrorResponse r "内部服务器错误" 500 requestId)
    | Some (Ok (openaiBody, rest)) =>
        match JSON_parse openaiBody with
        | None => Replied (sendErrorResponse r "请求体JSON格式错误" 400 requestId)
        | Some openaiRequest =>
            match wants_stream openaiRequest with
            | Throw _ => Replied (sendErrorResponse r "内部服务器错误" 500 requestId)
            | Ok true => Streaming
            | Ok false =>
                Core (handleNonStreamingRequest env authenticate requestId coreRequestId
                        rest r st)
            end
        end
    end.

End with_runtime.
End OpenAI.

(** ** Sample data *)

Module Demo.
Import JS.

(** *** Upstreams *)

(** Two upstreams with the weights 3 and 1. *)
Definition upA : LB.Upstream := LB.mkUpstream "a" "A" "https://a.example" (Some 3) true.
Definition upB : LB.Upstream := LB.mkUpstream "b" "B" "https://b.example" (Some 1) true.

(** An upstream configured with the weight 0, and one that shares the id
    of [upA]. *)
Definition upZero : LB.Upstream := LB.mkUpstream "z" "Z" "https://z.example" (Some 0) true.
Definition upTwin : LB.Upstream := LB.mkUpstream "a" "A2" "https://a2.example" (Some 1) true.

(** An upstream that is switched off. *)
Definition upC : LB.Upstream := LB.mkUpstream "c" "C" "https://c.example" (Some 5) false.

Definition lbConfig : LB.Config :=
  LB.mkConfig [upA; upC; upB] (Some "weighted_round_robin") true false.

Definition lbState : LB.State := LB.initial lbConfig.

(** Both enabled upstreams were probed and found unhealthy. *)
Definition lbDown : LB.State :=
  LB.performHealthCheck (λ _, LB.Timeout) lbState.

(** *** Documents *)

Definition quoted (s : string) : string := (dquote ++ s ++ dquote)%string.

(** A Messages request as clients send it. *)
Definition plainRequest : json :=
  JObj [("model", JStr "claude-3-5-haiku-20241022");
        ("max_tokens", JNum 16);
        ("messages", JArr [JObj [("role", JStr "user"); ("content", JStr "hi")]])].

Definition plainRequestText : string :=
  ("{" ++ quoted "model" ++ ":" ++ quoted "claude-3-5-haiku-20241022" ++ ","
   ++ quoted "max_tokens" ++ ":16," ++ quoted "messages" ++ ":[{"
   ++ quoted "role" ++ ":" ++ quoted "user" ++ "," ++ quoted "content" ++ ":"
   ++ quoted "hi" ++ "}]}")%string.

(** A request whose body carries a [usage] object. *)
Definition usageRequest : json :=
  JObj [("model", JStr "claude-3-5-haiku-20241022");
        ("usage", JObj [("input_tokens", JNum 0)])].

Definition usageRequestText : string :=
  ("{" ++ quoted "model" ++ ":" ++ quoted "claude-3-5-haiku-20241022" ++ ","
   ++ quoted "usage" ++ ":{" ++ quoted "input_tokens" ++ ":0}}")%string.

(** The body of an upstream 401. *)
Definition upstreamError : json :=
  JObj [("type", JStr "error");
        ("error", JObj [("type", JStr "authentication_error");
                        ("message", JStr "invalid x-api-key")])].

Definition upstreamErrorText : string :=
  ("{" ++ quoted "type" ++ ":" ++ quoted "error" ++ "," ++ quoted "error" ++ ":{"
   ++ quoted "type" ++ ":" ++ quoted "authentication_error" ++ ","
   ++ quoted "message" ++ ":" ++ quoted "invalid x-api-key" ++ "}}")%string.

(** A chat completion request in the OpenAI format, not streamed. *)
Definition chatRequest : json :=
  JObj [("model", JStr "gpt-4");
        ("messages", JArr [JObj [("role", JStr "user"); ("content", JStr "hi")]])].

Definition chatRequestText : string :=
  ("{" ++ quoted "model" ++ ":" ++ quoted "gpt-4" ++ "," ++ quoted "messages" ++ ":[{"
   ++ quoted "role" ++ ":" ++ quoted "user" ++ "," ++ quoted "content" ++ ":"
   ++ quoted "hi" ++ "}]}")%string.

Definition documents : list (string * json) :=
  [(plainRequestText, plainRequest);
   (usageRequestText, usageRequest);
   (upstreamErrorText, upstreamError);
   (chatRequestText, chatRequest)].

(** A compact serializer for the sample runtime. *)
Fixpoint render (j : json) : string :=
  match j with
  | JNull => "null"
  | JBool true => "true"
  | JBool false => "false"
  | JNum q =>
      if bool_decide (Qden q = 1%positive) then pretty (Qnum q)
      else (pretty (Qnum q) ++ "/" ++ pretty (Qden q))%string
  | JStr s => quoted s
  | JArr items => ("[" ++ String.concat "," (map render items) ++ "]")%string
  | JObj fields =>
      ("{" ++ String.concat ","
                (map (λ kv, let '(k, v) := kv in (quoted k ++ ":" ++ render v)%string) fields)
       ++ "}")%string
  end.

(** [JSON.parse] on the sample documents, and stand-ins for the other
    runtime functions. *)
#[local] Instance runtime : Runtime := {|
  JSON_parse := λ text, assoc text documents;
  JSON_stringify := render;
  ToNumber := λ _, None;
  ToString := render;
  plus := λ a b, JStr (render a ++ render b);
  toFixed6 := λ x, match x with
                   | Num.Fin q => pretty (Qfloor (q * 1000000 + (1 # 2)))
                   | Num.Inf _ => "Infinity"
                   | Num.NaN => "NaN"
                   end;
  Number_toString := λ x, match x with
                          | Num.Fin q => render (JNum q)
                          | Num.Inf _ => "Infinity"
                          | Num.NaN => "NaN"
                          end;
  Buffer_byteLength := λ s, Z.of_nat (String.length s);
  now_iso := "2025-06-01T12:00:00.000Z";
  now_seconds := 1748779200;
  generateId := "chatcmpl-sample"
|}.

(** *** Pricing, tenants and daily files *)

(** The number written as [n / d] in a document. *)
Definition literal (n : Z) (d : positive) : Num.t := Num.round (n # d).

(** USD per 1000 tokens: 0.00025, 0.00125, 0.0003 and 0.00003. *)
Definition pricing : list (string * Usage.Pricing) :=
  [("claude-3-5-haiku*",
    Usage.mkPricing (literal 25 100000) (literal 125 100000)
                    (literal 3 10000) (literal 3 100000))].

(** One token of each kind. *)
Definition oneEach : Extract.TokenUsage :=
  Extract.mkTokenUsage (JNum 1) (JNum 1) (JNum 1) (JNum 1).

Definition tenant : Usage.Tenant :=
  Usage.mkTenant "team-a" "Team A" true ["*haiku*"] (Some (Num.of_Z 10)).

(** A record of 100 input and 50 output tokens whose cost, all of it for
    the input, is the number written [cost]. *)
Definition record (cost : Q) : Usage.UsageRecord :=
  Usage.mkUsageRecord "claude-3-5-haiku-20241022" 12 150 100 50 0 0
                      (Num.round cost) (Num.round cost) Num.zero Num.zero Num.zero 800 200.

(** The line of a daily file for such a record, the cost as it is
    written; the server keeps time in UTC. *)
Definition line (requestId cost : string) : string :=
  ("{" ++ quoted "requestId" ++ ":" ++ quoted requestId
   ++ "," ++ quoted "tenantId" ++ ":" ++ quoted "team-a"
   ++ "," ++ quoted "timestamp" ++ ":" ++ quoted "2025-06-01T12:00:00.000Z"
   ++ "," ++ quoted "model" ++ ":" ++ quoted "claude-3-5-haiku-20241022"
   ++ "," ++ quoted "inputTokens" ++ ":100"
   ++ "," ++ quoted "outputTokens" ++ ":50"
   ++ "," ++ quoted "cacheCreationTokens" ++ ":0"
   ++ "," ++ quoted "cacheReadTokens" ++ ":0"
   ++ "," ++ quoted "totalTokens" ++ ":150"
   ++ "," ++ quoted "inputCost" ++ ":" ++ cost
   ++ "," ++ quoted "outputCost" ++ ":0"
   ++ "," ++ quoted "cacheCreationCost" ++ ":0"
   ++ "," ++ quoted "cacheReadCost" ++ ":0"
   ++ "," ++ quoted "totalCost" ++ ":" ++ cost
   ++ "," ++ quoted "duration" ++ ":800"
   ++ "," ++ quoted "statusCode" ++ ":200}")%string.

(** Lines of daily files; the last one was cut off while written. *)
Definition line50 : string := line "5f1c" "50".
Definition line10 : string := line "77ab" "10".
Definition line01 : string := line "a3e0" "0.1".
Definition line02 : string := line "c41d" "0.2".
Definition brokenLine : string :=
  ("{" ++ quoted "requestId" ++ ":" ++ quoted "9d02" ++ "," ++ quoted "tenantId"
   ++ ":" ++ quoted "team-a" ++ "," ++ quoted "timest")%string.

(** [JSON.parse] on these lines. *)
Definition parseLine (line : string) : option Usage.UsageRecord :=
  if bool_decide (line = line50) then Some (record 50)
  else if bool_decide (line = line10) then Some (record 10)
  else if bool_decide (line = line01) then Some (record (1 # 10))
  else if bool_decide (line = line02) then Some (record (2 # 10))
  else None.

Definition newline : string := String "010"%char EmptyString.

Definition env (todayFile : Usage.ReadResult) : Proxy.Env :=
  Proxy.mkEnv [tenant] pricing parseLine todayFile
              (LB.mkConfig [upA; upB] (Some "weighted_round_robin") false false) 0.

Definition balancer : LB.State := LB.mkState [upA; upB] 0 ∅ None.

End Demo.

(** ** The load balancer over several calls, and its statistics *)

Module Balancer.
Import LB.

(** [n] consecutive calls of [roundRobinSelection] over the same
    candidates. *)
Fixpoint rr_run (us : list Upstream) (n : nat) (st : State)
  : outcome Error (list (option Upstream) * State) :=
  match n with
  | O => Ok ([], st)
  | S n' =>
      '(s, st1) ← roundRobinSelection us st;
      '(ss, st2) ← rr_run us n' st1;
      Ok (s :: ss, st2)
  end.

(** An element of [getUpstreamStats().upstreams]. *)
Record UpstreamStat := mkUpstreamStat {
  s_id : string;
  s_name : string;
  s_url : string;
  s_weight : Z;
  s_enabled : bool;
  s_healthy : bool
}.

Record Stats := mkStats {
  total : Z;
  healthy : Z;
  unhealthy : Z;
  healthStatusEntries : gmap string bool;
  entries : list UpstreamStat
}.

(** [getUpstreamStats] *)
Definition getUpstreamStats (st : State) : Stats :=
  mkStats (Z.of_nat (length (upstreams st)))
          (Z.of_nat (length (getHealthyUpstreams st)))
          (Z.of_nat (length (upstreams st)) - Z.of_nat (length (getHealthyUpstreams st)))
          (healthStatus st)
          ((λ u, mkUpstreamStat (up_id u) (up_name u) (up_url u) (weight_of u) (up_enabled u)
                   (bool_decide (healthStatus st !! up_id u ≠ Some false)))
             <$> upstreams st).

(** The weights of the first [i] candidates added up. *)
Definition weightBefore (us : list Upstream) (i : nat) : Z :=
  sumZ weight_of (take i us).

End Balancer.

(** ** More of [src/utils/helpers.js] *)

Module Helpers.

Section retry.
Context {E A : Type}.

(** The [for] loop of [Helpers.retry] from the attempt [attempt] on, with
    [remaining] turns left. [fn k] is what the [k]-th call of [fn] ends
    with. The result comes with the delays waited for, in order. *)
Fixpoint retry_loop (fn : nat → outcome E A) (maxAttempts delayMs : Z)
    (remaining attempt : nat) (lastError : option E)
  : outcome (option E) A * list Z :=
  match remaining with
  | O => (Throw lastError, [])
  | S remaining' =>
      match fn attempt with
      | Ok a => (Ok a, [])
      | Throw error =>
          let '(r, delays) :=
            retry_loop fn maxAttempts delayMs remaining' (S attempt) (Some error) in
          if decide (Z.of_nat attempt < maxAttempts)
          then (r, delayMs * Z.of_nat attempt :: delays)
          else (r, delays)
      end
  end.

(** [Helpers.retry] for an integer [maxAttempts]; the error [None] is the
    [undefined] thrown when no attempt was made. *)
Definition retry (fn : nat → outcome E A) (maxAttempts delayMs : Z)
  : outcome (option E) A * list Z :=
  retry_loop fn maxAttempts delayMs (Z.to_nat maxAttempts) 1 None.

End retry.

End Helpers.

(** Server-sent events as the upstream writes them. *)
Module Sse.
Import JS Extract.

Definition newline : ascii := "010"%char.

(** An event: its [event:] line, its [data:] line and a blank line. *)
Definition event_lines (ev : list ascii * list ascii) : list (list ascii) :=
  [Str.chars "event: " ++ ev.1; Str.chars "data: " ++ ev.2; []].

Definition unlines (lines : list (list ascii)) : list ascii :=
  lines ≫= (λ line, line ++ [newline]).

Definition body (events : list (list ascii * list ascii)) : string :=
  Str.of_chars (unlines (events ≫= event_lines)).

(** A name or a payload that sits on one line and does not end in white
    space. *)
Definition tidy (s : list ascii) : Prop :=
  (newline ∉ s) ∧ ∃ s' c, s = s' ++ [c] ∧ Str.is_space c = false.

Section with_runtime.
Context {rt : Runtime}.

(** The usage carried by the last event that carries one. *)
Definition last_usage (events : list (list ascii * list ascii)) : option TokenUsage :=
  last (omap (λ ev, parseSSEUsageData ev.1 ev.2) events).

Definition any_positive (t : TokenUsage) : bool :=
  positive (inputTokens t) || positive (outputTokens t)
  || positive (cacheCreationTokens t) || positive (cacheReadTokens t).

End with_runtime.
End Sse.

(** ** Reports and the usage files ([src/services/usageService.js]) *)

Module Reports.
Import JS Extract Usage.

(** [s.split(sep)[0]] *)
Fixpoint before (sep : ascii) (s : list ascii) : list ascii :=
  match s with
  | [] => []
  | c :: s' => if bool_decide (c = sep) then [] else c :: before sep s'
  end.

(** [formatDate] of a date whose [toISOString()] is [iso]: [iso.split('T')[0]] *)
Definition formatDate (iso : string) : string :=
  Str.of_chars (before "T"%char (Str.chars iso)).

(** The [usd] entry of [getCurrentLimitStatus().limits]. *)
Record UsdStatus := mkUsdStatus {
  used : Num.t;
  limit : Num.t;
  percentage : Num.t;
  usdExceeded : bool
}.

Record LimitStatus := mkLimitStatus {
  ls_tenantId : string;
  ls_date : string;
  ls_usd : option UsdStatus;      (* [limits.usd], absent without a cap *)
  ls_todayUsage : Aggregation
}.

Inductive StatusError :=
| NoSuchTenant                (* [Error(`租户 ${tenantId} 不存在`)] *)
| UsageFailed (e : UsageError).

Section with_runtime.
Context {rt : Runtime}.

(** [getCurrentLimitStatus] *)
Definition getCurrentLimitStatus (tenants : list Tenant)
    (parseLine : string → option UsageRecord) (todayFile : ReadResult) (tenantId : string)
  : outcome StatusError LimitStatus :=
  match getTenant tenants tenantId with
  | None => Throw NoSuchTenant
  | Some tenant =>
      match getDailyUsage parseLine todayFile with
      | Throw e => Throw (UsageFailed e)
      | Ok todayUsage =>
          let usd :=
            (λ maxUSD,
               let used := Num.or0 (sumTotalCost (totals todayUsage)) in
               mkUsdStatus used maxUSD
                           (Num.Math_round (Num.mul (Num.div used maxUSD) (Num.of_Z 100)))
                           (Num.geb used maxUSD)) <$> cap_of tenant in
          Ok (mkLimitStatus tenantId (formatDate now_iso) usd todayUsage)
      end
  end.

End with_runtime.

(** What an entry of [byModel] or [byHour] holds for the records [rs] of
    that model or hour: nothing when there are none, and otherwise their
    sums, with the three averages left at zero. *)
Definition bucket_of (entry : option Totals) (rs : list UsageRecord) : Prop :=
  match rs with
  | [] => entry = None
  | _ => ∃ t, entry = Some t ∧ sums_of t rs
              ∧ avgCost t = Num.zero ∧ avgDuration t = Num.zero ∧ errorRate t = Num.zero
  end.

(** A daily file: its content, or [None] while it does not exist. *)
Definition read (file : option string) : ReadResult :=
  match file with
  | Some content => Content content
  | None => ENOENT
  end.

(** [appendToUsageFile], when the append succeeds; [fs.appendFile] creates
    the file. [stringify] is [JSON.stringify] on a record. *)
Definition appendToUsageFile (stringify : UsageRecord → string) (file : option string)
    (record : UsageRecord) : option string :=
  let line := (stringify record ++ String "010"%char EmptyString)%string in
  Some (default EmptyString file ++ line)%string.

(** A line as [JSON.stringify] writes an object: not empty, without a line
    feed, and with no white space at either end. *)
Definition written (line : list ascii) : Prop :=
  ("010"%char ∉ line)
  ∧ (∃ c l, line = c :: l ∧ Str.is_space c = false)
  ∧ (∃ l c, line = l ++ [c] ∧ Str.is_space c = false).

(** [aggregateUsageArray] *)
Definition aggregateUsageArray (usageArray : list Aggregation) : Aggregation :=
  let t := foldl (λ t usage, mergeUsageAggregation t (totals usage)) emptyTotals usageArray in
  mkAggregation (with_averages t) ∅ ∅.

(** [getWeeklyUsage]; [dates i] and [files i] are the date and the daily
    file of the [i]-th day from [startDate]. *)
Definition getWeeklyUsage (parseLine : string → option UsageRecord)
    (dates : nat → string) (files : nat → ReadResult)
  : list (string * Aggregation) * Aggregation :=
  let weeklyUsage :=
    (λ i, (dates i,
           match getDailyUsage parseLine (files i) with
           | Ok dailyUsage => dailyUsage
           | Throw _ => getEmptyUsageAggregation
           end)) <$> seq 0 7 in
  (weeklyUsage, aggregateUsageArray (snd <$> weeklyUsage)).

End Reports.

(** ** Authentication ([AuthMiddleware]) *)

Module Auth.
Import JS Usage.

(** [url.parse(req.url, true).query.api_key] *)
Inductive QueryValue :=
| QAbsent
| QOne (value : string)
| QMany (values : list string).    (* the parameter was given more than once *)

(** What the middleware reads of a request. Node gives header names in
    lower case. *)
Record Request := mkRequest {
  url : string;
  authorization : option string;
  x_api_key : option string;
  query_api_key : QueryValue
}.

(** An entry of [tenants.json]: the tenant and its key. *)
Record Entry := mkEntry {
  e_tenant : Tenant;
  e_key : string
}.

(** A presented credential; only a query parameter can be an array. *)
Inductive Token :=
| TStr (s : string)
| TArr (values : list string).

Record AuthInfo := mkAuthInfo {
  a_type : string;
  a_token : Token
}.

(** The literal head of [/^Bearer\s+(.+)$/i]: the rest of the header after
    the scheme, letters compared without regard to case. *)
Fixpoint strip_scheme (scheme header : list ascii) : option (list ascii) :=
  match scheme, header with
  | [], rest => Some rest
  | c :: scheme', d :: header' =>
      if bool_decide (Glob.canonicalize c = Glob.canonicalize d)
      then strip_scheme scheme' header' else None
  | _ :: _, [] => None
  end.

(** The length of the run of [\s] characters at the head. *)
Fixpoint spaces (s : list ascii) : nat :=
  match s with
  | c :: s' => if Str.is_space c then S (spaces s') else 0%nat
  | [] => 0%nat
  end.

(** [(.+)$]: the whole rest, not empty and without a line terminator. *)
Definition to_the_end (s : list ascii) : bool :=
  negb (bool_decide (s = [])) && forallb (λ c, negb (Glob.is_line_terminator c)) s.

(** [\s+(.+)$]: the white space is taken greedily and given back one
    character at a time until the rest matches. *)
Fixpoint after_spaces (k : nat) (rest : list ascii) : option (list ascii) :=
  match k with
  | O => None
  | S k' =>
      let token := drop k rest in
      if to_the_end token then Some token else after_spaces k' rest
  end.

(** [header.match(/^<scheme>\s+(.+)$/i)], giving the group. *)
Definition scheme_match (scheme : string) (header : string) : option string :=
  rest ← strip_scheme (Str.chars scheme) (Str.chars header);
  Str.of_chars <$> after_spaces (spaces rest) rest.

(** A header that is present and not empty. *)
Definition given (header : option string) : option string :=
  match header with
  | Some h => if bool_decide (h = EmptyString) then None else Some h
  | None => None
  end.

(** [extractAuthInfo] *)
Definition extractAuthInfo (req : Request) : option AuthInfo :=
  let from_header :=
    match given (authorization req) with
    | Some authHeader =>
        match scheme_match "Bearer" authHeader with
        | Some token => Some (mkAuthInfo "bearer" (TStr token))
        | None =>
            match scheme_match "API-Key" authHeader with
            | Some token => Some (mkAuthInfo "api-key" (TStr token))
            | None => None
            end
        end
    | None => None
    end in
  match from_header with
  | Some info => Some info
  | None =>
      match given (x_api_key req) with
      | Some apiKeyHeader => Some (mkAuthInfo "api-key" (TStr apiKeyHeader))
      | None =>
          match query_api_key req with
          | QOne value =>
              if bool_decide (value = EmptyString) then None
              else Some (mkAuthInfo "api-key" (TStr value))
          | QMany values => Some (mkAuthInfo "api-key" (TArr values))
          | QAbsent => None
          end
      end
  end.

(** [configManager.getTenantByKey]: [tenant.key === key] *)
Definition getTenantByKey (entries : list Entry) (key : Token) : option Entry :=
  match key with
  | TStr k => List.find (λ e, bool_decide (e_key e = k)) entries
  | TArr _ => None
  end.

(** What [authenticate] resolves to. The model is whatever truthy value
    the body holds under [model]. *)
Inductive Result :=
| Failed (error message : string) (statusCode : Z)
| Skip
| Passed (entry : Entry) (model : option json) (authInfo : AuthInfo).

(** [authenticateTenant] *)
Definition authenticateTenant (entries : list Entry) (req : Request)
  : string * string * Z + Entry * AuthInfo :=
  match extractAuthInfo req with
  | None => inl ("missing_auth", "缺少认证信息", 401)
  | Some authInfo =>
      match getTenantByKey entries (a_token authInfo) with
      | None => inl ("invalid_key", "无效的API密钥", 401)
      | Some entry =>
          if t_enabled (e_tenant entry) then inr (entry, authInfo)
          else inl ("tenant_disabled", "租户已禁用", 403)
      end
  end.

Section with_runtime.
Context {rt : Runtime}.

(** [Helpers.matchPattern(pattern, text)] for a [text] that need not be a
    string: [pattern === text] then fails, and [regex.test] converts the
    text. *)
Definition matchValue (pattern : string) (text : json) : bool :=
  match text with
  | JStr s => Glob.matchPattern pattern s
  | _ =>
      if bool_decide (pattern = EmptyString) || negb (truthy (Some text)) then false
      else if bool_decide (pattern = "*") then true
      else
        match Glob.parse (Glob.star_to_dotstar (Glob.escape (Str.chars pattern))) [] with
        | Some regex => Glob.match_terms regex (Str.chars (ToString text))
        | None => false
        end
  end.

(** [Helpers.findMatchingPattern] *)
Definition findMatchingValue (patterns : list string) (text : json) : option string :=
  if truthy (Some text) then List.find (λ pattern, matchValue pattern text) patterns
  else None.

(** The text of a value inside a template literal. *)
Definition template (v : json) : string :=
  match v with
  | JStr s => s
  | _ => ToString v
  end.

(** [checkModelPermission] for a tenant whose [allowedModels] is an array
    of strings; [inl] is the error and its message. *)
Definition checkModelPermission (tenant : Tenant) (model : json)
  : string * string + string :=
  match findMatchingValue (t_allowedModels tenant) model with
  | Some matchedPattern => inr matchedPattern
  | None => inl ("model_not_allowed", ("模型 " ++ template model ++ " 不在允许列表中")%string)
  end.

(** [extractModelFromRequest] on the parsed body *)
Definition extractModelFromRequest (body : json) : option json :=
  let model := get body "model" in
  if truthy model then model else None.

(** [authenticate] *)
Definition authenticate (entries : list Entry) (req : Request) (requestBody : string)
  : Result :=
  if bool_decide (url req = "/health")
     || Str.startsWith (Str.chars "/admin") (Str.chars (url req))
  then Skip
  else
    match authenticateTenant entries req with
    | inl (error, message, statusCode) => Failed error message statusCode
    | inr (entry, authInfo) =>
        let model :=
          if bool_decide (requestBody = EmptyString) then None
          else parsedBody ← JSON_parse requestBody; extractModelFromRequest parsedBody in
        match model with
        | Some m =>
            match checkModelPermission (e_tenant entry) m with
            | inl (error, message) => Failed error message 403
            | inr _ => Passed entry model authInfo
            end
        | None => Passed entry None authInfo
        end
    end.

End with_runtime.

(** The result as [ProxyCore.handleRequest] takes it, for a model that is
    a string or absent. *)
Definition to_proxy (result : Result) : option Proxy.AuthResult :=
  match result with
  | Failed error message statusCode => Some (Proxy.AuthFailed error message statusCode)
  | Skip => Some Proxy.SkipAuth
  | Passed entry None _ => Some (Proxy.Authenticated (e_tenant entry) None)
  | Passed entry (Some (JStr model)) _ =>
      Some (Proxy.Authenticated (e_tenant entry) (Some model))
  | Passed _ (Some _) _ => None
  end.

End Auth.

(** ** The request sent upstream ([Helpers.createProxyOptions],
    [Helpers.setupProxyHeaders], [ProxyCore.rewriteUrl]) *)

Module Forward.

(** What [new URL(s)] gives. *)
Record URL := mkURL {
  protocol : string;
  hostname : string;
  port : string;         (* empty for the default port *)
  host : string;
  pathname : string
}.

(** [targetUrl.port || (isHttps ? 443 : 80)] *)
Inductive Port :=
| PortStr (s : string)
| PortNum (n : Z).

(** What is read of the client's request; Node gives header names in lower
    case. *)
Record Incoming := mkIncoming {
  req_url : string;
  req_method : string;
  req_headers : gmap string string
}.

(** What is read of the upstream: [upstream.url] and [upstream.key]. *)
Record Target := mkTarget {
  target_url : string;
  target_key : option string
}.

Record ProxyOptions := mkProxyOptions {
  o_hostname : string;
  o_port : Port;
  o_path : string;
  o_method : string;
  o_headers : gmap string string;
  o_protocol : string;
  o_isHttps : bool
}.

(** Both are caught by the [catch] of [proxyRequest]. *)
Inductive Error :=
| InvalidURL (urlString : string)     (* the [Error] of [parseURL] *)
| TypeError.                          (* [new URL] in [rewriteUrl] *)

Section with_url.
(** [new URL(s)]; [None] when it throws. *)
Variable parse_url : string → option URL.

(** [Helpers.parseURL] *)
Definition parseURL (urlString : string) : outcome Error URL :=
  match parse_url urlString with
  | Some u => Ok u
  | None => Throw (InvalidURL urlString)
  end.

(** [Helpers.createProxyOptions] *)
Definition createProxyOptions (upstream : Target) (originalReq : Incoming)
    (customPath : option string) : outcome Error ProxyOptions :=
  targetUrl ← parseURL (target_url upstream);
  let isHttps := bool_decide (protocol targetUrl = "https:") in
  Ok (mkProxyOptions
        (hostname targetUrl)
        (if bool_decide (port targetUrl = EmptyString)
         then PortNum (if isHttps then 443 else 80) else PortStr (port targetUrl))
        (match customPath with
         | Some p => if bool_decide (p = EmptyString) then req_url originalReq else p
         | None => req_url originalReq
         end)
        (req_method originalReq)
        (req_headers originalReq)
        (protocol targetUrl)
        isHttps).

(** [Helpers.setupProxyHeaders] *)
Definition setupProxyHeaders (headers : gmap string string) (upstream : Target)
  : outcome Error (gmap string string) :=
  targetUrl ← parseURL (target_url upstream);
  let headers := <["host" := host targetUrl]> headers in
  let headers :=
    match target_key upstream with
    | Some key =>
        if bool_decide (key = EmptyString) then headers
        else delete "x-api-key" (<["authorization" := ("Bearer " ++ key)%string]> headers)
    | None => headers
    end in
  Ok (delete "content-length" headers).

(** [ProxyCore.rewriteUrl] *)
Definition rewriteUrl (originalUrl : string) (upstream : Target) : outcome Error string :=
  if Str.startsWith (Str.chars "/anthropic") (Str.chars originalUrl) then
    let pathAfterAnthropicPrefix := Str.of_chars (drop 10 (Str.chars originalUrl)) in
    match parse_url (target_url upstream) with
    | None => Throw TypeError
    | Some upstreamUrl =>
        if negb (bool_decide (pathname upstreamUrl = EmptyString))
           && negb (bool_decide (pathname upstreamUrl = "/"))
        then Ok (pathname upstreamUrl ++ pathAfterAnthropicPrefix)%string
        else Ok (if bool_decide (pathAfterAnthropicPrefix = EmptyString) then "/"
                 else pathAfterAnthropicPrefix)
    end
  else Ok originalUrl.

(** The options [proxyRequest] hands to [http.request]. *)
Definition outgoing (req : Incoming) (upstream : Target) : outcome Error ProxyOptions :=
  rewrittenUrl ← rewriteUrl (req_url req) upstream;
  options ← createProxyOptions upstream req (Some rewrittenUrl);
  headers ← setupProxyHeaders (o_headers options) upstream;
  Ok (mkProxyOptions (o_hostname options) (o_port options) (o_path options)
                     (o_method options) headers (o_protocol options) (o_isHttps options)).

End with_url.

(** The headers the upstream's key or address replaces. *)
Definition replaced : list string :=
  ["host"; "authorization"; "x-api-key"; "content-length"].

End Forward.

(** ** Configuration checks ([ConfigValidator], [src/config/validator.js]) *)

Module Validator.
Import JS.

(** What a check throws: the [Error] with its message, or the error of the
    runtime when a property of [null] is read. *)
Inductive Error := Invalid (message : string) | Crash (e : JsError).

Definition lift {A} (x : outcome JsError A) : outcome Error A :=
  match x with
  | Ok a => Ok a
  | Throw e => Throw (Crash e)
  end.

(** [a === b], and the comparison of [Set.prototype.has], which agree on
    the values of parsed JSON: numbers, strings and booleans are compared by
    value, arrays and objects by identity, and two values that were parsed
    at different places are never the same object. *)
Definition same (a b : option json) : bool :=
  match a, b with
  | None, None => true
  | Some JNull, Some JNull => true
  | Some (JBool x), Some (JBool y) => bool_decide (x = y)
  | Some (JNum x), Some (JNum y) => Qeq_bool x y
  | Some (JStr x), Some (JStr y) => bool_decide (x = y)
  | _, _ => false
  end.

(** [set.has(v)] *)
Definition has (set : list (option json)) (v : option json) : bool :=
  existsb (same v) set.

Section with_runtime.
Context {rt : Runtime}.
Variable valid_url : string → bool.          (* [new URL(s)] does not throw *)

(** [validateUpstream] *)
Definition validateUpstream (upstream : json) (prefix : string) : outcome Error unit :=
  id ← lift (prop (Some upstream) "id");
  if negb (truthy id) then Throw (Invalid (prefix ++ ".id 是必填项")%string) else
  let url := get upstream "url" in
  if negb (truthy url) then Throw (Invalid (prefix ++ ".url 是必填项")%string) else
  if negb (valid_url (Auth.template (default JNull url)))
  then Throw (Invalid (prefix ++ ".url 格式不正确")%string) else
  match get upstream "weight" with
  | None => Ok tt
  | Some (JNum weight) =>
      if Qle_bool 0 weight then Ok tt
      else Throw (Invalid (prefix ++ ".weight 必须是非负数")%string)
  | Some _ => Throw (Invalid (prefix ++ ".weight 必须是非负数")%string)
  end.

(** The [forEach] of [validateUpstreamsConfig], from the index [index] on. *)
Fixpoint validate_upstreams (upstreams : list json) (index : nat) : outcome Error unit :=
  match upstreams with
  | [] => Ok tt
  | upstream :: rest =>
      _ ← validateUpstream upstream ("upstreams[" ++ pretty index ++ "]")%string;
      validate_upstreams rest (S index)
  end.

(** [validateUpstreamsConfig] *)
Definition validateUpstreamsConfig (config : json) : outcome Error unit :=
  upstreams ← lift (prop (Some config) "upstreams");
  match upstreams with
  | Some (JArr us) =>
      if bool_decide (us = []) then Throw (Invalid "至少需要配置一个上游服务") else
      _ ← validate_upstreams us 0;
      if negb (truthy (get config "loadBalancer")) then Throw (Invalid "缺少 loadBalancer 配置")
      else Ok tt
  | _ => Throw (Invalid "upstreams 必须是数组")
  end.

Definition limitFields : list string :=
  ["inputTokens"; "outputTokens"; "cacheCreationTokens"; "cacheReadTokens"].

(** The check of one field of the limits of one model. *)
Definition validate_field (prefix model : string) (limits : json) (field : string)
  : outcome Error unit :=
  let message := (prefix ++ ".limits.daily." ++ model ++ "." ++ field ++ " 必须是非负数")%string in
  value ← lift (prop (Some limits) field);
  match value with
  | None => Ok tt
  | Some (JNum n) => if Qle_bool 0 n then Ok tt else Throw (Invalid message)
  | Some _ => Throw (Invalid message)
  end.

Fixpoint validate_fields (prefix model : string) (limits : json) (fields : list string)
  : outcome Error unit :=
  match fields with
  | [] => Ok tt
  | field :: rest =>
      _ ← validate_field prefix model limits field;
      validate_fields prefix model limits rest
  end.

(** The [forEach] over the keys of [tenant.limits.daily]. *)
Fixpoint validate_daily (prefix : string) (models : list (string * json)) : outcome Error unit :=
  match models with
  | [] => Ok tt
  | (model, limits) :: rest =>
      _ ← validate_fields prefix model limits limitFields;
      validate_daily prefix rest
  end.

(** [tenant.limits && tenant.limits.daily] *)
Definition daily_of (tenant : json) : option json :=
  let limits := get tenant "limits" in
  if truthy limits then opt_prop limits "daily" else limits.

(** [validateTenant] *)
Definition validateTenant (tenant : json) (prefix : string) : outcome Error unit :=
  id ← lift (prop (Some tenant) "id");
  if negb (truthy id) then Throw (Invalid (prefix ++ ".id 是必填项")%string) else
  if negb (truthy (get tenant "name")) then Throw (Invalid (prefix ++ ".name 是必填项")%string) else
  if negb (truthy (get tenant "key")) then Throw (Invalid (prefix ++ ".key 是必填项")%string) else
  match get tenant "allowedModels" with
  | Some (JArr _) =>
      let daily := daily_of tenant in
      if truthy daily then validate_daily prefix (Obj.entries (default JNull daily))
      else Ok tt
  | _ => Throw (Invalid (prefix ++ ".allowedModels 必须是数组")%string)
  end.

(** The [forEach] of [validateTenantsConfig], from the index [index] on,
    with the two sets as they are then. *)
Fixpoint validate_tenants (tenants : list json) (index : nat) (ids keys : list (option json))
  : outcome Error unit :=
  match tenants with
  | [] => Ok tt
  | tenant :: rest =>
      _ ← validateTenant tenant ("tenants[" ++ pretty index ++ "]")%string;
      let id := get tenant "id" in
      if has ids id
      then Throw (Invalid ("租户 ID 重复: " ++ Auth.template (default JNull id))%string) else
      let key := get tenant "key" in
      if has keys key
      then Throw (Invalid ("租户密钥重复: " ++ Auth.template (default JNull key))%string) else
      validate_tenants rest (S index) (id :: ids) (key :: keys)
  end.

(** [validateTenantsConfig] *)
Definition validateTenantsConfig (config : json) : outcome Error unit :=
  tenants ← lift (prop (Some config) "tenants");
  match tenants with
  | Some (JArr ts) => validate_tenants ts 0 [] []
  | _ => Throw (Invalid "tenants 必须是数组")
  end.

End with_runtime.

(** What the check of [limits.daily] accepts as the value of one key. *)
Definition entry_ok (limits : json) : Prop :=
  limits ≠ JNull ∧
  ∀ field, field ∈ limitFields →
    get limits field = None ∨ ∃ n, get limits field = Some (JNum n) ∧ (0 <= n)%Q.

(** What [validateUpstream] accepts. *)
Definition upstream_ok {rt : Runtime} (valid_url : string → bool) (upstream : json) : Prop :=
  upstream ≠ JNull ∧ truthy (get upstream "id") = true ∧
  (∃ url, get upstream "url" = Some url ∧ truthy (Some url) = true ∧
          valid_url (Auth.template url) = true) ∧
  (get upstream "weight" = None ∨ ∃ w, get upstream "weight" = Some (JNum w) ∧ (0 <= w)%Q).

End Validator.

(** ** The tenants of the configuration ([ConfigManager]) *)

Module Config.
Import JS.

(** [tenants.find(tenant => tenant[field] === value)] *)
Fixpoint find_by (field : string) (value : option json) (tenants : list json)
  : outcome JsError (option json) :=
  match tenants with
  | [] => Ok None
  | tenant :: rest =>
      v ← prop (Some tenant) field;
      if Validator.same v value then Ok (Some tenant) else find_by field value rest
  end.

(** [getTenant] *)
Definition getTenant (tenants : list json) (tenantId : option json) :=
  find_by "id" tenantId tenants.

(** [getTenantByKey] *)
Definition getTenantByKey (tenants : list json) (key : option json) :=
  find_by "key" key tenants.

End Config.

(** ** Generated identifiers ([TenantService], [src/services/usageService.js]) *)

Module Keys.
Import JS.

(** [buffer.toString('hex')]: two lower-case digits for each byte. *)
Definition hex_digit (n : N) : ascii :=
  if (n <? 10)%N then ascii_of_N (48 + n) else ascii_of_N (87 + n).

Definition hex_byte (b : Byte.byte) : list ascii :=
  let n := Byte.to_N b in [hex_digit (n / 16); hex_digit (n mod 16)].

Definition hex (bytes : list Byte.byte) : string :=
  Str.of_chars (bytes ≫= hex_byte).

(** [generateTenantId], from the bytes of [crypto.randomBytes(8)] *)
Definition generateTenantId (random : list Byte.byte) : string :=
  "tenant_" ++ hex random.

(** [generateApiKey], from the bytes of [crypto.randomBytes(32)] *)
Definition generateApiKey (random : list Byte.byte) : string :=
  "ccg_" ++ hex random.

(** The class [[a-f0-9]] *)
Definition is_hex (c : ascii) : bool :=
  let n := N_of_ascii c in
  ((97 <=? n)%N && (n <=? 102)%N) || ((48 <=? n)%N && (n <=? 57)%N).

Fixpoint strip_prefix (p s : list ascii) : option (list ascii) :=
  match p, s with
  | [], _ => Some s
  | a :: p', b :: s' => if bool_decide (a = b) then strip_prefix p' s' else None
  | _ :: _, [] => None
  end.

(** [/^ccg_[a-f0-9]{64}$/.test(s)] *)
Definition key_pattern (s : list ascii) : bool :=
  match strip_prefix (Str.chars "ccg_") s with
  | Some rest => bool_decide (length rest = 64%nat) && forallb is_hex rest
  | None => false
  end.

(** [isValidApiKey]; a string that the pattern matches has 68 characters,
    each of them a single unit of its [length]. *)
Definition isValidApiKey (key : option json) : bool :=
  match key with
  | Some (JStr s) => (8 <=? String.length s)%nat && key_pattern (Str.chars s)
  | _ => false
  end.

(** The byte that two hexadecimal digits stand for. *)
Definition digit_value (c : ascii) : N :=
  let n := N_of_ascii c in if (n <=? 57)%N then (n - 48)%N else (n - 87)%N.

Fixpoint unhex (cs : list ascii) : list Byte.byte :=
  match cs with
  | a :: b :: rest =>
      default Byte.x00 (Byte.of_N (16 * digit_value a + digit_value b)) :: unhex rest
  | _ => []
  end.

End Keys.

(** ** Creating, updating and deleting tenants ([TenantService] over [ConfigManager]) *)

Module Registry.
Import JS.

(** What a call throws: an [Error] of the service, of the manager or of the
    validator, a [TypeError] of the runtime, or what [saveTenantsConfig]
    rethrows when the file cannot be written. *)
Inductive Error := Check (e : Validator.Error) | Save.

Definition refuse {A} (message : string) : outcome Error A :=
  Throw (Check (Validator.Invalid message)).

Definition crash {A} (x : outcome JsError A) : outcome Error A :=
  match x with
  | Ok a => Ok a
  | Throw e => Throw (Check (Validator.Crash e))
  end.

(** [v || d] *)
Definition or_else (v : option json) (d : json) : json :=
  if truthy v then default d v else d.

(** [getDefaultLimits] *)
Definition getDefaultLimits : json :=
  let limits (i o c r : Z) :=
    JObj [("inputTokens", JNum (inject_Z i)); ("outputTokens", JNum (inject_Z o));
          ("cacheCreationTokens", JNum (inject_Z c)); ("cacheReadTokens", JNum (inject_Z r))] in
  JObj [("daily",
         JObj [("claude-3-haiku", limits 1000000 100000 100000 1000000);
               ("claude-3-sonnet", limits 500000 50000 50000 500000);
               ("claude-3-opus", limits 100000 10000 10000 100000)])].

(** [key.substring(0, 8) + '...' + key.substring(key.length - 4)] *)
Definition keyPreview (key : string) : string :=
  let cs := Str.chars key in
  Str.of_chars (take 8 cs ++ Str.chars "..." ++ drop (length cs - 4) cs).

(** [sanitizeTenant]: a copy with the preview of the key; a key that is not
    a string has no [substring]. *)
Definition sanitizeTenant (tenant : json) : outcome JsError json :=
  let sanitized := Obj.entries tenant in
  let key := assoc "key" sanitized in
  if truthy key then
    match key with
    | Some (JStr s) => Ok (JObj (Obj.set_field "keyPreview" (JStr (keyPreview s)) sanitized))
    | _ => Throw TypeError
    end
  else Ok (JObj sanitized).

(** [tenants.findIndex(t => t.id === tenantId)], with the tenant that is at
    the index found; [None] is [-1]. *)
Fixpoint find_index (tenantId : option json) (tenants : list json) (index : nat)
  : outcome JsError (option (nat * json)) :=
  match tenants with
  | [] => Ok None
  | tenant :: rest =>
      v ← prop (Some tenant) "id";
      if Validator.same v tenantId then Ok (Some (index, tenant))
      else find_index tenantId rest (S index)
  end.

(** The text of a value inside a template literal. *)
Definition template (v : option json) {rt : Runtime} : string :=
  match v with
  | Some j => Auth.template j
  | None => "undefined"
  end.

Section with_runtime.
Context {rt : Runtime}.
Variable save : list json → bool.            (* [writeFileSync] succeeds *)
Variable now : nat → string.                 (* the readings of the clock during a call *)
Variable randomUUID : string.
Variable random8 random32 : list Byte.byte.  (* [crypto.randomBytes(8)], [crypto.randomBytes(32)] *)

(** [ConfigManager.addTenant] for a tenant that is a plain object, given by
    its fields; the tenants are those in memory before and after. *)
Definition addTenant (tenant : list (string * json)) (tenants : list json)
  : outcome Error json * list json :=
  let id := or_else (assoc "id" tenant) (JStr randomUUID) in
  let tenant := Obj.set_field "id" id tenant in
  let tenant := Obj.set_field "createdAt" (JStr (now 2)) tenant in
  let tenant := Obj.set_field "updatedAt" (JStr (now 3)) tenant in
  match Validator.validateTenant (JObj tenant) "tenant" with
  | Throw e => (Throw (Check e), tenants)
  | Ok _ =>
      let tenants := tenants ++ [JObj tenant] in
      (if save tenants then Ok (JObj tenant) else Throw Save, tenants)
  end.

(** [TenantService.createTenant] up to the call of [addTenant]. *)
Definition newTenant (tenantData : json) (tenants : list json)
  : outcome Error (list (string * json)) :=
  name ← crash (prop (Some tenantData) "name");
  if negb (truthy name) then refuse "租户名称是必填项" else
  let tenantId := or_else (get tenantData "id") (JStr (Keys.generateTenantId random8)) in
  let apiKey := or_else (get tenantData "key") (JStr (Keys.generateApiKey random32)) in
  byId ← crash (Config.getTenant tenants (Some tenantId));
  if truthy byId then refuse ("租户ID " ++ Auth.template tenantId ++ " 已存在")%string else
  byKey ← crash (Config.getTenantByKey tenants (Some apiKey));
  if truthy byKey then refuse "API密钥已存在，请重新生成" else
  Ok [("id", tenantId);
      ("name", default JNull name);
      ("key", apiKey);
      ("enabled", JBool (negb (Validator.same (get tenantData "enabled") (Some (JBool false)))));
      ("allowedModels", or_else (get tenantData "allowedModels") (JArr [JStr "claude-3-haiku"]));
      ("limits", or_else (get tenantData "limits") getDefaultLimits);
      ("description", or_else (get tenantData "description") (JStr EmptyString));
      ("metadata", or_else (get tenantData "metadata") (JObj []));
      ("createdAt", JStr (now 0));
      ("updatedAt", JStr (now 1))].

(** [TenantService.createTenant] *)
Definition createTenant (tenantData : json) (tenants : list json)
  : outcome Error json * list json :=
  match newTenant tenantData tenants with
  | Throw e => (Throw e, tenants)
  | Ok tenant =>
      let (created, tenants) := addTenant tenant tenants in
      (createdTenant ← created; crash (sanitizeTenant createdTenant), tenants)
  end.

(** [ConfigManager.deleteTenant] *)
Definition removeTenant (tenantId : option json) (tenants : list json)
  : outcome Error json * list json :=
  match find_index tenantId tenants 0 with
  | Throw e => (Throw (Check (Validator.Crash e)), tenants)
  | Ok None => (refuse ("租户 " ++ template tenantId ++ " 不存在")%string, tenants)
  | Ok (Some (tenantIndex, deletedTenant)) =>
      let tenants := delete tenantIndex tenants in
      (if save tenants then Ok deletedTenant else Throw Save, tenants)
  end.

(** [TenantService.deleteTenant] *)
Definition deleteTenant (tenantId : option json) (tenants : list json)
  : outcome Error json * list json :=
  match Config.getTenant tenants tenantId with
  | Throw e => (Throw (Check (Validator.Crash e)), tenants)
  | Ok tenant =>
      if negb (truthy tenant) then (refuse ("租户 " ++ template tenantId ++ " 不存在")%string, tenants)
      else if is_str (opt_prop tenant "id") "default" then (refuse "不能删除默认租户", tenants)
      else
        let (deleted, tenants) := removeTenant tenantId tenants in
        (deletedTenant ← deleted; crash (sanitizeTenant deletedTenant), tenants)
  end.

(** [ConfigManager.updateTenant] *)
Definition replaceTenant (tenantId : option json) (updates : json) (tenants : list json)
  : outcome Error json * list json :=
  match find_index tenantId tenants 0 with
  | Throw e => (Throw (Check (Validator.Crash e)), tenants)
  | Ok None => (refuse ("租户 " ++ template tenantId ++ " 不存在")%string, tenants)
  | Ok (Some (tenantIndex, tenant)) =>
      let updatedTenant :=
        Obj.set_field "updatedAt" (JStr (now 0%nat)) (Obj.spread tenant updates) in
      match Validator.validateTenant (JObj updatedTenant) "tenant" with
      | Throw e => (Throw (Check e), tenants)
      | Ok _ =>
          let tenants := <[tenantIndex := JObj updatedTenant]> tenants in
          (if save tenants then Ok (JObj updatedTenant) else Throw Save, tenants)
      end
  end.

(** [TenantService.updateTenant] up to the call of the manager. *)
Definition update_checks (tenantId : option json) (updates : json) (tenants : list json)
  : outcome Error unit :=
  existingTenant ← crash (Config.getTenant tenants tenantId);
  if negb (truthy existingTenant)
  then refuse ("租户 " ++ template tenantId ++ " 不存在")%string else
  key ← crash (prop (Some updates) "key");
  taken ← (if truthy key && negb (Validator.same key (opt_prop existingTenant "key"))
           then found ← crash (Config.getTenantByKey tenants key); Ok (truthy found)
           else Ok false);
  if (taken : bool) then refuse "API密钥已存在" else
  match get updates "allowedModels" with
  | Some (JArr _) => Ok tt
  | allowedModels =>
      if truthy allowedModels then refuse "allowedModels 必须是数组" else Ok tt
  end.

(** [TenantService.updateTenant] *)
Definition updateTenant (tenantId : option json) (updates : json) (tenants : list json)
  : outcome Error json * list json :=
  match update_checks tenantId updates tenants with
  | Throw e => (Throw e, tenants)
  | Ok _ =>
      let (updated, tenants) := replaceTenant tenantId updates tenants in
      (updatedTenant ← updated; crash (sanitizeTenant updatedTenant), tenants)
  end.

(** [TenantService.regenerateApiKey] *)
Definition regenerateApiKey (tenantId : option json) (tenants : list json)
  : outcome Error json * list json :=
  match Config.getTenant tenants tenantId with
  | Throw e => (Throw (Check (Validator.Crash e)), tenants)
  | Ok tenant =>
      if negb (truthy tenant)
      then (refuse ("租户 " ++ template tenantId ++ " 不存在")%string, tenants)
      else
        let newApiKey := Keys.generateApiKey random32 in
        let (updated, tenants) :=
          replaceTenant tenantId (JObj [("key", JStr newApiKey)]) tenants in
        (updatedTenant ← updated; crash (sanitizeTenant updatedTenant), tenants)
  end.

End with_runtime.

(** No two of the tenants have the same value of a field. *)
Definition distinct_by (field : string) (tenants : list json) : Prop :=
  ∀ i j a b, (i < j)%nat → tenants !! i = Some a → tenants !! j = Some b →
    Validator.same (get a field) (get b field) = false.

End Registry.

(** ** The usage query ([UsageRoutes], [src/config/validator.js]) *)

Module UsageRoutes.
Import JS.

(** The one call of [sendJSON] that answers a request: the status and the
    data that is written as JSON. *)
Record Reply := mkReply {
  statusCode : Z;
  data : json
}.

(** [sendError(res, message, statusCode)] *)
Definition sendError (message : string) (statusCode : Z) : Reply :=
  mkReply statusCode (JObj [("error", JStr message)]).

(** A property of an object literal; one whose value is [undefined] is not
    written by [JSON.stringify]. *)
Definition field (key : string) (value : option json) : list (string * json) :=
  match value with
  | Some v => [(key, v)]
  | None => []
  end.

Section with_service.
Context {rt : Runtime}.
Variable adminConfig : option json.          (* [getServerConfig().admin] *)
Variable tenants : list json.                (* [tenantsConfig.tenants] *)
(* [usageService.getCurrentLimitStatus(tenantId)]; [None] when it rejects *)
Variable getCurrentLimitStatus : option json → option json.
(* [getSystemLimits()], [getSystemStats()] and [getUpstreams()] *)
Variable getSystemLimits getSystemStats getUpstreams : option json.

(** [TenantService.getTenantByKey]; [None] when it throws. *)
Definition getTenantByKey (key : option json) : option json :=
  match Config.getTenantByKey tenants key with
  | Ok tenant =>
      if truthy tenant then
        match Registry.sanitizeTenant (default JNull tenant) with
        | Ok sanitized => Some sanitized
        | Throw _ => None
        end
      else None
  | Throw _ => None
  end.

(** The [admin] branch of [handleUsageQuery]; [None] when it throws. *)
Definition adminQuery (queryData : json) : option Reply :=
  match prop adminConfig "enabled" with
  | Throw _ => None
  | Ok enabled =>
      if negb (truthy enabled) then Some (sendError "管理后台未启用" 403)
      else if Validator.same (get queryData "username") (opt_prop adminConfig "username")
              && Validator.same (get queryData "password") (opt_prop adminConfig "password")
      then
        limitResponse ← getSystemLimits;
        systemResponse ← getSystemStats;
        upstreamResponse ← getUpstreams;
        Some (mkReply 200
                (JObj [("success", JBool true);
                       ("type", JStr "admin");
                       ("data", JObj [("usage", limitResponse);
                                      ("system", systemResponse);
                                      ("upstreams", upstreamResponse)])]))
      else Some (sendError "用户名或密码错误" 401)
  end.

(** The [try] of the [tenant] branch; [None] when it throws. *)
Definition tenantQuery (queryData : json) : option Reply :=
  tenant ← getTenantByKey (get queryData "apiKey");
  limitStatus ← getCurrentLimitStatus (get tenant "id");
  Some (mkReply 200
          (JObj [("success", JBool true);
                 ("type", JStr "tenant");
                 ("data", JObj [("usage", limitStatus);
                                ("tenant", JObj (field "id" (get tenant "id")
                                                 ++ field "name" (get tenant "name")))])])).

(** [handleUsageQuery] on the collected body *)
Definition handleUsageQuery (body : string) : Reply :=
  let failed := sendError "查询处理失败" 500 in
  match JSON_parse body with
  | None => failed
  | Some queryData =>
      match prop (Some queryData) "type" with
      | Throw _ => failed
      | Ok type =>
          if is_str type "admin" then default failed (adminQuery queryData)
          else if is_str type "tenant"
          then default (sendError "API Key 验证失败" 401) (tenantQuery queryData)
          else sendError "无效的查询类型" 400
      end
  end.

End with_service.

End UsageRoutes.

(** ** More sample data *)

Module Samples.
Import JS.

(** *** A streamed answer *)

Definition startEvent : json :=
  JObj [("type", JStr "message_start");
        ("message", JObj [("usage", JObj [("input_tokens", JNum 12);
                                          ("output_tokens", JNum 1)])])].

Definition startData : string :=
  ("{" ++ Demo.quoted "type" ++ ":" ++ Demo.quoted "message_start" ++ ","
   ++ Demo.quoted "message" ++ ":{" ++ Demo.quoted "usage" ++ ":{"
   ++ Demo.quoted "input_tokens" ++ ":12," ++ Demo.quoted "output_tokens" ++ ":1}}}")%string.

Definition deltaEvent : json :=
  JObj [("type", JStr "message_delta");
        ("usage", JObj [("output_tokens", JNum 40)])].

Definition deltaData : string :=
  ("{" ++ Demo.quoted "type" ++ ":" ++ Demo.quoted "message_delta" ++ ","
   ++ Demo.quoted "usage" ++ ":{" ++ Demo.quoted "output_tokens" ++ ":40}}")%string.

Definition events : list (list ascii * list ascii) :=
  [(Str.chars "message_start", Str.chars startData);
   (Str.chars "message_delta", Str.chars deltaData)].

(** The sample runtime, with the two payloads among its documents. *)
#[local] Instance runtime : Runtime := {|
  JSON_parse := λ text, assoc text ([(startData, startEvent); (deltaData, deltaEvent)]
                                    ++ Demo.documents);
  JSON_stringify := Demo.render;
  ToNumber := λ _, None;
  ToString := Demo.render;
  plus := λ a b, JStr (Demo.render a ++ Demo.render b);
  toFixed6 := @toFixed6 Demo.runtime;
  Number_toString := @Number_toString Demo.runtime;
  Buffer_byteLength := λ s, Z.of_nat (String.length s);
  now_iso := "2025-06-01T12:00:00.000Z";
  now_seconds := 1748779200;
  generateId := "chatcmpl-sample"
|}.

(** *** Daily files *)

(** How the two sample records are written. *)
Definition stringify (r : Usage.UsageRecord) : string :=
  if Num.leb (Num.of_Z 50) (Usage.r_totalCost r) then Demo.line50 else Demo.line10.

(** *** Requests *)

Definition entries : list Auth.Entry := [Auth.mkEntry Demo.tenant "sk-team-a"].

Definition bearerRequest : Auth.Request :=
  Auth.mkRequest "/v1/messages" (Some "bearer  sk-team-a") None Auth.QAbsent.

(** A request in the OpenAI format. *)
Definition chatMessages : list json :=
  [JObj [("role", JStr "system"); ("content", JStr "Be brief.")];
   JObj [("role", JStr "developer"); ("content", JStr "You are GPT-4.")];
   JObj [("role", JStr "user"); ("content", JStr "hi")]].

Definition chat : json :=
  JObj [("model", JStr "gpt-4"); ("messages", JArr chatMessages)].

(** An answer with a tool call between two texts. *)
Definition answerContent : list json :=
  [JObj [("type", JStr "text"); ("text", JStr "Let me look. ")];
   JObj [("type", JStr "tool_use"); ("name", JStr "search")];
   JObj [("type", JStr "text"); ("text", JStr "Done.")]].

Definition answer : json :=
  JObj [("model", JStr "claude-3-5-haiku-20241022");
        ("content", JArr answerContent);
        ("stop_reason", JStr "tool_use")].

(** *** A tenants file *)

Definition tenants : list json :=
  [JObj [("id", JStr "tenant-1"); ("name", JStr "fenger");
         ("key", JStr "sk-team-a"); ("enabled", JBool true);
         ("allowedModels", JArr [JStr "*sonnet*"; JStr "*haiku*"]);
         ("limits", JObj [("daily", JObj [("maxUSD", JNum 100)])])];
   JObj [("id", JStr "tenant-2"); ("name", JStr "guest");
         ("key", JStr "sk-team-b"); ("enabled", JBool false);
         ("allowedModels", JArr [JStr "*"])]].

Definition tenantsConfig : json := JObj [("tenants", JArr tenants)].

(** A disk that takes every write, a clock that stands still and the
    bytes of a random generator. *)
Definition saved (tenants : list json) : bool := true.
Definition clock (reading : nat) : string := "2025-06-01T12:00:00.000Z".
Definition random32 : list Byte.byte := repeat Byte.x2a 32.

End Samples.


(** * Properties *)

(** ** The wildcard matcher *)

Section glob_facts.
Import Glob.
Implicit Types (p t s : list ascii) (c d : ascii).

Lemma escape_cons c p :
  escape (c :: p) = (if bool_decide (c ∈ escaped) then ["\"; c]%char else [c]) ++ escape p.
Proof. done. Qed.

Lemma star_to_dotstar_cons c p :
  star_to_dotstar (c :: p)
  = (if bool_decide (c = "*"%char) then ["."; "*"]%char else [c]) ++ star_to_dotstar p.
Proof. done. Qed.

Lemma escaped_not_star c : c ∈ escaped → c ≠ "*"%char.
Proof.
  intros H ->.
  assert (bool_decide ("*"%char ∈ escaped) = false) as Hf by by vm_compute.
  by apply bool_decide_eq_false_1 in Hf.
Qed.

Lemma parse_escaped p : ∀ acc,
  "?"%char ∉ p →
  parse (star_to_dotstar (escape p)) acc = Some (rev acc ++ terms_of p).
Proof.
  induction p as [|c p IH]; intros acc Hq.
  - cbn. by rewrite app_nil_r.
  - assert (Hc : c ≠ "?"%char) by (intros ->; apply Hq, elem_of_cons; auto).
    assert (Hp : "?"%char ∉ p) by (intros ?; apply Hq, elem_of_cons; auto).
    rewrite escape_cons. unfold terms_of. rewrite fmap_cons. fold (terms_of p).
    destruct (decide (c ∈ escaped)) as [Hesc|Hesc].
    + pose proof (escaped_not_star c Hesc) as Hstar.
      rewrite (bool_decide_eq_true_2 _ Hesc). cbn [app].
      rewrite !star_to_dotstar_cons.
      rewrite (bool_decide_eq_false_2 (c = "*"%char)) by done.
      rewrite (bool_decide_eq_false_2 ("\"%char = "*"%char)) by done.
      cbn [app parse]. rewrite (bool_decide_eq_true_2 ("\"%char = "\"%char)) by done.
      rewrite (bool_decide_eq_true_2 _ Hesc).
      rewrite IH by done. cbn [rev]. by rewrite <- app_assoc.
    + rewrite (bool_decide_eq_false_2 _ Hesc). cbn [app].
      rewrite star_to_dotstar_cons.
      destruct (decide (c = "*"%char)) as [->|Hstar].
      * rewrite !bool_decide_eq_true_2 by done.
        cbn [app parse].
        rewrite (bool_decide_eq_false_2 ("."%char = "\"%char)) by done.
        rewrite (bool_decide_eq_true_2 ("."%char = "."%char)) by done.
        rewrite (bool_decide_eq_false_2 ("*"%char = "\"%char)) by done.
        rewrite (bool_decide_eq_false_2 ("*"%char = "."%char)) by done.
        rewrite (bool_decide_eq_true_2 ("*"%char = "*"%char)) by done.
        rewrite IH by done. cbn [rev]. by rewrite <- app_assoc.
      * rewrite !(bool_decide_eq_false_2 (c = "*"%char)) by done.
        cbn [app parse].
        rewrite (bool_decide_eq_false_2 (c = "\"%char))
          by (intros ->; apply Hesc; set_solver).
        rewrite (bool_decide_eq_false_2 (c = "."%char))
          by (intros ->; apply Hesc; set_solver).
        rewrite (bool_decide_eq_false_2 (c = "*"%char)) by done.
        rewrite (bool_decide_eq_false_2 (c = "?"%char)) by done.
        rewrite (bool_decide_eq_false_2 _ Hesc).
        rewrite IH by done. cbn [rev]. by rewrite <- app_assoc.
Qed.

Lemma code_units_all c : c ∈ code_units.
Proof.
  unfold code_units. apply list_elem_of_fmap. exists (nat_of_ascii c).
  split; [by rewrite ascii_nat_embedding|].
  apply elem_of_seq. pose proof (nat_ascii_bounded c). lia.
Qed.

Lemma N_of_ascii_eqb c d : N.eqb (N_of_ascii c) (N_of_ascii d) = bool_decide (c = d).
Proof.
  case_bool_decide as H; [subst; apply N.eqb_refl|].
  apply N.eqb_neq. intros Heq. apply H.
  by rewrite <- (ascii_N_embedding c), <- (ascii_N_embedding d), Heq.
Qed.

Lemma canonicalize_same_letter c d :
  canonicalize c = canonicalize d ↔ same_letter c d.
Proof.
  assert (Hall : forallb (λ x, forallb (λ y,
            Bool.eqb (N.eqb x.1 y.1) (N.eqb x.2 y.2)) case_table) case_table = true)
    by (vm_compute; reflexivity).
  assert (Hin : ∀ c, In (N_of_ascii (canonicalize c), N_of_ascii (to_lower c)) case_table).
  { intros c'. apply list_elem_of_In. unfold case_table.
    apply list_elem_of_fmap. exists c'. split; [done|apply code_units_all]. }
  rewrite forallb_forall in Hall. specialize (Hall _ (Hin c)).
  rewrite forallb_forall in Hall. specialize (Hall _ (Hin d)).
  cbn [fst snd] in Hall. rewrite !N_of_ascii_eqb in Hall.
  apply Bool.eqb_prop in Hall. unfold same_letter.
  rewrite <- (bool_decide_eq_true (canonicalize c = canonicalize d)).
  rewrite <- (bool_decide_eq_true (to_lower c = to_lower d)).
  by rewrite Hall.
Qed.

Lemma star_match_spec (ok : ascii → bool) (k : list ascii → bool) s :
  star_match ok k s = true ↔
  ∃ run rest, s = run ++ rest ∧ forallb ok run = true ∧ k rest = true.
Proof.
  induction s as [|c s IH]; cbn [star_match].
  - rewrite orb_false_r. split.
    + intros Hk. by exists [], [].
    + intros (run & rest & Heq & _ & Hk). symmetry in Heq.
      apply app_eq_nil in Heq as [-> ->]. done.
  - rewrite orb_true_iff, andb_true_iff, IH. split.
    + intros [Hk|[Hc (run & rest & -> & Hrun & Hk)]].
      * by exists [], (c :: s).
      * exists (c :: run), rest. cbn. by rewrite Hc, Hrun.
    + intros ([|c' run] & rest & Heq & Hrun & Hk); cbn in *.
      * left. by subst.
      * right. simplify_eq. apply andb_true_iff in Hrun as [? ?]. eauto 6.
Qed.

Lemma match_terms_wildcard p : ∀ t,
  match_terms (terms_of p) t = true ↔ wildcard not_line_terminator p t.
Proof.
  induction p as [|c p IH]; intros t.
  - cbn. rewrite bool_decide_eq_true. split; [intros ->; constructor|by inversion 1].
  - unfold terms_of. rewrite fmap_cons. fold (terms_of p).
    destruct (decide (c = "*"%char)) as [->|Hstar].
    + rewrite bool_decide_eq_true_2 by done. cbn [match_terms t_quant t_atom].
      rewrite star_match_spec. split.
      * intros (run & rest & -> & Hrun & Hk). apply wild_star; [done|by apply IH].
      * inversion 1 as [|? run rest Hrun Hw|]; subst; [|done].
        exists run, rest. split_and!; [done|done|by apply IH].
    + rewrite bool_decide_eq_false_2 by done. cbn [match_terms t_quant t_atom].
      destruct t as [|d t].
      * split; [done|]. inversion 1; subst; done.
      * rewrite andb_true_iff, IH. cbn [atom_matches].
        rewrite bool_decide_eq_true, canonicalize_same_letter. split.
        -- intros [? ?]. by apply wild_char.
        -- inversion 1; subst; done.
Qed.

Lemma wildcard_refl p : wildcard not_line_terminator p p.
Proof.
  induction p as [|c p IH]; [constructor|].
  destruct (decide (c = "*"%char)) as [->|Hstar].
  - by apply (wild_star _ p ["*"%char] p).
  - by apply wild_char.
Qed.

Lemma matchPattern_spec pattern text :
  pattern ≠ EmptyString → text ≠ EmptyString → "?"%char ∉ Str.chars pattern →
  matchPattern pattern text = true ↔
  pattern = "*" ∨ wildcard not_line_terminator (Str.chars pattern) (Str.chars text).
Proof.
  intros Hp Ht Hq. unfold matchPattern.
  rewrite (bool_decide_eq_false_2 _ Hp), (bool_decide_eq_false_2 _ Ht). cbn [orb].
  case_bool_decide as Hs; [by split; auto|].
  case_bool_decide as He.
  { split; [|done]. intros _. right. subst. apply wildcard_refl. }
  rewrite parse_escaped by done. cbn [rev app].
  rewrite match_terms_wildcard. split; [auto|]. by intros [?|?].
Qed.

End glob_facts.

(** C4 (as stated, refuted). The matcher answers [false] for the empty
    text, also under the pattern [*]; a run containing a line terminator is
    not matched by [*] inside a longer pattern; and [?] is not taken
    literally. *)
Lemma C4_counterexample :
  Glob.matchPattern "*" EmptyString = false
  ∧ Glob.matchPattern "a*b" (String "a" (String "010" (String "b" EmptyString))) = false
  ∧ Glob.matchPattern "ab?" "a" = true.
Proof. by vm_compute. Qed.

(** C4 (amended). For a pattern and a text of characters below U+0100,
    neither of them empty, [match("*", text)] holds; a pattern without [?]
    matches the text exactly when it is [*] or the text is the pattern with
    every [*] replaced by a run, possibly empty, of characters other than
    line terminators, every other character standing for itself and
    letters, those of Latin-1 included, compared without regard to case;
    [match("*sonnet*", "claude-3-5-sonnet-20241022")] holds,
    [match("*haiku*", "claude-sonnet-4")] does not, and the pattern of
    U+00E9 and [*] matches the text of U+00C9 and [cole]; an empty pattern
    or text never matches. *)
Theorem C4_match_pattern (pattern text : string) :
  pattern ≠ EmptyString → text ≠ EmptyString →
  Glob.matchPattern "*" text = true
  ∧ ("?"%char ∉ Str.chars pattern →
     (Glob.matchPattern pattern text = true ↔
      pattern = "*" ∨
      Glob.wildcard Glob.not_line_terminator (Str.chars pattern) (Str.chars text)))
  ∧ Glob.matchPattern "*sonnet*" "claude-3-5-sonnet-20241022" = true
  ∧ Glob.matchPattern "*haiku*" "claude-sonnet-4" = false
  ∧ Glob.matchPattern (String "233" "*") (String "201" "cole") = true
  ∧ Glob.matchPattern pattern EmptyString = false
  ∧ Glob.matchPattern EmptyString text = false.
Proof.
  intros Hp Ht. split_and!.
  - unfold Glob.matchPattern. by rewrite (bool_decide_eq_false_2 _ Ht).
  - intros Hq. by apply matchPattern_spec.
  - by vm_compute.
  - by vm_compute.
  - by vm_compute.
  - unfold Glob.matchPattern. by rewrite orb_true_r.
  - done.
Qed.

Lemma C4_witness :
  Glob.matchPattern "*" "claude-sonnet-4" = true
  ∧ (Glob.matchPattern "Claude-*-4" "claude-sonnet-4" = true ↔
     "Claude-*-4" = "*" ∨
     Glob.wildcard Glob.not_line_terminator
       (Str.chars "Claude-*-4") (Str.chars "claude-sonnet-4")).
Proof.
  destruct (C4_match_pattern "Claude-*-4" "claude-sonnet-4") as (H1 & H2 & _).
  - discriminate.
  - discriminate.
  - split; [exact H1|]. apply H2. apply (bool_decide_unpack _). by vm_compute.
Defined.

(** ** Numbers *)

Section num_facts.

Lemma round_comp (x y : Q) : (x == y)%Q → Num.round x = Num.round y.
Proof. intros Hxy. unfold Num.round. by rewrite (Qred_complete _ _ Hxy). Qed.

Lemma nearest_even_le (y : Q) (M : Z) : (y <= inject_Z M)%Q → Num.nearest_even y ≤ M.
Proof.
  intros Hy. unfold Num.nearest_even.
  pose proof (Qfloor_le y) as Hf.
  assert (Qfloor y ≤ M) as HfM.
  { rewrite <- (Qfloor_Z M). by apply Qfloor_resp_le. }
  assert ((0 < y - inject_Z (Qfloor y))%Q → Qfloor y + 1 ≤ M) as Hup.
  { intros Hpos. destruct (decide (Qfloor y = M)) as [Heq|]; [|lia].
    rewrite Heq in Hpos. lra. }
  destruct (Qcompare_spec (y - inject_Z (Qfloor y)) (1 # 2)) as [Heq|Hlt|Hgt].
  - destruct (Z.even (Qfloor y)); [done|]. apply Hup. rewrite Heq. reflexivity.
  - done.
  - apply Hup. lra.
Qed.

Lemma nearest_even_nonneg (y : Q) : (0 <= y)%Q → 0 ≤ Num.nearest_even y.
Proof.
  intros Hy. unfold Num.nearest_even.
  assert (0 ≤ Qfloor y) by (change 0 with (Qfloor 0); by apply Qfloor_resp_le).
  destruct (_ ?= _)%Q; [destruct (Z.even _)|..]; lia.
Qed.

Lemma pow2_neg (e : Z) : e ≤ 0 → (Num.pow2 e == / inject_Z (2 ^ (- e)))%Q.
Proof.
  intros He. unfold Num.pow2.
  replace e with (- (- e)) at 1 by lia.
  rewrite Qpower_opp. apply Qinv_comp.
  rewrite Zpower_Qpower by lia. reflexivity.
Qed.

Lemma ilog2_small (a : Q) : (a < inject_Z (2 ^ 53))%Q → Num.ilog2 a ≤ 52.
Proof.
  intros Ha. unfold Num.ilog2. destruct (Qle_bool 1 a) eqn:H1.
  - apply Qle_bool_iff in H1.
    assert (1 ≤ Qfloor a) by (change 1 with (Qfloor 1); by apply Qfloor_resp_le).
    assert (Qfloor a < 2 ^ 53).
    { rewrite Zlt_Qlt. eapply Qle_lt_trans; [apply Qfloor_le|done]. }
    assert (Z.log2 (Qfloor a) < 53) by (apply Z.log2_lt_pow2; lia). lia.
  - pose proof (Z.log2_up_nonneg (Qceiling (/ a))). lia.
Qed.

(** Rounding to the nearest double does not leave the interval from 0 to
    an integer below 2^53: such an integer is a double. *)
Lemma round_small (x : Q) (K : Z) :
  (0 <= x)%Q → (x <= inject_Z K)%Q → K < 2 ^ 53 →
  ∃ x', Num.round x = Num.Fin x' ∧ (0 <= x')%Q ∧ (x' <= inject_Z K)%Q.
Proof.
  intros H0 HK Hsmall. unfold Num.round.
  assert (Hred : (Qred x == x)%Q) by apply Qred_correct.
  revert Hred. generalize (Qred x). intros y Hy.
  assert (H0y : (0 <= y)%Q) by (by rewrite Hy).
  assert (HKy : (y <= inject_Z K)%Q) by (by rewrite Hy).
  clear x H0 HK Hy. unfold Num.nearest.
  assert (Qabs y = y) as ->.
  { destruct y as [n d]. unfold Qabs. f_equal. apply Z.abs_eq.
    unfold Qle in H0y. cbn in H0y. lia. }
  destruct (Qeq_bool y 0); [exists 0%Q; split; [done|]; split; [lra|]|].
  { eapply Qle_trans; [exact H0y|exact HKy]. }
  set (e := Z.max (Num.ilog2 y - 52) (-1074)).
  assert (He : e ≤ 0).
  { assert (Num.ilog2 y ≤ 52); [|lia]. apply ilog2_small.
    eapply Qle_lt_trans; [exact HKy|]. rewrite <- Zlt_Qlt. done. }
  pose proof (pow2_neg e He) as Hp.
  set (P := 2 ^ (- e)) in *.
  assert (HP : 0 < P) by (apply Z.pow_pos_nonneg; lia).
  assert (HPq : (0 < inject_Z P)%Q) by (change 0%Q with (inject_Z 0); by rewrite <- Zlt_Qlt).
  set (m := Num.nearest_even (y / Num.pow2 e)).
  assert (Hdiv : (y / Num.pow2 e == y * inject_Z P)%Q).
  { rewrite Hp. field. lra. }
  assert (Hm0 : 0 ≤ m).
  { apply nearest_even_nonneg. rewrite Hdiv. nra. }
  assert (HmK : m ≤ K * P).
  { apply nearest_even_le. rewrite Hdiv, inject_Z_mult. nra. }
  assert (Hv : (inject_Z m * Num.pow2 e == inject_Z m / inject_Z P)%Q).
  { rewrite Hp. reflexivity. }
  assert (Hv0 : (0 <= inject_Z m * Num.pow2 e)%Q).
  { rewrite Hv. apply Qle_shift_div_l; [done|]. rewrite Qmult_0_l.
    change 0%Q with (inject_Z 0). by rewrite <- Zle_Qle. }
  assert (HvK : (inject_Z m * Num.pow2 e <= inject_Z K)%Q).
  { rewrite Hv. apply Qle_shift_div_r; [done|]. rewrite <- inject_Z_mult, <- Zle_Qle. done. }
  assert (Qle_bool (Num.pow2 1024) (inject_Z m * Num.pow2 e) = false) as ->.
  { destruct (Qle_bool _ _) eqn:Hle; [|done]. apply Qle_bool_iff in Hle.
    assert (inject_Z K < Num.pow2 1024)%Q; [|lra].
    apply Qlt_le_trans with (inject_Z (2 ^ 53)); [by rewrite <- Zlt_Qlt|].
    by vm_compute. }
  assert (Num.negative y = false) as ->.
  { unfold Num.negative. apply negb_false_iff. by apply Qle_bool_iff. }
  eexists. split; [reflexivity|]. rewrite Qred_correct. done.
Qed.

Lemma Math_round_small (x : Q) (K : Z) :
  (0 <= x)%Q → (x <= inject_Z K)%Q →
  ∃ k, Num.Math_round (Num.Fin x) = Num.of_Z k ∧ 0 ≤ k ≤ K.
Proof.
  intros H0 HK. exists (Qfloor (x + (1 # 2))). split; [done|]. split.
  - change 0 with (Qfloor 0). apply Qfloor_resp_le. lra.
  - pose proof (Qfloor_le (x + (1 # 2))) as Hle.
    assert (inject_Z (Qfloor (x + (1 # 2))) < inject_Z (K + 1))%Q as Hlt.
    { rewrite inject_Z_plus. change (inject_Z 1) with 1%Q. lra. }
    rewrite <- Zlt_Qlt in Hlt. lia.
Qed.

(** [Math.round(a / n * 100)] for the counts [0 <= a <= n] and [0 < n]. *)
Lemma percent_bounds (a n : Z) :
  0 ≤ a ≤ n → 0 < n →
  let p := Num.Math_round (Num.mul (Num.div (Num.of_Z a) (Num.of_Z n)) (Num.of_Z 100)) in
  (∃ k, p = Num.of_Z k ∧ 0 ≤ k ≤ 100)
  ∧ (a = 0 → p = Num.of_Z 0)
  ∧ (a = n → p = Num.of_Z 100).
Proof.
  intros Ha Hn. cbv zeta.
  assert (Hnq : (0 < inject_Z n)%Q) by (change 0%Q with (inject_Z 0); by rewrite <- Zlt_Qlt).
  assert (Hnz : Qeq_bool (inject_Z n) 0 = false).
  { destruct (Qeq_bool _ _) eqn:H; [|done]. apply Qeq_bool_eq in H. lra. }
  assert (Num.div (Num.of_Z a) (Num.of_Z n) = Num.round (inject_Z a / inject_Z n)) as ->.
  { unfold Num.div, Num.of_Z. by rewrite Hnz. }
  split_and!.
  - destruct (round_small (inject_Z a / inject_Z n) 1) as (q & -> & Hq0 & Hq1); [| |done|].
    { apply Qle_shift_div_l; [done|]. rewrite Qmult_0_l.
      change 0%Q with (inject_Z 0). rewrite <- Zle_Qle. lia. }
    { apply Qle_shift_div_r; [done|]. rewrite <- inject_Z_mult, <- Zle_Qle. lia. }
    unfold Num.mul, Num.of_Z.
    destruct (round_small (q * inject_Z 100) 100) as (p & -> & Hp0 & Hp1); [| |done|].
    { change (inject_Z 100) with 100%Q. change (inject_Z 1) with 1%Q in Hq1. lra. }
    { change (inject_Z 100) with 100%Q. change (inject_Z 1) with 1%Q in Hq1. lra. }
    by apply Math_round_small.
  - intros ->. rewrite (round_comp _ 0); [by vm_compute|].
    unfold Qdiv. change (inject_Z 0) with 0%Q. by rewrite Qmult_0_l.
  - intros ->. rewrite (round_comp _ 1); [by vm_compute|].
    unfold Qdiv. rewrite Qmult_inv_r; [reflexivity|lra].
Qed.

Lemma ltb_Fin (a b : Q) : Num.ltb (Num.Fin a) (Num.Fin b) = true ↔ (a < b)%Q.
Proof.
  cbn. rewrite negb_true_iff. split.
  - intros Hle. apply Qnot_le_lt. intros Hc. apply Qle_bool_iff in Hc. congruence.
  - intros Hlt. destruct (Qle_bool b a) eqn:Hle; [|done].
    apply Qle_bool_iff in Hle. lra.
Qed.

Lemma leb_Fin (a b : Q) : Num.leb (Num.Fin a) (Num.Fin b) = true ↔ (a <= b)%Q.
Proof. cbn. apply Qle_bool_iff. Qed.

Lemma or0_idem (x : Num.t) : Num.or0 (Num.or0 x) = Num.or0 x.
Proof. unfold Num.or0. destruct (Num.truthy x) eqn:H; [by rewrite H|done]. Qed.

Lemma mul_NaN_r (x : Num.t) : Num.mul x Num.NaN = Num.NaN.
Proof. by destruct x. Qed.

End num_facts.

(** The arithmetic of doubles at work: [0.1 + 0.2] is not [0.3] but the
    double next to it, and 86 tokens at 0.00025 USD per thousand come to
    0.000021 USD, the product [0.086 * 0.00025 * 1000000] falling just
    below 21.5. *)
Lemma doubles_at_work :
  Num.add (Num.round (1 # 10)) (Num.round (2 # 10))
  = Num.Fin (1351079888211149 # 4503599627370496)
  ∧ Num.round (3 # 10) = Num.Fin (5404319552844595 # 18014398509481984)
  ∧ Num.mul (Num.mul (Num.div (Num.of_Z 86) (Num.of_Z 1000)) (Num.round (25 # 100000)))
            (Num.of_Z 1000000)
    = Num.Fin (6051711999279103 # 281474976710656)
  ∧ Num.round6 (Num.mul (Num.div (Num.of_Z 86) (Num.of_Z 1000)) (Num.round (25 # 100000)))
    = Num.div (Num.of_Z 21) (Num.of_Z 1000000).
Proof. split_and!; by vm_compute. Qed.

(** ** Pricing and daily files *)

Section usage_facts.
Import JS Extract Usage.

Lemma category_cost_num {rt : Runtime} (t : Q) (price : Num.t) :
  category_cost (JNum t) price
  = Num.mul (Num.div (Num.round t) (Num.of_Z 1000)) price.
Proof.
  unfold category_cost, or0, number. cbn [truthy].
  destruct (Qeq_bool t 0) eqn:Ht; cbn [negb toNumber]; [|done].
  apply Qeq_bool_eq in Ht. by rewrite (round_comp t 0).
Qed.

Lemma count_merge t r : count t r = mergeUsageAggregation t (single r).
Proof.
  unfold count, mergeUsageAggregation, single.
  cbn [totalRequests totalTokens sumInputTokens sumOutputTokens sumCacheCreationTokens
       sumCacheReadTokens totalDuration errorCount sumTotalCost sumInputCost
       sumOutputCost sumCacheCreationCost sumCacheReadCost].
  by rewrite !or0_idem.
Qed.

Lemma foldl_add_record rs : ∀ a,
  let t := totals (foldl add_record a rs) in
  let t0 := totals a in
  totalRequests t = totalRequests t0 + Z.of_nat (length rs)
  ∧ totalTokens t = totalTokens t0 + sumZ_of r_totalTokens rs
  ∧ sumInputTokens t = sumInputTokens t0 + sumZ_of r_inputTokens rs
  ∧ sumOutputTokens t = sumOutputTokens t0 + sumZ_of r_outputTokens rs
  ∧ sumCacheCreationTokens t = sumCacheCreationTokens t0 + sumZ_of r_cacheCreationTokens rs
  ∧ sumCacheReadTokens t = sumCacheReadTokens t0 + sumZ_of r_cacheReadTokens rs
  ∧ totalDuration t = totalDuration t0 + sumZ_of r_duration rs
  ∧ errorCount t = errorCount t0
      + sumZ_of (λ r, if bool_decide (400 ≤ r_statusCode r) then 1 else 0) rs
  ∧ sumTotalCost t = sumN_from r_totalCost (sumTotalCost t0) rs
  ∧ sumInputCost t = sumN_from r_inputCost (sumInputCost t0) rs
  ∧ sumOutputCost t = sumN_from r_outputCost (sumOutputCost t0) rs
  ∧ sumCacheCreationCost t = sumN_from r_cacheCreationCost (sumCacheCreationCost t0) rs
  ∧ sumCacheReadCost t = sumN_from r_cacheReadCost (sumCacheReadCost t0) rs.
Proof.
  induction rs as [|r rs IH]; intros a; cbv zeta.
  - cbn [foldl length sumZ_of sumN_from foldr]. split_and!; try lia; done.
  - cbn [foldl]. specialize (IH (add_record a r)). cbv zeta in IH.
    destruct IH as (H1 & H2 & H3 & H4 & H5 & H6 & H7 & H8 & H9 & H10 & H11 & H12 & H13).
    rewrite H1, H2, H3, H4, H5, H6, H7, H8, H9, H10, H11, H12, H13.
    unfold sumZ_of, sumN_from.
    cbn [length foldr foldl add_record totals count
         totalRequests totalTokens sumInputTokens sumOutputTokens sumCacheCreationTokens
         sumCacheReadTokens totalDuration errorCount sumTotalCost sumInputCost
         sumOutputCost sumCacheCreationCost sumCacheReadCost].
    split_and!; try lia; done.
Qed.

Lemma with_averages_sums t rs : sums_of t rs → sums_of (with_averages t) rs.
Proof. unfold with_averages. by case_bool_decide. Qed.

Lemma totals_from_empty rs :
  sums_of (totals (foldl add_record (mkAggregation emptyTotals ∅ ∅) rs)) rs.
Proof.
  pose proof (foldl_add_record rs (mkAggregation emptyTotals ∅ ∅)) as H. cbv zeta in H.
  destruct H as (H1 & H2 & H3 & H4 & H5 & H6 & H7 & H8 & H9 & H10 & H11 & H12 & H13).
  unfold sums_of. rewrite H1, H2, H3, H4, H5, H6, H7, H8, H9, H10, H11, H12, H13.
  cbn [totals emptyTotals
       totalRequests totalTokens sumInputTokens sumOutputTokens sumCacheCreationTokens
       sumCacheReadTokens totalDuration errorCount sumTotalCost sumInputCost
       sumOutputCost sumCacheCreationCost sumCacheReadCost].
  split_and!; try lia; done.
Qed.

Lemma aggregate_sums rs : sums_of (totals (aggregateUsageRecords rs)) rs.
Proof.
  unfold aggregateUsageRecords. cbn [totals]. apply with_averages_sums.
  apply totals_from_empty.
Qed.

Lemma parse_all_Ok parseLine lines : ∀ records,
  parse_all parseLine lines = Ok records ↔ parseLine <$> lines = Some <$> records.
Proof.
  induction lines as [|line lines IH]; intros records; cbn [parse_all].
  - split; [by intros [= <-]|]. by destruct records.
  - rewrite fmap_cons. destruct (parseLine line) as [r|] eqn:Hr.
    + destruct (parse_all parseLine lines) as [rs|e] eqn:Hrs; cbn.
      * split.
        -- intros [= <-]. rewrite fmap_cons. f_equal. by apply IH.
        -- destruct records as [|r' records]; [done|]. rewrite fmap_cons.
           intros [= -> Hrest]. apply IH in Hrest. by simplify_eq.
      * split; [done|]. destruct records as [|r' records]; [done|].
        rewrite fmap_cons. intros [= -> Hrest]. by apply IH in Hrest.
    + split; [done|]. by destruct records.
Qed.

Lemma parse_all_malformed parseLine lines line :
  line ∈ lines → parseLine line = None → parse_all parseLine lines = Throw ParseError.
Proof.
  induction lines as [|l lines IH]; intros Hin Hnone; [by apply elem_of_nil in Hin|].
  cbn [parse_all]. apply elem_of_cons in Hin as [<-|Hin].
  - by rewrite Hnone.
  - destruct (parseLine l); [|done]. by rewrite IH.
Qed.

Lemma nonblank_lines_nonblank content line :
  line ∈ nonblank_lines content → Str.trim (Str.chars line) ≠ [].
Proof.
  unfold nonblank_lines. intros (l & -> & Hl)%list_elem_of_fmap.
  apply list_elem_of_filter in Hl as [Hl _].
  unfold Str.chars, Str.of_chars. by rewrite list_ascii_of_string_of_list_ascii.
Qed.

End usage_facts.

(** C5 (as stated, refuted). A daily file whose second line was cut off:
    the first line is a well-formed record, yet reading the day throws
    instead of aggregating that record. *)
Lemma C5_counterexample :
  let content := (Demo.line50 ++ Demo.newline ++ Demo.brokenLine)%string in
  omap Demo.parseLine (Usage.nonblank_lines content) = [Demo.record 50]
  ∧ Usage.getDailyUsage Demo.parseLine (Usage.Content content) = Throw Usage.ParseError
  ∧ Usage.getDailyUsage Demo.parseLine (Usage.Content content)
    ≠ Ok (Usage.aggregateUsageRecords [Demo.record 50]).
Proof. cbv zeta. split_and!; [by vm_compute|by vm_compute|]. by vm_compute. Qed.

(** C5 (amended). [getDailyUsage] reads the day file and skips the blank
    lines; when every remaining line parses it returns the aggregation of
    those records, whose counters are the sums over the records and whose
    costs are the costs of the records added as doubles, in the order of
    the lines; when some remaining line does not parse it throws and
    nothing is aggregated. *)
Theorem C5_daily_usage (parseLine : string → option Usage.UsageRecord) (content : string) :
  (∀ line, line ∈ Usage.nonblank_lines content → Str.trim (Str.chars line) ≠ [])
  ∧ (∀ records,
       parseLine <$> Usage.nonblank_lines content = Some <$> records →
       Usage.getDailyUsage parseLine (Usage.Content content)
       = Ok (Usage.aggregateUsageRecords records)
       ∧ Usage.sums_of (Usage.totals (Usage.aggregateUsageRecords records)) records)
  ∧ (∀ line, line ∈ Usage.nonblank_lines content → parseLine line = None →
       Usage.getDailyUsage parseLine (Usage.Content content) = Throw Usage.ParseError).
Proof.
  split_and!.
  - apply nonblank_lines_nonblank.
  - intros records Hall. apply parse_all_Ok in Hall. split; [|apply aggregate_sums].
    unfold Usage.getDailyUsage. by rewrite Hall.
  - intros line Hin Hnone. unfold Usage.getDailyUsage.
    by rewrite (parse_all_malformed parseLine _ line Hin Hnone).
Qed.

(** Two records that cost 0.1 and 0.2 USD, with a blank line between
    their lines: the day costs 0.30000000000000004 USD. *)
Lemma C5_witness :
  let content := (Demo.line01 ++ Demo.newline ++ "   " ++ Demo.newline ++ Demo.line02)%string in
  let records := [Demo.record (1 # 10); Demo.record (2 # 10)] in
  Usage.getDailyUsage Demo.parseLine (Usage.Content content)
  = Ok (Usage.aggregateUsageRecords records)
  ∧ Usage.sumTotalCost (Usage.totals (Usage.aggregateUsageRecords records))
    = Num.Fin (1351079888211149 # 4503599627370496)
  ∧ Usage.totalRequests (Usage.totals (Usage.aggregateUsageRecords records)) = 2.
Proof.
  cbv zeta.
  destruct (C5_daily_usage Demo.parseLine
              (Demo.line01 ++ Demo.newline ++ "   " ++ Demo.newline ++ Demo.line02)%string)
    as (_ & Hok & _).
  destruct (Hok [Demo.record (1 # 10); Demo.record (2 # 10)]) as [Hagg Hsums].
  - by vm_compute.
  - split; [exact Hagg|].
    destruct Hsums as (Hn & _ & _ & _ & _ & _ & _ & _ & Hcost & _).
    split; [rewrite Hcost; by vm_compute|exact Hn].
Defined.

Section pricing_samples.
#[local] Existing Instance Demo.runtime.

(** C7 (as stated, refuted). With one token of each kind at the sample
    prices the four returned costs are 0, 0.000001, 0 and 0, whose sum
    rounds to 0.000001, while the returned total is 0.000002. *)
Lemma C7_counterexample :
  let c := Usage.calculateCost Demo.pricing "claude-3-5-haiku-20241022" Demo.oneEach in
  let millionths (k : Z) := Num.div (Num.of_Z k) (Num.of_Z 1000000) in
  Usage.inputCost c = millionths 0
  ∧ Usage.outputCost c = millionths 1
  ∧ Usage.cacheCreationCost c = millionths 0
  ∧ Usage.cacheReadCost c = millionths 0
  ∧ Usage.totalCost c = millionths 2
  ∧ Num.round6 (Num.add (Num.add (Num.add (Usage.inputCost c) (Usage.outputCost c))
                                 (Usage.cacheCreationCost c)) (Usage.cacheReadCost c))
    = millionths 1
  ∧ Usage.totalCost c
    ≠ Num.round6 (Num.add (Num.add (Num.add (Usage.inputCost c) (Usage.outputCost c))
                                   (Usage.cacheCreationCost c)) (Usage.cacheReadCost c)).
Proof. cbv zeta. split_and!; by vm_compute. Qed.

End pricing_samples.

(** C7 (amended). In the arithmetic of doubles: when the pricing table has
    an entry for the model, under its name or under a pattern that matches
    it, each returned category cost is [tokens / 1000 * price] rounded to
    six decimals, and the returned total is the sum of the four unrounded
    category costs rounded once; when nothing is found all five are zero;
    and for a model named as a property of [Object.prototype] that the
    table does not hold, all five are [NaN]. Rounding [x] to six decimals
    is [Math.round(x * 1000000) / 1000000]: the integer nearest to the
    double [x * 1000000], halves upwards, divided by a million. *)
Theorem C7_calculate_cost {rt : JS.Runtime} (table : list (string * Usage.Pricing))
    (model : string) (tin tout tcc tcr : Q) :
  let usage := Extract.mkTokenUsage (JS.JNum tin) (JS.JNum tout) (JS.JNum tcc) (JS.JNum tcr) in
  let c := Usage.calculateCost table model usage in
  let cost (tokens : Q) (price : Num.t) :=
    Num.mul (Num.div (Num.round tokens) (Num.of_Z 1000)) price in
  (∀ pricing, Usage.findMatchingLimits table model = Some pricing →
     let i := cost tin (Usage.p_input pricing) in
     let o := cost tout (Usage.p_output pricing) in
     let cc := cost tcc (Usage.p_cacheCreation pricing) in
     let cr := cost tcr (Usage.p_cacheRead pricing) in
     Usage.inputCost c = Num.round6 i ∧
     Usage.outputCost c = Num.round6 o ∧
     Usage.cacheCreationCost c = Num.round6 cc ∧
     Usage.cacheReadCost c = Num.round6 cr ∧
     Usage.totalCost c = Num.round6 (Num.add (Num.add (Num.add i o) cc) cr))
  ∧ (Usage.findMatchingLimits table model = None →
     c = Usage.mkCost Num.zero Num.zero Num.zero Num.zero Num.zero)
  ∧ (model ∈ JS.Object_prototype → JS.assoc model table = None →
     c = Usage.mkCost Num.NaN Num.NaN Num.NaN Num.NaN Num.NaN)
  ∧ (∀ x y : Q, Num.mul (Num.Fin x) (Num.of_Z 1000000) = Num.Fin y →
       ∃ k : Z,
         Num.round6 (Num.Fin x) = Num.div (Num.of_Z k) (Num.of_Z 1000000)
         ∧ (y - (1 # 2) < inject_Z k)%Q
         ∧ (inject_Z k <= y + (1 # 2))%Q).
Proof.
  cbv zeta. split_and!.
  - intros pricing Hp. unfold Usage.calculateCost. rewrite Hp.
    cbn [Usage.inputCost Usage.outputCost Usage.cacheCreationCost Usage.cacheReadCost
         Usage.totalCost Extract.inputTokens Extract.outputTokens
         Extract.cacheCreationTokens Extract.cacheReadTokens].
    by rewrite !category_cost_num.
  - intros Hp. unfold Usage.calculateCost. by rewrite Hp.
  - intros Hin Hown. unfold Usage.calculateCost, Usage.findMatchingLimits.
    rewrite bool_decide_eq_false_2 by (intros ->; by apply (bool_decide_pack _) in Hin).
    rewrite Hown, (bool_decide_eq_true_2 _ Hin).
    cbn [Usage.inherited Usage.p_input Usage.p_output Usage.p_cacheCreation Usage.p_cacheRead].
    unfold Usage.category_cost. by rewrite !mul_NaN_r.
  - intros x y Hy. exists (Qfloor (y + (1 # 2))). split; [|split].
    + unfold Num.round6. by rewrite Hy.
    + pose proof (Qlt_floor (y + (1 # 2))) as Hlt.
      rewrite inject_Z_plus in Hlt. change (inject_Z 1) with 1%Q in Hlt. lra.
    + apply Qfloor_le.
Qed.

Section pricing_witness.
#[local] Existing Instance Demo.runtime.

Lemma C7_witness :
  let cost (tokens : Q) (price : Num.t) :=
    Num.mul (Num.div (Num.round tokens) (Num.of_Z 1000)) price in
  Usage.totalCost
    (Usage.calculateCost Demo.pricing "claude-3-5-haiku-20241022"
       (Extract.mkTokenUsage (JS.JNum 100) (JS.JNum 50) (JS.JNum 0) (JS.JNum 0)))
  = Num.round6 (Num.add (Num.add (Num.add (cost 100%Q (Demo.literal 25 100000))
                                          (cost 50%Q (Demo.literal 125 100000)))
                                 (cost 0%Q (Demo.literal 3 10000)))
                        (cost 0%Q (Demo.literal 3 100000))).
Proof.
  cbv zeta.
  destruct (C7_calculate_cost Demo.pricing "claude-3-5-haiku-20241022" 100 50 0 0)
    as (Hcost & _).
  destruct (Hcost (Usage.mkPricing (Demo.literal 25 100000) (Demo.literal 125 100000)
                                   (Demo.literal 3 10000) (Demo.literal 3 100000)))
    as (_ & _ & _ & _ & Htotal).
  - by vm_compute.
  - exact Htotal.
Defined.

End pricing_witness.
(** ** The load balancer *)

Section lb_facts.
Import LB.

Section wrr.
Implicit Types (us : list Upstream) (u s : Upstream) (m : gmap string (option Z)).

Lemma foldl_sum_acc us a :
  foldl (λ sum u, sum + weight_of u) a us = a + sumZ weight_of us.
Proof.
  revert a; induction us as [|u us IH]; intros a; simpl; [lia|].
  rewrite IH. lia.
Qed.

Lemma totalWeight_sumZ us : totalWeight us = sumZ weight_of us.
Proof. unfold totalWeight. rewrite foldl_sum_acc. lia. Qed.

Lemma sumZ_plus f g us : sumZ (λ u, f u + g u) us = sumZ f us + sumZ g us.
Proof. induction us as [|u us IH]; simpl; lia. Qed.

Lemma sumZ_scale a f us : sumZ (λ u, a * f u) us = a * sumZ f us.
Proof. induction us as [|u us IH]; simpl; lia. Qed.

Lemma sumZ_ext f g us : (∀ u, u ∈ us → f u = g u) → sumZ f us = sumZ g us.
Proof.
  induction us as [|u us IH]; intros H; simpl; [done|].
  rewrite (H u), IH; [done| |]; intros; try apply H; set_solver.
Qed.

Lemma sumZ_le f g us : (∀ u, u ∈ us → f u ≤ g u) → sumZ f us ≤ sumZ g us.
Proof.
  induction us as [|u us IH]; intros H; simpl; [lia|].
  assert (f u ≤ g u) by (apply H; set_solver).
  assert (sumZ f us ≤ sumZ g us) by (apply IH; intros; apply H; set_solver).
  lia.
Qed.

Lemma sumZ_le_eq f g us :
  (∀ u, u ∈ us → f u ≤ g u) → sumZ f us = sumZ g us → ∀ u, u ∈ us → f u = g u.
Proof.
  induction us as [|u0 us IH]; intros Hle Heq u Hu; [set_solver|].
  simpl in Heq.
  assert (f u0 ≤ g u0) by (apply Hle, elem_of_cons; auto).
  assert (sumZ f us ≤ sumZ g us)
    by (apply sumZ_le; intros; apply Hle, elem_of_cons; auto).
  apply elem_of_cons in Hu as [->|Hu]; [lia|].
  apply IH; [intros; apply Hle, elem_of_cons; auto|lia|done].
Qed.

Lemma sumZ_pos_witness f us : 0 < sumZ f us → ∃ u, u ∈ us ∧ 0 < f u.
Proof.
  induction us as [|u us IH]; simpl; [lia|]. intros H.
  destruct (decide (0 < f u)) as [Hu|Hu]; [exists u; set_solver|].
  destruct IH as (v & Hv & Hpos); [lia|]. exists v; set_solver.
Qed.

Lemma NoDup_ids_inj us u v :
  NoDup (ids us) → u ∈ us → v ∈ us → up_id u = up_id v → u = v.
Proof.
  unfold ids. induction us as [|x us IH]; intros Hnd Hu Hv Heq; [set_solver|].
  rewrite fmap_cons in Hnd. apply NoDup_cons in Hnd as [Hx Hnd].
  apply elem_of_cons in Hu as [->|Hu]; apply elem_of_cons in Hv as [->|Hv]; auto.
  - exfalso. apply Hx. rewrite Heq. by apply list_elem_of_fmap_2.
  - exfalso. apply Hx. rewrite <- Heq. by apply list_elem_of_fmap_2.
Qed.

Lemma initCounters_acc us m i :
  foldl (λ m u, <[up_id u := Some 0]> m) m us !! i
  = if bool_decide (i ∈ ids us) then Some (Some 0) else m !! i.
Proof.
  revert m; induction us as [|u us IH]; intros m.
  - rewrite bool_decide_eq_false_2; [done|]. unfold ids. set_solver.
  - cbn [foldl]. rewrite IH. unfold ids. rewrite fmap_cons.
    destruct (decide (i ∈ up_id <$> us)) as [Hin|Hin].
    + rewrite !bool_decide_eq_true_2; [done| |done]. set_solver.
    + rewrite (bool_decide_eq_false_2 _ Hin).
      destruct (decide (up_id u = i)) as [<-|Hne].
      * rewrite lookup_insert_eq, bool_decide_eq_true_2; [done|]. set_solver.
      * rewrite lookup_insert_ne, bool_decide_eq_false_2; [done| |done]. set_solver.
Qed.

Lemma initCounters_lookup us i :
  initCounters us !! i = if bool_decide (i ∈ ids us) then Some (Some 0) else None.
Proof. unfold initCounters. by rewrite initCounters_acc. Qed.


Lemma counter_num m i c : m !! i = Some (Some c) → counter m i = Some c.
Proof. unfold counter. by intros ->. Qed.

(** The [forEach]: every candidate's counter grows by its weight, and the
    candidate kept is the first one whose new counter is the largest. *)
Lemma foldl_bump_spec us : ∀ m sel mx (c : Upstream → Z),
  NoDup (ids us) →
  (∀ u, u ∈ us → m !! up_id u = Some (Some (c u))) →
  ∃ m' sel' mx',
    foldl bump (m, sel, mx) us = (m', sel', mx') ∧
    (∀ i, i ∉ ids us → m' !! i = m !! i) ∧
    (∀ u, u ∈ us → m' !! up_id u = Some (Some (c u + weight_of u))) ∧
    ((sel' = sel ∧ mx' = mx ∧ ∀ u, u ∈ us → c u + weight_of u ≤ mx) ∨
     (∃ pre s post,
        us = pre ++ s :: post ∧ sel' = Some s ∧ mx' = c s + weight_of s ∧ mx < mx' ∧
        (∀ u, u ∈ pre → c u + weight_of u < mx') ∧
        (∀ u, u ∈ post → c u + weight_of u ≤ mx'))).
Proof.
  induction us as [|u us IH]; intros m sel mx c Hnd Hm.
  - exists m, sel, mx. split_and!; [done|done|intros ? []%elem_of_nil|].
    left. split_and!; [done|done|intros ? []%elem_of_nil].
  - unfold ids in Hnd. rewrite fmap_cons in Hnd.
    apply NoDup_cons in Hnd as [Hu Hnd].
    assert (Hcu : counter m (up_id u) = Some (c u))
      by (apply counter_num, Hm, elem_of_cons; auto).
    assert (Hrest : ∀ v, v ∈ us →
              <[up_id u := Some (c u + weight_of u)]> m !! up_id v = Some (Some (c v))).
    { intros v Hv. rewrite lookup_insert_ne.
      - apply Hm, elem_of_cons; auto.
      - intros Heq. apply Hu. rewrite Heq. by apply list_elem_of_fmap_2. }
    cbn [foldl]. unfold bump at 2. rewrite Hcu. cbn [fmap option_fmap option_map].
    set (cw := c u + weight_of u) in *.
    set (m1 := <[up_id u := Some cw]> m) in *.
    assert (Hout : ∀ m', (∀ i, i ∉ ids us → m' !! i = m1 !! i) →
              ∀ i, i ∉ ids (u :: us) → m' !! i = m !! i).
    { intros m' H i Hi. unfold ids in Hi. rewrite fmap_cons in Hi.
      rewrite H; [|intros ?; apply Hi, elem_of_cons; auto].
      unfold m1. rewrite lookup_insert_ne; [done|].
      intros <-. apply Hi, elem_of_cons; auto. }
    assert (Hin : ∀ m', (∀ i, i ∉ ids us → m' !! i = m1 !! i) →
              (∀ v, v ∈ us → m' !! up_id v = Some (Some (c v + weight_of v))) →
              ∀ v, v ∈ u :: us → m' !! up_id v = Some (Some (c v + weight_of v))).
    { intros m' H1 H2 v [->|Hv]%elem_of_cons; [|by apply H2].
      rewrite H1; [|done]. unfold m1. by rewrite lookup_insert_eq. }
    destruct (decide (mx < cw)) as [Hlt|Hge].
    + destruct (IH m1 (Some u) cw c Hnd Hrest)
        as (m' & sel' & mx' & Hf & Ho & Hi & Hs).
      exists m', sel', mx'. split_and!; [done|by apply Hout|by apply Hin|].
      right. destruct Hs as [(-> & -> & Hle)|(pre & s & post & -> & -> & -> & ? & Hpre & Hpost)].
      * exists [], u, us. split_and!; [done|done|done|done|intros ? []%elem_of_nil|done].
      * exists (u :: pre), s, post. split_and!; [done|done|done|lia| |done].
        intros v [->|Hv]%elem_of_cons; [done|by apply Hpre].
    + destruct (IH m1 sel mx c Hnd Hrest)
        as (m' & sel' & mx' & Hf & Ho & Hi & Hs).
      exists m', sel', mx'. split_and!; [done|by apply Hout|by apply Hin|].
      destruct Hs as [(-> & -> & Hle)|(pre & s & post & -> & -> & -> & ? & Hpre & Hpost)].
      * left. split_and!; [done|done|].
        intros v [->|Hv]%elem_of_cons; [fold cw; lia|by apply Hle].
      * right. exists (u :: pre), s, post. split_and!; [done|done|done|lia| |done].
        intros v [->|Hv]%elem_of_cons; [fold cw; lia|by apply Hpre].
Qed.


Lemma length_nonzero {A} (l : list A) : l ≠ [] → length l ≠ 0%nat.
Proof. by destruct l. Qed.

(** One weighted selection from numeric counters [c]. *)
Lemma wrr_step us st m (c : Upstream → Z) :
  us ≠ [] → NoDup (ids us) → totalWeight us ≠ 0 →
  weightCounters st = Some m ∨ (weightCounters st = None ∧ m = initCounters us) →
  (∀ u, u ∈ us → m !! up_id u = Some (Some (c u))) →
  (∃ u, u ∈ us ∧ -1 < c u + weight_of u) →
  ∃ pre s post m',
    weightedRoundRobinSelection us st = Ok (Some s, with_counters st m') ∧
    us = pre ++ s :: post ∧
    (∀ u, u ∈ pre → c u + weight_of u < c s + weight_of s) ∧
    (∀ u, u ∈ post → c u + weight_of u ≤ c s + weight_of s) ∧
    (∀ i, i ∉ ids us → m' !! i = m !! i) ∧
    (∀ u, u ∈ us → m' !! up_id u =
       Some (Some (c u + weight_of u - (if decide (u = s) then totalWeight us else 0)))).
Proof.
  intros Hne Hnd HW Hwc Hm (u0 & Hu0 & Hpos).
  unfold weightedRoundRobinSelection.
  rewrite decide_False by by apply length_nonzero.
  rewrite decide_False by done.
  assert (match weightCounters st with Some m => m | None => initCounters us end = m)
    as -> by (by destruct Hwc as [->|[-> ->]]).
  destruct (foldl_bump_spec us m None (-1) c Hnd Hm)
    as (m1 & sel & mx & -> & Ho & Hi & Hs).
  destruct Hs as [(_ & _ & Hle)|(pre & s & post & Hus & -> & -> & _ & Hpre & Hpost)].
  { specialize (Hle u0 Hu0). lia. }
  assert (Hs : s ∈ us) by (rewrite Hus; set_solver).
  exists pre, s, post.
  rewrite (counter_num _ _ _ (Hi s Hs)). cbn [fmap option_fmap option_map].
  eexists. split_and!; [reflexivity|done|done|done| |].
  - intros i Hi'. rewrite lookup_insert_ne; [by apply Ho|].
    intros <-. apply Hi'. by apply list_elem_of_fmap_2.
  - intros u Hu. destruct (decide (u = s)) as [->|Hne'].
    + by rewrite lookup_insert_eq.
    + rewrite lookup_insert_ne.
      * rewrite Hi by done. do 2 f_equal. lia.
      * intros Heq. apply Hne'. symmetry. by apply (NoDup_ids_inj us).
Qed.

Lemma occ_nil u : occ u [] = 0%nat.
Proof. done. Qed.

Lemma occ_cons u (x : option Upstream) sels :
  occ u (x :: sels) = ((if decide (x = Some u) then 1 else 0) + occ u sels)%nat.
Proof. unfold occ. rewrite filter_cons. by case_decide. Qed.

Lemma occ_app u l1 l2 : occ u (l1 ++ l2) = (occ u l1 + occ u l2)%nat.
Proof. unfold occ. by rewrite filter_app, length_app. Qed.

Lemma sumZ_indicator us v :
  NoDup us →
  sumZ (λ u, if decide (Some v = Some u) then 1 else 0) us = if decide (v ∈ us) then 1 else 0.
Proof.
  induction us as [|x us IH]; intros Hnd; cbn [sumZ foldr].
  - by rewrite decide_False by apply not_elem_of_nil.
  - apply NoDup_cons in Hnd as [Hx Hnd]. fold (sumZ (λ u, if decide (Some v = Some u) then 1 else 0) us).
    rewrite IH by done.
    destruct (decide (Some v = Some x)) as [[= ->]|Hne].
    + rewrite (decide_False (P := x ∈ us)) by done.
      rewrite decide_True by (apply elem_of_cons; auto). done.
    + destruct (decide (v ∈ us)).
      * rewrite decide_True by (apply elem_of_cons; auto). done.
      * rewrite decide_False; [done|].
        intros [->|?]%elem_of_cons; [by apply Hne|done].
Qed.

Lemma sumZ_occ us hist :
  NoDup us →
  (∀ x, x ∈ hist → ∃ u, u ∈ us ∧ x = Some u) →
  sumZ (λ u, Z.of_nat (occ u hist)) us = Z.of_nat (length hist).
Proof.
  intros Hnd. induction hist as [|x hist IH]; intros Hmem.
  - rewrite (sumZ_ext _ (λ _, 0 * 0)) by done. by rewrite sumZ_scale.
  - destruct (Hmem x) as (v & Hv & ->); [apply elem_of_cons; auto|].
    rewrite (sumZ_ext _ (λ u, (if decide (Some v = Some u) then 1 else 0)
                                + Z.of_nat (occ u hist))).
    + rewrite sumZ_plus, sumZ_indicator, decide_True, IH by
        (done || intros; apply Hmem, elem_of_cons; auto).
      cbn [length]. lia.
    + intros u _. rewrite occ_cons. case_decide; lia.
Qed.

Lemma NoDup_of_ids us : NoDup (ids us) → NoDup us.
Proof. apply NoDup_fmap_1. Qed.

End wrr.

Section period.
Variable us : list Upstream.
Hypothesis Hne : us ≠ [].
Hypothesis Hnd : NoDup (ids us).
Hypothesis Hw : ∀ u, u ∈ us → 0 ≤ weight_of u.
Hypothesis HW : 0 < totalWeight us.

Local Abbreviation Inv := (LB.Inv us).
Local Abbreviation from_us := (LB.from_us us).
Local Abbreviation within := (LB.within us).
Local Abbreviation zeroed := (LB.zeroed us).

Lemma with_counters_idem st m m' :
  with_counters (with_counters st m) m' = with_counters st m'.
Proof. done. Qed.

Lemma with_counters_same st m : weightCounters st = Some m → with_counters st m = st.
Proof. destruct st; cbn; by intros ->. Qed.

Lemma wrr_step_inv st m hist :
  weightCounters st = Some m ∨ (weightCounters st = None ∧ m = initCounters us) →
  Inv hist m → from_us hist → within hist →
  Z.of_nat (length hist) < totalWeight us →
  ∃ s m', s ∈ us ∧
    weightedRoundRobinSelection us st = Ok (Some s, with_counters st m') ∧
    Inv (hist ++ [Some s]) m' ∧ from_us (hist ++ [Some s]) ∧ within (hist ++ [Some s]) ∧
    (∀ i, i ∉ ids us → m' !! i = m !! i).
Proof.
  intros Hwc Hinv Hfrom Hin Hlen.
  set (c := λ u, Z.of_nat (length hist) * weight_of u
                 - totalWeight us * Z.of_nat (occ u hist)).
  assert (Hsum : sumZ (λ u, c u + weight_of u) us = totalWeight us).
  { rewrite sumZ_plus. unfold c.
    rewrite (sumZ_ext _ (λ u, Z.of_nat (length hist) * weight_of u
                              + (- totalWeight us) * Z.of_nat (occ u hist)))
      by (intros; lia).
    rewrite sumZ_plus, !sumZ_scale, sumZ_occ, <- totalWeight_sumZ
      by (done || by apply NoDup_of_ids).
    lia. }
  destruct (sumZ_pos_witness (λ u, c u + weight_of u) us) as (u0 & Hu0 & Hpos);
    [lia|].
  destruct (wrr_step us st m c) as (pre & s & post & m' & Hsel & Hus & Hpre & Hpost & Ho & Hi);
    [done|done|lia|done|done|exists u0; split; [done|lia]|].
  assert (Hs : s ∈ us) by (rewrite Hus; set_solver).
  assert (Hmax : 0 < c s + weight_of s).
  { rewrite Hus in Hu0. apply elem_of_app in Hu0 as [Hin0|[->|Hin0]%elem_of_cons].
    - specialize (Hpre u0 Hin0). lia.
    - done.
    - specialize (Hpost u0 Hin0). lia. }
  assert (Hroom : Z.of_nat (occ s hist) < weight_of s).
  { unfold c in Hmax. specialize (Hw s Hs). specialize (Hin s Hs). nia. }
  exists s, m'. split_and!; [done|done| | | |done].
  - intros u Hu. rewrite Hi by done. do 2 f_equal.
    rewrite length_app, occ_app, occ_cons, occ_nil. cbn [length]. unfold c.
    destruct (decide (u = s)) as [->|Hne'].
    + rewrite decide_True by done. lia.
    + rewrite decide_False by congruence. lia.
  - intros x [?|[->|[]%elem_of_nil]%elem_of_cons]%elem_of_app; [by apply Hfrom|eauto].
  - intros u Hu. rewrite occ_app, occ_cons, occ_nil.
    destruct (decide (Some s = Some u)) as [[= ->]|?]; [lia|].
    specialize (Hin u Hu). lia.
Qed.

Lemma wrr_run_inv n : ∀ st m hist,
  weightCounters st = Some m →
  Inv hist m → from_us hist → within hist →
  Z.of_nat (length hist + n) ≤ totalWeight us →
  ∃ sels m',
    wrr_run us n st = Ok (sels, with_counters st m') ∧ length sels = n ∧
    Inv (hist ++ sels) m' ∧ from_us (hist ++ sels) ∧ within (hist ++ sels) ∧
    (∀ i, i ∉ ids us → m' !! i = m !! i).
Proof.
  induction n as [|n IH]; intros st m hist Hwc Hinv Hfrom Hin Hlen.
  - exists [], m. rewrite app_nil_r, with_counters_same by done. done.
  - destruct (wrr_step_inv st m hist) as (s & m1 & Hs & Hsel & Hinv1 & Hfrom1 & Hin1 & Ho1);
      [auto|done|done|done|lia|].
    destruct (IH (with_counters st m1) m1 (hist ++ [Some s]))
      as (sels & m2 & Hrun & Hl & Hinv2 & Hfrom2 & Hin2 & Ho2);
      [done|done|done|done|rewrite length_app; cbn [length]; lia|].
    exists (Some s :: sels), m2. cbn [wrr_run]. rewrite Hsel. cbn.
    rewrite Hrun. cbn. rewrite <- !app_assoc in *. cbn [app] in *.
    split_and!; [done|by rewrite Hl|done|done|done|].
    intros i Hi. rewrite Ho2, Ho1; done.
Qed.


Lemma wrr_fresh st :
  weightCounters st = None →
  weightedRoundRobinSelection us st
  = weightedRoundRobinSelection us (with_counters st (initCounters us)).
Proof.
  intros Hnone. unfold weightedRoundRobinSelection. rewrite Hnone.
  destruct (decide (length us = 0%nat)); [done|].
  destruct (decide (totalWeight us = 0)); [lia|]. done.
Qed.

Lemma wrr_run_zeroed_pos n st :
  zeroed st → (0 < n)%nat →
  wrr_run us n st = wrr_run us n (with_counters st (initCounters us)).
Proof.
  intros [Hz|Hz] Hn.
  - destruct n as [|n]; [lia|]. cbn [wrr_run]. by rewrite wrr_fresh.
  - by rewrite with_counters_same.
Qed.

Lemma wrr_run_zeroed_sels n st l st' :
  zeroed st →
  wrr_run us n (with_counters st (initCounters us)) = Ok (l, st') →
  ∃ st'', wrr_run us n st = Ok (l, st'').
Proof.
  intros Hz Hrun. destruct n as [|n].
  - cbn in *. simplify_eq. eauto.
  - rewrite wrr_run_zeroed_pos by (done || lia). eauto.
Qed.

Lemma wrr_run_app a : ∀ b st l1 st1 l2 st2,
  wrr_run us a st = Ok (l1, st1) → wrr_run us b st1 = Ok (l2, st2) →
  wrr_run us (a + b) st = Ok (l1 ++ l2, st2).
Proof.
  induction a as [|a IH]; intros b st l1 st1 l2 st2 H1 H2.
  - cbn in H1. by simplify_eq.
  - cbn [wrr_run Nat.add] in *.
    destruct (weightedRoundRobinSelection us st) as [[x st']|e]; cbn in *; [|done].
    destruct (wrr_run us a st') as [[l st'']|e] eqn:Ha; cbn in *; [|done].
    simplify_eq. by rewrite (IH b st' l st1 l2 st2).
Qed.

Lemma wrr_run_split a : ∀ b st l st2,
  wrr_run us (a + b) st = Ok (l, st2) →
  ∃ l1 st1 l2,
    wrr_run us a st = Ok (l1, st1) ∧ wrr_run us b st1 = Ok (l2, st2) ∧
    l = l1 ++ l2 ∧ length l1 = a.
Proof.
  induction a as [|a IH]; intros b st l st2 H.
  - exists [], st, l. done.
  - cbn [wrr_run Nat.add] in *.
    destruct (weightedRoundRobinSelection us st) as [[x st']|e]; cbn in *; [|done].
    destruct (wrr_run us (a + b) st') as [[l' st'']|e] eqn:Hab; cbn in *; [|done].
    simplify_eq. destruct (IH b st' l' st2 Hab) as (l1 & st1 & l2 & -> & Hb & -> & Hl).
    exists (x :: l1), st1, l2. cbn. by rewrite Hl.
Qed.

(** After [totalWeight us] selections every candidate was taken as often as
    its weight says, and all counters are back at zero. *)
Lemma wrr_period st :
  zeroed st →
  ∃ P, wrr_run us (Z.to_nat (totalWeight us)) st
         = Ok (P, with_counters st (initCounters us)) ∧
       ∀ u, u ∈ us → occ u P = Z.to_nat (weight_of u).
Proof.
  intros Hz.
  assert (Hinit : Inv [] (initCounters us)).
  { intros u Hu. rewrite initCounters_lookup, bool_decide_eq_true_2.
    - do 2 f_equal. cbn. lia.
    - by apply list_elem_of_fmap_2. }
  destruct (wrr_run_inv (Z.to_nat (totalWeight us))
              (with_counters st (initCounters us)) (initCounters us) [])
    as (P & m & Hrun & Hlen & Hinv & Hfrom & Hin & Ho);
    [done|done|by intros ? []%elem_of_nil|intros u Hu; cbn; by apply Hw
    |cbn [length]; lia|].
  cbn [app] in *. rewrite with_counters_idem in Hrun.
  assert (Hocc : ∀ u, u ∈ us → Z.of_nat (occ u P) = weight_of u).
  { apply sumZ_le_eq; [done|].
    rewrite sumZ_occ, <- totalWeight_sumZ by (done || by apply NoDup_of_ids). lia. }
  assert (m = initCounters us) as ->.
  { apply map_eq. intros i. destruct (decide (i ∈ ids us)) as [Hi|Hi].
    - apply list_elem_of_fmap in Hi as (u & -> & Hu).
      rewrite (Hinv u Hu), (initCounters_lookup us (up_id u)), bool_decide_eq_true_2
        by by apply list_elem_of_fmap_2.
      do 2 f_equal. rewrite Hocc, Hlen by done. lia.
    - by apply Ho. }
  exists P. split; [|intros u Hu; specialize (Hocc u Hu); lia].
  rewrite wrr_run_zeroed_pos by (done || lia). done.
Qed.

(** Any number of selections can be made from zeroed counters. *)
Lemma wrr_run_total n : ∀ st,
  zeroed st → ∃ l st', wrr_run us n st = Ok (l, st').
Proof.
  induction n as [n IH] using lt_wf_ind. intros st Hz.
  destruct (decide (n < Z.to_nat (totalWeight us))%nat) as [Hlt|Hge].
  - destruct (wrr_run_inv n (with_counters st (initCounters us)) (initCounters us) [])
      as (l & m & Hrun & _); [done| |by intros ? []%elem_of_nil
      |intros u Hu; cbn; by apply Hw|cbn [length]; lia|].
    { intros u Hu. rewrite initCounters_lookup, bool_decide_eq_true_2.
      - do 2 f_equal. cbn. lia.
      - by apply list_elem_of_fmap_2. }
    destruct (wrr_run_zeroed_sels _ _ _ _ Hz Hrun) as [st'' ?]. eauto.
  - destruct (wrr_period st Hz) as (P & HP & _).
    destruct (IH (n - Z.to_nat (totalWeight us))%nat) with
      (st := with_counters st (initCounters us)) as (l & st' & Hl); [lia|by right|].
    exists (P ++ l), st'.
    replace n with (Z.to_nat (totalWeight us) + (n - Z.to_nat (totalWeight us)))%nat
      at 1 by lia.
    by apply (wrr_run_app _ _ _ _ _ _ _ HP Hl).
Qed.

(** Every window of [totalWeight us] consecutive selections. *)
Lemma wrr_window k st :
  zeroed st →
  ∃ l st', wrr_run us (k + Z.to_nat (totalWeight us)) st = Ok (l, st') ∧
    length (drop k l) = Z.to_nat (totalWeight us) ∧
    ∀ u, u ∈ us → occ u (drop k l) = Z.to_nat (weight_of u).
Proof.
  intros Hz.
  destruct (wrr_run_total (k + Z.to_nat (totalWeight us)) st Hz) as (l & st' & Hrun).
  exists l, st'. split; [done|].
  destruct (wrr_run_split _ _ _ _ _ Hrun) as (Sk & stk & X & Hk & HX & -> & Hlen).
  rewrite drop_app_length' by done.
  destruct (wrr_period st Hz) as (P & HP & Hocc).
  destruct (wrr_run_total k (with_counters st (initCounters us))) as (Sk' & zk & Hk');
    [by right|].
  destruct (wrr_run_zeroed_sels _ _ _ _ Hz Hk') as [stk' Hk''].
  assert (Sk' = Sk) as -> by congruence.
  pose proof (wrr_run_app _ _ _ _ _ _ _ HP Hk') as Hwk.
  rewrite Nat.add_comm, Hrun in Hwk.
  assert (Heq : Sk ++ X = P ++ Sk) by congruence.
  split.
  - apply (f_equal length) in Heq. rewrite !length_app in Heq.
    destruct (wrr_run_split (Z.to_nat (totalWeight us)) 0 st P
                (with_counters st (initCounters us))) as (l1 & ? & l2 & H1 & H2 & -> & Hl1).
    { by rewrite Nat.add_0_r. }
    cbn in H2. simplify_eq. rewrite app_nil_r in *. lia.
  - intros u Hu. apply (f_equal (occ u)) in Heq. rewrite !occ_app in Heq.
    rewrite <- (Hocc u Hu). lia.
Qed.

End period.

Section counters.
Implicit Types (us : list Upstream) (u s : Upstream) (m : gmap string (option Z)).

Lemma counterSum_empty : counterSum ∅ = Some 0.
Proof. unfold counterSum. by rewrite map_fold_empty. Qed.

Lemma counterSum_insert_fresh m i c :
  m !! i = None →
  counterSum (<[i := c]> m) = (x ← c; a ← counterSum m; Some (x + a)).
Proof.
  intros Hi. unfold counterSum.
  rewrite map_fold_insert_L; [done| |done].
  intros j1 j2 z1 z2 y _ _ _.
  destruct z1 as [z1|], z2 as [z2|], y as [y|]; cbn; try done. f_equal. lia.
Qed.

Lemma counterSum_lookup m i old :
  m !! i = Some old →
  counterSum m = (x ← old; a ← counterSum (delete i m); Some (x + a)).
Proof.
  intros Hi. rewrite <- (insert_delete_id m i old Hi) at 1.
  apply counterSum_insert_fresh, lookup_delete_eq.
Qed.

Lemma counterSum_update m i old v sum :
  m !! i = Some (Some old) → counterSum m = Some sum →
  counterSum (<[i := Some v]> m) = Some (sum - old + v).
Proof.
  intros Hi Hsum. rewrite (counterSum_lookup m i _ Hi) in Hsum.
  rewrite <- insert_delete_eq, counterSum_insert_fresh by apply lookup_delete_eq.
  destruct (counterSum (delete i m)) as [a|]; cbn in *; [|done].
  simplify_eq. f_equal. lia.
Qed.

Lemma counterSum_numeric m sum i c :
  counterSum m = Some sum → m !! i = Some c → is_Some c.
Proof.
  intros Hsum Hi. rewrite (counterSum_lookup m i _ Hi) in Hsum.
  destruct c; [eauto|done].
Qed.

Lemma counterSum_zero m :
  (∀ i c, m !! i = Some c → c = Some 0) → counterSum m = Some 0.
Proof.
  induction m as [|i x m Hi IH] using map_ind; intros Hm; [apply counterSum_empty|].
  rewrite counterSum_insert_fresh by done.
  rewrite (Hm i x) by apply lookup_insert_eq.
  rewrite IH; [done|]. intros j c Hj. apply (Hm j).
  rewrite lookup_insert_ne; [done|]. intros <-. congruence.
Qed.

Lemma counterSum_nonpos m sum :
  (∀ i c, m !! i = Some c → ∃ z, c = Some z ∧ z ≤ 0) →
  counterSum m = Some sum → sum ≤ 0.
Proof.
  revert sum. induction m as [|i x m Hi IH] using map_ind; intros sum Hm.
  - rewrite counterSum_empty. intros [= <-]. lia.
  - rewrite counterSum_insert_fresh by done.
    destruct (Hm i x) as (z & -> & Hz); [apply lookup_insert_eq|].
    destruct (counterSum m) as [a|] eqn:Ha; cbn; [|done]. intros [= <-].
    assert (a ≤ 0); [|lia]. apply IH; [|done]. intros j c Hj. apply (Hm j).
    rewrite lookup_insert_ne; [done|]. intros <-. congruence.
Qed.

Lemma initCounters_of us : counters_of us (initCounters us).
Proof.
  intros i. rewrite initCounters_lookup. case_bool_decide; [by split; eauto|].
  split; [by intros [? ?]|done].
Qed.

Lemma initCounters_zero us i c : initCounters us !! i = Some c → c = Some 0.
Proof. rewrite initCounters_lookup. case_bool_decide; [by intros [= <-]|done]. Qed.

Lemma initCounters_sum us : counterSum (initCounters us) = Some 0.
Proof. apply counterSum_zero, initCounters_zero. Qed.

Lemma numbers_of us m sum : counters_of us m → counterSum m = Some sum → numbers us m.
Proof.
  intros Hk Hsum u Hu.
  destruct (proj2 (Hk (up_id u))) as [c Hc]; [by apply list_elem_of_fmap_2|].
  destruct (counterSum_numeric m sum _ c Hsum Hc) as [z ->]. eauto.
Qed.

Lemma add_weights_cons u us m :
  add_weights (u :: us) m
  = add_weights us (<[up_id u := (λ c, c + weight_of u) <$> counter m (up_id u)]> m).
Proof. done. Qed.

Lemma add_weights_frame us : ∀ m i, i ∉ ids us → add_weights us m !! i = m !! i.
Proof.
  induction us as [|u us IH]; intros m i Hi; [done|].
  unfold ids in Hi. rewrite fmap_cons in Hi. rewrite add_weights_cons, IH.
  - rewrite lookup_insert_ne; [done|]. intros <-. apply Hi, elem_of_cons; auto.
  - intros ?. apply Hi, elem_of_cons; auto.
Qed.

(** Where all candidates have a numeric counter, adding the weights keeps
    the keys and adds the weights to the sum. *)
Lemma add_weights_sum us : ∀ vs m sum,
  (∀ u, u ∈ us → u ∈ vs) → numbers vs m → counterSum m = Some sum →
  numbers vs (add_weights us m)
  ∧ (∀ i, is_Some (add_weights us m !! i) ↔ is_Some (m !! i))
  ∧ counterSum (add_weights us m) = Some (sum + sumZ weight_of us).
Proof.
  induction us as [|u us IH]; intros vs m sum Hsub Hnum Hsum.
  - cbn. split_and!; [done|done|]. rewrite Hsum. f_equal. lia.
  - destruct (Hnum u) as [c Hc]; [apply Hsub, elem_of_cons; auto|].
    rewrite add_weights_cons. unfold counter. rewrite Hc.
    cbn [mjoin option_join fmap option_fmap option_map].
    set (m1 := <[up_id u := Some (c + weight_of u)]> m).
    assert (Hnum1 : numbers vs m1).
    { intros v Hv. unfold m1. destruct (decide (up_id u = up_id v)) as [Heq|Hne].
      - rewrite Heq, lookup_insert_eq. eauto.
      - rewrite lookup_insert_ne by done. by apply Hnum. }
    destruct (IH vs m1 (sum - c + (c + weight_of u))) as (Hn & Hk & Hs);
      [intros; apply Hsub, elem_of_cons; auto|done|by apply counterSum_update|].
    split_and!; [done| |].
    + intros i. rewrite Hk. unfold m1. destruct (decide (up_id u = i)) as [<-|Hne].
      * rewrite lookup_insert_eq, Hc. split; eauto.
      * by rewrite lookup_insert_ne.
    + rewrite Hs. f_equal. cbn [sumZ foldr]. fold (sumZ weight_of us). lia.
Qed.

(** The [forEach] leaves the counters with the weights added; and either
    it keeps the candidate and the maximum it started with, every counter
    of a candidate being at most that maximum, or it selects a candidate
    with a larger current weight. *)
Lemma foldl_bump_counters us : ∀ vs m sel mx,
  (∀ u, u ∈ us → u ∈ vs) → numbers vs m →
  ∃ sel' mx',
    foldl bump (m, sel, mx) us = (add_weights us m, sel', mx') ∧
    ((sel' = sel ∧ mx' = mx ∧
      ∀ u, u ∈ us → ∃ c, add_weights us m !! up_id u = Some (Some c) ∧ c ≤ mx)
     ∨ (∃ s, sel' = Some s ∧ s ∈ us ∧ mx < mx')).
Proof.
  induction us as [|u us IH]; intros vs m sel mx Hsub Hnum.
  - exists sel, mx. split; [done|]. left. split_and!; [done|done|intros ? []%elem_of_nil].
  - destruct (Hnum u) as [c Hc]; [apply Hsub, elem_of_cons; auto|].
    cbn [foldl]. rewrite add_weights_cons. unfold bump at 2. unfold counter. rewrite Hc.
    cbn [mjoin option_join fmap option_fmap option_map].
    set (cw := c + weight_of u).
    set (m1 := <[up_id u := Some cw]> m).
    assert (Hnum1 : numbers vs m1).
    { intros v Hv. unfold m1. destruct (decide (up_id u = up_id v)) as [Heq|Hne].
      - rewrite Heq, lookup_insert_eq. eauto.
      - rewrite lookup_insert_ne by done. by apply Hnum. }
    assert (Hsub1 : ∀ v, v ∈ us → v ∈ vs) by (intros; apply Hsub, elem_of_cons; auto).
    destruct (decide (mx < cw)) as [Hlt|Hge].
    + destruct (IH vs m1 (Some u) cw Hsub1 Hnum1) as (sel' & mx' & -> & Hs).
      exists sel', mx'. split; [done|]. right.
      destruct Hs as [(-> & -> & _)|(s & -> & Hs & Hmx)].
      * exists u. split_and!; [done|apply elem_of_cons; auto|done].
      * exists s. split_and!; [done|apply elem_of_cons; auto|lia].
    + destruct (IH vs m1 sel mx Hsub1 Hnum1) as (sel' & mx' & -> & Hs).
      exists sel', mx'. split; [done|].
      destruct Hs as [(-> & -> & Hle)|(s & -> & Hs & Hmx)].
      * left. split_and!; [done|done|].
        intros v [->|Hv]%elem_of_cons; [|by apply Hle].
        destruct (decide (up_id u ∈ ids us)) as [Hin|Hout].
        -- apply list_elem_of_fmap in Hin as (v & Heq & Hv). rewrite Heq. by apply Hle.
        -- rewrite add_weights_frame by done. unfold m1. rewrite lookup_insert_eq.
           exists cw. split; [done|lia].
      * right. exists s. split_and!; [done|apply elem_of_cons; auto|done].
Qed.

Lemma totalWeight_nonempty us : 0 < totalWeight us → us ≠ [].
Proof. by intros H ->. Qed.

(** One weighted selection from counters that add up to zero. *)
Lemma wrr_balanced_step us st m :
  0 < totalWeight us →
  weightCounters st = Some m ∨ (weightCounters st = None ∧ m = initCounters us) →
  counters_of us m → counterSum m = Some 0 →
  ∃ s,
    weightedRoundRobinSelection us st
    = Ok (Some s, with_counters st (take_total us s (add_weights us m))) ∧
    s ∈ us ∧
    counters_of us (take_total us s (add_weights us m)) ∧
    counterSum (take_total us s (add_weights us m)) = Some 0.
Proof.
  intros HW Hwc Hk Hsum.
  pose proof (totalWeight_nonempty us HW) as Hne.
  pose proof (numbers_of us m 0 Hk Hsum) as Hnum.
  unfold weightedRoundRobinSelection.
  rewrite decide_False by by apply length_nonzero.
  rewrite decide_False by lia.
  assert (match weightCounters st with Some m => m | None => initCounters us end = m)
    as -> by (by destruct Hwc as [->|[-> ->]]).
  destruct (foldl_bump_counters us us m None (-1)) as (sel & mx & -> & Hsel); [done|done|].
  destruct (add_weights_sum us us m 0) as (Hnum1 & Hk1 & Hsum1); [done|done|done|].
  rewrite <- totalWeight_sumZ in Hsum1.
  destruct Hsel as [(-> & -> & Hle)|(s & -> & Hs & _)].
  { exfalso. assert (0 + totalWeight us ≤ 0); [|lia].
    apply (counterSum_nonpos (add_weights us m)); [|done].
    intros i c Hi.
    assert (i ∈ ids us) as (u & -> & Hu)%list_elem_of_fmap.
    { apply Hk, Hk1. eauto. }
    destruct (Hle u Hu) as (z & Hz & Hbound). exists z. split; [congruence|lia]. }
  exists s. destruct (Hnum1 s Hs) as [c Hc].
  unfold take_total, counter. rewrite Hc.
  cbn [mjoin option_join fmap option_fmap option_map].
  split_and!; [done|done| |].
  - intros i. rewrite <- (Hk i), <- (Hk1 i). destruct (decide (up_id s = i)) as [<-|Hne'].
    + rewrite lookup_insert_eq, Hc. split; eauto.
    + by rewrite lookup_insert_ne.
  - rewrite (counterSum_update _ _ c _ (0 + totalWeight us)) by done. f_equal. lia.
Qed.

Lemma wrr_run_balanced us n : ∀ st,
  0 < totalWeight us →
  weightCounters st = None ∨ balanced us st →
  ∃ l st', wrr_run us (S n) st = Ok (l, st') ∧ length l = S n ∧ balanced us st'.
Proof.
  induction n as [|n IH]; intros st HW Hst.
  - assert (∃ m, (weightCounters st = Some m ∨ (weightCounters st = None ∧ m = initCounters us))
                 ∧ counters_of us m ∧ counterSum m = Some 0) as (m & Hwc & Hk & Hsum).
    { destruct Hst as [Hn|(m & Hm & Hk & Hs)]; [|eauto].
      exists (initCounters us). split_and!; [auto|apply initCounters_of|apply initCounters_sum]. }
    destruct (wrr_balanced_step us st m) as (s & Hsel & _ & Hk' & Hsum'); [done..|].
    eexists [Some s], _. cbn [wrr_run]. rewrite Hsel. cbn.
    split_and!; [done|done|]. eexists. split_and!; [done|done|done].
  - destruct (IH st) as (l & st1 & Hrun & Hlen & (m & Hm & Hk & Hsum)); [done..|].
    destruct (wrr_balanced_step us st1 m) as (s & Hsel & _ & Hk' & Hsum'); [auto..|].
    eexists (l ++ [Some s]), _.
    replace (S (S n)) with (S n + 1)%nat by lia.
    split_and!.
    + apply (wrr_run_app us (S n) 1 st l st1 [Some s]); [done|].
      cbn [wrr_run]. rewrite Hsel. done.
    + rewrite length_app, Hlen. cbn. lia.
    + eexists. split_and!; [done|done|done].
Qed.

End counters.

Section select.
Implicit Types (us cs : list Upstream) (u s : Upstream) (st : State).

Lemma roundRobin_member cs st o st' :
  roundRobinSelection cs st = Ok (o, st') → ∃ u, o = Some u ∧ u ∈ cs.
Proof.
  unfold roundRobinSelection. case_decide as Hlen; [done|]. intros [= <- <-].
  destruct (lookup_lt_is_Some_2 cs (currentIndex st mod length cs)%nat) as [u Hu].
  { by apply Nat.mod_upper_bound. }
  exists u. split; [done|]. by eapply list_elem_of_lookup_2.
Qed.

Lemma foldl_bump_member us : ∀ m sel mx m' sel' mx',
  foldl bump (m, sel, mx) us = (m', sel', mx') →
  sel' = sel ∨ ∃ s, sel' = Some s ∧ s ∈ us.
Proof.
  induction us as [|u us IH]; intros m sel mx m' sel' mx' Hf.
  - cbn in Hf. simplify_eq. by left.
  - cbn [foldl] in Hf. unfold bump at 2 in Hf.
    destruct (_ <$> counter m (up_id u)) as [cw|]; [case_decide|];
      apply IH in Hf as [->|(s & -> & Hs)];
      solve [ by left
            | right; eexists; split; [done|]; apply elem_of_cons; auto ].
Qed.

Lemma weightedRoundRobin_member cs st o st' :
  weightedRoundRobinSelection cs st = Ok (o, st') → ∃ u, o = Some u ∧ u ∈ cs.
Proof.
  unfold weightedRoundRobinSelection. case_decide as Hlen; [done|].
  case_decide; [apply roundRobin_member|].
  destruct (foldl bump _ cs) as [[m1 sel] mx] eqn:Hf. intros [= <- <-].
  apply foldl_bump_member in Hf as [->|(s & -> & Hs)]; [|eauto].
  destruct cs as [|u cs]; [done|]. exists u. split; [done|]. apply elem_of_cons; auto.
Qed.

Lemma random_index_bounds rnd (n : Z) :
  (0 <= rnd)%Q → (rnd < 1)%Q → 0 < n →
  0 ≤ Qfloor (rnd * inject_Z n) < n.
Proof.
  intros H0 H1 Hn. split.
  - change 0 with (Qfloor 0). apply Qfloor_resp_le.
    apply Qmult_le_0_compat; [done|]. change 0%Q with (inject_Z 0).
    rewrite <- Zle_Qle. lia.
  - rewrite Zlt_Qlt. eapply Qle_lt_trans; [apply Qfloor_le|].
    apply Qlt_le_trans with (1 * inject_Z n)%Q.
    + apply Qmult_lt_compat_r; [|done]. change 0%Q with (inject_Z 0).
      rewrite <- Zlt_Qlt. lia.
    + rewrite Qmult_1_l. apply Qle_refl.
Qed.

Lemma randomSelection_member rnd cs st o st' :
  (0 <= rnd)%Q → (rnd < 1)%Q →
  randomSelection rnd cs st = Ok (o, st') → ∃ u, o = Some u ∧ u ∈ cs.
Proof.
  intros H0 H1. unfold randomSelection. case_decide as Hlen; [done|].
  pose proof (random_index_bounds rnd (Z.of_nat (length cs)) H0 H1) as Hb.
  revert Hb. generalize (Qfloor (rnd * inject_Z (Z.of_nat (length cs)))).
  intros idx Hb [= <- <-]. unfold at_index. rewrite decide_False by lia.
  destruct (lookup_lt_is_Some_2 cs (Z.to_nat idx)) as [u Hu]; [lia|].
  exists u. split; [done|]. by eapply list_elem_of_lookup_2.
Qed.

Lemma weightedPick_member us : ∀ r u, weightedPick r us = Some u → u ∈ us.
Proof.
  induction us as [|v us IH]; intros r u; cbn [weightedPick]; [done|].
  destruct (Qle_bool _ _).
  - intros [= ->]. apply elem_of_cons; auto.
  - intros H. apply elem_of_cons. right. by eapply IH.
Qed.

Lemma weightedRandom_member rnd cs st o st' :
  (0 <= rnd)%Q → (rnd < 1)%Q →
  weightedRandomSelection rnd cs st = Ok (o, st') → ∃ u, o = Some u ∧ u ∈ cs.
Proof.
  intros H0 H1. unfold weightedRandomSelection. case_decide as Hlen; [done|].
  case_decide; [by apply randomSelection_member|].
  destruct (weightedPick _ cs) as [u|] eqn:Hp; intros [= <- <-].
  - exists u. split; [done|]. by eapply weightedPick_member.
  - destruct (last cs) as [u|] eqn:Hl.
    + exists u. split; [done|]. apply last_Some in Hl as [l' ->]. set_solver.
    + apply last_None in Hl. by subst.
Qed.

Lemma selectUpstream_member cfg rnd st o st' :
  (0 <= rnd)%Q → (rnd < 1)%Q →
  selectUpstream cfg rnd st = Ok (o, st') →
  ∃ cs u, candidates cfg st = Ok cs ∧ o = Some u ∧ u ∈ cs.
Proof.
  intros H0 H1. unfold selectUpstream.
  destruct (candidates cfg st) as [cs|e]; cbn; [|done].
  intros Hsel. exists cs.
  repeat case_decide;
    [apply roundRobin_member in Hsel
    |apply weightedRoundRobin_member in Hsel
    |apply randomSelection_member in Hsel; [|done..]
    |apply weightedRandom_member in Hsel; [|done..]
    |apply weightedRoundRobin_member in Hsel];
    destruct Hsel as (u & -> & Hu); eauto.
Qed.

End select.


Lemma weight_of_pos us u : valid_weights us → u ∈ us → 1 ≤ weight_of u.
Proof.
  intros Hv Hu. unfold weight_of. destruct (up_weight u) as [w|] eqn:Hw; [|lia].
  specialize (Hv u w Hu Hw). case_decide; lia.
Qed.

Lemma totalWeight_pos us : us ≠ [] → valid_weights us → 0 < totalWeight us.
Proof.
  intros Hne Hv. rewrite totalWeight_sumZ.
  destruct us as [|u us]; [done|]. cbn [sumZ foldr]. fold (sumZ weight_of us).
  assert (1 ≤ weight_of u) by (apply (weight_of_pos (u :: us)); [done|apply elem_of_cons; auto]).
  assert (sumZ (λ _, 0 * 0) us ≤ sumZ weight_of us).
  { apply sumZ_le. intros v Hv'.
    assert (1 ≤ weight_of v)
      by (apply (weight_of_pos (u :: us)); [done|apply elem_of_cons; auto]).
    lia. }
  rewrite sumZ_scale in *. lia.
Qed.

Lemma healthy_iff st u :
  u ∈ getHealthyUpstreams st ↔ u ∈ upstreams st ∧ healthStatus st !! up_id u ≠ Some false.
Proof. unfold getHealthyUpstreams. rewrite list_elem_of_filter. tauto. Qed.

Lemma selectUpstream_total cfg rnd st cs :
  candidates cfg st = Ok cs → cs ≠ [] →
  ∃ o st', selectUpstream cfg rnd st = Ok (o, st').
Proof.
  intros Hcs Hne. unfold selectUpstream. rewrite Hcs. cbn [mbind outcome_bind].
  assert (Hrr : ∃ o st', roundRobinSelection cs st = Ok (o, st')).
  { unfold roundRobinSelection. rewrite decide_False by by apply length_nonzero. eauto. }
  assert (Hwrr : ∃ o st', weightedRoundRobinSelection cs st = Ok (o, st')).
  { unfold weightedRoundRobinSelection. rewrite decide_False by by apply length_nonzero.
    case_decide; [done|]. destruct (foldl bump _ cs) as [[m1 sel] mx]. eauto. }
  assert (Hr : ∃ o st', randomSelection rnd cs st = Ok (o, st')).
  { unfold randomSelection. rewrite decide_False by by apply length_nonzero. eauto. }
  assert (Hwr : ∃ o st', weightedRandomSelection rnd cs st = Ok (o, st')).
  { unfold weightedRandomSelection. rewrite decide_False by by apply length_nonzero.
    case_decide; [done|]. destruct (weightedPick _ cs); eauto. }
  by repeat case_decide.
Qed.

Lemma selectUpstream_empty cfg rnd st :
  candidates cfg st = Ok [] → selectUpstream cfg rnd st = Throw NoUpstream.
Proof.
  intros Hcs. unfold selectUpstream. rewrite Hcs. cbn [mbind outcome_bind].
  by repeat case_decide.
Qed.

End lb_facts.

Section lb_samples.
#[local] Existing Instance Demo.runtime.



End lb_samples.







(** C6. With health checking enabled, [startHealthCheck] starts a round of
    probes at once and arms the timer with 300000 ms, which is 300 seconds
    and not 30; a probe marks the upstream healthy exactly when it is
    answered with a status from 200 to 399. *)
Theorem C6_health_check (us : list LB.Upstream) (strategy : option string) (failover : bool) :
  LB.startHealthCheck (LB.mkConfig us strategy true failover)
  = Some (LB.mkSchedule (300 * 1000) true)
  ∧ 300 * 1000 ≠ 30 * 1000
  ∧ (∀ p, LB.isHealthy p = true ↔ ∃ statusCode, p = LB.Responded statusCode ∧ 200 ≤ statusCode ≤ 399)
  ∧ (∀ u p st, LB.healthStatus (LB.checkUpstreamHealth u p st) !! LB.up_id u
               = Some (LB.isHealthy p)).
Proof.
  split_and!; [done|done| |].
  - intros [sc| | |]; cbn; split; try done; try (by intros (? & ? & ?)).
    + rewrite andb_true_iff, !bool_decide_eq_true. intros [? ?]. exists sc. split; [done|lia].
    + intros (? & [= <-] & ?). rewrite andb_true_iff, !bool_decide_eq_true. lia.
  - intros u p st. cbn. by rewrite lookup_insert_eq.
Qed.

(** ** The proxy core and the OpenAI front end *)

Section proxy_facts.
Import JS Http Proxy.
Context {rt : Runtime}.

Lemma head_writes_app r op :
  head_writes (original op r) = (head_writes r + if is_writeHead op then 1 else 0)%nat.
Proof.
  unfold head_writes, original. cbn [ops]. rewrite List.filter_app, length_app.
  cbn. by destruct (is_writeHead op).
Qed.

Lemma body_events_shape events :
  body_events events = true →
  ∃ chunks tail,
    events = (Data <$> chunks) ++ tail ∧
    (tail = [] ∨ tail = [EndOfResponse] ∨ ∃ message, tail = [RequestError message]).
Proof.
  induction events as [|ev events IH]; intros Hb.
  - exists [], []. auto.
  - destruct ev as [| chunk | |message]; cbn in Hb; try done.
    + destruct (IH Hb) as (chunks & tail & -> & Htail).
      exists (chunk :: chunks), tail. auto.
    + destruct events; [|done]. exists [], [EndOfResponse]. auto.
    + destruct events; [|done]. exists [], [RequestError message]. eauto.
Qed.

(** Data events against the original methods. *)
Lemma run_data_direct requestId hasTenant chunks : ∀ s statusCode,
  mode (client s) = Direct → upstreamStatus s = Some statusCode →
  let s' := foldl (on_event requestId hasTenant) s (Data <$> chunks) in
  ops (client s') = ops (client s) ++ (Write <$> chunks)
  ∧ mode (client s') = Direct
  ∧ upstreamStatus s' = Some statusCode
  ∧ resolved s' = resolved s.
Proof.
  induction chunks as [|chunk chunks IH]; intros s statusCode Hmode Hstatus; cbv zeta.
  - cbn. by rewrite app_nil_r.
  - rewrite fmap_cons. cbn [foldl].
    destruct (IH (on_event requestId hasTenant s (Data chunk)) statusCode)
      as (Hops & Hm & Hs & Hr).
    + cbn. rewrite Hstatus. cbn. unfold write. by rewrite Hmode.
    + cbn. by rewrite Hstatus.
    + rewrite Hops, Hm, Hs, Hr. cbn. rewrite Hstatus. cbn. unfold write.
      rewrite Hmode. cbn. by rewrite <- app_assoc.
Qed.

(** Data events against the interceptors. *)
Lemma run_data_intercepted requestId hasTenant chunks : ∀ s statusCode rid,
  mode (client s) = Intercepted rid → upstreamStatus s = Some statusCode →
  let s' := foldl (on_event requestId hasTenant) s (Data <$> chunks) in
  ops (client s') = ops (client s)
  ∧ mode (client s') = Intercepted rid
  ∧ responseData (client s') = foldl String.append (responseData (client s)) chunks
  ∧ upstreamStatus s' = Some statusCode.
Proof.
  induction chunks as [|chunk chunks IH]; intros s statusCode rid Hmode Hstatus; cbv zeta.
  - done.
  - rewrite fmap_cons. cbn [foldl].
    destruct (IH (on_event requestId hasTenant s (Data chunk)) statusCode rid)
      as (Hops & Hm & Hd & Hs).
    + cbn. rewrite Hstatus. cbn. unfold write. by rewrite Hmode.
    + cbn. by rewrite Hstatus.
    + rewrite Hops, Hm, Hd, Hs. cbn. rewrite Hstatus. cbn. unfold write.
      rewrite Hmode. done.
Qed.

Lemma append_empty_r (s : string) : (s ++ EmptyString)%string = s.
Proof.
  induction s as [|c s IH]; [done|].
  change (String c (s ++ EmptyString)%string = String c s). by f_equal.
Qed.

Lemma head_writes_writes (l : list string) :
  length (List.filter is_writeHead (Write <$> l)) = 0%nat.
Proof. induction l as [|c l IH]; [done|]. rewrite fmap_cons. cbn. exact IH. Qed.

Lemma ended_writes statusCode headers (l : list string) :
  existsb (λ op, match op with End _ => true | _ => false end)
          (WriteHead statusCode headers :: (Write <$> l)) = false.
Proof. cbn. induction l as [|c l IH]; [done|]. rewrite fmap_cons. cbn. exact IH. Qed.

(** What the client has received after a response, its data and a tail. *)
Lemma proxy_after_response requestId hasTenant statusCode headers chunks tail :
  let s := proxyRequest requestId hasTenant fresh
             (Response statusCode headers :: (Data <$> chunks) ++ tail) in
  (tail = [] → ops (client s) = WriteHead statusCode headers :: (Write <$> chunks))
  ∧ (tail = [EndOfResponse] →
     ops (client s) = WriteHead statusCode headers :: (Write <$> chunks) ++ [End None])
  ∧ (∀ message, tail = [RequestError message] →
     ops (client s) = WriteHead statusCode headers :: (Write <$> chunks)
     ∧ resolved s = true).
Proof.
  cbv zeta. unfold proxyRequest. cbn [foldl]. rewrite foldl_app.
  set (s1 := on_event requestId hasTenant (start fresh) (Response statusCode headers)).
  destruct (run_data_direct requestId hasTenant chunks s1 statusCode)
    as (Hops & Hm & Hs & Hr); [done|done|].
  set (s2 := foldl (on_event requestId hasTenant) s1 (Data <$> chunks)) in *.
  split_and!.
  - intros ->. cbn [foldl]. by rewrite Hops.
  - intros ->. cbn [foldl on_event]. rewrite Hs. cbn [client]. unfold end_.
    rewrite Hm. cbn [original ops]. by rewrite Hops.
  - intros message ->. cbn [foldl on_event].
    assert (headersSent (client s2) = true) as ->.
    { unfold headersSent. rewrite Hops. by apply bool_decide_eq_true_2. }
    cbn. by rewrite Hops.
Qed.

End proxy_facts.

Section proxy_samples.
Import JS Http Proxy.
#[local] Existing Instance Demo.runtime.


End proxy_samples.


Section proxy_witness.
#[local] Existing Instance Demo.runtime.


End proxy_witness.

Section openai_facts.
Import JS Http Proxy.
Context {rt : Runtime}.

(** The non-streaming interceptors over a complete upstream response. *)
Lemma intercepted_response requestId coreRequestId hasTenant statusCode headers chunks :
  let body := foldl String.append EmptyString chunks in
  let s := proxyRequest coreRequestId hasTenant (OpenAI.intercept requestId fresh)
             (Response statusCode headers :: (Data <$> chunks) ++ [EndOfResponse]) in
  client s = end_ None (mkRes (Intercepted requestId) [] body).
Proof.
  cbv zeta. unfold proxyRequest.
  cbn [foldl]. rewrite foldl_app.
  set (s1 := on_event coreRequestId hasTenant (start (OpenAI.intercept requestId fresh))
               (Response statusCode headers)).
  destruct (run_data_intercepted coreRequestId hasTenant chunks s1 statusCode requestId)
    as (Hops & Hm & Hd & Hs); [done|done|].
  set (s2 := foldl (on_event coreRequestId hasTenant) s1 (Data <$> chunks)) in *.
  cbn [foldl on_event]. rewrite Hs. cbn [client].
  destruct (client s2) as [m o d]. cbn in Hops, Hm, Hd. by subst.
Qed.

Lemma convert_without_content (j : json) :
  j ≠ JNull → (∀ items, get j "content" ≠ Some (JArr items)) →
  ∃ openaiResponse,
    Format.convert_parsed (Some j) = Ok openaiResponse ∧
    get openaiResponse "object" = Some (JStr "chat.completion") ∧
    get openaiResponse "choices" = Some (JArr []).
Proof.
  intros Hnull Hcontent. unfold Format.convert_parsed.
  assert (Hprop : ∀ k, prop (Some j) k = Ok (get j k)) by by destruct j.
  rewrite !Hprop. cbn [mbind outcome_bind].
  destruct (get j "content") as [[| | | |items|]|] eqn:Hc; cbn [mbind outcome_bind];
    try (eexists; split; [reflexivity|done]).
  by destruct (Hcontent items).
Qed.

(** The front end reads a request to its end. *)
Lemma collected chunks : ∀ body,
  OpenAI.collectRequestBody body ((Chunk <$> chunks) ++ [EndOfBody])
  = Some (Ok (foldl String.append body chunks, [])).
Proof.
  induction chunks as [|chunk chunks IH]; intros body; [done|].
  rewrite fmap_cons. cbn [app OpenAI.collectRequestBody foldl]. apply IH.
Qed.

End openai_facts.

(** C10. A chat completion request that is not streamed is never answered:
    the front end reads the body of the request to its end and hands the
    request to [proxyCore.handleRequest], which waits for the body to
    arrive once more; nothing is authenticated, no upstream is selected and
    nothing is written to the client. The interceptors themselves are as
    claimed: were the core to forward the request, its status line would
    not reach the client, and once the buffered upstream body converts the
    client would receive the status 200 with the content type
    [application/json], whatever status the upstream answered with; a
    body that is JSON other than [null] and has no [content] array, as the
    error bodies of the upstream are, converts to a [chat.completion] whose
    [choices] are empty. *)
Theorem C10_non_streaming {rt : JS.Runtime} (env : Proxy.Env)
    (authenticate : string → Proxy.AuthResult) (requestId coreRequestId : string)
    (chunks : list string) (st : LB.State) (hasTenant : bool)
    (statusCode : Z) (headers : list (string * Http.HeaderValue)) (replies : list string) :
  let request := (Proxy.Chunk <$> chunks) ++ [Proxy.EndOfBody] in
  let openaiBody := foldl String.append EmptyString chunks in
  let answer := foldl String.append EmptyString replies in
  let s := Proxy.proxyRequest coreRequestId hasTenant
             (OpenAI.intercept requestId Http.fresh)
             (Proxy.Response statusCode headers
                :: (Proxy.Data <$> replies) ++ [Proxy.EndOfResponse]) in
  (∀ openaiRequest,
     JS.JSON_parse openaiBody = Some openaiRequest →
     OpenAI.wants_stream openaiRequest = Ok false →
     OpenAI.handleOpenAICompatRequest true env authenticate requestId coreRequestId
       request Http.fresh st
     = OpenAI.Core (Proxy.Pending (OpenAI.intercept requestId Http.fresh))
     ∧ Http.ops (OpenAI.intercept requestId Http.fresh) = [])
  ∧ (∀ openaiResponse,
       Format.convertNonStreamingResponse answer = Ok openaiResponse →
       Http.ops (Proxy.client s)
       = [Http.WriteHead 200
            [("Content-Type", Http.HStr "application/json");
             ("Content-Length",
              Http.HNum (JS.Buffer_byteLength (JS.JSON_stringify openaiResponse)))];
          Http.End (Some (JS.JSON_stringify openaiResponse))])
  ∧ (∀ j, JS.JSON_parse answer = Some j → j ≠ JS.JNull →
       (∀ items, JS.get j "content" ≠ Some (JS.JArr items)) →
       ∃ openaiResponse,
         Format.convertNonStreamingResponse answer = Ok openaiResponse ∧
         JS.get openaiResponse "object" = Some (JS.JStr "chat.completion") ∧
         JS.get openaiResponse "choices" = Some (JS.JArr [])).
Proof.
  cbv zeta. split_and!.
  - intros openaiRequest Hparse Hstream. split; [|done].
    unfold OpenAI.handleOpenAICompatRequest. cbn [negb].
    rewrite collected, Hparse, Hstream. done.
  - intros openaiResponse Hconv. rewrite intercepted_response. cbv zeta.
    unfold Http.end_. cbn [Http.mode Http.responseData Http.ops default].
    rewrite append_empty_r, Hconv. done.
  - intros j Hparse Hnull Hcontent.
    destruct (convert_without_content j Hnull Hcontent) as (o & Hconv & Hobj & Hchoices).
    exists o. unfold Format.convertNonStreamingResponse. by rewrite Hparse, Hconv.
Qed.

Section openai_witness.
#[local] Existing Instance Demo.runtime.

(** The sample chat request, sent in one chunk by a client whose key would
    be accepted. *)
Lemma C10_witness :
  OpenAI.handleOpenAICompatRequest true (Demo.env Usage.ENOENT)
    (λ _, Proxy.Authenticated Demo.tenant (Some "claude-3-5-haiku-20241022"))
    "9f3a5c0e11d2b7a4" "c0ffee0123456789"
    [Proxy.Chunk Demo.chatRequestText; Proxy.EndOfBody] Http.fresh Demo.balancer
  = OpenAI.Core (Proxy.Pending (OpenAI.intercept "9f3a5c0e11d2b7a4" Http.fresh))
  ∧ Http.ops (OpenAI.intercept "9f3a5c0e11d2b7a4" Http.fresh) = [].
Proof.
  destruct (C10_non_streaming (Demo.env Usage.ENOENT)
              (λ _, Proxy.Authenticated Demo.tenant (Some "claude-3-5-haiku-20241022"))
              "9f3a5c0e11d2b7a4" "c0ffee0123456789" [Demo.chatRequestText] Demo.balancer
              true 200 [] []) as (Hroute & _).
  apply (Hroute Demo.chatRequest); reflexivity.
Defined.

End openai_witness.

(** ** The limit guard in [handleRequest] *)

Section guard_facts.
Import JS Http Extract Usage Proxy.
Context {rt : Runtime}.

Lemma limit_rejected_intro env requestId tenant model body st usage message :
  model ≠ EmptyString →
  extractTokenUsage body = Some usage →
  checkLimitsExceeded (tenants env) (MODEL_PRICING env) (parseLine env) (todayFile env)
                      (t_id tenant) model usage
  = Ok (mkLimitCheck true message) →
  limit_rejected (handleRequest env requestId (Authenticated tenant (Some model)) body fresh st)
                 (CheckLimits (t_id tenant) model usage) requestId.
Proof.
  intros Hm Husage Hcheck. unfold handleRequest.
  rewrite (bool_decide_eq_false_2 _ Hm), Husage, Hcheck. cbn [exceeded Usage.message].
  split_and!; [done|done|]. by exists message.
Qed.

End guard_facts.

Section guard_samples.
Import JS Http Extract Usage Proxy.
#[local] Existing Instance Demo.runtime.

(** A tenant capped at 10 USD whose spend of today is exactly 10 USD sends
    a request whose body does carry a usage object, of no tokens: the
    guard is called, finds the cap not exceeded, and the request is
    forwarded. *)
Lemma guard_at_the_cap :
  let model := "claude-3-5-haiku-20241022" in
  let h := handleRequest (Demo.env (Content Demo.line10)) "9f3a5c0e11d2b7a4"
             (Authenticated Demo.tenant (Some model))
             Demo.usageRequestText fresh Demo.balancer in
  calls h = [CheckLimits "team-a" model zeroUsage; SelectUpstream]
  ∧ next h = Forward (Some Demo.upA)
  ∧ ops (res h) = [].
Proof. cbv zeta. split_and!; by vm_compute. Qed.

End guard_samples.

(** C1. For an authenticated request with an extracted model,
    [handleRequest] calls the limit guard only when a token usage object
    can be taken from the body of the request
    ([Helpers.extractTokenUsage(requestBody)]): when none can, as from
    every ordinary Messages request, the guard is not called and an
    upstream is selected, whatever the tenant has spent. When one can, the
    guard is called before any selection; it answers [exceeded] exactly
    when [(todayUsage.totalCost || 0) + cost > maxUSD] for a tenant with a
    cap, and then no upstream is selected and the client receives 429 with
    the error type [limit_exceeded]; otherwise an upstream is selected. *)
Theorem C1_limit_guard {rt : JS.Runtime} (env : Proxy.Env) (requestId : string)
    (tenant : Usage.Tenant) (model body : string) (st : LB.State) :
  model ≠ EmptyString →
  let h := Proxy.handleRequest env requestId (Proxy.Authenticated tenant (Some model))
             body Http.fresh st in
  (Extract.extractTokenUsage body = None →
     Proxy.calls h = [Proxy.SelectUpstream]
     ∧ ∀ upstream st', LB.selectUpstream (Proxy.lbConfig env) (Proxy.random env) st
                       = Ok (upstream, st') →
         Proxy.next h = Proxy.Forward upstream ∧ Http.ops (Proxy.res h) = [])
  ∧ (∀ usage, Extract.extractTokenUsage body = Some usage →
       let guard := Proxy.CheckLimits (Usage.t_id tenant) model usage in
       (∃ rest, Proxy.calls h = guard :: rest)
       ∧ (∀ cap today,
            Usage.getTenant (Proxy.tenants env) (Usage.t_id tenant) ≫= Usage.cap_of
            = Some cap →
            Usage.getDailyUsage (Proxy.parseLine env) (Proxy.todayFile env) = Ok today →
            let spent := Num.or0 (Usage.sumTotalCost (Usage.totals today)) in
            let cost :=
              Usage.totalCost (Usage.calculateCost (Proxy.MODEL_PRICING env) model usage) in
            (Num.gtb (Num.add spent cost) cap = true →
             Proxy.limit_rejected h guard requestId)
            ∧ (Num.gtb (Num.add spent cost) cap = false →
               Proxy.calls h = [guard; Proxy.SelectUpstream]))).
Proof.
  intros Hm. cbv zeta. split.
  - intros Hnone. unfold Proxy.handleRequest.
    rewrite (bool_decide_eq_false_2 _ Hm), Hnone.
    destruct (LB.selectUpstream _ _ _) as [[u st']|e]; cbn; [|done].
    split; [done|]. by intros ? ? [= <- <-].
  - intros usage Husage. split.
    + unfold Proxy.handleRequest. rewrite (bool_decide_eq_false_2 _ Hm), Husage.
      destruct (Usage.checkLimitsExceeded _ _ _ _ _ _ _) as [[[] msg]|e]; cbn [Usage.exceeded];
        [by eexists| |by eexists].
      destruct (LB.selectUpstream _ _ _) as [[u st']|e]; by eexists.
    + intros cap today Hcap Htoday. split; intros Hgt.
      * eapply limit_rejected_intro; [done|done|].
        unfold Usage.checkLimitsExceeded. rewrite Hcap, Htoday. cbn [mbind outcome_bind].
        rewrite Hgt. reflexivity.
      * unfold Proxy.handleRequest. rewrite (bool_decide_eq_false_2 _ Hm), Husage.
        unfold Usage.checkLimitsExceeded. rewrite Hcap, Htoday. cbn [mbind outcome_bind].
        rewrite Hgt. cbn [Usage.exceeded].
        destruct (LB.selectUpstream _ _ _) as [[u st']|e]; done.
Qed.

Section guard_witness.
Import JS Http Extract Usage Proxy.
#[local] Existing Instance Demo.runtime.

(** A tenant capped at 10 USD has spent 50 USD today and sends an ordinary
    Messages request: the guard, asked, would refuse it; it is not asked,
    and the request is forwarded. The same tenant sends a request whose
    body carries a usage object: it is refused. *)
Lemma C1_witness :
  let model := "claude-3-5-haiku-20241022" in
  let spent50 := Demo.env (Content Demo.line50) in
  let h := handleRequest spent50 "9f3a5c0e11d2b7a4" (Authenticated Demo.tenant (Some model))
             Demo.plainRequestText fresh Demo.balancer in
  let h' := handleRequest spent50 "9f3a5c0e11d2b7a4" (Authenticated Demo.tenant (Some model))
              Demo.usageRequestText fresh Demo.balancer in
  exceeded <$> checkLimitsExceeded (tenants spent50) (MODEL_PRICING spent50)
                 (parseLine spent50) (todayFile spent50) "team-a" model zeroUsage
  = Ok true
  ∧ calls h = [SelectUpstream]
  ∧ next h = Forward (Some Demo.upA)
  ∧ ops (res h) = []
  ∧ calls h' = [CheckLimits "team-a" model zeroUsage]
  ∧ next h' = Finished.
Proof.
  cbv zeta.
  destruct (C1_limit_guard (Demo.env (Content Demo.line50)) "9f3a5c0e11d2b7a4" Demo.tenant
              "claude-3-5-haiku-20241022" Demo.plainRequestText Demo.balancer)
    as [Hplain _]; [discriminate|].
  destruct (C1_limit_guard (Demo.env (Content Demo.line50)) "9f3a5c0e11d2b7a4" Demo.tenant
              "claude-3-5-haiku-20241022" Demo.usageRequestText Demo.balancer)
    as [_ Husage]; [discriminate|].
  destruct Hplain as [Hcalls Hnext]; [reflexivity|].
  destruct (Hnext (Some Demo.upA)
              (LB.with_counters Demo.balancer
                 (LB.take_total [Demo.upA; Demo.upB] Demo.upA
                    (LB.add_weights [Demo.upA; Demo.upB]
                       (LB.initCounters [Demo.upA; Demo.upB]))))) as [Hfwd Hops].
  { vm_compute. reflexivity. }
  destruct (Husage zeroUsage) as [_ Hguard]; [reflexivity|].
  edestruct Hguard as [Hover _]; [reflexivity|vm_compute; reflexivity|].
  destruct Hover as (Hcalls' & Hnext' & _); [vm_compute; reflexivity|].
  split_and!; [by vm_compute|exact Hcalls|exact Hfwd|exact Hops|exact Hcalls'|exact Hnext'].
Defined.

End guard_witness.
(** * Further properties *)

(** Arithmetic over [Q] with the injected integers taken as unknowns. *)
Ltac qarith :=
  repeat match goal with
         | |- context [inject_Z ?z] =>
             let q := fresh "q" in set (q := inject_Z z) in *; clearbody q
         | H : context [inject_Z ?z] |- _ =>
             let q := fresh "q" in set (q := inject_Z z) in *; clearbody q
         end;
  first [lra | nra].

Lemma filter_ext_in {A} (P Q : A → Prop) `{∀ x, Decision (P x)} `{∀ x, Decision (Q x)}
    (l : list A) :
  (∀ x, x ∈ l → P x ↔ Q x) → filter P l = filter Q l.
Proof.
  induction l as [|x l IH]; intros Hl; [done|].
  rewrite !filter_cons.
  rewrite IH by (intros; apply Hl, elem_of_cons; auto).
  destruct (decide (P x)) as [HP|HP], (decide (Q x)) as [HQ|HQ]; try done;
    exfalso; apply (Hl x) in HP || apply (Hl x) in HQ; try done; apply elem_of_cons; auto.
Qed.

Section balancer_facts.
Import LB Balancer.
Implicit Types (us : list Upstream) (u : Upstream) (st : State) (m : gmap string (option Z)).

Lemma rr_run_spec us n : ∀ st,
  us ≠ [] →
  ∃ st', rr_run us n st
         = Ok ((λ k, us !! ((currentIndex st + k) mod length us)%nat) <$> seq 0 n, st')
    ∧ upstreams st' = upstreams st ∧ healthStatus st' = healthStatus st
    ∧ weightCounters st' = weightCounters st
    ∧ currentIndex st' = match n with
                         | O => currentIndex st
                         | S _ => ((currentIndex st + n) mod length us)%nat
                         end.
Proof.
  induction n as [|n IH]; intros st Hne.
  - exists st. done.
  - cbn [rr_run]. unfold roundRobinSelection.
    rewrite decide_False by (by destruct us).
    cbn [mbind outcome_bind].
    set (st1 := mkState _ _ _ _).
    destruct (IH st1 Hne) as (st' & -> & Hu & Hh & Hw & Hc).
    exists st'. cbn [mbind outcome_bind]. split_and!; try done.
    + f_equal. f_equal. cbn [seq fmap list_fmap]. f_equal.
      * by rewrite Nat.add_0_r.
      * rewrite <- !seq_shift, <- !list_fmap_compose.
        apply list_fmap_ext. intros _ k _. cbn.
        f_equal. rewrite Nat.Div0.add_mod_idemp_l. f_equal. lia.
    + rewrite Hc. destruct n as [|n']; cbn [currentIndex st1].
      * done.
      * rewrite Nat.Div0.add_mod_idemp_l. f_equal. lia.
Qed.

Lemma rotation_lookup us (i : nat) :
  (i < length us)%nat →
  (λ k, us !! ((i + k) mod length us)%nat) <$> seq 0 (length us)
  = Some <$> (drop i us ++ take i us).
Proof.
  intros Hi. apply list_eq. intros k.
  rewrite !list_lookup_fmap.
  destruct (decide (k < length us)%nat) as [Hk|Hk].
  - rewrite lookup_seq_lt by done. cbn.
    destruct (decide (i + k < length us)%nat) as [Hlt|Hge].
    + rewrite Nat.mod_small by done.
      rewrite lookup_app_l by (rewrite length_drop; lia).
      rewrite lookup_drop.
      destruct (lookup_lt_is_Some_2 us (i + k)) as [x Hx]; [done|]. by rewrite Hx.
    + rewrite lookup_app_r by (rewrite length_drop; lia).
      rewrite length_drop, lookup_take_lt by lia.
      replace ((i + k) mod length us)%nat with (k - (length us - i))%nat.
      * destruct (lookup_lt_is_Some_2 us (k - (length us - i))) as [x Hx]; [lia|]. by rewrite Hx.
      * apply Nat.mod_unique with 1%nat; lia.
  - rewrite lookup_seq_ge by lia. cbn.
    rewrite lookup_ge_None_2; [done|].
    rewrite length_app, length_drop, length_take. lia.
Qed.


(** A round of probes over a list of upstreams with distinct ids. *)
Lemma health_round_spec (probe : Upstream → Probe) us : ∀ st,
  NoDup (ids us) →
  let st' := foldl (λ s u, checkUpstreamHealth u (probe u) s) st us in
  upstreams st' = upstreams st
  ∧ (∀ u, u ∈ us → healthStatus st' !! up_id u = Some (isHealthy (probe u)))
  ∧ (∀ i, i ∉ ids us → healthStatus st' !! i = healthStatus st !! i).
Proof.
  induction us as [|v us IH]; intros st Hnd; cbn zeta.
  - split_and!; [done|intros ? []%elem_of_nil|done].
  - unfold ids in Hnd. rewrite fmap_cons in Hnd. apply NoDup_cons in Hnd as [Hv Hnd].
    cbn [foldl].
    destruct (IH (checkUpstreamHealth v (probe v) st) Hnd) as (Hu & Hin & Hout).
    split_and!.
    + by rewrite Hu.
    + intros u [->|Hu']%elem_of_cons.
      * rewrite Hout by done. cbn. by rewrite lookup_insert_eq.
      * by apply Hin.
    + intros i Hi. unfold ids in Hi. rewrite fmap_cons in Hi.
      rewrite Hout by (intros ?; apply Hi, elem_of_cons; auto).
      cbn. rewrite lookup_insert_ne; [done|]. intros <-. apply Hi, elem_of_cons; auto.
Qed.

(** The [for] loop of the weighted random choice: the candidate returned is
    the first one at which the running total of the weights reaches
    [randomNum]. *)
Lemma weightedPick_spec us : ∀ (r : Q),
  (r <= inject_Z (sumZ weight_of us))%Q → us ≠ [] →
  ∃ i u, weightedPick r us = Some u ∧ us !! i = Some u
    ∧ (r <= inject_Z (weightBefore us (S i)))%Q
    ∧ ∀ j, (j < i)%nat → (inject_Z (weightBefore us (S j)) < r)%Q.
Proof.
  unfold weightBefore.
  induction us as [|v us IH]; intros r Hr Hne; [done|].
  cbn [weightedPick].
  destruct (Qle_bool (r - inject_Z (weight_of v)) 0) eqn:Hle.
  - apply Qle_bool_iff in Hle.
    exists 0%nat, v. split_and!; [done|done| |intros; lia].
    cbn [take sumZ foldr]. rewrite Z.add_0_r. qarith.
  - assert (Hgt : (0 < r - inject_Z (weight_of v))%Q).
    { apply Qnot_le_lt. intros H. apply Qle_bool_iff in H. congruence. }
    cbn [sumZ foldr] in Hr. fold (sumZ weight_of us) in Hr.
    rewrite inject_Z_plus in Hr.
    destruct us as [|v' us'] eqn:Hus.
    { cbn [sumZ foldr] in Hr. change (inject_Z 0) with 0%Q in Hr. qarith. }
    rewrite <- Hus in *.
    destruct (IH (r - inject_Z (weight_of v))%Q) as (i & u & Hp & Hi & Hub & Hlb);
      [qarith|by subst|].
    exists (S i), u. split_and!; [done|done| |].
    + cbn [take sumZ foldr]. fold (sumZ weight_of (take (S i) us)).
      rewrite inject_Z_plus. qarith.
    + intros [|j] Hj.
      * cbn [take sumZ foldr]. rewrite Z.add_0_r. qarith.
      * cbn [take sumZ foldr]. fold (sumZ weight_of (take (S j) us)).
        rewrite inject_Z_plus. specialize (Hlb j ltac:(lia)). qarith.
Qed.

(** A counter that is not a number stays so through the [forEach], and the
    candidate kept had a number for a counter. *)
Lemma bump_nan us : ∀ m sel mx m' sel' mx',
  foldl bump (m, sel, mx) us = (m', sel', mx') →
  (∀ i, counter m i = None → counter m' i = None)
  ∧ (sel' = sel ∨ ∃ s, sel' = Some s ∧ s ∈ us ∧ counter m (up_id s) ≠ None).
Proof.
  induction us as [|v us IH]; intros m sel mx m' sel' mx' Hf.
  - cbn in Hf. simplify_eq. auto.
  - cbn [foldl] in Hf. unfold bump at 2 in Hf.
    set (m1 := <[up_id v := (λ c, c + weight_of v) <$> counter m (up_id v)]> m) in *.
    assert (Hstep : ∀ i, counter m i = None → counter m1 i = None).
    { intros i Hi. unfold counter, m1.
      destruct (decide (up_id v = i)) as [<-|Hne].
      - rewrite lookup_insert_eq. cbn. by rewrite Hi.
      - by rewrite lookup_insert_ne. }
    destruct (counter m (up_id v)) as [c|] eqn:Hc; cbn [fmap option_fmap option_map] in Hf;
      [case_decide|];
      apply IH in Hf as [Hn Hs]; (split; [intros i Hi; by apply Hn, Hstep|]);
      destruct Hs as [->|(s & -> & Hs & Hnum)];
      try (by left);
      right; eexists; (split; [done|]); (split; [apply elem_of_cons; auto|]);
      try (intros Hnone; by apply Hnum, Hstep); congruence.
Qed.

(** One weighted selection: the candidate returned is the head of the list
    or one whose counter was a number. *)
Lemma wrr_nan_step us st m :
  us ≠ [] → totalWeight us ≠ 0 →
  weightCounters st = Some m ∨ (weightCounters st = None ∧ m = initCounters us) →
  ∃ o m',
    weightedRoundRobinSelection us st = Ok (o, with_counters st m')
    ∧ (o = head us ∨ ∃ s, o = Some s ∧ counter m (up_id s) ≠ None)
    ∧ (∀ i, counter m i = None → counter m' i = None).
Proof.
  intros Hne HW Hwc. unfold weightedRoundRobinSelection.
  rewrite decide_False by (by destruct us).
  rewrite decide_False by done.
  assert (match weightCounters st with Some m => m | None => initCounters us end = m)
    as -> by (by destruct Hwc as [->|[-> ->]]).
  destruct (foldl bump (m, None, -1) us) as [[m1 sel] mx] eqn:Hf.
  apply bump_nan in Hf as [Hn Hs].
  destruct Hs as [->|(s & -> & Hs & Hnum)].
  - exists (us !! 0%nat), m1. split_and!; [done| |done].
    left. by destruct us.
  - eexists _, _. split_and!; [reflexivity|eauto|].
    intros i Hi. destruct (decide (up_id s = i)) as [<-|Hne'].
    + unfold counter at 1. rewrite lookup_insert_eq. cbn. by rewrite (Hn _ Hi).
    + unfold counter at 1. rewrite lookup_insert_ne by done. by apply Hn.
Qed.

Lemma wrr_nan_run us n : ∀ st m,
  us ≠ [] → totalWeight us ≠ 0 → weightCounters st = Some m →
  ∃ sels m',
    wrr_run us n st = Ok (sels, with_counters st m')
    ∧ length sels = n
    ∧ (∀ o, o ∈ sels → o = head us ∨ ∃ s, o = Some s ∧ counter m (up_id s) ≠ None)
    ∧ (∀ i, counter m i = None → counter m' i = None).
Proof.
  induction n as [|n IH]; intros st m Hne HW Hwc.
  - exists [], m. cbn. split_and!; [|done|intros ? []%elem_of_nil|done].
    destruct st; cbn in *; by subst.
  - destruct (wrr_nan_step us st m Hne HW) as (o & m1 & Hsel & Ho & Hn1); [auto|].
    destruct (IH (with_counters st m1) m1 Hne HW eq_refl) as (sels & m2 & Hrun & Hlen & Hsels & Hn2).
    exists (o :: sels), m2. cbn [wrr_run]. rewrite Hsel. cbn. rewrite Hrun. cbn.
    split_and!; [done|by rewrite Hlen| |auto].
    intros x [->|Hx]%elem_of_cons; [done|].
    destruct (Hsels x Hx) as [?|(s & -> & Hnum)]; [auto|].
    right. exists s. split; [done|]. intros Hnone. by apply Hnum, Hn1.
Qed.

(** The first weighted selections create counters for the candidates of
    that moment only. *)
Lemma wrr_first_run us n st :
  us ≠ [] → totalWeight us ≠ 0 → weightCounters st = None →
  ∃ sels m',
    wrr_run us (S n) st = Ok (sels, with_counters st m')
    ∧ ∀ i, i ∉ ids us → counter m' i = None.
Proof.
  intros Hne HW Hwc.
  destruct (wrr_nan_step us st (initCounters us) Hne HW) as (o & m1 & Hsel & _ & Hn1); [auto|].
  destruct (wrr_nan_run us n (with_counters st m1) m1 Hne HW eq_refl)
    as (sels & m2 & Hrun & _ & _ & Hn2).
  exists (o :: sels), m2. cbn [wrr_run]. rewrite Hsel. cbn. rewrite Hrun. cbn.
  split; [done|]. intros i Hi. apply Hn2, Hn1.
  unfold counter. rewrite initCounters_lookup. by rewrite bool_decide_eq_false_2.
Qed.

End balancer_facts.

(** X1. Over a list of candidates that is not empty, any number of consecutive
    round-robin selections succeed; the [k]-th of them returns the candidate
    at the position [(currentIndex + k) mod length], so that as many
    selections as there are candidates return each candidate exactly once;
    the weight counters and the health table are not touched. *)
Theorem X1_round_robin_cycle (us : list LB.Upstream) (n : nat) (st : LB.State) :
  us ≠ [] →
  ∃ sels st',
    Balancer.rr_run us n st = Ok (sels, st')
    ∧ length sels = n
    ∧ (∀ k, (k < n)%nat →
         sels !! k = Some (us !! ((LB.currentIndex st + k) mod length us)%nat))
    ∧ (n = length us → sels ≡ₚ Some <$> us)
    ∧ LB.weightCounters st' = LB.weightCounters st
    ∧ LB.healthStatus st' = LB.healthStatus st.
Proof.
  intros Hne.
  destruct (rr_run_spec us n st Hne) as (st' & Hrun & _ & Hh & Hw & _).
  eexists _, st'. split; [exact Hrun|]. split_and!.
  - by rewrite length_fmap, length_seq.
  - intros k Hk. rewrite list_lookup_fmap, lookup_seq_lt by done. done.
  - intros ->.
    assert (Hlen : length us ≠ 0%nat) by (by destruct us).
    rewrite (list_fmap_ext _ (λ k, us !! ((LB.currentIndex st mod length us + k) mod length us)%nat)
               (seq 0 (length us)))
      by (intros; by rewrite Nat.Div0.add_mod_idemp_l).
    rewrite rotation_lookup by (by apply Nat.mod_upper_bound).
    apply fmap_Permutation.
    rewrite Permutation_app_comm. by rewrite take_drop.
  - done.
  - done.
Qed.

Lemma X1_witness :
  ∃ sels st',
    Balancer.rr_run [Demo.upA; Demo.upB] 3 Demo.balancer = Ok (sels, st')
    ∧ length sels = 3%nat
    ∧ (∀ k, (k < 3)%nat →
         sels !! k
         = Some ([Demo.upA; Demo.upB] !! ((LB.currentIndex Demo.balancer + k) mod 2)%nat))
    ∧ (3%nat = length [Demo.upA; Demo.upB] → sels ≡ₚ Some <$> [Demo.upA; Demo.upB])
    ∧ LB.weightCounters st' = LB.weightCounters Demo.balancer
    ∧ LB.healthStatus st' = LB.healthStatus Demo.balancer.
Proof. apply (X1_round_robin_cycle [Demo.upA; Demo.upB] 3 Demo.balancer). done. Defined.

(** X2. When the ids of the upstreams are distinct, a round of health checks
    leaves the list of upstreams as it is, sets the status of every upstream
    to the verdict of its own probe and leaves every other id of the table
    alone; afterwards [getHealthyUpstreams] returns exactly the upstreams
    whose probe passed, in their order, and [getUpstreamStats] counts them
    as healthy and the others as unhealthy. *)
Theorem X2_health_round (probe : LB.Upstream → LB.Probe) (st : LB.State) :
  NoDup (LB.ids (LB.upstreams st)) →
  let st' := LB.performHealthCheck probe st in
  let passed := filter (λ u, LB.isHealthy (probe u) = true) (LB.upstreams st) in
  LB.upstreams st' = LB.upstreams st
  ∧ (∀ u, u ∈ LB.upstreams st →
       LB.healthStatus st' !! LB.up_id u = Some (LB.isHealthy (probe u)))
  ∧ (∀ i, i ∉ LB.ids (LB.upstreams st) → LB.healthStatus st' !! i = LB.healthStatus st !! i)
  ∧ LB.getHealthyUpstreams st' = passed
  ∧ Balancer.healthy (Balancer.getUpstreamStats st') = Z.of_nat (length passed)
  ∧ Balancer.unhealthy (Balancer.getUpstreamStats st')
    = Z.of_nat (length (LB.upstreams st)) - Z.of_nat (length passed).
Proof.
  intros Hnd. cbn zeta.
  destruct (health_round_spec probe (LB.upstreams st) st Hnd) as (Hu & Hin & Hout).
  fold (LB.performHealthCheck probe st) in Hu, Hin, Hout.
  assert (Hh : LB.getHealthyUpstreams (LB.performHealthCheck probe st)
               = filter (λ u, LB.isHealthy (probe u) = true) (LB.upstreams st)).
  { unfold LB.getHealthyUpstreams. rewrite Hu.
    apply filter_ext_in. intros u Hu'.
    rewrite (Hin u Hu'). destruct (LB.isHealthy (probe u)); split; congruence. }
  split_and!; [done|done|done|done| |].
  - cbn. by rewrite Hh.
  - cbn. by rewrite Hh, Hu.
Qed.

Lemma X2_witness :
  LB.getHealthyUpstreams
    (LB.performHealthCheck
       (λ u, if bool_decide (LB.up_id u = "a") then LB.Responded 204 else LB.Timeout)
       Demo.lbState)
  = [Demo.upA].
Proof.
  destruct (X2_health_round
              (λ u, if bool_decide (LB.up_id u = "a") then LB.Responded 204 else LB.Timeout)
              Demo.lbState) as (_ & _ & _ & Hh & _).
  - apply (bool_decide_unpack _). by vm_compute.
  - rewrite Hh. reflexivity.
Defined.



(** X4. The counters of the weighted round robin are created at the first
    selection, for the candidates of that selection only. An upstream that
    was not among them and joins the candidates later (one that recovers
    from being unhealthy, say) is never selected by any later run of
    selections, unless it stands first in the list. *)
Theorem X4_late_candidate (cs0 us : list LB.Upstream) (u : LB.Upstream) (k n : nat)
    (st : LB.State) :
  LB.weightCounters st = None →
  cs0 ≠ [] → LB.valid_weights cs0 →
  us ≠ [] → LB.valid_weights us →
  LB.up_id u ∉ LB.ids cs0 → head us ≠ Some u →
  ∃ sels0 st1 sels st2,
    LB.wrr_run cs0 (S k) st = Ok (sels0, st1)
    ∧ LB.wrr_run us n st1 = Ok (sels, st2)
    ∧ length sels = n
    ∧ Some u ∉ sels.
Proof.
  intros Hfresh Hne0 Hv0 Hne Hv Hid Hhd.
  pose proof (totalWeight_pos cs0 Hne0 Hv0) as HW0.
  pose proof (totalWeight_pos us Hne Hv) as HW.
  destruct (wrr_first_run cs0 k st Hne0 ltac:(lia) Hfresh) as (sels0 & m1 & Hrun0 & Hnan).
  destruct (wrr_nan_run us n (LB.with_counters st m1) m1 Hne ltac:(lia) eq_refl)
    as (sels & m2 & Hrun & Hlen & Hsels & _).
  exists sels0, (LB.with_counters st m1), sels, (LB.with_counters (LB.with_counters st m1) m2).
  split_and!; [done|done|done|].
  intros Hin. destruct (Hsels _ Hin) as [Heq|(s & [= <-] & Hnum)].
  - by apply Hhd.
  - by apply Hnum, Hnan.
Qed.

Lemma X4_witness :
  ∃ sels0 st1 sels st2,
    LB.wrr_run [Demo.upA] 1 Demo.balancer = Ok (sels0, st1)
    ∧ LB.wrr_run [Demo.upA; Demo.upB] 6 st1 = Ok (sels, st2)
    ∧ length sels = 6%nat
    ∧ Some Demo.upB ∉ sels.
Proof.
  apply (X4_late_candidate [Demo.upA] [Demo.upA; Demo.upB] Demo.upB 0 6 Demo.balancer).
  - reflexivity.
  - done.
  - intros u w [->|[]%elem_of_nil]%elem_of_cons [= <-]; lia.
  - done.
  - intros u w [->|[->|[]%elem_of_nil]%elem_of_cons]%elem_of_cons [= <-]; lia.
  - apply (bool_decide_unpack _). by vm_compute.
  - done.
Defined.

Section retry_facts.
Import Helpers.
Context {E A : Type}.
Implicit Types (fn : nat → outcome E A).

Lemma retry_loop_success fn maxAttempts delayMs : ∀ (n remaining attempt : nat) lastError v,
  (n < remaining)%nat →
  Z.of_nat (attempt + n) ≤ maxAttempts →
  (∀ j, (attempt ≤ j < attempt + n)%nat → ∃ e, fn j = Throw e) →
  fn (attempt + n)%nat = Ok v →
  retry_loop fn maxAttempts delayMs remaining attempt lastError
  = (Ok v, (λ j, delayMs * Z.of_nat j) <$> seq attempt n).
Proof.
  induction n as [|n IH]; intros remaining attempt lastError v Hrem Hmax Hfail Hok.
  - destruct remaining as [|remaining]; [lia|]. cbn [retry_loop].
    rewrite Nat.add_0_r in Hok. by rewrite Hok.
  - destruct remaining as [|remaining]; [lia|]. cbn [retry_loop].
    destruct (Hfail attempt) as [e He]; [lia|]. rewrite He.
    rewrite (IH remaining (S attempt) (Some e) v); [|lia|lia| |].
    + rewrite decide_True by lia. done.
    + intros j Hj. apply Hfail. lia.
    + rewrite <- Hok. f_equal. lia.
Qed.

Lemma retry_loop_failure fn maxAttempts delayMs : ∀ (remaining attempt : nat) lastError,
  Z.of_nat (attempt + remaining) = maxAttempts + 1 →
  (∀ j, (attempt ≤ j < attempt + remaining)%nat → ∃ e, fn j = Throw e) →
  retry_loop fn maxAttempts delayMs remaining attempt lastError
  = (Throw (match remaining with
            | O => lastError
            | S _ => match fn (attempt + remaining - 1)%nat with
                     | Throw e => Some e
                     | Ok _ => None
                     end
            end),
     (λ j, delayMs * Z.of_nat j) <$> seq attempt (remaining - 1)).
Proof.
  induction remaining as [|remaining IH]; intros attempt lastError Hmax Hfail.
  - done.
  - cbn [retry_loop].
    destruct (Hfail attempt) as [e He]; [lia|]. rewrite He.
    rewrite (IH (S attempt) (Some e)); [|lia|intros j Hj; apply Hfail; lia].
    destruct remaining as [|remaining].
    + rewrite decide_False by lia. cbn. rewrite Nat.add_1_r. cbn.
      rewrite Nat.sub_0_r. rewrite He. done.
    + rewrite decide_True by lia.
      replace (S attempt + S remaining - 1)%nat with (attempt + S (S remaining) - 1)%nat by lia.
      cbn [Nat.sub seq fmap list_fmap]. rewrite !Nat.sub_0_r. done.
Qed.

End retry_facts.

(** X5. [Helpers.retry] calls [fn] until it succeeds for the first time and
    returns that result, having waited [delayMs * j] after the [j]-th failed
    attempt; when all of [maxAttempts >= 1] attempts fail it throws the
    error of the last one, without a wait after it; and with
    [maxAttempts <= 0] it calls nothing, waits for nothing and throws
    [undefined]. *)
Theorem X5_retry {E A : Type} (fn : nat → outcome E A) (maxAttempts delayMs : Z) :
  (∀ (k : nat) v,
     (1 ≤ k)%nat → Z.of_nat k ≤ maxAttempts →
     (∀ j, (1 ≤ j < k)%nat → ∃ e, fn j = Throw e) →
     fn k = Ok v →
     Helpers.retry fn maxAttempts delayMs
     = (Ok v, (λ j, delayMs * Z.of_nat j) <$> seq 1 (k - 1)))
  ∧ (∀ e,
       1 ≤ maxAttempts →
       (∀ j, 1 ≤ Z.of_nat j ≤ maxAttempts → ∃ e', fn j = Throw e') →
       fn (Z.to_nat maxAttempts) = Throw e →
       Helpers.retry fn maxAttempts delayMs
       = (Throw (Some e), (λ j, delayMs * Z.of_nat j) <$> seq 1 (Z.to_nat maxAttempts - 1)))
  ∧ (maxAttempts ≤ 0 → Helpers.retry fn maxAttempts delayMs = (Throw None, [])).
Proof.
  split_and!.
  - intros k v Hk Hmax Hfail Hok. unfold Helpers.retry.
    rewrite (retry_loop_success fn maxAttempts delayMs (k - 1) _ 1 None v); [done|lia|lia| |].
    + intros j Hj. apply Hfail. lia.
    + rewrite <- Hok. f_equal. lia.
  - intros e Hmax Hfail Hlast. unfold Helpers.retry.
    rewrite retry_loop_failure; [|lia|intros j Hj; apply Hfail; lia].
    destruct (Z.to_nat maxAttempts) as [|n] eqn:Hn; [lia|].
    replace (1 + S n - 1)%nat with (S n) by lia. rewrite Hlast. done.
  - intros Hmax. unfold Helpers.retry.
    replace (Z.to_nat maxAttempts) with 0%nat by lia. done.
Qed.

Lemma chars_of_chars (l : list ascii) : Str.chars (Str.of_chars l) = l.
Proof. apply list_ascii_of_string_of_list_ascii. Qed.

Lemma omap_cons_match {A B} (f : A → option B) (x : A) (l : list A) :
  omap f (x :: l) = match f x with Some y => y :: omap f l | None => omap f l end.
Proof. done. Qed.

Lemma omap_none {A B} (f : A → option B) (l : list A) :
  (∀ x, x ∈ l → f x = None) → omap f l = [].
Proof.
  induction l as [|x l IH]; intros Hl; [done|]. cbn.
  rewrite (Hl x) by (apply elem_of_cons; auto).
  apply IH. intros; apply Hl, elem_of_cons; auto.
Qed.

Section sse_facts.
Import JS Extract Sse.
Context {rt : Runtime}.
Implicit Types (s : Scan) (e d : list ascii) (ev : list ascii * list ascii).

Lemma split_lines_aux_line (l : list ascii) : ∀ cur rest,
  newline ∉ l →
  Str.split_lines_aux cur (l ++ newline :: rest) = (rev cur ++ l) :: Str.split_lines_aux [] rest.
Proof.
  induction l as [|c l IH]; intros cur rest Hl; cbn [app Str.split_lines_aux].
  - rewrite bool_decide_eq_true_2 by done. by rewrite app_nil_r.
  - rewrite bool_decide_eq_false_2 by (intros ->; apply Hl; left).
    rewrite IH by (intros ?; apply Hl; by right). cbn [rev]. by rewrite <- app_assoc.
Qed.

Lemma split_lines_unlines (lines : list (list ascii)) :
  Forall (λ l, newline ∉ l) lines → Str.split_lines (unlines lines) = lines ++ [[]].
Proof.
  unfold Str.split_lines, unlines. induction 1 as [|l lines Hl _ IH]; [done|].
  rewrite bind_cons, <- app_assoc. cbn [app].
  rewrite split_lines_aux_line by done. by rewrite IH.
Qed.

Lemma trim_keep (c c' : ascii) (l l' : list ascii) :
  Str.is_space c = false → Str.is_space c' = false → c :: l = l' ++ [c'] →
  Str.trim (c :: l) = c :: l.
Proof.
  intros Hc Hc' Heq. unfold Str.trim. cbn [Str.trimStart]. rewrite Hc, Heq.
  rewrite rev_app_distr. cbn [rev app Str.trimStart]. rewrite Hc'.
  cbn [rev]. by rewrite rev_involutive.
Qed.

Lemma tidy_cons (c : ascii) (l : list ascii) :
  tidy l → Str.is_space c = false →
  ∃ c' l', c :: l = l' ++ [c'] ∧ Str.is_space c' = false.
Proof. intros (_ & l' & c' & -> & Hc') _. by exists c', (c :: l'). Qed.

Lemma tidy_nonempty (l : list ascii) : tidy l → ∃ c l', l = c :: l'.
Proof. intros (_ & [|x l'] & c & -> & _); cbn; eauto. Qed.

Lemma startsWith_app (p l : list ascii) : Str.startsWith p (p ++ l) = true.
Proof. induction p as [|c p IH]; cbn; [done|]. by rewrite bool_decide_eq_true_2. Qed.

Lemma includes_unfold (p l : list ascii) :
  Str.includes p l
  = Str.startsWith p l || match l with [] => false | _ :: l' => Str.includes p l' end.
Proof. by destruct l. Qed.

Lemma includes_app (p a b : list ascii) : Str.includes p (a ++ p ++ b) = true.
Proof.
  induction a as [|c a IH]; cbn [app].
  - rewrite includes_unfold, startsWith_app. done.
  - rewrite includes_unfold, IH. by rewrite orb_true_r.
Qed.

Lemma parseSSEUsageData_type e d u :
  parseSSEUsageData e d = Some u →
  e = Str.chars "message_start" ∨ e = Str.chars "message_delta".
Proof.
  unfold parseSSEUsageData. repeat case_bool_decide; auto. done.
Qed.

(** [totalUsage] as it will be once the pending event is accounted for. *)
Local Abbreviation settled s := (default (totalUsage s) (pending s)).

Lemma scan_event s e :
  tidy e →
  scan_line s (Str.chars "event: " ++ e) = mkScan (settled s) e [].
Proof.
  intros He. unfold scan_line.
  destruct (tidy_cons "e"%char (Str.chars "vent: " ++ e)) as (c' & l' & Heq & Hc'); [|done|].
  { destruct He as (Hn & l' & c & -> & Hc). split.
    - intros [H|H]%elem_of_app; [|done]. revert H. by apply (bool_decide_unpack _).
    - exists (Str.chars "vent: " ++ l'), c. by rewrite app_assoc. }
  change (Str.chars "event: " ++ e) with ("e"%char :: (Str.chars "vent: " ++ e)).
  rewrite (trim_keep _ c' _ l') by done.
  change ("e"%char :: (Str.chars "vent: " ++ e)) with (Str.chars "event: " ++ e).
  rewrite startsWith_app. f_equal.
  destruct (pending s) as [u|] eqn:Hp; [|done].
  assert (Hty : currentEvent s = Str.chars "message_start"
                ∨ currentEvent s = Str.chars "message_delta").
  { unfold pending in Hp. repeat case_match; try done. by eapply parseSSEUsageData_type. }
  destruct Hty as [->| ->]; done.
Qed.

Lemma scan_data s d :
  tidy d →
  scan_line s (Str.chars "data: " ++ d) = mkScan (totalUsage s) (currentEvent s) d.
Proof.
  intros Hd. unfold scan_line.
  destruct (tidy_cons "d"%char (Str.chars "ata: " ++ d)) as (c' & l' & Heq & Hc'); [|done|].
  { destruct Hd as (Hn & l' & c & -> & Hc). split.
    - intros [H|H]%elem_of_app; [|done]. revert H. by apply (bool_decide_unpack _).
    - exists (Str.chars "ata: " ++ l'), c. by rewrite app_assoc. }
  change (Str.chars "data: " ++ d) with ("d"%char :: (Str.chars "ata: " ++ d)).
  rewrite (trim_keep _ c' _ l') by done.
  change ("d"%char :: (Str.chars "ata: " ++ d)) with (Str.chars "data: " ++ d).
  rewrite startsWith_app.
  change (Str.startsWith (Str.chars "event: ") (Str.chars "data: " ++ d)) with false.
  done.
Qed.

Lemma scan_block s ev :
  tidy ev.1 → tidy ev.2 →
  foldl scan_line s (event_lines ev) = mkScan (settled s) ev.1 ev.2.
Proof.
  intros He Hd. unfold event_lines. cbn [foldl].
  rewrite scan_event, scan_data by done. done.
Qed.

Lemma settled_block s ev :
  tidy ev.1 → tidy ev.2 →
  settled (foldl scan_line s (event_lines ev))
  = default (settled s) (parseSSEUsageData ev.1 ev.2).
Proof.
  intros He Hd. rewrite scan_block by done.
  destruct (tidy_nonempty _ He) as (c & l & Hc), (tidy_nonempty _ Hd) as (c' & l' & Hc').
  unfold pending at 1. cbn [currentEvent eventData totalUsage]. by rewrite Hc, Hc' at 1 2.
Qed.

Lemma settled_events (events : list (list ascii * list ascii)) : ∀ s,
  Forall (λ ev, tidy ev.1 ∧ tidy ev.2) events →
  settled (foldl scan_line s (events ≫= event_lines))
  = default (settled s) (last_usage events).
Proof.
  unfold last_usage.
  induction events as [|ev events IH]; intros s Hev; [done|].
  apply Forall_cons in Hev as [[He Hd] Hev].
  rewrite bind_cons, foldl_app. rewrite IH by exact Hev.
  rewrite settled_block by assumption.
  rewrite omap_cons_match.
  destruct (parseSSEUsageData ev.1 ev.2) as [u|]; cbn [default]; [|done].
  change (u :: ?l) with ([u] ++ l). rewrite last_app. by destruct (last _).
Qed.

Lemma body_includes (events : list (list ascii * list ascii)) ev (name : string) :
  ev ∈ events → ev.1 = Str.chars name →
  Str.includes (Str.chars ("event: " ++ name)) (unlines (events ≫= event_lines)) = true.
Proof.
  intros (pre & post & ->)%list_elem_of_split Hname.
  unfold unlines. rewrite bind_app, bind_cons, !bind_app.
  unfold event_lines at 2. rewrite bind_cons. rewrite Hname.
  rewrite <- !app_assoc.
  replace (Str.chars ("event: " ++ name)) with (Str.chars "event: " ++ Str.chars name).
  - rewrite (app_assoc (Str.chars "event: ")). apply includes_app.
  - clear. unfold Str.chars. by induction name.
Qed.

Lemma extractFromSSE_settled (responseBody : string) :
  extractFromSSE responseBody
  = if Str.includes (Str.chars "event: message_start") (Str.chars responseBody)
       || Str.includes (Str.chars "event: message_delta") (Str.chars responseBody)
    then
      let total :=
        settled (foldl scan_line (mkScan zeroUsage [] []) (Str.split_lines (Str.chars responseBody))) in
      if any_positive total then Some total else None
    else None.
Proof. reflexivity. Qed.

End sse_facts.

(** X6. For a streamed body made of events, each an [event:] line, a [data:]
    line and a blank line with the name and the payload free of line feeds
    and of white space at their end, that is not JSON as a whole,
    [extractTokenUsage] returns the usage of the last event that carries
    one: the counts of the events are not added up. It returns [null] when
    no event carries a usage or none of the four counts of that last usage
    is positive. *)
Theorem X6_sse_last_usage {rt : JS.Runtime} (events : list (list ascii * list ascii)) :
  Forall (λ ev, Sse.tidy ev.1 ∧ Sse.tidy ev.2) events →
  JS.JSON_parse (Sse.body events) = None →
  Extract.extractTokenUsage (Sse.body events)
  = match Sse.last_usage events with
    | Some usage => if Sse.any_positive usage then Some usage else None
    | None => None
    end.
Proof.
  intros Hev Hjson. unfold Extract.extractTokenUsage, Extract.parseRequestBody.
  rewrite Hjson. cbn [JS.opt_prop]. rewrite extractFromSSE_settled. unfold Sse.body.
  rewrite chars_of_chars.
  destruct (_ || _) eqn:Hinc.
  - rewrite split_lines_unlines.
    + rewrite foldl_app. cbn [foldl].
      change (Extract.scan_line ?s []) with s.
      rewrite (settled_events events) by done.
      cbn [Extract.pending Extract.currentEvent Extract.totalUsage default].
      destruct (Sse.last_usage events) as [u|]; [done|].
      cbn [default]. unfold Sse.any_positive, Extract.positive, JS.toNumber. cbn. done.
    + apply Forall_bind. eapply Forall_impl; [exact Hev|].
      intros [e d] [(He & _) (Hd & _)]. unfold Sse.event_lines. cbn [fst snd].
      repeat constructor.
      * intros [H|H]%elem_of_app; [|done]. revert H. by apply (bool_decide_unpack _).
      * intros [H|H]%elem_of_app; [|done]. revert H. by apply (bool_decide_unpack _).
      * by intros ?%elem_of_nil.
  - apply orb_false_iff in Hinc as [Hs Hd].
    unfold Sse.last_usage. rewrite omap_none; [done|].
    intros ev Hin. destruct (Extract.parseSSEUsageData ev.1 ev.2) as [u|] eqn:Hp; [|done].
    apply parseSSEUsageData_type in Hp as [Hp|Hp].
    + pose proof (body_includes events ev "message_start" Hin Hp) as Hi.
      change (Str.chars _) with (Str.chars "event: message_start") in Hi. congruence.
    + pose proof (body_includes events ev "message_delta" Hin Hp) as Hi.
      change (Str.chars _) with (Str.chars "event: message_delta") in Hi. congruence.
Qed.

Section report_facts.
Import JS Extract Usage Reports.

Lemma assoc_elem {A} (k : string) (l : list (string * A)) v :
  assoc k l = Some v → (k, v) ∈ l.
Proof.
  induction l as [|[k' v'] l IH]; cbn; [done|].
  case_bool_decide as Hk.
  - intros [= ->]. subst. apply elem_of_cons; auto.
  - intros H. apply elem_of_cons. right. by apply IH.
Qed.

Lemma find_None_iff {A} (f : A → bool) (l : list A) :
  List.find f l = None ↔ ∀ x, x ∈ l → f x = false.
Proof.
  induction l as [|x l IH]; cbn.
  - split; [by intros _ ? ?%elem_of_nil|done].
  - destruct (f x) eqn:Hx.
    + split; [done|]. intros H. specialize (H x). rewrite Hx in H.
      discriminate H. apply elem_of_cons; auto.
    + rewrite IH. split.
      * intros H y [->|Hy]%elem_of_cons; auto.
      * intros H y Hy. apply H, elem_of_cons; auto.
Qed.

Lemma matchPattern_same (s : string) : s ≠ EmptyString → Glob.matchPattern s s = true.
Proof.
  intros Hs. unfold Glob.matchPattern.
  rewrite (bool_decide_eq_false_2 (s = EmptyString)) by done. cbn [orb].
  case_bool_decide; [done|]. by rewrite bool_decide_eq_true_2.
Qed.

Lemma findMatchingLimits_None (table : list (string * Pricing)) (model : string) :
  findMatchingLimits table model = None
  ↔ model = EmptyString
    ∨ ((model ∉ Object_prototype)
       ∧ ∀ key pricing, (key, pricing) ∈ table → Glob.matchPattern key model = false).
Proof.
  unfold findMatchingLimits. case_bool_decide as Hm; [tauto|].
  destruct (assoc model table) as [p|] eqn:Ha.
  - split; [done|]. intros [?|[_ Hall]]; [done|].
    apply assoc_elem in Ha. specialize (Hall _ _ Ha).
    rewrite matchPattern_same in Hall by done. done.
  - case_bool_decide as Hp.
    + split; [done|]. by intros [?|[? _]].
    + rewrite fmap_None, find_None_iff. split.
      * intros H. right. split; [done|]. intros key pricing Hin. apply (H (key, pricing) Hin).
      * intros [?|[_ H]] [key pricing] Hin; [done|]. by apply (H key pricing).
Qed.

(** The averages of a bucket are never computed. *)
Lemma foldl_add_record_averages rs : ∀ a,
  avgCost (totals (foldl add_record a rs)) = avgCost (totals a)
  ∧ avgDuration (totals (foldl add_record a rs)) = avgDuration (totals a)
  ∧ errorRate (totals (foldl add_record a rs)) = errorRate (totals a).
Proof.
  induction rs as [|r rs IH]; intros a; [done|].
  cbn [foldl]. destruct (IH (add_record a r)) as (-> & -> & ->). done.
Qed.

Lemma foldl_add_record_totals rs : ∀ a b,
  totals a = totals b → totals (foldl add_record a rs) = totals (foldl add_record b rs).
Proof.
  induction rs as [|r rs IH]; intros a b Hab; [done|].
  cbn [foldl]. apply IH. cbn. by rewrite Hab.
Qed.

Section bucket.
Context `{Countable K} (key : UsageRecord → K) (buckets : Aggregation → gmap K Totals).
Context (inherits : K → bool).
Hypothesis buckets_add : ∀ a r,
  buckets (add_record a r)
  = match buckets a !! key r with
    | Some t => <[key r := mergeUsageAggregation t (single r)]> (buckets a)
    | None =>
        if inherits (key r) then buckets a
        else <[key r := mergeUsageAggregation emptyTotals (single r)]> (buckets a)
    end.

Lemma bucket_lookup rs : ∀ a k,
  inherits k = false →
  buckets (foldl add_record a rs) !! k
  = match filter (λ r, key r = k) rs with
    | [] => buckets a !! k
    | rs' =>
        Some (totals (foldl add_record
                        (mkAggregation (default emptyTotals (buckets a !! k)) ∅ ∅) rs'))
    end.
Proof.
  induction rs as [|r rs IH]; intros a k Hk; [done|].
  cbn [foldl]. rewrite IH, buckets_add by done. rewrite filter_cons.
  destruct (decide (key r = k)) as [<-|Hne].
  - destruct (buckets a !! key r) as [t|] eqn:Hl; [|rewrite Hk]; rewrite lookup_insert_eq;
      cbn [default];
      (destruct (filter (λ r0, key r0 = key r) rs) as [|r' rs'] eqn:Hf;
         [cbn [foldl add_record totals]; by rewrite count_merge|]);
      f_equal;
      change (foldl add_record ?a (r :: ?l)) with (foldl add_record (add_record a r) l);
      apply foldl_add_record_totals; cbn [totals add_record]; by rewrite count_merge.
  - destruct (buckets a !! key r) as [t|] eqn:Hl; [|destruct (inherits (key r))];
      by rewrite ?lookup_insert_ne.
Qed.

Lemma bucket_inherited rs : ∀ a k,
  inherits k = true → buckets a !! k = None → buckets (foldl add_record a rs) !! k = None.
Proof.
  induction rs as [|r rs IH]; intros a k Hk Ha; [done|].
  cbn [foldl]. apply IH; [done|]. rewrite buckets_add.
  destruct (decide (key r = k)) as [<-|Hne].
  - by rewrite Ha, Hk.
  - destruct (buckets a !! key r) as [t|] eqn:Hl; [|destruct (inherits (key r))];
      by rewrite ?lookup_insert_ne.
Qed.

Hypothesis buckets_empty : buckets getEmptyUsageAggregation = ∅.
Hypothesis buckets_final : ∀ rs,
  buckets (aggregateUsageRecords rs) = buckets (foldl add_record getEmptyUsageAggregation rs).

Lemma bucket_spec rs k :
  inherits k = false →
  bucket_of (buckets (aggregateUsageRecords rs) !! k) (filter (λ r, key r = k) rs).
Proof.
  intros Hk. rewrite buckets_final, bucket_lookup, buckets_empty, lookup_empty by done.
  destruct (filter (λ r, key r = k) rs) as [|r' rs'] eqn:Hf; [done|].
  cbn [default bucket_of]. eexists. split; [done|].
  destruct (foldl_add_record_averages (r' :: rs') (mkAggregation emptyTotals ∅ ∅))
    as (-> & -> & ->).
  split; [|done]. apply totals_from_empty.
Qed.

Lemma bucket_none rs k :
  inherits k = true → buckets (aggregateUsageRecords rs) !! k = None.
Proof.
  intros Hk. rewrite buckets_final. apply bucket_inherited; [done|].
  by rewrite buckets_empty.
Qed.

End bucket.


Lemma error_count_bounds rs :
  0 ≤ sumZ_of (λ r, if bool_decide (400 ≤ r_statusCode r) then 1 else 0) rs
    ≤ Z.of_nat (length rs).
Proof.
  induction rs as [|r rs IH]; cbn [sumZ_of foldr length]; [lia|].
  fold (sumZ_of (λ r, if bool_decide (400 ≤ r_statusCode r) then 1 else 0) rs).
  case_bool_decide; lia.
Qed.

End report_facts.

(** X7. [findMatchingLimits] finds nothing exactly when the model name is
    empty, or is no name of a property of [Object.prototype] and no key of
    the table matches it as a pattern; a key that is the model name itself
    is preferred to every pattern; under a name of [Object.prototype] that
    is no key of the table the inherited value is found, and every part of
    the cost is [NaN]; and the cost of a model for which nothing is found
    is zero in each of its parts. *)
Theorem X7_pricing_lookup {rt : JS.Runtime} (table : list (string * Usage.Pricing))
    (model : string) (usage : Extract.TokenUsage) :
  (Usage.findMatchingLimits table model = None
   ↔ model = EmptyString
     ∨ ((model ∉ JS.Object_prototype)
        ∧ ∀ key pricing, (key, pricing) ∈ table → Glob.matchPattern key model = false))
  ∧ (∀ pricing, model ≠ EmptyString → JS.assoc model table = Some pricing →
       Usage.findMatchingLimits table model = Some pricing)
  ∧ (model ∈ JS.Object_prototype → JS.assoc model table = None →
       Usage.findMatchingLimits table model = Some Usage.inherited
       ∧ Usage.calculateCost table model usage
         = Usage.mkCost Num.NaN Num.NaN Num.NaN Num.NaN Num.NaN)
  ∧ (Usage.findMatchingLimits table model = None →
       Usage.calculateCost table model usage
       = Usage.mkCost Num.zero Num.zero Num.zero Num.zero Num.zero).
Proof.
  split_and!.
  - apply findMatchingLimits_None.
  - intros pricing Hm Ha. unfold Usage.findMatchingLimits.
    rewrite bool_decide_eq_false_2 by done. by rewrite Ha.
  - intros Hin Ha.
    assert (Usage.findMatchingLimits table model = Some Usage.inherited) as Hf.
    { unfold Usage.findMatchingLimits.
      rewrite bool_decide_eq_false_2 by (intros ->; revert Hin; by apply (bool_decide_unpack _)).
      by rewrite Ha, bool_decide_eq_true_2. }
    split; [done|]. unfold Usage.calculateCost. rewrite Hf.
    unfold Usage.category_cost, Usage.inherited.
    cbn [Usage.p_input Usage.p_output Usage.p_cacheCreation Usage.p_cacheRead].
    by rewrite !mul_NaN_r.
  - intros Hnone. unfold Usage.calculateCost. by rewrite Hnone.
Qed.

(** X8. For a tenant with a daily cap whose file of today can be read, the
    limit status reports today's spend as used and the cap as limit and
    calls the cap exceeded as soon as the spend has reached it
    ([spent >= maxUSD]), whereas the guard of a request rejects only when
    the spend with the cost of the request is above the cap
    ([spent + cost > maxUSD]), the sum being the double nearest to the sum
    of the two numbers; a cost that is [NaN] is never rejected. *)
Theorem X8_status_and_guard {rt : JS.Runtime} (tenants : list Usage.Tenant)
    (table : list (string * Usage.Pricing)) (parseLine : string → option Usage.UsageRecord)
    (todayFile : Usage.ReadResult) (tenantId model : string) (usage : Extract.TokenUsage)
    (tenant : Usage.Tenant) (maxUSD : Num.t) (today : Usage.Aggregation) :
  Usage.getTenant tenants tenantId = Some tenant →
  Usage.cap_of tenant = Some maxUSD →
  Usage.getDailyUsage parseLine todayFile = Ok today →
  let spent := Num.or0 (Usage.sumTotalCost (Usage.totals today)) in
  let cost := Usage.totalCost (Usage.calculateCost table model usage) in
  ∃ status usd check,
    Reports.getCurrentLimitStatus tenants parseLine todayFile tenantId = Ok status
    ∧ Reports.ls_usd status = Some usd
    ∧ Reports.used usd = spent ∧ Reports.limit usd = maxUSD
    ∧ Reports.usdExceeded usd = Num.geb spent maxUSD
    ∧ (∀ s cap, spent = Num.Fin s → maxUSD = Num.Fin cap →
         (Reports.usdExceeded usd = true ↔ (cap <= s)%Q))
    ∧ Usage.checkLimitsExceeded tenants table parseLine todayFile tenantId model usage = Ok check
    ∧ Usage.exceeded check = Num.gtb (Num.add spent cost) maxUSD
    ∧ (∀ s c cap, spent = Num.Fin s → cost = Num.Fin c → maxUSD = Num.Fin cap →
         ∃ total, Num.round (s + c) = total
                  ∧ (Usage.exceeded check = true ↔ Num.ltb maxUSD total = true)
                  ∧ ∀ t, total = Num.Fin t → (Usage.exceeded check = true ↔ (cap < t)%Q))
    ∧ (cost = Num.NaN → Usage.exceeded check = false).
Proof.
  intros Ht Hcap Hday. cbn zeta.
  set (spent := Num.or0 (Usage.sumTotalCost (Usage.totals today))).
  set (cost := Usage.totalCost (Usage.calculateCost table model usage)).
  assert (Hcheck : ∃ check,
            Usage.checkLimitsExceeded tenants table parseLine todayFile tenantId model usage
            = Ok check
            ∧ Usage.exceeded check = Num.gtb (Num.add spent cost) maxUSD).
  { unfold Usage.checkLimitsExceeded. rewrite Ht. cbn [mbind option_bind]. rewrite Hcap, Hday.
    cbn [mbind outcome_bind]. fold spent cost.
    destruct (Num.gtb (Num.add spent cost) maxUSD); by eexists. }
  destruct Hcheck as (check & Hcheck & Hex).
  unfold Reports.getCurrentLimitStatus. rewrite Ht, Hday, Hcap.
  cbn [fmap option_fmap option_map]. fold spent.
  eexists _, _, check. split_and!; try reflexivity; try done.
  - intros s cap Hs ->. cbn [Reports.usdExceeded]. rewrite Hs.
    unfold Num.geb. apply leb_Fin.
  - intros s c cap Hs Hc ->. eexists. split; [done|]. rewrite Hex, Hs, Hc.
    cbn [Num.add]. unfold Num.gtb. split; [done|].
    intros t ->. apply ltb_Fin.
  - intros Hnan. rewrite Hex, Hnan. unfold Num.gtb. by destruct spent, maxUSD.
Qed.

(** X9. In the aggregate of a list of records, the entry of [byModel] for a
    model whose name is no name of a property of [Object.prototype] is
    absent when no record has that model and otherwise holds the sums over
    exactly the records of that model, the costs added as doubles in the
    order of the records, with its averages and its error rate left at
    zero; under a name of [Object.prototype] no entry is ever made; and
    what holds of those models holds of [byHour] for every hour. *)
Theorem X9_breakdown (rs : list Usage.UsageRecord) :
  (∀ model, model ∉ JS.Object_prototype →
     Reports.bucket_of (Usage.byModel (Usage.aggregateUsageRecords rs) !! model)
                       (filter (λ r, Usage.r_model r = model) rs))
  ∧ (∀ model, model ∈ JS.Object_prototype →
       Usage.byModel (Usage.aggregateUsageRecords rs) !! model = None)
  ∧ (∀ hour,
       Reports.bucket_of (Usage.byHour (Usage.aggregateUsageRecords rs) !! hour)
                         (filter (λ r, Usage.r_hour r = hour) rs)).
Proof.
  split_and!.
  - intros model Hm.
    apply (bucket_spec Usage.r_model Usage.byModel
             (λ m, bool_decide (m ∈ JS.Object_prototype))); [done..|].
    by apply bool_decide_eq_false_2.
  - intros model Hm.
    apply (bucket_none Usage.r_model Usage.byModel
             (λ m, bool_decide (m ∈ JS.Object_prototype))); [done..|].
    by apply bool_decide_eq_true_2.
  - intros hour.
    apply (bucket_spec Usage.r_hour Usage.byHour (λ _, false)); [|done..].
    intros a r. cbn [Usage.add_record Usage.byHour].
    by destruct (Usage.byHour a !! Usage.r_hour r).
Qed.

(** X10. In the aggregate of a list of records [totalRequests] is the number of
    records, [errorCount] lies between 0 and [totalRequests], and
    [errorRate] is an integer that lies between 0 and 100; it is 0 when
    there is no error and 100 when every request of a list that is not
    empty is an error. *)
Theorem X10_error_rate (rs : list Usage.UsageRecord) :
  let t := Usage.totals (Usage.aggregateUsageRecords rs) in
  Usage.totalRequests t = Z.of_nat (length rs)
  ∧ 0 ≤ Usage.errorCount t ≤ Usage.totalRequests t
  ∧ (∃ k, Usage.errorRate t = Num.of_Z k ∧ 0 ≤ k ≤ 100)
  ∧ (Usage.errorCount t = 0 → Usage.errorRate t = Num.of_Z 0)
  ∧ (rs ≠ [] → Usage.errorCount t = Usage.totalRequests t → Usage.errorRate t = Num.of_Z 100).
Proof.
  cbn zeta. destruct (aggregate_sums rs) as (Hn & _ & _ & _ & _ & _ & _ & He & _).
  pose proof (error_count_bounds rs) as Hb. rewrite <- He, <- Hn in Hb. clear He.
  pose proof (foldl_add_record_averages rs Usage.getEmptyUsageAggregation) as (_ & _ & Hr).
  change (Usage.errorRate (Usage.totals Usage.getEmptyUsageAggregation)) with (Num.of_Z 0) in Hr.
  revert Hn Hb Hr. unfold Usage.aggregateUsageRecords. cbn [Usage.totals].
  generalize (Usage.totals (foldl Usage.add_record Usage.getEmptyUsageAggregation rs)).
  intros t0. unfold Usage.with_averages.
  case_bool_decide as Hpos;
    cbn [Usage.totalRequests Usage.errorCount Usage.errorRate]; intros Hn Hb Hr.
  - destruct (percent_bounds (Usage.errorCount t0) (Usage.totalRequests t0))
      as (Hk & H0 & Hall); [lia|done|].
    refine (conj Hn (conj Hb (conj Hk (conj H0 _)))). intros _. apply Hall.
  - refine (conj Hn (conj Hb (conj _ (conj _ _)))); [exists 0; split; [done|lia]|done|].
    intros Hne _. destruct rs; [done|]. cbn [length] in Hn. lia.
Qed.

Section files_facts.
Import JS Extract Usage Reports.

Lemma chars_app (a b : string) : Str.chars (a ++ b)%string = Str.chars a ++ Str.chars b.
Proof.
  induction a as [|c a IH]; [done|].
  change (Str.chars (String c (a ++ b)%string) = c :: (Str.chars a ++ Str.chars b)).
  change (c :: Str.chars (a ++ b)%string = c :: (Str.chars a ++ Str.chars b)).
  by rewrite IH.
Qed.

Lemma of_chars_chars (s : string) : Str.of_chars (Str.chars s) = s.
Proof. apply string_of_list_ascii_of_string. Qed.

Lemma split_lines_aux_last (l : list ascii) : ∀ cur,
  Sse.newline ∉ l → Str.split_lines_aux cur l = [rev cur ++ l].
Proof.
  induction l as [|c l IH]; intros cur Hl; cbn [Str.split_lines_aux].
  - by rewrite app_nil_r.
  - rewrite bool_decide_eq_false_2 by (intros ->; apply Hl; left).
    rewrite IH by (intros ?; apply Hl; by right). cbn [rev]. by rewrite <- app_assoc.
Qed.

Lemma split_lines_body (lines : list (list ascii)) (l : list ascii) :
  Forall (λ l, Sse.newline ∉ l) lines → Sse.newline ∉ l →
  Str.split_lines (Sse.unlines lines ++ l) = lines ++ [l].
Proof.
  unfold Str.split_lines, Sse.unlines. intros Hlines Hl.
  induction Hlines as [|l0 lines Hl0 _ IH]; cbn [app].
  - by rewrite split_lines_aux_last.
  - rewrite bind_cons, <- !app_assoc. cbn [app].
    rewrite split_lines_aux_line by done. by rewrite IH.
Qed.

Lemma trimStart_keep (c : ascii) (l : list ascii) :
  Str.is_space c = false → Str.trimStart (c :: l) = c :: l.
Proof. intros Hc. cbn [Str.trimStart]. by rewrite Hc. Qed.

Lemma trim_before_newline (c c' : ascii) (l l' : list ascii) :
  Str.is_space c = false → Str.is_space c' = false → c :: l = l' ++ [c'] →
  Str.trim ((c :: l) ++ [Sse.newline]) = c :: l.
Proof.
  intros Hc Hc' Heq. unfold Str.trim.
  rewrite <- app_comm_cons, trimStart_keep, app_comm_cons by done.
  rewrite rev_app_distr. change (rev [Sse.newline] ++ ?x) with (Sse.newline :: x).
  change (Str.trimStart (Sse.newline :: ?x)) with (Str.trimStart x).
  rewrite Heq, rev_app_distr. change (rev [c'] ++ ?x) with (c' :: x).
  rewrite trimStart_keep by done.
  cbn [rev]. by rewrite rev_involutive.
Qed.

Lemma written_trim (l : list ascii) : written l → Str.trim l = l.
Proof.
  intros (_ & (c & l1 & -> & Hc) & (l2 & c' & Heq & Hc')).
  by apply (trim_keep c c' l1 l2).
Qed.

Lemma filter_all {A} (P : A → Prop) `{∀ x, Decision (P x)} (l : list A) :
  Forall P l → filter P l = l.
Proof.
  induction 1 as [|x l Hx _ IH]; [done|]. rewrite filter_cons, decide_True by done.
  by rewrite IH.
Qed.

(** What was appended line by line is read back line by line. *)
Lemma nonblank_lines_unlines (content : string) (lines : list (list ascii)) :
  Forall written lines → lines ≠ [] →
  Str.chars content = Sse.unlines lines →
  nonblank_lines content = Str.of_chars <$> lines.
Proof.
  intros Hw Hne Hc. unfold nonblank_lines. rewrite Hc. f_equal.
  destruct lines as [|l lines _] using rev_ind; [done|].
  apply Forall_app in Hw as [Hw [Hl _]%Forall_cons].
  assert (Hnl : Forall (λ l, Sse.newline ∉ l) lines)
    by (eapply Forall_impl; [exact Hw|]; by intros ? (? & _)).
  assert (Htrim : Str.trim (Sse.unlines (lines ++ [l])) = Sse.unlines lines ++ l).
  { unfold Sse.unlines. rewrite bind_app, bind_singleton, app_assoc.
    fold (Sse.unlines lines).
    destruct Hl as (_ & (c & l1 & Hl1 & Hc1) & (l2 & c2 & Hl2 & Hc2)).
    assert (∃ c0 l0, Sse.unlines lines ++ l = c0 :: l0 ∧ Str.is_space c0 = false)
      as (c0 & l0 & Heq & Hc0).
    { destruct Hw as [|x lines' Hx _].
      - exists c, l1. by rewrite Hl1.
      - destruct Hx as (_ & (cx & lx & -> & Hcx) & _).
        unfold Sse.unlines. rewrite bind_cons. cbn [app]. eauto. }
    rewrite Heq. apply (trim_before_newline c0 c2 l0 (Sse.unlines lines ++ l2)); [done|done|].
    rewrite <- Heq, Hl2. by rewrite app_assoc. }
  pose proof Hl as Hl'.
  rewrite Htrim, split_lines_body; [| done | by destruct Hl].
  apply filter_all. apply Forall_app. split; [|apply Forall_singleton].
  - eapply Forall_impl; [exact Hw|]. intros x Hx. rewrite written_trim by done.
    by destruct Hx as (_ & (? & ? & -> & _) & _).
  - rewrite written_trim by done. by destruct Hl as (_ & (? & ? & -> & _) & _).
Qed.


Lemma appended_chars (stringify : UsageRecord → string) (rs : list UsageRecord) : ∀ file,
  Str.chars (default EmptyString (foldl (appendToUsageFile stringify) file rs))
  = Str.chars (default EmptyString file) ++ Sse.unlines ((λ r, Str.chars (stringify r)) <$> rs).
Proof.
  induction rs as [|r rs IH]; intros file; cbn [foldl fmap list_fmap].
  - by rewrite app_nil_r.
  - rewrite IH. unfold appendToUsageFile. cbv zeta. cbn [default]. unfold id.
    rewrite !chars_app. unfold Sse.unlines. rewrite bind_cons, <- !app_assoc. done.
Qed.

Lemma appended_exists (stringify : UsageRecord → string) (rs : list UsageRecord) file :
  rs ≠ [] → is_Some (foldl (appendToUsageFile stringify) file rs).
Proof.
  destruct rs as [|r rs _] using rev_ind; [done|]. intros _.
  rewrite foldl_app. cbn. eauto.
Qed.

Lemma totals_merge_requests (days : list Aggregation) : ∀ t,
  totalRequests (foldl (λ t usage, mergeUsageAggregation t (totals usage)) t days)
  = totalRequests t + foldr Z.add 0 ((λ d, totalRequests (totals d)) <$> days).
Proof.
  induction days as [|d days IH]; intros t; cbn [foldl fmap list_fmap foldr]; [lia|].
  rewrite IH. cbn. lia.
Qed.

Lemma with_averages_requests t : totalRequests (with_averages t) = totalRequests t.
Proof. unfold with_averages. by case_bool_decide. Qed.

End files_facts.

(** X11. Records appended one after the other to a daily file that did not
    exist are read back in full: when every record is written as one line
    without white space at its ends that parses back to the record, the
    lines of the file that are not blank are the written lines in order,
    and [getDailyUsage] returns the aggregate of the records. *)
Theorem X11_append_read (stringify : Usage.UsageRecord → string)
    (parseLine : string → option Usage.UsageRecord) (rs : list Usage.UsageRecord) :
  (∀ r, r ∈ rs → Reports.written (Str.chars (stringify r))) →
  (∀ r, r ∈ rs → parseLine (stringify r) = Some r) →
  let file := foldl (Reports.appendToUsageFile stringify) None rs in
  (rs ≠ [] → ∃ content, file = Some content ∧ Usage.nonblank_lines content = stringify <$> rs)
  ∧ Usage.getDailyUsage parseLine (Reports.read file) = Ok (Usage.aggregateUsageRecords rs).
Proof.
  intros Hw Hp. cbn zeta.
  assert (Hlines : rs ≠ [] →
            ∃ content, foldl (Reports.appendToUsageFile stringify) None rs = Some content
                       ∧ Usage.nonblank_lines content = stringify <$> rs).
  { intros Hne. destruct (appended_exists stringify rs None Hne) as [content Hc].
    exists content. split; [done|].
    pose proof (appended_chars stringify rs None) as Hch. rewrite Hc in Hch.
    change (Str.chars content
            = Sse.unlines ((λ r, Str.chars (stringify r)) <$> rs)) in Hch.
    rewrite (nonblank_lines_unlines content ((λ r, Str.chars (stringify r)) <$> rs)).
    - rewrite <- list_fmap_compose. apply list_fmap_ext. intros _ r _. cbn.
      apply of_chars_chars.
    - apply Forall_fmap, Forall_forall. intros r Hr. by apply Hw.
    - by destruct rs.
    - done. }
  split; [done|].
  destruct rs as [|r rs'] eqn:Hrs; [done|]. rewrite <- Hrs in *.
  destruct Hlines as (content & -> & Hl); [by subst|].
  cbn [Reports.read Usage.getDailyUsage]. rewrite Hl.
  replace (Usage.parse_all parseLine (stringify <$> rs)) with (Ok (E := Usage.UsageError) rs); [done|].
  symmetry. apply parse_all_Ok. rewrite <- list_fmap_compose.
  apply list_fmap_ext. intros i x Hx. cbn. apply Hp. by eapply list_elem_of_lookup_2.
Qed.

(** X12. [getWeeklyUsage] returns seven daily entries in order, a day whose file
    cannot be read or parsed counting as an empty day; the requests of its
    summary are the sum over the seven days, the [byModel] and [byHour] of
    the summary are always empty, and a week with unreadable days is
    reported exactly as the week in which these files are missing. *)
Theorem X12_weekly_usage (parseLine : string → option Usage.UsageRecord)
    (dates : nat → string) (files : nat → Usage.ReadResult) :
  let day i := match Usage.getDailyUsage parseLine (files i) with
               | Ok dailyUsage => dailyUsage
               | Throw _ => Usage.getEmptyUsageAggregation
               end in
  let week := Reports.getWeeklyUsage parseLine dates files in
  week.1 = (λ i, (dates i, day i)) <$> seq 0 7
  ∧ Usage.totalRequests (Usage.totals week.2)
    = foldr Z.add 0 ((λ i, Usage.totalRequests (Usage.totals (day i))) <$> seq 0 7)
  ∧ Usage.byModel week.2 = ∅ ∧ Usage.byHour week.2 = ∅
  ∧ Reports.getWeeklyUsage parseLine dates
      (λ i, match Usage.getDailyUsage parseLine (files i) with
            | Ok _ => files i
            | Throw _ => Usage.ENOENT
            end)
    = week.
Proof.
  cbn zeta. split_and!; [done| |done|done|].
  - unfold Reports.getWeeklyUsage, Reports.aggregateUsageArray. cbn [snd Usage.totals].
    rewrite with_averages_requests, totals_merge_requests.
    rewrite <- !list_fmap_compose. done.
  - unfold Reports.getWeeklyUsage.
    assert (Heq : ∀ i,
              (dates i,
               match Usage.getDailyUsage parseLine
                       match Usage.getDailyUsage parseLine (files i) with
                       | Ok _ => files i
                       | Throw _ => Usage.ENOENT
                       end with
               | Ok dailyUsage => dailyUsage
               | Throw _ => Usage.getEmptyUsageAggregation
               end)
              = (dates i,
                 match Usage.getDailyUsage parseLine (files i) with
                 | Ok dailyUsage => dailyUsage
                 | Throw _ => Usage.getEmptyUsageAggregation
                 end)).
    { intros i. destruct (Usage.getDailyUsage parseLine (files i)) eqn:Hd; [by rewrite Hd|done]. }
    cbn zeta. by rewrite (list_fmap_ext _ _ (seq 0 7) (λ _ i _, Heq i)).
Qed.

Section auth_facts.
Import JS Usage Auth.
Context {rt : Runtime}.

Lemma find_Some_elem {A} (f : A → bool) (l : list A) (x : A) :
  List.find f l = Some x → x ∈ l ∧ f x = true.
Proof.
  induction l as [|y l IH]; cbn; [done|].
  destruct (f y) eqn:Hy.
  - intros [= ->]. split; [apply elem_of_cons; auto|done].
  - intros H. destruct (IH H). split; [apply elem_of_cons; auto|done].
Qed.

Lemma getTenantByKey_Some entries token entry :
  getTenantByKey entries token = Some entry →
  ∃ key, token = TStr key ∧ entry ∈ entries ∧ e_key entry = key.
Proof.
  destruct token as [k|vs]; cbn; [|done].
  intros [Hin Hk%bool_decide_eq_true]%find_Some_elem. eauto.
Qed.

Lemma findMatchingValue_string patterns (model : string) pattern :
  findMatchingValue patterns (JStr model) = Some pattern →
  pattern ∈ patterns ∧ Glob.matchPattern pattern model = true.
Proof.
  unfold findMatchingValue. destruct (truthy _); [|done].
  by intros ?%find_Some_elem.
Qed.

Lemma authenticate_passed entries req requestBody entry model authInfo :
  authenticate entries req requestBody = Passed entry model authInfo →
  extractAuthInfo req = Some authInfo
  ∧ getTenantByKey entries (a_token authInfo) = Some entry
  ∧ t_enabled (e_tenant entry) = true
  ∧ (∀ m, model = Some m →
       ∃ pattern, findMatchingValue (t_allowedModels (e_tenant entry)) m = Some pattern).
Proof.
  unfold authenticate. destruct (_ || _); [done|].
  unfold authenticateTenant.
  destruct (extractAuthInfo req) as [info|]; [|done].
  destruct (getTenantByKey entries (a_token info)) as [e|] eqn:He; [|done].
  destruct (t_enabled (e_tenant e)) eqn:Hen; [|done].
  destruct (if bool_decide (requestBody = EmptyString) then None else _) as [m|] eqn:Hm.
  - unfold checkModelPermission.
    destruct (findMatchingValue (t_allowedModels (e_tenant e)) m) as [p|] eqn:Hp; [|done].
    intros [= <- <- <-]. split_and!; [done..|]. intros m' [= <-]. eauto.
  - intros [= <- <- <-]. split_and!; done.
Qed.

Lemma handleRequest_selects env requestId authResult requestBody r st :
  Proxy.SelectUpstream ∈ Proxy.calls (Proxy.handleRequest env requestId authResult requestBody r st) →
  ∃ tenant model, authResult = Proxy.Authenticated tenant model.
Proof.
  destruct authResult as [e m s| |tenant model]; cbn; [by intros ?%elem_of_nil..|eauto].
Qed.

Lemma strip_scheme_app (scheme : list ascii) : ∀ (given rest : list ascii),
  Glob.canonicalize <$> given = Glob.canonicalize <$> scheme →
  strip_scheme scheme (given ++ rest) = Some rest.
Proof.
  induction scheme as [|c scheme IH]; intros [|d given'] rest Heq; try done.
  rewrite !fmap_cons in Heq. injection Heq as Hc Heq.
  cbn [app strip_scheme]. rewrite bool_decide_eq_true_2 by done. by apply IH.
Qed.

Lemma spaces_run (ws rest : list ascii) (c : ascii) :
  Forall (λ c, Str.is_space c = true) ws → Str.is_space c = false →
  spaces (ws ++ c :: rest) = length ws.
Proof.
  induction 1 as [|w ws Hw _ IH]; intros Hc; cbn [app spaces length].
  - by rewrite Hc.
  - rewrite Hw. f_equal. by apply IH.
Qed.

End auth_facts.

(** X13. Whenever the result of the authentication lets [handleRequest] go as
    far as selecting an upstream, the request presented a credential that
    is a string and is the key of a configured tenant, this tenant is
    enabled and is the tenant of the result, and the model of the result,
    if there is one, matches one of the patterns the tenant allows. *)
Theorem X13_forwarding_needs_a_key {rt : JS.Runtime} (env : Proxy.Env) (requestId : string)
    (entries : list Auth.Entry) (req : Auth.Request) (requestBody : string)
    (r : Http.Res) (st : LB.State) (authResult : Proxy.AuthResult) :
  Auth.to_proxy (Auth.authenticate entries req requestBody) = Some authResult →
  Proxy.SelectUpstream
    ∈ Proxy.calls (Proxy.handleRequest env requestId authResult requestBody r st) →
  ∃ entry key authInfo model,
    Auth.extractAuthInfo req = Some authInfo
    ∧ Auth.a_token authInfo = Auth.TStr key
    ∧ entry ∈ entries ∧ Auth.e_key entry = key
    ∧ Usage.t_enabled (Auth.e_tenant entry) = true
    ∧ authResult = Proxy.Authenticated (Auth.e_tenant entry) model
    ∧ (∀ m, model = Some m →
         ∃ pattern, pattern ∈ Usage.t_allowedModels (Auth.e_tenant entry)
                    ∧ Glob.matchPattern pattern m = true).
Proof.
  intros Hto Hsel.
  destruct (handleRequest_selects _ _ _ _ _ _ Hsel) as (tenant & model & ->).
  destruct (Auth.authenticate entries req requestBody) as [| |entry m info] eqn:Hauth;
    [done|done|].
  destruct (authenticate_passed _ _ _ _ _ _ Hauth) as (Hinfo & Hkey & Hen & Hmodel).
  destruct (getTenantByKey_Some _ _ _ Hkey) as (key & Htok & Hin & Hk).
  exists entry, key, info, model. split_and!; try done.
  - destruct m as [[]|]; cbn in Hto; by simplify_eq.
  - intros s ->. destruct m as [[]|]; cbn in Hto; simplify_eq.
    destruct (Hmodel _ eq_refl) as [p Hp]. exists p. by apply findMatchingValue_string.
Qed.

(** X14. A request with the key of an enabled tenant whose body is empty, is
    not JSON or holds no truthy [model] passes the authentication with the
    model [null], whatever the tenant's allowed models are, and
    [handleRequest] then selects an upstream without having checked any
    limit. *)
Theorem X14_request_without_model {rt : JS.Runtime} (env : Proxy.Env) (requestId : string)
    (entries : list Auth.Entry) (req : Auth.Request) (requestBody : string)
    (r : Http.Res) (st : LB.State) (entry : Auth.Entry) (authInfo : Auth.AuthInfo) :
  Auth.url req ≠ "/health" →
  Str.startsWith (Str.chars "/admin") (Str.chars (Auth.url req)) = false →
  Auth.extractAuthInfo req = Some authInfo →
  Auth.getTenantByKey entries (Auth.a_token authInfo) = Some entry →
  Usage.t_enabled (Auth.e_tenant entry) = true →
  requestBody = EmptyString
  ∨ JS.JSON_parse requestBody = None
  ∨ (∃ parsed, JS.JSON_parse requestBody = Some parsed
               ∧ JS.truthy (JS.get parsed "model") = false) →
  Auth.authenticate entries req requestBody = Auth.Passed entry None authInfo
  ∧ ∃ authResult,
      Auth.to_proxy (Auth.authenticate entries req requestBody) = Some authResult
      ∧ Proxy.calls (Proxy.handleRequest env requestId authResult requestBody r st)
        = [Proxy.SelectUpstream].
Proof.
  intros Hhealth Hadmin Hinfo Hkey Hen Hbody.
  assert (Hauth : Auth.authenticate entries req requestBody = Auth.Passed entry None authInfo).
  { unfold Auth.authenticate, Auth.authenticateTenant.
    rewrite bool_decide_eq_false_2, Hadmin by done. cbn [orb].
    rewrite Hinfo, Hkey, Hen.
    destruct Hbody as [->|[Hp|(parsed & Hp & Hm)]].
    - done.
    - rewrite Hp. by case_bool_decide.
    - rewrite Hp. cbn. unfold Auth.extractModelFromRequest. rewrite Hm.
      by case_bool_decide. }
  split; [done|]. rewrite Hauth. eexists. split; [done|].
  cbn. by destruct (LB.selectUpstream _ _ _) as [[]|].
Qed.

(** X15. An [Authorization] header that consists of the word Bearer in any
    mix of upper and lower case, one or more characters of white space and
    a token that starts with a character other than white space and holds
    no line terminator yields the bearer credential with exactly this
    token, whatever the [x-api-key] header and the query say. *)
Theorem X15_bearer_header (req : Auth.Request) (scheme ws rest : list ascii) (c : ascii) :
  Glob.canonicalize <$> scheme = Glob.canonicalize <$> Str.chars "Bearer" →
  ws ≠ [] → Forall (λ c, Str.is_space c = true) ws →
  Str.is_space c = false →
  Forall (λ c, Glob.is_line_terminator c = false) (c :: rest) →
  Auth.authorization req = Some (Str.of_chars (scheme ++ ws ++ c :: rest)) →
  Auth.extractAuthInfo req
  = Some (Auth.mkAuthInfo "bearer" (Auth.TStr (Str.of_chars (c :: rest)))).
Proof.
  intros Hscheme Hws Hspace Hc Hlt Hauth. unfold Auth.extractAuthInfo. rewrite Hauth.
  assert (Auth.given (Some (Str.of_chars (scheme ++ ws ++ c :: rest)))
          = Some (Str.of_chars (scheme ++ ws ++ c :: rest))) as ->.
  { cbn. rewrite bool_decide_eq_false_2; [done|].
    intros H%(f_equal Str.chars). rewrite chars_of_chars in H.
    destruct scheme; [by destruct ws|done]. }
  unfold Auth.scheme_match. rewrite chars_of_chars.
  rewrite strip_scheme_app by done. cbn [mbind option_bind].
  rewrite spaces_run by done.
  destruct ws as [|w ws']; [done|]. cbn [length Auth.after_spaces].
  change (drop (S (length ws')) ((w :: ws') ++ c :: rest))
    with (drop (length (w :: ws')) ((w :: ws') ++ c :: rest)).
  rewrite drop_app_length.
  assert (Auth.to_the_end (c :: rest) = true) as ->; [|done].
  unfold Auth.to_the_end. cbn [negb andb bool_decide decide_rel].
  rewrite bool_decide_eq_false_2 by done. cbn [negb andb].
  apply forallb_forall. intros x Hx%list_elem_of_In.
  rewrite Forall_forall in Hlt. by rewrite (Hlt x Hx).
Qed.

Section forward_facts.
Import JS Http Proxy.
Context {rt : Runtime}.

Lemma run_data_body requestId hasTenant chunks : ∀ s statusCode,
  upstreamStatus s = Some statusCode →
  let s' := foldl (on_event requestId hasTenant) s (Data <$> chunks) in
  responseBody s' = foldl String.append (responseBody s) chunks
  ∧ recordedUsage s' = recordedUsage s
  ∧ upstreamStatus s' = Some statusCode.
Proof.
  induction chunks as [|chunk chunks IH]; intros s statusCode Hs; cbv zeta; [done|].
  rewrite fmap_cons. cbn [foldl].
  destruct (IH (on_event requestId hasTenant s (Data chunk)) statusCode) as (Hb & Hr & Hs').
  - cbn. by rewrite Hs.
  - rewrite Hb, Hr, Hs'. cbn. by rewrite Hs.
Qed.

End forward_facts.

(** X16. [proxyRequest] passes the status and the headers of the upstream, each
    chunk of the body and the end on to the client as they come; when the
    response is complete it records usage once, with that status and the
    chunks joined, if the request has a tenant and not otherwise; and it
    records nothing when the response stops before its end, or when the
    request to the upstream fails, before or after the response began. *)
Theorem X16_forwarding_and_usage {rt : JS.Runtime} (requestId : string) (hasTenant : bool)
    (statusCode : Z) (headers : list (string * Http.HeaderValue)) (chunks : list string) :
  let run tail :=
    Proxy.proxyRequest requestId hasTenant Http.fresh
      (Proxy.Response statusCode headers :: (Proxy.Data <$> chunks) ++ tail) in
  (Http.ops (Proxy.client (run [Proxy.EndOfResponse]))
   = Http.WriteHead statusCode headers :: (Http.Write <$> chunks) ++ [Http.End None]
   ∧ Proxy.recordedUsage (run [Proxy.EndOfResponse])
     = (if hasTenant then [(statusCode, foldl String.append EmptyString chunks)] else []))
  ∧ Proxy.recordedUsage (run []) = []
  ∧ (∀ message, Proxy.recordedUsage (run [Proxy.RequestError message]) = [])
  ∧ (∀ message,
       Proxy.recordedUsage
         (Proxy.proxyRequest requestId hasTenant Http.fresh [Proxy.RequestError message])
       = []).
Proof.
  cbv zeta.
  pose proof (proxy_after_response requestId hasTenant statusCode headers chunks
                [Proxy.EndOfResponse]) as (_ & Hend & _). cbv zeta in Hend.
  specialize (Hend eq_refl).
  destruct (run_data_body requestId hasTenant chunks
              (Proxy.on_event requestId hasTenant (Proxy.start Http.fresh)
                 (Proxy.Response statusCode headers)) statusCode eq_refl)
    as (Hb & Hr & Hs).
  revert Hend Hb Hr Hs. unfold Proxy.proxyRequest. cbn [foldl].
  set (s1 := Proxy.on_event requestId hasTenant (Proxy.start Http.fresh)
               (Proxy.Response statusCode headers)).
  set (s2 := foldl (Proxy.on_event requestId hasTenant) s1 (Proxy.Data <$> chunks)).
  intros Hend Hb Hr Hs. cbn in Hb, Hr.
  split_and!.
  - done.
  - rewrite foldl_app. fold s2. cbn [foldl Proxy.on_event]. rewrite Hs.
    cbn [Proxy.recordedUsage]. rewrite Hr, Hb. by destruct hasTenant.
  - rewrite app_nil_r. by fold s2.
  - intros message. rewrite foldl_app. fold s2.
    cbn [foldl Proxy.on_event Proxy.recordedUsage]. done.
  - done.
Qed.

Section outgoing_facts.
Import Forward.
Variable parse_url : string → option URL.

Lemma outgoing_headers (req : Incoming) (upstream : Target) (o : ProxyOptions) :
  outgoing parse_url req upstream = Ok o →
  ∃ u, parse_url (target_url upstream) = Some u
    ∧ o_headers o
      = delete "content-length"
          (match target_key upstream with
           | Some key =>
               if bool_decide (key = EmptyString) then <["host" := host u]> (req_headers req)
               else delete "x-api-key"
                      (<["authorization" := ("Bearer " ++ key)%string]>
                         (<["host" := host u]> (req_headers req)))
           | None => <["host" := host u]> (req_headers req)
           end)
    ∧ o_method o = req_method req.
Proof.
  unfold outgoing, rewriteUrl, createProxyOptions, setupProxyHeaders, parseURL.
  destruct (parse_url (target_url upstream)) as [u|] eqn:Hu.
  - intros H. exists u. split; [done|].
    repeat (case_match; simplify_eq/=; try done).
  - repeat (case_match; simplify_eq/=; try done).
Qed.

End outgoing_facts.

(** X17. The request sent to an upstream that has a key of its own does not
    depend on the [host], [authorization], [x-api-key] and [content-length]
    headers of the client. In every outgoing request [content-length] is
    absent, [host] is the host of the upstream and all headers but these
    four are those of the client; with a key the upstream receives
    [Bearer <key>] as [authorization] and no [x-api-key], without one the
    two headers of the client are passed on; and an upstream whose URL does
    not parse makes the construction throw. *)
Theorem X17_upstream_credentials (parse_url : string → option Forward.URL)
    (upstream : Forward.Target) :
  (∀ key req1 req2,
     Forward.target_key upstream = Some key → key ≠ EmptyString →
     Forward.req_url req1 = Forward.req_url req2 →
     Forward.req_method req1 = Forward.req_method req2 →
     (∀ name, name ∉ Forward.replaced →
        Forward.req_headers req1 !! name = Forward.req_headers req2 !! name) →
     Forward.outgoing parse_url req1 upstream = Forward.outgoing parse_url req2 upstream)
  ∧ (∀ req o,
       Forward.outgoing parse_url req upstream = Ok o →
       Forward.o_headers o !! "content-length" = None
       ∧ (∃ u, parse_url (Forward.target_url upstream) = Some u
               ∧ Forward.o_headers o !! "host" = Some (Forward.host u))
       ∧ (∀ name, name ∉ Forward.replaced →
            Forward.o_headers o !! name = Forward.req_headers req !! name)
       ∧ match Forward.target_key upstream with
         | Some (String c key) =>
             Forward.o_headers o !! "authorization"
             = Some ("Bearer " ++ String c key)%string
             ∧ Forward.o_headers o !! "x-api-key" = None
         | _ =>
             Forward.o_headers o !! "authorization"
             = Forward.req_headers req !! "authorization"
             ∧ Forward.o_headers o !! "x-api-key" = Forward.req_headers req !! "x-api-key"
         end)
  ∧ (parse_url (Forward.target_url upstream) = None →
     ∀ req, ∃ e, Forward.outgoing parse_url req upstream = Throw e).
Proof.
  split_and!.
  - intros key req1 req2 Hkey Hne Hurl Hmeth Hagree.
    unfold Forward.outgoing, Forward.createProxyOptions, Forward.setupProxyHeaders,
      Forward.parseURL.
    rewrite Hurl, Hmeth, Hkey.
    destruct (Forward.rewriteUrl parse_url (Forward.req_url req2) upstream) as [p|]; [|done].
    cbn [mbind outcome_bind].
    destruct (parse_url (Forward.target_url upstream)) as [u|]; [|done].
    cbn [mbind outcome_bind Forward.o_headers Forward.o_hostname Forward.o_port
         Forward.o_path Forward.o_method Forward.o_protocol Forward.o_isHttps].
    rewrite (bool_decide_eq_false_2 (key = EmptyString)) by done.
    do 2 f_equal. apply map_eq. intros name.
    destruct (decide (name ∈ Forward.replaced)) as [Hin|Hout].
    + unfold Forward.replaced in Hin.
      repeat (apply elem_of_cons in Hin as [->|Hin]); [| | | |by apply elem_of_nil in Hin];
        by simplify_map_eq.
    + assert (name ≠ "host" ∧ name ≠ "authorization" ∧ name ≠ "x-api-key"
              ∧ name ≠ "content-length") as (? & ? & ? & ?).
      { unfold Forward.replaced in Hout. split_and!; intros ->; apply Hout; set_solver. }
      rewrite !lookup_delete_ne, !lookup_insert_ne by done. by apply Hagree.
  - intros req o Hout.
    destruct (outgoing_headers parse_url req upstream o Hout) as (u & Hu & Hh & _).
    assert (Hother : ∀ name, name ∉ Forward.replaced →
              name ≠ "host" ∧ name ≠ "authorization" ∧ name ≠ "x-api-key"
              ∧ name ≠ "content-length").
    { intros name Hn. unfold Forward.replaced in Hn.
      split_and!; intros ->; apply Hn; set_solver. }
    rewrite Hh. clear Hh Hout.
    destruct (Forward.target_key upstream) as [[|c key]|];
      [rewrite bool_decide_eq_true_2 by done
      |rewrite bool_decide_eq_false_2 by done
      |];
      (split_and!;
       [by rewrite lookup_delete_eq
       |exists u; split; [done|]; by simplify_map_eq
       |intros name (? & ? & ? & ?)%Hother;
        rewrite ?lookup_delete_ne, ?lookup_insert_ne by done; done
       |by simplify_map_eq
       |by simplify_map_eq]).
  - intros Hnone req. unfold Forward.outgoing, Forward.rewriteUrl,
      Forward.createProxyOptions, Forward.parseURL. rewrite Hnone.
    destruct (Str.startsWith _ _); cbn; eauto.
Qed.

Section format_facts.
Import JS Obj Messages.

Lemma get_set_field_role (fields : list (string * json)) (v : json) :
  assoc "role" (set_field "role" v fields) = Some v.
Proof.
  induction fields as [|[k x] fields IH]; cbn [set_field assoc].
  - by rewrite bool_decide_eq_true_2.
  - destruct (bool_decide (k = "role")) eqn:Hk; cbn [assoc]; rewrite Hk; done.
Qed.

Lemma get_set_field_other (fields : list (string * json)) (key k : string) (v : json) :
  k ≠ key → assoc k (set_field key v fields) = assoc k fields.
Proof.
  intros Hne. induction fields as [|[k' x] fields IH]; cbn [set_field assoc].
  - by rewrite bool_decide_eq_false_2.
  - destruct (bool_decide (k' = key)) eqn:Hk; cbn [assoc].
    + apply bool_decide_eq_true_1 in Hk. subst k'.
      by rewrite !(bool_decide_eq_false_2 (key = k)).
    + by rewrite IH.
Qed.

Lemma set_role_not_system (msg : json) :
  is_system msg = true → is_system (set_role msg) = false.
Proof.
  unfold is_system. destruct msg as [| | | | |fields]; cbn [get set_role is_str orb]; try done.
  intros _. by rewrite get_set_field_role.
Qed.

Lemma prop_role (msg : json) :
  msg ≠ JNull → prop (Some msg) "role" = Ok (get msg "role").
Proof. by destruct msg. Qed.

Lemma keep_spec (msg : json) (kept : option json) :
  keep msg = Ok kept →
  msg ≠ JNull ∧
  if is_system msg then
    ∃ b, includes_any (shown msg) markers = Ok b ∧
         kept = if b then None else Some (set_role msg)
  else kept = Some msg.
Proof.
  unfold keep. assert (msg = JNull ∨ msg ≠ JNull) as [->|Hn] by (destruct msg; auto); [done|].
  rewrite prop_role by done. cbn [mbind outcome_bind]. fold (is_system msg). cbv zeta.
  destruct (is_system msg).
  - destruct (includes_any (shown msg) markers) as [b|] eqn:Hb; cbn [mbind outcome_bind]; [|done].
    intros [= <-]. split; [done|]. by exists b.
  - by intros [= <-].
Qed.

Lemma filter_messages_spec (msgs out : list json) :
  filter_messages msgs = Ok out →
  Forall (λ m, is_system m = false ∧ m ≠ JNull) out ∧ out = omap converted msgs.
Proof.
  revert out. induction msgs as [|m msgs IH]; intros out; cbn [filter_messages].
  - intros [= <-]. split; [constructor|done].
  - destruct (keep m) as [kept|] eqn:Hk; cbn [mbind outcome_bind]; [|done].
    destruct (filter_messages msgs) as [others|] eqn:Ho; cbn [mbind outcome_bind]; [|done].
    intros [= <-]. destruct (IH others eq_refl) as (Hall & Hout).
    apply keep_spec in Hk as [Hn Hk].
    rewrite omap_cons_match. unfold converted at 1. unfold drops.
    destruct (is_system m) eqn:Hs.
    + destruct Hk as (b & Hb & ->). rewrite Hb. rewrite <- Hout. split; [|done].
      destruct b; [done|]. constructor; [|done]. split; [by apply set_role_not_system|].
      by destruct m.
    + subst kept. rewrite <- Hout. split; [by constructor|done].
Qed.

Lemma filter_messages_null (msgs : list json) :
  JNull ∈ msgs → filter_messages msgs = Throw TypeError.
Proof.
  induction msgs as [|m msgs IH]; intros Hin; [by apply elem_of_nil in Hin|].
  apply elem_of_cons in Hin as [<-|Hin]; [done|].
  cbn [filter_messages]. rewrite (IH Hin).
  destruct (keep m) as [kept|e] eqn:Hk; cbn [mbind outcome_bind]; [done|].
  f_equal. revert Hk. unfold keep. destruct m; cbn [prop mbind outcome_bind]; try congruence;
    destruct (_ || _); try congruence;
    destruct (includes_any _ _) as [?|?] eqn:Hi; cbn [mbind outcome_bind]; try congruence;
    intros [= <-]; revert Hi; clear; unfold markers; cbn [includes_any];
    destruct (shown _); cbn [content_includes mbind outcome_bind]; try congruence;
    repeat (destruct (_ : bool); try congruence).
Qed.

Lemma map_messages_id (msgs : list json) :
  Forall (λ m, is_system m = false ∧ m ≠ JNull) msgs → map_messages msgs = Ok msgs.
Proof.
  induction 1 as [|m msgs [Hs Hn] _ IH]; [done|].
  cbn [map_messages]. unfold to_user. rewrite prop_role by done. cbn [mbind outcome_bind].
  fold (is_system m). rewrite Hs, IH. done.
Qed.

Lemma text_items_blocks {rt : Runtime} (items : list json) :
  Forall (λ item, item ≠ JNull) items → Format.text_items items = Ok (text_blocks items).
Proof.
  induction 1 as [|item items Hn _ IH]; [done|].
  cbn [Format.text_items]. assert (prop (Some item) "type" = Ok (get item "type")) as ->
    by by destruct item.
  cbn [mbind outcome_bind]. rewrite IH. cbn [mbind outcome_bind].
  unfold text_blocks. cbn [List.filter]. by destruct (is_str (get item "type") "text").
Qed.

Lemma text_items_null {rt : Runtime} (items : list json) :
  JNull ∈ items → Format.text_items items = Throw TypeError.
Proof.
  induction items as [|item items IH]; intros Hin; [by apply elem_of_nil in Hin|].
  apply elem_of_cons in Hin as [<-|Hin]; [done|].
  cbn [Format.text_items].
  destruct item; cbn [prop mbind outcome_bind]; try done; by rewrite IH.
Qed.

End format_facts.

(** X18. For a request whose [messages] is an array, the conversion of the
    messages throws when one of them is [null]. When it succeeds, every
    message with another role than [system] and [developer] is kept as it
    is and in its place, a [system] or [developer] message is left out if
    its content holds one of the four markers and otherwise kept with the
    role [user] and all its other fields, so that no message of the result
    has the role [system] or [developer]; for a text content the markers
    are looked for as substrings. *)
Theorem X18_system_messages (openaiRequest : JS.json) (msgs : list JS.json) :
  JS.get openaiRequest "messages" = Some (JS.JArr msgs) →
  (JS.JNull ∈ msgs → Messages.convertMessages openaiRequest = Throw JS.TypeError)
  ∧ (∀ out, Messages.convertMessages openaiRequest = Ok out →
       out = omap Messages.converted msgs
       ∧ Forall (λ m, Messages.is_system m = false) out)
  ∧ (∀ msg, Messages.is_system msg = true →
       JS.get (Messages.set_role msg) "role" = Some (JS.JStr "user")
       ∧ ∀ k, k ≠ "role" → JS.get (Messages.set_role msg) k = JS.get msg k)
  ∧ (∀ msg s, JS.get msg "content" = Some (JS.JStr s) → s ≠ EmptyString →
       Messages.drops msg
       = existsb (λ marker, Str.includes (Str.chars marker) (Str.chars s)) Messages.markers).
Proof.
  intros Hm.
  assert (Hconv : Messages.convertMessages openaiRequest
                  = filtered ← Messages.filter_messages msgs; Messages.map_messages filtered).
  { unfold Messages.convertMessages. destruct openaiRequest; try done.
    cbn [JS.prop mbind outcome_bind]. by rewrite Hm. }
  split_and!.
  - intros Hin. by rewrite Hconv, filter_messages_null.
  - intros out. rewrite Hconv.
    destruct (Messages.filter_messages msgs) as [filtered|] eqn:Hf; cbn [mbind outcome_bind]; [|done].
    apply filter_messages_spec in Hf as [Hall ->].
    rewrite map_messages_id by done. intros [= <-]. split; [done|].
    eapply Forall_impl; [exact Hall|]. by intros m [? _].
  - intros msg Hs. unfold Messages.is_system in Hs.
    destruct msg as [| | | | |fields]; try done. cbn [Messages.set_role JS.get]. split.
    + apply get_set_field_role.
    + intros k Hk. by apply get_set_field_other.
  - intros msg s Hc Hs. unfold Messages.drops, Messages.shown. rewrite Hc.
    cbn [JS.truthy default]. rewrite bool_decide_eq_false_2 by done. cbn [negb id].
    unfold Messages.markers. cbn [Messages.includes_any Messages.content_includes mbind outcome_bind existsb].
    repeat (destruct (Str.includes _ _); cbn [orb]; try done).
Qed.

(** X19. For a response whose [content] is an array, the conversion throws when
    one of the blocks is [null]; otherwise it yields exactly one choice, an
    assistant message whose content is the texts of the blocks of type
    [text] joined in order, every other block being left out, with the
    finish reason [stop] when the stop reason is [end_turn] and [length]
    for every other or absent stop reason. *)
Theorem X19_text_blocks {rt : JS.Runtime} (response : JS.json) (items : list JS.json) :
  JS.get response "content" = Some (JS.JArr items) →
  (JS.JNull ∈ items → Format.convert_parsed (Some response) = Throw JS.TypeError)
  ∧ (JS.JNull ∉ items →
     ∃ openaiResponse,
       Format.convert_parsed (Some response) = Ok openaiResponse
       ∧ JS.get openaiResponse "choices"
         = Some (JS.JArr
             [JS.JObj
                [("index", JS.JNum 0);
                 ("message",
                  JS.JObj [("role", JS.JStr "assistant");
                           ("content",
                            JS.JStr (Format.join_text
                                       ((λ item, JS.get item "text")
                                          <$> Messages.text_blocks items)))]);
                 ("finish_reason",
                  JS.JStr (if JS.is_str (JS.get response "stop_reason") "end_turn"
                           then "stop" else "length"))]])).
Proof.
  intros Hc. destruct response as [| | | | |fields]; try done.
  unfold Format.convert_parsed. cbn [JS.prop mbind outcome_bind]. rewrite Hc. split.
  - intros Hin. by rewrite text_items_null.
  - intros Hn. rewrite text_items_blocks.
    2:{ apply Forall_forall. intros item Hi ->. done. }
    cbn [mbind outcome_bind]. eexists. split; [reflexivity|]. done.
Qed.

Section validator_facts.
Import JS Obj Validator.

Lemma prop_get (v : json) (k : string) : v ≠ JNull → prop (Some v) k = Ok (get v k).
Proof. by destruct v. Qed.

Lemma Qle_bool_true (a b : Q) : Qle_bool a b = true ↔ (a <= b)%Q.
Proof. apply Qle_bool_iff. Qed.

Lemma validate_field_ok (prefix model : string) (limits : json) (field : string) :
  validate_field prefix model limits field = Ok tt ↔
  limits ≠ JNull ∧
  (get limits field = None ∨ ∃ n, get limits field = Some (JNum n) ∧ (0 <= n)%Q).
Proof.
  unfold validate_field.
  assert (limits = JNull ∨ limits ≠ JNull) as [->|Hn] by (destruct limits; auto).
  { cbn. split; [done|]. by intros [? _]. }
  rewrite prop_get by done. cbn [lift mbind outcome_bind].
  destruct (get limits field) as [[| |n| | |]|] eqn:Hg;
    try (split; [done|]; intros [_ [?|(? & ? & _)]]; done).
  - destruct (Qle_bool 0 n) eqn:Hle.
    + split; [|done]. intros _. split; [done|]. right. exists n. split; [done|].
      by apply Qle_bool_true.
    + split; [done|]. intros [_ [?|(n' & [= <-] & Hle')]]; [done|].
      apply Qle_bool_true in Hle'. congruence.
  - split; [|done]. intros _. split; [done|]. by left.
Qed.

Lemma validate_fields_ok (prefix model : string) (limits : json) (fields : list string) :
  fields ≠ [] →
  validate_fields prefix model limits fields = Ok tt ↔
  limits ≠ JNull ∧
  ∀ field, field ∈ fields →
    get limits field = None ∨ ∃ n, get limits field = Some (JNum n) ∧ (0 <= n)%Q.
Proof.
  induction fields as [|f fields IH]; [done|]. intros _. cbn [validate_fields].
  destruct (validate_field prefix model limits f) as [[]|e] eqn:Hf; cbn [mbind outcome_bind].
  - apply validate_field_ok in Hf as [Hn Hf].
    destruct fields as [|f' fields].
    + cbn. split; [|done]. intros _. split; [done|].
      intros field ->%list_elem_of_singleton. done.
    + rewrite IH by done. split.
      * intros [_ H]. split; [done|]. intros field [->|Hin]%elem_of_cons; auto.
      * intros [_ H]. split; [done|]. intros field Hin. apply H. by apply elem_of_cons; right.
  - split; [done|]. intros [Hn H].
    assert (validate_field prefix model limits f = Ok tt) as Hok.
    { apply validate_field_ok. split; [done|]. apply H. by apply elem_of_cons; left. }
    congruence.
Qed.

Lemma validate_daily_ok (prefix : string) (models : list (string * json)) :
  validate_daily prefix models = Ok tt ↔ Forall (λ e, entry_ok e.2) models.
Proof.
  induction models as [|[model limits] models IH]; cbn [validate_daily].
  - split; [by constructor|done].
  - destruct (validate_fields prefix model limits limitFields) as [[]|e] eqn:Hf;
      cbn [mbind outcome_bind].
    + apply validate_fields_ok in Hf; [|done]. rewrite IH. split.
      * intros H. by constructor.
      * by intros [_ H]%Forall_cons.
    + split; [done|]. intros [H _]%Forall_cons.
      assert (validate_fields prefix model limits limitFields = Ok tt) as Hok
        by (apply validate_fields_ok; [done|exact H]).
      congruence.
Qed.

Lemma has_cons_false (x v : option json) (set : list (option json)) :
  has (x :: set) v = false → same v x = false ∧ has set v = false.
Proof. unfold has. cbn [existsb]. by intros [? ?]%orb_false_iff. Qed.

Lemma same_str (v : option json) (k : string) :
  same v (Some (JStr k)) = true ↔ v = Some (JStr k).
Proof.
  destruct v as [[| | |s| |]|]; cbn; try (split; done).
  rewrite bool_decide_eq_true. split; [by intros ->|by intros [= ->]].
Qed.

Section tenants.
Context {rt : Runtime}.

Lemma validateTenant_not_null (t : json) (prefix : string) :
  validateTenant t prefix = Ok tt → t ≠ JNull.
Proof. by intros H ->. Qed.

Lemma validate_tenants_cons (t : json) (ts : list json) (index : nat)
    (ids keys : list (option json)) :
  validate_tenants (t :: ts) index ids keys = Ok tt →
  validateTenant t ("tenants[" ++ pretty index ++ "]") = Ok tt
  ∧ has ids (get t "id") = false ∧ has keys (get t "key") = false
  ∧ validate_tenants ts (S index) (get t "id" :: ids) (get t "key" :: keys) = Ok tt.
Proof.
  cbn [validate_tenants].
  destruct (validateTenant t _) as [[]|]; cbn [mbind outcome_bind]; [|done].
  destruct (has ids _); [done|]. destruct (has keys _); [done|]. done.
Qed.

Lemma validate_tenants_fresh (ts : list json) (index : nat) (ids keys : list (option json)) :
  validate_tenants ts index ids keys = Ok tt →
  ∀ t, t ∈ ts →
    (∃ prefix, validateTenant t prefix = Ok tt)
    ∧ has ids (get t "id") = false ∧ has keys (get t "key") = false.
Proof.
  revert index ids keys. induction ts as [|t0 ts IH]; intros index ids keys Hok t Hin.
  { by apply elem_of_nil in Hin. }
  apply validate_tenants_cons in Hok as (Hv & Hid & Hkey & Hrest).
  apply elem_of_cons in Hin as [->|Hin].
  - split; [by eexists|done].
  - destruct (IH _ _ _ Hrest t Hin) as (Hp & Hi & Hk).
    apply has_cons_false in Hi as [_ Hi]. apply has_cons_false in Hk as [_ Hk]. done.
Qed.

Lemma validate_tenants_find (ts : list json) (index : nat) (ids keys : list (option json)) :
  validate_tenants ts index ids keys = Ok tt →
  ∀ t s, t ∈ ts →
    (get t "id" = Some (JStr s) → Config.find_by "id" (Some (JStr s)) ts = Ok (Some t))
    ∧ (get t "key" = Some (JStr s) → Config.find_by "key" (Some (JStr s)) ts = Ok (Some t)).
Proof.
  revert index ids keys. induction ts as [|t0 ts IH]; intros index ids keys Hok t s Hin.
  { by apply elem_of_nil in Hin. }
  apply validate_tenants_cons in Hok as (Hv & Hid & Hkey & Hrest).
  pose proof (validateTenant_not_null _ _ Hv) as Hn0.
  cbn [Config.find_by]. rewrite !prop_get by done. cbn [mbind outcome_bind].
  apply elem_of_cons in Hin as [->|Hin].
  - split; intros ->; cbn [same]; by rewrite bool_decide_eq_true_2.
  - destruct (validate_tenants_fresh _ _ _ _ Hrest t Hin) as (_ & Hi & Hk).
    apply has_cons_false in Hi as [Hi _]. apply has_cons_false in Hk as [Hk _].
    destruct (IH _ _ _ Hrest t s Hin) as [IHi IHk].
    split; intros Hg.
    + destruct (same (get t0 "id") (Some (JStr s))) eqn:Hs; [|by apply IHi].
      apply same_str in Hs. rewrite Hg, Hs in Hi. cbn in Hi.
      by rewrite bool_decide_eq_true_2 in Hi.
    + destruct (same (get t0 "key") (Some (JStr s))) eqn:Hs; [|by apply IHk].
      apply same_str in Hs. rewrite Hg, Hs in Hk. cbn in Hk.
      by rewrite bool_decide_eq_true_2 in Hk.
Qed.

End tenants.

Section upstreams.
Context {rt : Runtime}.
Variable valid_url : string → bool.

Lemma validateUpstream_ok (upstream : json) (prefix : string) :
  validateUpstream valid_url upstream prefix = Ok tt ↔ upstream_ok valid_url upstream.
Proof.
  unfold validateUpstream, upstream_ok.
  assert (upstream = JNull ∨ upstream ≠ JNull) as [->|Hn] by (destruct upstream; auto).
  { cbn. split; [done|]. by intros [? _]. }
  rewrite prop_get by done. cbn [lift mbind outcome_bind].
  destruct (truthy (get upstream "id")) eqn:Hid; cbn [negb].
  2:{ split; [done|]. by intros (_ & ? & _). }
  destruct (get upstream "url") as [url|] eqn:Hurl.
  2:{ cbn. split; [done|]. by intros (_ & _ & (? & ? & _) & _). }
  destruct (truthy (Some url)) eqn:Htu; cbn [negb].
  2:{ split; [done|]. intros (_ & _ & (? & [= <-] & ? & _) & _). congruence. }
  cbn [default]. unfold id.
  destruct (valid_url (Auth.template url)) eqn:Hv; cbn [negb].
  2:{ split; [done|]. intros (_ & _ & (? & [= <-] & _ & ?) & _). congruence. }
  destruct (get upstream "weight") as [[| |w| | |]|] eqn:Hw;
    try (split; [done|]; intros (_ & _ & _ & [?|(? & ? & _)]); done).
  - destruct (Qle_bool 0 w) eqn:Hle.
    + split; [|done]. intros _. split_and!; try done; [by exists url|].
      right. exists w. split; [done|]. by apply Qle_bool_true.
    + split; [done|]. intros (_ & _ & _ & [?|(w' & [= <-] & Hle')]); [done|].
      apply Qle_bool_true in Hle'. congruence.
  - split; [|done]. intros _. split_and!; try done; [by exists url|by left].
Qed.

Lemma validate_upstreams_ok (us : list json) (index : nat) :
  validate_upstreams valid_url us index = Ok tt ↔ Forall (upstream_ok valid_url) us.
Proof.
  revert index. induction us as [|u us IH]; intros index; cbn [validate_upstreams].
  - split; [by constructor|done].
  - destruct (validateUpstream valid_url u _) as [[]|e] eqn:Hu; cbn [mbind outcome_bind].
    + apply validateUpstream_ok in Hu. rewrite IH. split.
      * intros H. by constructor.
      * by intros [_ H]%Forall_cons.
    + split; [done|]. intros [H _]%Forall_cons.
      apply (validateUpstream_ok u ("upstreams[" ++ pretty index ++ "]")) in H. congruence.
Qed.

End upstreams.

End validator_facts.

(** X20. A tenants configuration that [validateTenantsConfig] accepts has an
    array of tenants each of which passes [validateTenant], and looking a
    tenant up by its id or by its key, when these are strings, returns this
    very tenant: no other tenant of the file has the same id or key. *)
Theorem X20_tenants_checked {rt : JS.Runtime} (config : JS.json) :
  Validator.validateTenantsConfig config = Ok tt →
  ∃ tenants,
    JS.get config "tenants" = Some (JS.JArr tenants)
    ∧ ∀ tenant, tenant ∈ tenants →
        (∃ prefix, Validator.validateTenant tenant prefix = Ok tt)
        ∧ (∀ id, JS.get tenant "id" = Some (JS.JStr id) →
             Config.getTenant tenants (Some (JS.JStr id)) = Ok (Some tenant))
        ∧ (∀ key, JS.get tenant "key" = Some (JS.JStr key) →
             Config.getTenantByKey tenants (Some (JS.JStr key)) = Ok (Some tenant)).
Proof.
  unfold Validator.validateTenantsConfig.
  assert (config = JS.JNull ∨ config ≠ JS.JNull) as [->|Hn] by (destruct config; auto); [done|].
  rewrite prop_get by done. cbn [Validator.lift mbind outcome_bind].
  destruct (JS.get config "tenants") as [[| | | |tenants|]|] eqn:Hg; try done.
  intros Hok. exists tenants. split; [done|]. intros tenant Hin.
  destruct (validate_tenants_fresh _ _ _ _ Hok tenant Hin) as (Hp & _).
  split; [done|]. split.
  - intros id. by apply (validate_tenants_find _ _ _ _ Hok tenant id Hin).
  - intros key. by apply (validate_tenants_find _ _ _ _ Hok tenant key Hin).
Qed.

(** X21. [validateUpstreamsConfig] accepts a configuration exactly when its
    [upstreams] is an array that is not empty, every upstream has a truthy
    id, a truthy URL that parses and a weight that is absent or a number
    that is not negative, and [loadBalancer] is truthy. Nothing relates
    two upstreams: a file that lists the same upstream twice is
    accepted. *)
Theorem X21_upstreams_checked {rt : JS.Runtime} (valid_url : string → bool) :
  (∀ config,
     Validator.validateUpstreamsConfig valid_url config = Ok tt ↔
     ∃ upstreams,
       JS.get config "upstreams" = Some (JS.JArr upstreams)
       ∧ upstreams ≠ []
       ∧ Forall (Validator.upstream_ok valid_url) upstreams
       ∧ JS.truthy (JS.get config "loadBalancer") = true)
  ∧ (∀ upstream balancer,
       Validator.upstream_ok valid_url upstream →
       JS.truthy (Some balancer) = true →
       Validator.validateUpstreamsConfig valid_url
         (JS.JObj [("upstreams", JS.JArr [upstream; upstream]); ("loadBalancer", balancer)])
       = Ok tt).
Proof.
  assert (Hiff : ∀ config,
     Validator.validateUpstreamsConfig valid_url config = Ok tt ↔
     ∃ upstreams,
       JS.get config "upstreams" = Some (JS.JArr upstreams)
       ∧ upstreams ≠ []
       ∧ Forall (Validator.upstream_ok valid_url) upstreams
       ∧ JS.truthy (JS.get config "loadBalancer") = true).
  { intros config. unfold Validator.validateUpstreamsConfig.
    assert (config = JS.JNull ∨ config ≠ JS.JNull) as [->|Hn] by (destruct config; auto).
    { cbn. split; [done|]. by intros (? & ? & _). }
    rewrite prop_get by done. cbn [Validator.lift mbind outcome_bind].
    destruct (JS.get config "upstreams") as [[| | | |us|]|] eqn:Hg;
      try (split; [done|]; by intros (? & ? & _)).
    destruct us as [|u us].
    { cbn. split; [done|]. by intros (? & [= <-] & ? & _). }
    rewrite bool_decide_eq_false_2 by done.
    destruct (Validator.validate_upstreams valid_url (u :: us) 0) as [[]|e] eqn:Hv;
      cbn [mbind outcome_bind].
    - apply validate_upstreams_ok in Hv.
      destruct (JS.truthy (JS.get config "loadBalancer")) eqn:Hl; cbn [negb].
      + split; [|done]. intros _. by exists (u :: us).
      + split; [done|]. by intros (? & _ & _ & _ & ?).
    - split; [done|]. intros (? & [= <-] & _ & H & _).
      apply (validate_upstreams_ok valid_url (u :: us) 0) in H. congruence. }
  split; [done|]. intros upstream balancer Hu Hb. apply Hiff.
  exists [upstream; upstream]. split_and!; try done. by repeat apply Forall_cons_2.
Qed.

(** X22. [validateTenant] accepts a tenant exactly when its id, name and key
    are truthy, [allowedModels] is an array and, if [limits.daily] is
    truthy, no value of [limits.daily] is [null] and the four token limits
    of every value are absent or numbers that are not negative. The keys of
    [limits.daily] are taken for model names, so that the [maxUSD] of the
    documented configuration is never looked at: any value for it that is
    neither [null] nor an object passes. *)
Theorem X22_tenant_checked :
  (∀ tenant prefix,
     Validator.validateTenant tenant prefix = Ok tt ↔
     tenant ≠ JS.JNull
     ∧ JS.truthy (JS.get tenant "id") = true
     ∧ JS.truthy (JS.get tenant "name") = true
     ∧ JS.truthy (JS.get tenant "key") = true
     ∧ (∃ models, JS.get tenant "allowedModels" = Some (JS.JArr models))
     ∧ (∀ daily, Validator.daily_of tenant = Some daily → JS.truthy (Some daily) = true →
          Forall (λ e, Validator.entry_ok e.2) (Obj.entries daily)))
  ∧ (∀ id name key models cap prefix,
       JS.truthy (Some id) = true → JS.truthy (Some name) = true →
       JS.truthy (Some key) = true →
       cap ≠ JS.JNull → (∀ fields, cap ≠ JS.JObj fields) →
       Validator.validateTenant
         (JS.JObj [("id", id); ("name", name); ("key", key);
                   ("allowedModels", JS.JArr models);
                   ("limits", JS.JObj [("daily", JS.JObj [("maxUSD", cap)])])]) prefix
       = Ok tt).
Proof.
  assert (Hiff : ∀ tenant prefix,
     Validator.validateTenant tenant prefix = Ok tt ↔
     tenant ≠ JS.JNull
     ∧ JS.truthy (JS.get tenant "id") = true
     ∧ JS.truthy (JS.get tenant "name") = true
     ∧ JS.truthy (JS.get tenant "key") = true
     ∧ (∃ models, JS.get tenant "allowedModels" = Some (JS.JArr models))
     ∧ (∀ daily, Validator.daily_of tenant = Some daily → JS.truthy (Some daily) = true →
          Forall (λ e, Validator.entry_ok e.2) (Obj.entries daily))).
  { intros tenant prefix. unfold Validator.validateTenant.
    assert (tenant = JS.JNull ∨ tenant ≠ JS.JNull) as [->|Hn] by (destruct tenant; auto).
    { cbn. split; [done|]. by intros [? _]. }
    rewrite prop_get by done. cbn [Validator.lift mbind outcome_bind].
    destruct (JS.truthy (JS.get tenant "id")); cbn [negb];
      [|split; [done|]; by intros (_ & ? & _)].
    destruct (JS.truthy (JS.get tenant "name")); cbn [negb];
      [|split; [done|]; by intros (_ & _ & ? & _)].
    destruct (JS.truthy (JS.get tenant "key")); cbn [negb];
      [|split; [done|]; by intros (_ & _ & _ & ? & _)].
    destruct (JS.get tenant "allowedModels") as [[| | | |models|]|] eqn:Hm;
      try (split; [done|]; by intros (_ & _ & _ & _ & (? & ?) & _)).
    cbv zeta. destruct (Validator.daily_of tenant) as [daily|] eqn:Hd.
    - destruct (JS.truthy (Some daily)) eqn:Ht.
      + cbn [default]. unfold id. rewrite validate_daily_ok. split.
        * intros H. split_and!; try done; [by eexists|]. by intros ? [= <-] _.
        * intros (_ & _ & _ & _ & _ & H). by apply H.
      + split; [|done]. intros _. split_and!; try done; [by eexists|]. intros ? [= <-]. congruence.
    - cbn. split; [|done]. intros _. split_and!; try done. by eexists. }
  split; [done|]. intros id name key models cap prefix Hi Hna Hk Hn Ho. apply Hiff.
  split_and!; try done; [by eexists|].
  unfold Validator.daily_of. cbn. intros daily [= <-] _. cbn.
  constructor; [|constructor]. split; [done|]. intros field _. left.
  destruct cap; try done. by destruct (Ho fields).
Qed.

Section keys_facts.
Import Keys.

Lemma N_of_hex_digit (n : N) :
  (n < 16)%N → N_of_ascii (hex_digit n) = if (n <? 10)%N then (48 + n)%N else (87 + n)%N.
Proof.
  intros Hn. unfold hex_digit. destruct (n <? 10)%N; apply N_ascii_embedding; lia.
Qed.

Lemma is_hex_digit (n : N) : (n < 16)%N → is_hex (hex_digit n) = true.
Proof.
  intros Hn. unfold is_hex. cbv zeta. rewrite N_of_hex_digit by done.
  destruct (n <? 10)%N eqn:H10.
  - apply N.ltb_lt in H10. apply orb_true_iff. right.
    apply andb_true_iff. split; apply N.leb_le; lia.
  - apply N.ltb_ge in H10. apply orb_true_iff. left.
    apply andb_true_iff. split; apply N.leb_le; lia.
Qed.

Lemma digit_value_hex (n : N) : (n < 16)%N → digit_value (hex_digit n) = n.
Proof.
  intros Hn. unfold digit_value. cbv zeta. rewrite N_of_hex_digit by done.
  destruct (n <? 10)%N eqn:H10.
  - apply N.ltb_lt in H10. rewrite (proj2 (N.leb_le _ _)) by lia. lia.
  - apply N.ltb_ge in H10. rewrite (proj2 (N.leb_gt _ _)) by lia. lia.
Qed.

Lemma hex_digit_value (c : ascii) :
  is_hex c = true → (digit_value c < 16)%N ∧ hex_digit (digit_value c) = c.
Proof.
  unfold is_hex, digit_value, hex_digit. cbv zeta. intros H.
  apply orb_true_iff in H as [H|H]; apply andb_true_iff in H as [H1 H2];
    apply N.leb_le in H1; apply N.leb_le in H2.
  - rewrite (proj2 (N.leb_gt _ _)) by lia. split; [lia|].
    rewrite (proj2 (N.ltb_ge _ _)) by lia.
    replace (87 + (N_of_ascii c - 87))%N with (N_of_ascii c) by lia.
    apply ascii_N_embedding.
  - rewrite (proj2 (N.leb_le _ _)) by lia. split; [lia|].
    rewrite (proj2 (N.ltb_lt _ _)) by lia.
    replace (48 + (N_of_ascii c - 48))%N with (N_of_ascii c) by lia.
    apply ascii_N_embedding.
Qed.

Lemma to_N_lt (b : Byte.byte) : (Byte.to_N b < 256)%N.
Proof. pose proof (Byte.to_N_bounded b). lia. Qed.

Lemma unhex_hex (bytes : list Byte.byte) : unhex (bytes ≫= hex_byte) = bytes.
Proof.
  induction bytes as [|b bytes IH]; [done|].
  rewrite bind_cons.
  unfold hex_byte at 1. cbv zeta. cbn [app unhex]. rewrite IH. f_equal.
  pose proof (to_N_lt b) as Hb.
  rewrite !digit_value_hex by (try apply N.Div0.div_lt_upper_bound; try apply N.mod_lt; lia).
  rewrite <- N.div_mod by lia. by rewrite Byte.of_to_N.
Qed.

Lemma hex_unhex (cs : list ascii) (n : nat) :
  length cs = (2 * n)%nat → forallb is_hex cs = true →
  unhex cs ≫= hex_byte = cs ∧ length (unhex cs) = n.
Proof.
  revert cs. induction n as [|n IH]; intros cs Hlen Hall.
  { by destruct cs. }
  destruct cs as [|a [|b cs]]; try (cbn in Hlen; lia).
  cbn [forallb] in Hall. apply andb_true_iff in Hall as [Ha Hall].
  apply andb_true_iff in Hall as [Hb Hall].
  destruct (IH cs) as [IH1 IH2]; [cbn in Hlen; lia|done|].
  cbn [unhex length]. rewrite IH2. split; [|done].
  rewrite bind_cons, IH1.
  destruct (hex_digit_value a Ha) as [Hla Hea]. destruct (hex_digit_value b Hb) as [Hlb Heb].
  set (va := digit_value a) in *. set (vb := digit_value b) in *.
  destruct (Byte.of_N (16 * va + vb)) as [x|] eqn:Hx.
  2:{ apply Byte.of_N_None_iff in Hx. lia. }
  apply Byte.to_of_N in Hx. cbn [default]. unfold id, hex_byte. cbv zeta. rewrite Hx.
  replace ((16 * va + vb) / 16)%N with va.
  2:{ apply N.div_unique with vb; lia. }
  replace ((16 * va + vb) mod 16)%N with vb.
  2:{ apply N.mod_unique with va; lia. }
  by rewrite Hea, Heb.
Qed.

Lemma forallb_hex (bytes : list Byte.byte) : forallb is_hex (bytes ≫= hex_byte) = true.
Proof.
  induction bytes as [|b bytes IH]; [done|].
  rewrite bind_cons.
  unfold hex_byte at 1. cbv zeta. cbn [app forallb]. rewrite IH.
  pose proof (to_N_lt b) as Hb.
  rewrite !is_hex_digit by (try apply N.Div0.div_lt_upper_bound; try apply N.mod_lt; lia).
  done.
Qed.

Lemma length_hex (bytes : list Byte.byte) :
  length (bytes ≫= hex_byte) = (2 * length bytes)%nat.
Proof.
  induction bytes as [|b bytes IH]; [done|].
  rewrite bind_cons.
  rewrite length_app, IH. cbn. lia.
Qed.

End keys_facts.

Section keys_format.
Import JS Keys.

Lemma strip_prefix_Some (p s rest : list ascii) :
  strip_prefix p s = Some rest ↔ s = p ++ rest.
Proof.
  revert s. induction p as [|a p IH]; intros s; cbn [strip_prefix app].
  - split; [by intros [= ->]|by intros ->].
  - destruct s as [|b s]; [done|].
    destruct (bool_decide (a = b)) eqn:Hab.
    + apply bool_decide_eq_true_1 in Hab. subst b. rewrite IH.
      split; [by intros ->|by intros [= ->]].
    + apply bool_decide_eq_false_1 in Hab. split; [done|]. intros [= ? _]. done.
Qed.

Lemma string_length_chars (s : string) : String.length s = length (Str.chars s).
Proof. induction s as [|c s IH]; [done|]. cbn. by rewrite IH. Qed.

Lemma chars_generateApiKey (random : list Byte.byte) :
  Str.chars (generateApiKey random) = Str.chars "ccg_" ++ (random ≫= hex_byte).
Proof. unfold generateApiKey, hex. by rewrite chars_app, chars_of_chars. Qed.

Lemma chars_inj (a b : string) : Str.chars a = Str.chars b → a = b.
Proof. intros H. by rewrite <- (of_chars_chars a), <- (of_chars_chars b), H. Qed.

Lemma generated_key_valid (random : list Byte.byte) :
  length random = 32%nat → isValidApiKey (Some (JStr (generateApiKey random))) = true.
Proof.
  intros Hlen. cbn [isValidApiKey]. apply andb_true_iff. split.
  - apply Nat.leb_le.
    rewrite string_length_chars, chars_generateApiKey, length_app, length_hex, Hlen.
    change (length (Str.chars "ccg_")) with 4%nat. lia.
  - unfold key_pattern. rewrite chars_generateApiKey.
    rewrite (proj2 (strip_prefix_Some _ _ (random ≫= hex_byte))) by done.
    rewrite forallb_hex, length_hex, Hlen. done.
Qed.

End keys_format.

(** X23. [isValidApiKey] accepts exactly the keys [generateApiKey] can produce:
    a value is valid if and only if it is [ccg_] followed by the
    hexadecimal digits of some 32 bytes. Different bytes give different
    keys, and a generated tenant id is never a valid key. *)
Theorem X23_api_key_format :
  (∀ key, Keys.isValidApiKey key = true ↔
          ∃ random, length random = 32%nat
                    ∧ key = Some (JS.JStr (Keys.generateApiKey random)))
  ∧ (∀ random1 random2,
       Keys.generateApiKey random1 = Keys.generateApiKey random2 → random1 = random2)
  ∧ (∀ random, Keys.isValidApiKey (Some (JS.JStr (Keys.generateTenantId random))) = false).
Proof.
  split_and!.
  - intros key. split.
    + destruct key as [[| | |s| |]|]; try done. cbn [Keys.isValidApiKey].
      intros [_ H]%andb_true_iff. unfold Keys.key_pattern in H.
      destruct (Keys.strip_prefix _ _) as [rest|] eqn:Hs; [|done].
      apply strip_prefix_Some in Hs. apply andb_true_iff in H as [Hlen Hall].
      apply bool_decide_eq_true_1 in Hlen.
      destruct (hex_unhex rest 32) as [Hh Hl]; [done|done|].
      exists (Keys.unhex rest). split; [done|]. do 2 f_equal. apply chars_inj.
      by rewrite chars_generateApiKey, Hh.
    + intros (random & Hlen & ->). by apply generated_key_valid.
  - intros r1 r2 H. apply (f_equal Str.chars) in H. rewrite !chars_generateApiKey in H.
    apply app_inv_head in H. by rewrite <- (unhex_hex r1), <- (unhex_hex r2), H.
  - intros random. cbn [Keys.isValidApiKey]. apply andb_false_iff. right.
    unfold Keys.key_pattern, Keys.generateTenantId. rewrite chars_app. done.
Qed.

Section registry_facts.
Import JS Obj Validator Config Registry.

Lemma find_by_None (field : string) (v : option json) (ts : list json) :
  find_by field v ts = Ok None ↔
  Forall (λ t, t ≠ JNull ∧ same (get t field) v = false) ts.
Proof.
  induction ts as [|t ts IH]; cbn [find_by].
  - split; [by constructor|done].
  - assert (t = JNull ∨ t ≠ JNull) as [->|Hn] by (destruct t; auto).
    { cbn. split; [done|]. by intros [[? _] _]%Forall_cons. }
    rewrite prop_get by done. cbn [mbind outcome_bind].
    destruct (same (get t field) v) eqn:Hs.
    + split; [done|]. intros [[_ ?] _]%Forall_cons. congruence.
    + rewrite IH. split; [by constructor|by intros [_ ?]%Forall_cons].
Qed.

Lemma find_by_app (field : string) (v : option json) (ts : list json) (c : json) :
  find_by field v (ts ++ [c])
  = match find_by field v ts with
    | Ok None => find_by field v [c]
    | r => r
    end.
Proof.
  induction ts as [|t ts IH]; [done|]. cbn [app find_by].
  destruct (prop (Some t) field) as [x|]; cbn [mbind outcome_bind]; [|done].
  by destruct (same x v).
Qed.

Lemma find_by_Some (field : string) (v : option json) (ts : list json) (t : json) :
  find_by field v ts = Ok (Some t) →
  ∃ i, ts !! i = Some t ∧ same (get t field) v = true
       ∧ ∀ j a, (j < i)%nat → ts !! j = Some a → a ≠ JNull ∧ same (get a field) v = false.
Proof.
  induction ts as [|t0 ts IH]; [done|]. cbn [find_by].
  assert (t0 = JNull ∨ t0 ≠ JNull) as [->|Hn] by (destruct t0; auto); [done|].
  rewrite prop_get by done. cbn [mbind outcome_bind].
  destruct (same (get t0 field) v) eqn:Hs.
  - intros [= <-]. exists 0%nat. split_and!; [done|done|]. intros j a Hj. lia.
  - intros (i & Hi & Hsame & Hbefore)%IH. exists (S i). split_and!; [done|done|].
    intros [|j] a Hj Ha.
    + cbn in Ha. by injection Ha as <-.
    + apply (Hbefore j); [lia|done].
Qed.

Lemma distinct_by_app (field : string) (ts : list json) (c : json) :
  distinct_by field ts →
  Forall (λ t, same (get t field) (get c field) = false) ts →
  distinct_by field (ts ++ [c]).
Proof.
  intros Hd Hall i j a b Hij Ha Hb.
  destruct (decide (j < length ts)%nat) as [Hj|Hj].
  - rewrite lookup_app_l in Ha, Hb by lia. by apply (Hd i j).
  - rewrite lookup_app_l in Ha by (apply lookup_lt_Some in Hb; rewrite length_app in Hb; cbn in Hb; lia).
    rewrite lookup_app_r in Hb by lia.
    destruct (j - length ts)%nat; [|done]. injection Hb as <-.
    rewrite Forall_forall in Hall. apply Hall. by eapply list_elem_of_lookup_2.
Qed.

Lemma distinct_by_delete (field : string) (ts : list json) (k : nat) :
  distinct_by field ts → distinct_by field (delete k ts).
Proof.
  intros Hd i j a b Hij Ha Hb.
  destruct (decide (i < k)%nat) as [Hi|Hi]; destruct (decide (j < k)%nat) as [Hj|Hj].
  - rewrite list_lookup_delete_lt in Ha, Hb by done. by apply (Hd i j).
  - rewrite list_lookup_delete_lt in Ha by done. rewrite list_lookup_delete_ge in Hb by lia.
    apply (Hd i (S j)); [lia|done|done].
  - lia.
  - rewrite list_lookup_delete_ge in Ha, Hb by lia. apply (Hd (S i) (S j)); [lia|done|done].
Qed.

End registry_facts.

Section create_facts.
Import JS Obj Validator Config Registry.
Context {rt : Runtime}.
Variable save : list json → bool.
Variable now : nat → string.
Variable randomUUID : string.
Variable random8 random32 : list Byte.byte.

Lemma or_else_truthy (v : option json) (d : json) :
  truthy (Some d) = true → truthy (Some (or_else v d)) = true.
Proof.
  intros Hd. unfold or_else. destruct (truthy v) eqn:Hv; [|done].
  destruct v; [done|]. done.
Qed.

Lemma found_truthy (field : string) (v : json) (ts : list json) (t : json) :
  find_by field (Some v) ts = Ok (Some t) → truthy (Some t) = true.
Proof.
  intros (i & _ & Hs & _)%find_by_Some.
  destruct t; try done; by destruct v.
Qed.

Lemma newTenant_Ok (tenantData : json) (tenants : list json) (fields : list (string * json)) :
  newTenant now random8 random32 tenantData tenants = Ok fields →
  let id := or_else (get tenantData "id") (JStr (Keys.generateTenantId random8)) in
  let key := or_else (get tenantData "key") (JStr (Keys.generateApiKey random32)) in
  ∃ name,
    get tenantData "name" = Some name ∧ truthy (Some name) = true
    ∧ getTenant tenants (Some id) = Ok None
    ∧ getTenantByKey tenants (Some key) = Ok None
    ∧ fields
      = [("id", id); ("name", name); ("key", key);
         ("enabled", JBool (negb (same (get tenantData "enabled") (Some (JBool false)))));
         ("allowedModels", or_else (get tenantData "allowedModels") (JArr [JStr "claude-3-haiku"]));
         ("limits", or_else (get tenantData "limits") getDefaultLimits);
         ("description", or_else (get tenantData "description") (JStr EmptyString));
         ("metadata", or_else (get tenantData "metadata") (JObj []));
         ("createdAt", JStr (now 0%nat));
         ("updatedAt", JStr (now 1%nat))].
Proof.
  unfold newTenant. cbv zeta.
  assert (tenantData = JNull ∨ tenantData ≠ JNull) as [->|Hn] by (destruct tenantData; auto);
    [done|].
  rewrite prop_get by done. cbn [crash mbind outcome_bind].
  destruct (get tenantData "name") as [name|] eqn:Hname; [|done].
  destruct (truthy (Some name)) eqn:Htn; cbn [negb]; [|done].
  destruct (getTenant tenants _) as [byId|] eqn:Hid; cbn [crash mbind outcome_bind]; [|done].
  destruct byId as [t|]; [by rewrite (found_truthy _ _ _ _ Hid)|]. cbn [truthy].
  destruct (getTenantByKey tenants _) as [byKey|] eqn:Hkey; cbn [crash mbind outcome_bind]; [|done].
  destruct byKey as [t|]; [by rewrite (found_truthy _ _ _ _ Hkey)|]. cbn [truthy].
  intros [= <-]. exists name. done.
Qed.

End create_facts.

Section shape_facts.
Import JS Obj Validator Config Registry.

Lemma tenant_shape (a b c d e f g h i j x y z : json) :
  let fields := [("id", a); ("name", b); ("key", c); ("enabled", d); ("allowedModels", e);
                 ("limits", f); ("description", g); ("metadata", h); ("createdAt", i);
                 ("updatedAt", j)] in
  assoc "id" fields = Some a
  ∧ assoc "key" fields = Some c
  ∧ Obj.set_field "updatedAt" z
      (Obj.set_field "createdAt" y (Obj.set_field "id" x fields))
    = [("id", x); ("name", b); ("key", c); ("enabled", d); ("allowedModels", e);
       ("limits", f); ("description", g); ("metadata", h); ("createdAt", y);
       ("updatedAt", z)]
  ∧ entries (JObj fields) = fields
  ∧ Obj.set_field "keyPreview" x fields = fields ++ [("keyPreview", x)].
Proof. cbv zeta. split_and!; vm_compute; reflexivity. Qed.

Lemma or_else_Some (x d : json) : truthy (Some x) = true → or_else (Some x) d = x.
Proof. intros H. unfold or_else. by rewrite H. Qed.

End shape_facts.

(** X24. When [createTenant] succeeds, the tenants in memory are the former
    ones followed by the new tenant, which was saved, passes
    [validateTenant], carries the given or the generated id and key and the
    defaults for what was not given, and whose id and key no former tenant
    had; the new tenant is found by its key and by its id, every lookup
    that found a former tenant still finds it, and ids and keys that were
    distinct remain distinct. When [createTenant] throws, the tenants are
    unchanged, except that the new tenant stays in memory when saving
    fails or when its key is not a string. *)
Theorem X24_create_tenant {rt : JS.Runtime} (save : list JS.json → bool) (now : nat → string)
    (randomUUID : string) (random8 random32 : list Byte.byte)
    (tenantData : JS.json) (tenants : list JS.json) :
  let id := Registry.or_else (JS.get tenantData "id")
              (JS.JStr (Keys.generateTenantId random8)) in
  let key := Registry.or_else (JS.get tenantData "key")
               (JS.JStr (Keys.generateApiKey random32)) in
  let fields :=
    [("id", id);
     ("name", default JS.JNull (JS.get tenantData "name"));
     ("key", key);
     ("enabled",
      JS.JBool (negb (Validator.same (JS.get tenantData "enabled") (Some (JS.JBool false)))));
     ("allowedModels",
      Registry.or_else (JS.get tenantData "allowedModels") (JS.JArr [JS.JStr "claude-3-haiku"]));
     ("limits", Registry.or_else (JS.get tenantData "limits") Registry.getDefaultLimits);
     ("description", Registry.or_else (JS.get tenantData "description") (JS.JStr EmptyString));
     ("metadata", Registry.or_else (JS.get tenantData "metadata") (JS.JObj []));
     ("createdAt", JS.JStr (now 2%nat));
     ("updatedAt", JS.JStr (now 3%nat))] in
  let created := JS.JObj fields in
  let call := Registry.createTenant save now randomUUID random8 random32 tenantData tenants in
  (∀ result, call.1 = Ok result →
     call.2 = tenants ++ [created]
     ∧ save (tenants ++ [created]) = true
     ∧ Validator.validateTenant created "tenant" = Ok tt
     ∧ Config.getTenant tenants (Some id) = Ok None
     ∧ Config.getTenantByKey tenants (Some key) = Ok None
     ∧ (∃ s, key = JS.JStr s
             ∧ result = JS.JObj (fields ++ [("keyPreview", JS.JStr (Registry.keyPreview s))])
             ∧ Config.getTenantByKey (tenants ++ [created]) (Some key) = Ok (Some created))
     ∧ (Validator.same (Some id) (Some id) = true →
        Config.getTenant (tenants ++ [created]) (Some id) = Ok (Some created))
     ∧ (∀ field v t, Config.find_by field v tenants = Ok (Some t) →
                     Config.find_by field v (tenants ++ [created]) = Ok (Some t))
     ∧ (Registry.distinct_by "id" tenants → Registry.distinct_by "id" (tenants ++ [created]))
     ∧ (Registry.distinct_by "key" tenants → Registry.distinct_by "key" (tenants ++ [created])))
  ∧ (∀ e, call.1 = Throw e →
       call.2 = tenants
       ∨ (call.2 = tenants ++ [created]
          ∧ (e = Registry.Save ∧ save (tenants ++ [created]) = false
             ∨ e = Registry.Check (Validator.Crash JS.TypeError) ∧ ∀ s, key ≠ JS.JStr s))).
Proof.
  intros id key fields created call. subst call. unfold Registry.createTenant.
  destruct (Registry.newTenant now random8 random32 tenantData tenants) as [new|e0] eqn:Hnew.
  2:{ cbn [fst snd]. split; [done|]. intros e _. by left. }
  apply newTenant_Ok in Hnew as (name & Hname & Htn & Hid & Hkey & ->).
  fold id key. fold id in Hid. fold key in Hkey.
  assert (Hti : JS.truthy (Some id) = true) by by apply or_else_truthy.
  assert (Htk : JS.truthy (Some key) = true) by by apply or_else_truthy.
  unfold Registry.addTenant. cbv zeta.
  match goal with |- context [Obj.set_field "updatedAt" ?z
                                (Obj.set_field "createdAt" ?y
                                   (Obj.set_field "id" ?x ?l))] =>
    match l with
    | [(_, ?a); (_, ?b); (_, ?c); (_, ?d); (_, ?e); (_, ?f); (_, ?g); (_, ?h); (_, ?i); (_, ?j)] =>
        destruct (tenant_shape a b c d e f g h i j x y z) as (Ha & _ & Hs & _ & _);
        cbv zeta in Ha, Hs; rewrite Hs, Ha
    end
  end.
  rewrite (or_else_Some id) by done.
  assert (Hcreated : JS.JObj [("id", id); ("name", name); ("key", key);
     ("enabled",
      JS.JBool (negb (Validator.same (JS.get tenantData "enabled") (Some (JS.JBool false)))));
     ("allowedModels",
      Registry.or_else (JS.get tenantData "allowedModels") (JS.JArr [JS.JStr "claude-3-haiku"]));
     ("limits", Registry.or_else (JS.get tenantData "limits") Registry.getDefaultLimits);
     ("description", Registry.or_else (JS.get tenantData "description") (JS.JStr EmptyString));
     ("metadata", Registry.or_else (JS.get tenantData "metadata") (JS.JObj []));
     ("createdAt", JS.JStr (now 2%nat));
     ("updatedAt", JS.JStr (now 3%nat))] = created).
  { unfold created, fields. by rewrite Hname. }
  rewrite Hcreated.
  destruct (Validator.validateTenant created "tenant") as [[]|e1] eqn:Hv.
  2:{ cbn [fst snd mbind outcome_bind]. split; [done|]. intros e _. by left. }
  cbn [fst snd].
  assert (Hgi : JS.get created "id" = Some id) by done.
  assert (Hgk : JS.get created "key" = Some key) by done.
  destruct (save (tenants ++ [created])) eqn:Hsave; cbn [mbind outcome_bind].
  2:{ split; [done|]. intros e [= <-]. right. split; [done|]. by left. }
  destruct (tenant_shape id (default JS.JNull (JS.get tenantData "name")) key
              (JS.JBool (negb (Validator.same (JS.get tenantData "enabled") (Some (JS.JBool false)))))
              (Registry.or_else (JS.get tenantData "allowedModels") (JS.JArr [JS.JStr "claude-3-haiku"]))
              (Registry.or_else (JS.get tenantData "limits") Registry.getDefaultLimits)
              (Registry.or_else (JS.get tenantData "description") (JS.JStr EmptyString))
              (Registry.or_else (JS.get tenantData "metadata") (JS.JObj []))
              (JS.JStr (now 2%nat)) (JS.JStr (now 3%nat))
              (JS.JStr EmptyString) JS.JNull JS.JNull) as (_ & Hk & _ & He & _).
  cbv zeta in Hk, He. fold fields in Hk, He. fold created in He.
  unfold Registry.sanitizeTenant. cbv zeta. rewrite He, Hk, Htk.
  assert (Hdec : ∀ k : JS.json, (∃ s, k = JS.JStr s) ∨ ∀ s, k ≠ JS.JStr s)
    by (intros []; eauto).
  destruct (Hdec key) as [[s Hstr]|Hns].
  2:{ assert (∀ k, (∀ s, k ≠ JS.JStr s) →
              Registry.crash (match Some k with
                              | Some (JS.JStr s) =>
                                  Ok (JS.JObj (Obj.set_field "keyPreview"
                                                 (JS.JStr (Registry.keyPreview s)) fields))
                              | _ => Throw JS.TypeError
                              end) = Throw (Registry.Check (Validator.Crash JS.TypeError))) as Hc.
      { intros k Hnk. destruct k as [| | |s0| |]; try done. by destruct (Hnk s0). }
      rewrite (Hc key Hns).
      split; [done|]. intros e [= <-]. right. split; [done|]. right. done. }
  assert (Hsan : ∀ k fs, k = JS.JStr s →
            Registry.crash (match Some k with
                            | Some (JS.JStr s) =>
                                Ok (JS.JObj (Obj.set_field "keyPreview"
                                               (JS.JStr (Registry.keyPreview s)) fs))
                            | _ => Throw JS.TypeError
                            end)
            = Ok (JS.JObj (Obj.set_field "keyPreview"
                             (JS.JStr (Registry.keyPreview s)) fs)))
    by (by intros ? ? ->).
  rewrite (Hsan key fields Hstr). split; [|done].
  intros result [= <-].
  assert (Hfk : Config.getTenantByKey (tenants ++ [created]) (Some key) = Ok (Some created)).
  { unfold Config.getTenantByKey. rewrite find_by_app. unfold Config.getTenantByKey in Hkey.
    rewrite Hkey. cbn [Config.find_by]. rewrite prop_get by done. cbn [mbind outcome_bind].
    rewrite Hgk, Hstr. cbn. by rewrite bool_decide_eq_true_2. }
  split_and!; try done.
  - exists s. split_and!; [done| |done].
    f_equal.
  - intros Hrefl. unfold Config.getTenant. rewrite find_by_app.
    unfold Config.getTenant in Hid. rewrite Hid. cbn [Config.find_by].
    rewrite prop_get by done. cbn [mbind outcome_bind]. by rewrite Hgi, Hrefl.
  - intros field v t Hf. by rewrite find_by_app, Hf.
  - intros Hd. apply distinct_by_app; [done|]. rewrite Hgi.
    apply find_by_None in Hid. eapply Forall_impl; [exact Hid|]. by intros t [_ ?].
  - intros Hd. apply distinct_by_app; [done|]. rewrite Hgk.
    apply find_by_None in Hkey. eapply Forall_impl; [exact Hkey|]. by intros t [_ ?].
Qed.

Section delete_facts.
Import JS Obj Validator Config Registry.

Lemma find_index_spec (v : option json) (ts : list json) (t : json) (index : nat) :
  find_by "id" v ts = Ok (Some t) →
  ∃ i, find_index v ts index = Ok (Some ((index + i)%nat, t))
       ∧ ts !! i = Some t ∧ t ≠ JNull ∧ same (get t "id") v = true
       ∧ ∀ j a, (j < i)%nat → ts !! j = Some a → a ≠ JNull ∧ same (get a "id") v = false.
Proof.
  revert index. induction ts as [|t0 ts IH]; intros index; [done|]. cbn [find_by find_index].
  assert (t0 = JNull ∨ t0 ≠ JNull) as [->|Hn] by (destruct t0; auto); [done|].
  rewrite prop_get by done. cbn [mbind outcome_bind].
  destruct (same (get t0 "id") v) eqn:Hs.
  - intros [= <-]. exists 0%nat. rewrite Nat.add_0_r. split_and!; try done. intros j a Hj. lia.
  - intros Hf. destruct (IH (S index) Hf) as (i & Hi & Hl & Hnn & Hsame & Hbefore).
    exists (S i). replace (index + S i)%nat with (S index + i)%nat by lia.
    split_and!; try done. intros [|j] a Hj Ha.
    + cbn in Ha. by injection Ha as <-.
    + apply (Hbefore j); [lia|done].
Qed.

Lemma find_by_delete (field : string) (v : option json) (ts : list json) (i : nat) (d : json) :
  ts !! i = Some d → d ≠ JNull → same (get d field) v = false →
  find_by field v (delete i ts) = find_by field v ts.
Proof.
  revert i. induction ts as [|t0 ts IH]; intros [|i] Hi Hn Hs; try done.
  - cbn in Hi. injection Hi as ->. cbn [delete list_delete find_by].
    rewrite prop_get by done. cbn [mbind outcome_bind]. by rewrite Hs.
  - cbn in Hi. cbn [delete list_delete find_by].
    destruct (prop (Some t0) field) as [x|]; cbn [mbind outcome_bind]; [|done].
    destruct (same x v); [done|]. by apply IH.
Qed.

Lemma same_common (a b v : option json) :
  same a v = true → same b v = true → same a b = true.
Proof.
  destruct a as [[| |x| | |]|], v as [[| |z| | |]|]; try done;
    destruct b as [[| |y| | |]|]; try done; cbn.
  - rewrite !bool_decide_eq_true. congruence.
  - rewrite !Qeq_bool_iff. intros H1 H2. by rewrite H1, H2.
  - rewrite !bool_decide_eq_true. congruence.
Qed.

Lemma not_found_after_delete (v : option json) (ts : list json) (i : nat) (d : json) :
  ts !! i = Some d → same (get d "id") v = true →
  (∀ j a, (j < i)%nat → ts !! j = Some a → a ≠ JNull ∧ same (get a "id") v = false) →
  distinct_by "id" ts →
  ∀ t, find_by "id" v (delete i ts) ≠ Ok (Some t).
Proof.
  intros Hi Hs Hbefore Hd t (k & Hk & Hsk & _)%find_by_Some.
  destruct (decide (k < i)%nat) as [Hlt|Hge].
  - rewrite list_lookup_delete_lt in Hk by done.
    destruct (Hbefore k t Hlt Hk) as [_ ?]. congruence.
  - rewrite list_lookup_delete_ge in Hk by lia.
    pose proof (Hd i (S k) d t ltac:(lia) Hi Hk) as Hne.
    rewrite (same_common _ _ _ Hs Hsk) in Hne. done.
Qed.

End delete_facts.

(** X25. When [deleteTenant] succeeds, the first tenant with the given id, which
    is not [default], has been removed from the tenants in memory and the
    rest was saved; when ids were distinct the id is no longer found;
    lookups for values the removed tenant does not have are unchanged, and
    distinct ids and keys remain distinct. When it throws, the tenants are
    unchanged or, when saving failed or the key of the tenant is not a
    string, the tenant is removed from memory all the same. The tenant
    [default] is never removed. *)
Theorem X25_delete_tenant {rt : JS.Runtime} (save : list JS.json → bool)
    (tenantId : option JS.json) (tenants : list JS.json) :
  let call := Registry.deleteTenant save tenantId tenants in
  (∀ result, call.1 = Ok result →
     ∃ i deleted,
       tenants !! i = Some deleted
       ∧ Config.getTenant tenants tenantId = Ok (Some deleted)
       ∧ JS.is_str (JS.get deleted "id") "default" = false
       ∧ call.2 = delete i tenants
       ∧ save (delete i tenants) = true
       ∧ (Registry.distinct_by "id" tenants →
          ∀ t, Config.getTenant (delete i tenants) tenantId ≠ Ok (Some t))
       ∧ (∀ field v, Validator.same (JS.get deleted field) v = false →
            Config.find_by field v (delete i tenants) = Config.find_by field v tenants)
       ∧ (∀ field, Registry.distinct_by field tenants →
            Registry.distinct_by field (delete i tenants)))
  ∧ (∀ e, call.1 = Throw e →
       call.2 = tenants
       ∨ ∃ i, call.2 = delete i tenants ∧ (i < length tenants)%nat
              ∧ (e = Registry.Save ∧ save (delete i tenants) = false
                 ∨ e = Registry.Check (Validator.Crash JS.TypeError)))
  ∧ (JS.is_str tenantId "default" = true → call.2 = tenants ∧ ∃ e, call.1 = Throw e).
Proof.
  intros call. subst call. unfold Registry.deleteTenant.
  destruct (Config.getTenant tenants tenantId) as [[found|]|e0] eqn:Hget.
  3:{ cbn [fst snd]. split_and!; [done|by left|by eauto]. }
  2:{ cbn [JS.truthy negb fst snd]. split_and!; [done|by left|by eauto]. }
  destruct (find_index_spec tenantId tenants found 0 Hget) as (i & Hfi & Hi & Hnn & Hs & Hbefore).
  destruct (JS.truthy (Some found)) eqn:Htf; cbn [negb].
  2:{ cbn [fst snd]. split_and!; [done|by left|by eauto]. }
  assert (JS.opt_prop (Some found) "id" = JS.get found "id") as -> by by destruct found.
  destruct (JS.is_str (JS.get found "id") "default") eqn:Hdef.
  { cbn [fst snd]. split_and!; [done|by left|by eauto]. }
  unfold Registry.removeTenant. rewrite Hfi. cbn [Nat.add]. cbv zeta.
  split_and!.
  - destruct (save (delete i tenants)) eqn:Hsave; cbn [fst snd mbind outcome_bind]; [|done].
    intros result Hres. exists i, found. split_and!; try done.
    + intros Hd. by apply (not_found_after_delete tenantId tenants i found).
    + intros field v Hv. by apply (find_by_delete field v tenants i found).
    + intros field Hd. by apply distinct_by_delete.
  - intros e He. right. exists i. split; [done|]. split; [by eapply lookup_lt_Some|].
    destruct (save (delete i tenants)) eqn:Hsave; cbn [fst snd mbind outcome_bind] in He.
    + right. destruct (Registry.sanitizeTenant found) as [x|e1] eqn:Hsan; [done|].
      cbn [Registry.crash] in He. injection He as <-. do 2 f_equal.
      revert Hsan. unfold Registry.sanitizeTenant. cbv zeta.
      destruct (JS.assoc "key" _) as [[]|]; cbn [JS.truthy]; repeat case_match; congruence.
    + left. split; [congruence|done].
  - intros Hdt. exfalso.
    assert (JS.get found "id" = Some (JS.JStr "default")) as Hid.
    { destruct tenantId as [[| | |s| |]|]; try done. cbn in Hdt.
      apply bool_decide_eq_true_1 in Hdt. subst s. by apply same_str in Hs. }
    rewrite Hid in Hdef. cbn in Hdef. by rewrite bool_decide_eq_true_2 in Hdef.
Qed.

Section entries_facts.
Import JS Obj Validator.

Lemma insert_index_elem (e x : N * string) (l : list (N * string)) :
  x ∈ insert_index e l ↔ x = e ∨ x ∈ l.
Proof.
  induction l as [|y l IH]; cbn [insert_index].
  - rewrite list_elem_of_singleton. split; [auto|]. intros [?|H]; [done|]. by apply elem_of_nil in H.
  - destruct (e.1 <? y.1)%N.
    + by rewrite elem_of_cons.
    + rewrite !elem_of_cons, IH. tauto.
Qed.

Lemma sorted_elem (x : N * string) (l : list (N * string)) :
  x ∈ foldr insert_index [] l ↔ x ∈ l.
Proof.
  induction l as [|y l IH]; [done|]. cbn [foldr].
  by rewrite insert_index_elem, elem_of_cons, IH.
Qed.

Lemma own_keys_elem (k : string) (fields : list (string * json)) :
  k ∈ own_keys fields ↔ k ∈ fields.*1.
Proof.
  unfold own_keys. cbv zeta. rewrite elem_of_app, list_elem_of_fmap. split.
  - intros [((n & k') & -> & Hin)|Hin].
    + apply sorted_elem, list_elem_of_omap in Hin as (k0 & Hk0 & Heq).
      destruct (array_index k0); [|done]. cbn in Heq. by injection Heq as _ <-.
    + apply list_elem_of_In, filter_In in Hin as [Hin _]. by apply list_elem_of_In.
  - intros Hin. destruct (array_index k) as [n|] eqn:Hk.
    + left. exists (n, k). split; [done|]. apply sorted_elem, list_elem_of_omap.
      exists k. split; [done|]. by rewrite Hk.
    + right. apply list_elem_of_In, filter_In. split; [by apply list_elem_of_In|].
      by rewrite Hk.
Qed.

Lemma assoc_keys (k : string) (fields : list (string * json)) (keys : list string) :
  assoc k ((λ k', (k', default JNull (assoc k' fields))) <$> keys)
  = if bool_decide (k ∈ keys) then Some (default JNull (assoc k fields)) else None.
Proof.
  induction keys as [|k0 keys IH]; cbn [fmap list_fmap assoc].
  - by rewrite bool_decide_eq_false_2 by apply not_elem_of_nil.
  - destruct (bool_decide (k0 = k)) eqn:Hk.
    + apply bool_decide_eq_true_1 in Hk. subst k0.
      by rewrite bool_decide_eq_true_2 by (apply elem_of_cons; auto).
    + apply bool_decide_eq_false_1 in Hk. rewrite IH.
      destruct (bool_decide (k ∈ keys)) eqn:Hin.
      * apply bool_decide_eq_true_1 in Hin.
        by rewrite bool_decide_eq_true_2 by (apply elem_of_cons; auto).
      * apply bool_decide_eq_false_1 in Hin. rewrite bool_decide_eq_false_2; [done|].
        intros [?|?]%elem_of_cons; congruence.
Qed.

Lemma assoc_None (k : string) (fields : list (string * json)) :
  assoc k fields = None ↔ k ∉ fields.*1.
Proof.
  induction fields as [|[k0 v] fields IH]; cbn [assoc fmap list_fmap fst].
  - split; [intros _; apply not_elem_of_nil|done].
  - rewrite not_elem_of_cons. destruct (bool_decide (k0 = k)) eqn:Hk.
    + apply bool_decide_eq_true_1 in Hk. split; [done|]. intros [? _]. congruence.
    + apply bool_decide_eq_false_1 in Hk. rewrite IH. split; [|tauto].
      intros ?. split; [congruence|done].
Qed.

Lemma get_entries (k : string) (fields : list (string * json)) :
  assoc k (entries (JObj fields)) = assoc k fields.
Proof.
  cbn [entries]. rewrite assoc_keys.
  destruct (assoc k fields) as [v|] eqn:Hv.
  - rewrite bool_decide_eq_true_2; [done|]. apply own_keys_elem.
    destruct (decide (k ∈ fields.*1)) as [|Hn]; [done|]. apply assoc_None in Hn. congruence.
  - rewrite bool_decide_eq_false_2; [done|]. rewrite own_keys_elem. by apply assoc_None.
Qed.

Lemma get_sanitized (fields : list (string * json)) (sanitized : json) (k : string) :
  Registry.sanitizeTenant (JObj fields) = Ok sanitized → k ≠ "keyPreview" →
  get sanitized k = assoc k fields.
Proof.
  unfold Registry.sanitizeTenant. cbv zeta. intros H Hk.
  destruct (truthy _).
  - destruct (assoc "key" _) as [[| | |s| |]|]; try done. injection H as <-.
    cbn [get]. rewrite get_set_field_other by done. apply get_entries.
  - injection H as <-. cbn [get]. apply get_entries.
Qed.

End entries_facts.

(** X26. The usage query answers with the status 200 only to a body that
    parses and either has the type [admin], the administration being
    enabled and the user name and the password being the configured ones,
    or has the type [tenant] and an [apiKey] that is the key of a
    configured tenant. A tenant is answered whether it is enabled or not,
    with its limit status and, of the tenant, its id and name only. When
    the configuration gives neither a user name nor a password, an [admin]
    query that gives neither is answered with the data of all tenants. *)
Theorem X26_usage_query {rt : JS.Runtime} (adminConfig : option JS.json)
    (tenants : list JS.json) (getCurrentLimitStatus : option JS.json → option JS.json)
    (getSystemLimits getSystemStats getUpstreams : option JS.json) (body : string) :
  let reply := UsageRoutes.handleUsageQuery adminConfig tenants getCurrentLimitStatus
                 getSystemLimits getSystemStats getUpstreams body in
  let adminData usage system upstreams :=
    JS.JObj [("success", JS.JBool true); ("type", JS.JStr "admin");
             ("data", JS.JObj [("usage", usage); ("system", system);
                               ("upstreams", upstreams)])] in
  let tenantData usage (tenant : JS.json) :=
    JS.JObj [("success", JS.JBool true); ("type", JS.JStr "tenant");
             ("data",
              JS.JObj [("usage", usage);
                       ("tenant",
                        JS.JObj (UsageRoutes.field "id" (JS.get tenant "id")
                                 ++ UsageRoutes.field "name" (JS.get tenant "name")))])] in
  (UsageRoutes.statusCode reply = 200 →
   ∃ queryData,
     JS.JSON_parse body = Some queryData
     ∧ ((JS.is_str (JS.get queryData "type") "admin" = true
         ∧ ∃ config usage system upstreams,
             adminConfig = Some config
             ∧ JS.truthy (JS.get config "enabled") = true
             ∧ Validator.same (JS.get queryData "username") (JS.get config "username") = true
             ∧ Validator.same (JS.get queryData "password") (JS.get config "password") = true
             ∧ getSystemLimits = Some usage ∧ getSystemStats = Some system
             ∧ getUpstreams = Some upstreams
             ∧ UsageRoutes.data reply = adminData usage system upstreams)
        ∨ (JS.is_str (JS.get queryData "type") "tenant" = true
           ∧ ∃ tenant sanitized usage,
               Config.getTenantByKey tenants (JS.get queryData "apiKey") = Ok (Some tenant)
               ∧ Registry.sanitizeTenant tenant = Ok sanitized
               ∧ getCurrentLimitStatus (JS.get sanitized "id") = Some usage
               ∧ UsageRoutes.data reply = tenantData usage sanitized)))
  ∧ (∀ queryData tenant sanitized usage,
       JS.JSON_parse body = Some queryData →
       JS.is_str (JS.get queryData "type") "tenant" = true →
       Config.getTenantByKey tenants (JS.get queryData "apiKey") = Ok (Some tenant) →
       JS.truthy (Some tenant) = true →
       Registry.sanitizeTenant tenant = Ok sanitized →
       getCurrentLimitStatus (JS.get sanitized "id") = Some usage →
       reply = UsageRoutes.mkReply 200 (tenantData usage sanitized))
  ∧ (∀ queryData config usage system upstreams,
       JS.JSON_parse body = Some queryData →
       JS.is_str (JS.get queryData "type") "admin" = true →
       adminConfig = Some config →
       JS.truthy (JS.get config "enabled") = true →
       JS.get config "username" = None → JS.get config "password" = None →
       JS.get queryData "username" = None → JS.get queryData "password" = None →
       getSystemLimits = Some usage → getSystemStats = Some system →
       getUpstreams = Some upstreams →
       reply = UsageRoutes.mkReply 200 (adminData usage system upstreams))
  ∧ (∀ fields sanitized key,
       Registry.sanitizeTenant (JS.JObj fields) = Ok sanitized → key ≠ "keyPreview" →
       JS.get sanitized key = JS.get (JS.JObj fields) key).
Proof.
  intros reply adminData tenantData. subst reply. unfold UsageRoutes.handleUsageQuery. cbv zeta.
  split_and!.
  - destruct (JS.JSON_parse body) as [queryData|] eqn:Hp; [|by cbn].
    assert (queryData = JS.JNull ∨ queryData ≠ JS.JNull) as [->|Hn]
      by (destruct queryData; auto); [by cbn|].
    rewrite prop_get by done.
    destruct (JS.is_str (JS.get queryData "type") "admin") eqn:Ha.
    + intros H. exists queryData. split; [done|]. left. split; [done|].
      revert H. unfold UsageRoutes.adminQuery.
      destruct adminConfig as [config|]; [|by cbn].
      assert (config = JS.JNull ∨ config ≠ JS.JNull) as [->|Hc]
        by (destruct config; auto); [by cbn|].
      rewrite prop_get by done.
      assert (JS.opt_prop (Some config) "username" = JS.get config "username") as ->
        by by destruct config.
      assert (JS.opt_prop (Some config) "password" = JS.get config "password") as ->
        by by destruct config.
      destruct (JS.truthy (JS.get config "enabled")) eqn:He; cbn [negb]; [|by cbn].
      destruct (Validator.same (JS.get queryData "username") _) eqn:Hu; [|by cbn].
      destruct (Validator.same (JS.get queryData "password") _) eqn:Hw; [|by cbn].
      cbn [andb]. destruct getSystemLimits as [a|]; [|by cbn].
      destruct getSystemStats as [b|]; [|by cbn]. destruct getUpstreams as [c|]; [|by cbn].
      intros _. exists config, a, b, c. by split_and!.
    + destruct (JS.is_str (JS.get queryData "type") "tenant") eqn:Ht; [|by cbn].
      intros H. exists queryData. split; [done|]. right. split; [done|].
      revert H. unfold UsageRoutes.tenantQuery, UsageRoutes.getTenantByKey.
      destruct (Config.getTenantByKey tenants _) as [[tenant|]|] eqn:Hk; try by cbn.
      destruct (JS.truthy (Some tenant)); [|by cbn]. cbn [default]. unfold id.
      destruct (Registry.sanitizeTenant tenant) as [sanitized|] eqn:Hs; [|by cbn].
      cbn [mbind option_bind].
      destruct (getCurrentLimitStatus _) as [usage|] eqn:Hl; [|by cbn].
      intros _. exists tenant, sanitized, usage. by split_and!.
  - intros queryData tenant sanitized usage Hp Ht Hk Htr Hs Hl. rewrite Hp.
    assert (queryData ≠ JS.JNull) as Hn by (by intros ->).
    rewrite prop_get by done.
    assert (JS.is_str (JS.get queryData "type") "admin" = false) as ->.
    { destruct (JS.get queryData "type") as [[| | |s| |]|]; try done. cbn in *.
      apply bool_decide_eq_true_1 in Ht. by subst s. }
    rewrite Ht. unfold UsageRoutes.tenantQuery, UsageRoutes.getTenantByKey.
    rewrite Hk, Htr. cbn [default]. unfold id. rewrite Hs. cbn [mbind option_bind].
    by rewrite Hl.
  - intros queryData config usage system upstreams Hp Ha -> He Hu Hpw Hqu Hqp -> -> ->.
    rewrite Hp. assert (queryData ≠ JS.JNull) as Hn by (by intros ->).
    rewrite prop_get, Ha by done. unfold UsageRoutes.adminQuery.
    assert (config ≠ JS.JNull) as Hc by (by intros ->).
    rewrite prop_get, He by done.
    assert (JS.opt_prop (Some config) "username" = JS.get config "username") as ->
      by by destruct config.
    assert (JS.opt_prop (Some config) "password" = JS.get config "password") as ->
      by by destruct config.
    by rewrite Hu, Hpw, Hqu, Hqp.
  - intros fields sanitized key Hs Hk. by apply get_sanitized.
Qed.

Section update_facts.
Import JS Obj Validator Config Registry.

Lemma assoc_set_field_same (fields : list (string * json)) (k : string) (v : json) :
  assoc k (set_field k v fields) = Some v.
Proof.
  induction fields as [|[k0 x] fields IH]; cbn [set_field assoc].
  - by rewrite bool_decide_eq_true_2.
  - destruct (bool_decide (k0 = k)) eqn:Hk; cbn [assoc]; rewrite Hk; done.
Qed.

Lemma entries_functional (fields : list (string * json)) (k : string) (v : json) :
  (k, v) ∈ entries (JObj fields) → assoc k (entries (JObj fields)) = Some v.
Proof.
  intros Hin. rewrite get_entries. cbn [entries] in Hin.
  apply list_elem_of_fmap in Hin as (k' & [= <- ->] & Hk).
  apply own_keys_elem in Hk.
  destruct (assoc k fields) as [w|] eqn:Hw; [done|].
  apply assoc_None in Hw. done.
Qed.

Lemma assoc_app {A} (k : string) (l1 l2 : list (string * A)) :
  assoc k (l1 ++ l2) = match assoc k l1 with Some v => Some v | None => assoc k l2 end.
Proof.
  induction l1 as [|[k0 v0] l1 IH]; [done|]. cbn [app assoc].
  by destruct (bool_decide (k0 = k)).
Qed.

Lemma assoc_elem_Some (k : string) (v : json) (l : list (string * json)) :
  (k, v) ∈ l → is_Some (assoc k l).
Proof.
  intros Hin. destruct (assoc k l) eqn:Ha; [done|].
  apply assoc_None in Ha. destruct Ha. apply list_elem_of_fmap. by exists (k, v).
Qed.

Lemma foldl_set_assoc (l acc : list (string * json)) (k : string) :
  (∀ k v, (k, v) ∈ l → assoc k l = Some v) →
  assoc k (foldl (λ fields kv, set_field kv.1 kv.2 fields) acc l)
  = match assoc k l with
    | Some v => Some v
    | None => assoc k acc
    end.
Proof.
  induction l as [|[k0 v0] l IH] using rev_ind; intros Hf; [done|].
  rewrite foldl_app. cbn [foldl fst snd].
  assert (Hf' : ∀ k v, (k, v) ∈ l → assoc k l = Some v).
  { intros k1 v1 Hin. pose proof (Hf k1 v1 ltac:(apply elem_of_app; auto)) as H1.
    rewrite assoc_app in H1. destruct (assoc_elem_Some k1 v1 l Hin) as [w Hw].
    rewrite Hw in H1. by rewrite Hw. }
  destruct (decide (k = k0)) as [->|Hne].
  - rewrite assoc_set_field_same.
    rewrite (Hf k0 v0); [done|]. apply elem_of_app. right. by apply list_elem_of_singleton.
  - rewrite get_set_field_other by done. rewrite IH by done. rewrite assoc_app.
    destruct (assoc k l); [done|]. cbn [assoc]. by rewrite bool_decide_eq_false_2.
Qed.

Lemma get_spread (tfields ufields : list (string * json)) (k : string) :
  assoc k (spread (JObj tfields) (JObj ufields))
  = match assoc k ufields with
    | Some v => Some v
    | None => assoc k tfields
    end.
Proof.
  unfold spread. rewrite foldl_set_assoc by apply entries_functional.
  by rewrite !get_entries.
Qed.

Lemma same_sym (a b : option json) : same a b = same b a.
Proof.
  destruct a as [[| |x| | |]|], b as [[| |y| | |]|]; try done; cbn.
  - apply bool_decide_ext. split; congruence.
  - apply eq_true_iff_eq. rewrite !Qeq_bool_iff. split; intros H; by rewrite H.
  - apply bool_decide_ext. split; congruence.
Qed.

Lemma same_Some_obj (t : json) (field : string) (v : json) :
  same (get t field) (Some v) = true → ∃ fields, t = JObj fields.
Proof. destruct t; try done; eauto. Qed.

Lemma find_index_Some (v : option json) (ts : list json) (index j : nat) (t : json) :
  find_index v ts index = Ok (Some (j, t)) →
  ∃ i, j = (index + i)%nat ∧ ts !! i = Some t ∧ t ≠ JNull ∧ same (get t "id") v = true
       ∧ find_by "id" v ts = Ok (Some t).
Proof.
  revert index. induction ts as [|t0 ts IH]; intros index; [done|]. cbn [find_by find_index].
  assert (t0 = JNull ∨ t0 ≠ JNull) as [->|Hn] by (destruct t0; auto); [done|].
  rewrite prop_get by done. cbn [mbind outcome_bind].
  destruct (same (get t0 "id") v) eqn:Hs.
  - intros [= <- <-]. exists 0%nat. by rewrite Nat.add_0_r.
  - intros Hf. destruct (IH (S index) Hf) as (i & -> & Hl & Hnn & Hsame & Hfb).
    exists (S i). split_and!; try done. lia.
Qed.

Lemma distinct_by_insert (field : string) (ts : list json) (i : nat) (new : json) :
  distinct_by field ts →
  (∀ j other, j ≠ i → ts !! j = Some other →
     same (get other field) (get new field) = false) →
  distinct_by field (<[i := new]> ts).
Proof.
  intros Hd Hnew a b x y Hab Hx Hy.
  destruct (decide (a = i)) as [->|Ha]; destruct (decide (b = i)) as [->|Hb]; try lia.
  - rewrite list_lookup_insert_ne in Hy by done.
    apply list_lookup_insert_Some in Hx as [(_ & <- & _)|[? _]]; [|done].
    rewrite same_sym. by apply (Hnew b).
  - rewrite list_lookup_insert_ne in Hx by done.
    apply list_lookup_insert_Some in Hy as [(_ & <- & _)|[? _]]; [|done].
    by apply (Hnew a).
  - rewrite list_lookup_insert_ne in Hx, Hy by done. by apply (Hd a b).
Qed.

Lemma distinct_by_others (field : string) (ts : list json) (i j : nat) (t other : json) :
  distinct_by field ts → ts !! i = Some t → ts !! j = Some other → j ≠ i →
  same (get other field) (get t field) = false.
Proof.
  intros Hd Hi Hj Hne. destruct (decide (j < i)%nat).
  - by apply (Hd j i).
  - rewrite same_sym. apply (Hd i j); [lia|done|done].
Qed.

Lemma find_by_insert_found (field : string) (v : option json) (ts : list json) (i : nat)
    (old new : json) :
  find_by field v ts = Ok None → ts !! i = Some old → new ≠ JNull →
  same (get new field) v = true →
  find_by field v (<[i := new]> ts) = Ok (Some new).
Proof.
  revert i. induction ts as [|t0 ts IH]; intros i Hf Hi Hn Hs; [done|].
  cbn [find_by] in Hf.
  destruct (prop (Some t0) field) as [x|] eqn:Hp; cbn [mbind outcome_bind] in Hf; [|done].
  destruct (same x v) eqn:Hx; [done|].
  destruct i as [|i]; cbn [insert list_insert find_by].
  - rewrite prop_get by done. cbn [mbind outcome_bind]. by rewrite Hs.
  - rewrite Hp. cbn [mbind outcome_bind]. rewrite Hx. by apply IH.
Qed.

End update_facts.

Section replace_facts.
Import JS Obj Validator Config Registry.
Context {rt : Runtime}.
Variable save : list json → bool.
Variable now : nat → string.

Lemma replaceTenant_Ok (tenantId : json) (ufields : list (string * json))
    (tenants tenants' : list json) (updated : json) :
  replaceTenant save now (Some tenantId) (JObj ufields) tenants = (Ok updated, tenants') →
  ∃ i tfields,
    tenants !! i = Some (JObj tfields)
    ∧ find_by "id" (Some tenantId) tenants = Ok (Some (JObj tfields))
    ∧ updated = JObj (set_field "updatedAt" (JStr (now 0%nat))
                        (spread (JObj tfields) (JObj ufields)))
    ∧ tenants' = <[i := updated]> tenants
    ∧ save tenants' = true
    ∧ validateTenant updated "tenant" = Ok tt.
Proof.
  unfold replaceTenant.
  destruct (find_index (Some tenantId) tenants 0) as [[[j t]|]|] eqn:Hfi; try done.
  apply find_index_Some in Hfi as (i & -> & Hi & Hn & Hs & Hfb). cbn [Nat.add]. cbv zeta.
  destruct (same_Some_obj _ _ _ Hs) as [tfields ->].
  destruct (validateTenant _ "tenant") as [[]|] eqn:Hv; [|done].
  destruct (save _) eqn:Hsave; [|done].
  intros [= <- <-]. by exists i, tfields.
Qed.

Lemma updated_fields (tfields ufields : list (string * json)) (k : string) (v : json) :
  assoc k (set_field "updatedAt" v (spread (JObj tfields) (JObj ufields)))
  = if bool_decide (k = "updatedAt") then Some v
    else match assoc k ufields with
         | Some x => Some x
         | None => assoc k tfields
         end.
Proof.
  case_bool_decide as Hk.
  - subst k. apply assoc_set_field_same.
  - rewrite get_set_field_other by done. apply get_spread.
Qed.

End replace_facts.

(** X27. When [updateTenant] succeeds for a tenant id that is not [undefined]
    and updates that are an object, the first tenant with this id has been
    replaced in its place by a tenant that was saved, passes
    [validateTenant], has the time of the update as [updatedAt] and in
    every other field the value of the updates if they give one and the
    former value otherwise. Keys that were distinct remain distinct, and so
    do ids when the updates give no id; but an id given by the updates is
    not compared with those of the other tenants: when another tenant has
    it, two tenants have the same id afterwards. *)
Theorem X27_update_tenant {rt : JS.Runtime} (save : list JS.json → bool) (now : nat → string)
    (tenantId : JS.json) (updates : list (string * JS.json))
    (tenants tenants' : list JS.json) (result : JS.json) :
  Registry.updateTenant save now (Some tenantId) (JS.JObj updates) tenants
  = (Ok result, tenants') →
  ∃ i tenant updated,
    tenants !! i = Some tenant
    ∧ Config.getTenant tenants (Some tenantId) = Ok (Some tenant)
    ∧ tenants' = <[i := updated]> tenants
    ∧ save tenants' = true
    ∧ Validator.validateTenant updated "tenant" = Ok tt
    ∧ JS.get updated "updatedAt" = Some (JS.JStr (now 0%nat))
    ∧ (∀ k, k ≠ "updatedAt" →
         JS.get updated k = match JS.assoc k updates with
                            | Some v => Some v
                            | None => JS.get tenant k
                            end)
    ∧ (Registry.distinct_by "key" tenants → Registry.distinct_by "key" tenants')
    ∧ (JS.assoc "id" updates = None →
       Registry.distinct_by "id" tenants → Registry.distinct_by "id" tenants')
    ∧ (∀ j other id, j ≠ i → tenants !! j = Some other →
         JS.assoc "id" updates = Some id →
         Validator.same (JS.get other "id") (Some id) = true →
         ¬ Registry.distinct_by "id" tenants').
Proof.
  unfold Registry.updateTenant.
  destruct (Registry.update_checks (Some tenantId) (JS.JObj updates) tenants) as [[]|] eqn:Hc;
    [|done].
  destruct (Registry.replaceTenant save now (Some tenantId) (JS.JObj updates) tenants)
    as [[updated|] ts] eqn:Hr; [|done].
  intros [= Hsan <-].
  apply replaceTenant_Ok in Hr as (i & tfields & Hi & Hfb & Hu & -> & Hsave & Hv).
  exists i, (JS.JObj tfields), updated.
  assert (Hget : ∀ k, JS.get updated k
                      = if bool_decide (k = "updatedAt") then Some (JS.JStr (now 0%nat))
                        else match JS.assoc k updates with
                             | Some x => Some x
                             | None => JS.assoc k tfields
                             end).
  { intros k. rewrite Hu. cbn [JS.get]. apply updated_fields. }
  assert (Hlt : (i < length tenants)%nat) by by eapply lookup_lt_Some.
  split_and!; try done.
  - intros k Hk. rewrite Hget. by rewrite bool_decide_eq_false_2.
  - intros Hd. apply distinct_by_insert; [done|]. intros j other Hj Hother.
    rewrite Hget. rewrite bool_decide_eq_false_2 by done.
    pose proof (distinct_by_others "key" tenants i j _ other Hd Hi Hother Hj) as Hold.
    cbn [JS.get] in Hold.
    destruct (JS.assoc "key" updates) as [key|] eqn:Hk; [|done].
    revert Hc. unfold Registry.update_checks. unfold Config.getTenant. rewrite Hfb.
    cbn [Registry.crash mbind outcome_bind JS.truthy negb JS.prop JS.get JS.opt_prop].
    rewrite Hk.
    destruct (JS.truthy (Some key)) eqn:Htk.
    2:{ (* a key that is not truthy does not pass the validation *)
        exfalso. revert Hv. unfold Validator.validateTenant.
        rewrite Hu. cbn [JS.prop Validator.lift mbind outcome_bind JS.get].
        rewrite !updated_fields. rewrite !bool_decide_eq_false_2 by done. rewrite Hk, Htk.
        by repeat case_match. }
    destruct (Validator.same (Some key) (JS.assoc "key" tfields)) eqn:Hsame; cbn [negb andb].
    + intros _. destruct (Validator.same (JS.get other "key") (Some key)) eqn:Ho; [|done].
      rewrite same_sym in Hsame.
      by rewrite (same_common _ _ _ Ho Hsame) in Hold.
    + destruct (Config.getTenantByKey tenants (Some key)) as [[found|]|] eqn:Hf;
        cbn [Registry.crash mbind outcome_bind]; try done.
      * rewrite (found_truthy _ _ _ _ Hf). done.
      * intros _. apply find_by_None in Hf. rewrite Forall_forall in Hf.
        apply (Hf other). by eapply list_elem_of_lookup_2.
  - intros Hid Hd. apply distinct_by_insert; [done|]. intros j other Hj Hother.
    rewrite Hget. rewrite bool_decide_eq_false_2 by done. rewrite Hid.
    apply (distinct_by_others "id" tenants i j _ other Hd Hi Hother Hj).
  - intros j other id Hj Hother Hid Hs Hd.
    assert (Hj' : (<[i := updated]> tenants) !! j = Some other)
      by by rewrite list_lookup_insert_ne.
    assert (Hi' : (<[i := updated]> tenants) !! i = Some updated)
      by by apply list_lookup_insert_eq.
    pose proof (distinct_by_others "id" _ i j updated other Hd Hi' Hj' Hj) as Hne.
    rewrite Hget in Hne. rewrite bool_decide_eq_false_2 in Hne by done.
    rewrite Hid in Hne. congruence.
Qed.

(** X28. When [regenerateApiKey] succeeds for a tenant id that is not
    [undefined], the first tenant with this id has been replaced in its
    place by a tenant that was saved and differs from it in the key, which
    is the generated one and is valid when 32 random bytes were drawn, and
    in [updatedAt] only. If no tenant had the generated key, the tenant is
    found by its new key, and when keys were distinct they remain so and
    the former key of the tenant no longer finds any tenant. *)
Theorem X28_regenerate_key {rt : JS.Runtime} (save : list JS.json → bool) (now : nat → string)
    (random32 : list Byte.byte) (tenantId : JS.json)
    (tenants tenants' : list JS.json) (result : JS.json) :
  Registry.regenerateApiKey save now random32 (Some tenantId) tenants = (Ok result, tenants') →
  let newKey := Some (JS.JStr (Keys.generateApiKey random32)) in
  ∃ i tenant updated,
    tenants !! i = Some tenant
    ∧ Config.getTenant tenants (Some tenantId) = Ok (Some tenant)
    ∧ tenants' = <[i := updated]> tenants
    ∧ save tenants' = true
    ∧ JS.get updated "key" = newKey
    ∧ (∀ k, k ≠ "key" → k ≠ "updatedAt" → JS.get updated k = JS.get tenant k)
    ∧ (length random32 = 32%nat → Keys.isValidApiKey (JS.get updated "key") = true)
    ∧ (Config.getTenantByKey tenants newKey = Ok None →
       Config.getTenantByKey tenants' newKey = Ok (Some updated)
       ∧ (Registry.distinct_by "key" tenants →
          Registry.distinct_by "key" tenants'
          ∧ ∀ t, Config.getTenantByKey tenants' (JS.get tenant "key") ≠ Ok (Some t))).
Proof.
  unfold Registry.regenerateApiKey.
  destruct (Config.getTenant tenants (Some tenantId)) as [found|] eqn:Hg; [|done].
  destruct (JS.truthy found); cbn [negb]; [|done]. cbv zeta.
  destruct (Registry.replaceTenant save now (Some tenantId) _ tenants)
    as [[updated|] ts] eqn:Hr; [|done].
  intros [= Hsan <-].
  apply replaceTenant_Ok in Hr as (i & tfields & Hi & Hfb & Hu & -> & Hsave & Hv).
  assert (found = Some (JS.JObj tfields)) as ->
    by (unfold Config.getTenant in Hg; congruence).
  exists i, (JS.JObj tfields), updated.
  assert (Hget : ∀ k, JS.get updated k
                      = if bool_decide (k = "updatedAt") then Some (JS.JStr (now 0%nat))
                        else match JS.assoc k [("key", JS.JStr (Keys.generateApiKey random32))] with
                             | Some x => Some x
                             | None => JS.assoc k tfields
                             end).
  { intros k. rewrite Hu. cbn [JS.get]. apply updated_fields. }
  assert (Hkey : JS.get updated "key" = Some (JS.JStr (Keys.generateApiKey random32))).
  { rewrite Hget. rewrite bool_decide_eq_false_2 by done. cbn [JS.assoc].
    by rewrite bool_decide_eq_true_2. }
  assert (Hupd : updated ≠ JS.JNull) by (by rewrite Hu).
  split_and!; try done.
  - intros k Hk1 Hk2. rewrite Hget. rewrite bool_decide_eq_false_2 by done.
    cbn [JS.assoc]. by rewrite bool_decide_eq_false_2.
  - intros Hlen. rewrite Hkey. by apply generated_key_valid.
  - intros Hnone.
    assert (Hothers : ∀ j other, tenants !! j = Some other →
              Validator.same (JS.get other "key") (JS.get updated "key") = false).
    { intros j other Hj. apply find_by_None in Hnone. rewrite Forall_forall in Hnone.
      rewrite Hkey. apply (Hnone other). by eapply list_elem_of_lookup_2. }
    split.
    + apply (find_by_insert_found "key" _ tenants i (JS.JObj tfields)); try done.
      rewrite Hkey. cbn. by rewrite bool_decide_eq_true_2.
    + intros Hd. split.
      * apply distinct_by_insert; [done|]. intros j other _ Hj. by apply (Hothers j).
      * intros t (k & Hk & Hs & _)%find_by_Some.
        destruct (decide (k = i)) as [->|Hne].
        -- rewrite list_lookup_insert_eq in Hk by by eapply lookup_lt_Some.
           injection Hk as <-. rewrite same_sym in Hs.
           by rewrite (Hothers i _ Hi) in Hs.
        -- rewrite list_lookup_insert_ne in Hk by done.
           by rewrite (distinct_by_others "key" tenants i k _ t Hd Hi Hk Hne) in Hs.
Qed.

Section samples_facts.
Import JS.
#[local] Existing Instance Samples.runtime.

Lemma not_elem_check (c : ascii) (s : list ascii) :
  forallb (λ x, negb (bool_decide (x = c))) s = true → c ∉ s.
Proof.
  intros H Hin. apply list_elem_of_In in Hin.
  rewrite forallb_forall in H. specialize (H c Hin).
  by rewrite bool_decide_eq_true_2 in H.
Qed.

Lemma last_check (s : list ascii) :
  match rev s with c :: _ => negb (Str.is_space c) | [] => false end = true →
  ∃ l c, s = l ++ [c] ∧ Str.is_space c = false.
Proof.
  destruct s as [|c l _] using rev_ind; [done|].
  rewrite rev_app_distr. cbn. intros H. exists l, c. split; [done|]. by destruct (Str.is_space c).
Qed.

Lemma tidy_check (s : list ascii) :
  forallb (λ x, negb (bool_decide (x = Sse.newline))) s = true →
  match rev s with c :: _ => negb (Str.is_space c) | [] => false end = true →
  Sse.tidy s.
Proof. intros H1 H2. split; [by apply not_elem_check|by apply last_check]. Qed.

Lemma X6_witness :
  Extract.extractTokenUsage (Sse.body Samples.events)
  = match Sse.last_usage Samples.events with
    | Some usage => if Sse.any_positive usage then Some usage else None
    | None => None
    end.
Proof.
  apply (X6_sse_last_usage Samples.events).
  - repeat apply Forall_cons_2; [| |apply Forall_nil_2];
      (split; apply tidy_check; vm_compute; reflexivity).
  - vm_compute. reflexivity.
Defined.

Lemma X8_witness :
  ∃ status usd check,
    Reports.getCurrentLimitStatus [Demo.tenant] Demo.parseLine (Usage.Content Demo.line50)
      "team-a" = Ok status
    ∧ Reports.ls_usd status = Some usd
    ∧ Reports.used usd = Num.of_Z 50
    ∧ Reports.limit usd = Num.of_Z 10
    ∧ Reports.usdExceeded usd = true
    ∧ Usage.checkLimitsExceeded [Demo.tenant] Demo.pricing Demo.parseLine
        (Usage.Content Demo.line50) "team-a" "claude-3-5-haiku-20241022" Demo.oneEach
      = Ok check
    ∧ Usage.exceeded check = true.
Proof.
  edestruct (X8_status_and_guard [Demo.tenant] Demo.pricing Demo.parseLine
               (Usage.Content Demo.line50) "team-a" "claude-3-5-haiku-20241022" Demo.oneEach
               Demo.tenant (Num.of_Z 10))
    as (status & usd & check & Hs & Hu & Hused & Hl & He & _ & Hc & Hx & _).
  - reflexivity.
  - reflexivity.
  - vm_compute. reflexivity.
  - exists status, usd, check.
    split_and!; [exact Hs|exact Hu|rewrite Hused|exact Hl|rewrite He|exact Hc|rewrite Hx];
      vm_compute; reflexivity.
Defined.

Lemma X11_witness :
  let file := foldl (Reports.appendToUsageFile Samples.stringify) None
                [Demo.record 50; Demo.record 10] in
  ([Demo.record 50; Demo.record 10] ≠ [] →
   ∃ content, file = Some content
              ∧ Usage.nonblank_lines content
                = Samples.stringify <$> [Demo.record 50; Demo.record 10])
  ∧ Usage.getDailyUsage Demo.parseLine (Reports.read file)
    = Ok (Usage.aggregateUsageRecords [Demo.record 50; Demo.record 10]).
Proof.
  apply (X11_append_read Samples.stringify Demo.parseLine [Demo.record 50; Demo.record 10]).
  - intros r [->|[->|[]%elem_of_nil]%elem_of_cons]%elem_of_cons;
      (split_and!; [apply not_elem_check; vm_compute; reflexivity
                   |eexists _, _; split; vm_compute; reflexivity
                   |apply last_check; vm_compute; reflexivity]).
  - intros r [->|[->|[]%elem_of_nil]%elem_of_cons]%elem_of_cons; vm_compute; reflexivity.
Defined.

Lemma X13_witness :
  ∃ entry key authInfo model,
    Auth.extractAuthInfo Samples.bearerRequest = Some authInfo
    ∧ Auth.a_token authInfo = Auth.TStr key
    ∧ entry ∈ Samples.entries ∧ Auth.e_key entry = key
    ∧ Usage.t_enabled (Auth.e_tenant entry) = true
    ∧ Proxy.Authenticated Demo.tenant (Some "claude-3-5-haiku-20241022")
      = Proxy.Authenticated (Auth.e_tenant entry) model
    ∧ (∀ m, model = Some m →
         ∃ pattern, pattern ∈ Usage.t_allowedModels (Auth.e_tenant entry)
                    ∧ Glob.matchPattern pattern m = true).
Proof.
  apply (X13_forwarding_needs_a_key (Demo.env Usage.ENOENT) "9f3a5c0e11d2b7a4"
           Samples.entries Samples.bearerRequest Demo.plainRequestText Http.fresh
           Demo.balancer).
  - vm_compute. reflexivity.
  - assert (Proxy.calls (Proxy.handleRequest (Demo.env Usage.ENOENT) "9f3a5c0e11d2b7a4"
                           (Proxy.Authenticated Demo.tenant (Some "claude-3-5-haiku-20241022"))
                           Demo.plainRequestText Http.fresh Demo.balancer)
            = [Proxy.SelectUpstream]) as -> by (vm_compute; reflexivity).
    apply elem_of_cons. by left.
Defined.

Lemma X14_witness :
  Auth.authenticate Samples.entries Samples.bearerRequest EmptyString
  = Auth.Passed (Auth.mkEntry Demo.tenant "sk-team-a") None
      (Auth.mkAuthInfo "bearer" (Auth.TStr "sk-team-a"))
  ∧ ∃ authResult,
      Auth.to_proxy (Auth.authenticate Samples.entries Samples.bearerRequest EmptyString)
      = Some authResult
      ∧ Proxy.calls (Proxy.handleRequest (Demo.env Usage.ENOENT) "9f3a5c0e11d2b7a4"
                       authResult EmptyString Http.fresh Demo.balancer)
        = [Proxy.SelectUpstream].
Proof.
  apply (X14_request_without_model (Demo.env Usage.ENOENT) "9f3a5c0e11d2b7a4"
           Samples.entries Samples.bearerRequest EmptyString Http.fresh Demo.balancer).
  - discriminate.
  - reflexivity.
  - vm_compute. reflexivity.
  - vm_compute. reflexivity.
  - reflexivity.
  - by left.
Defined.

Lemma X15_witness :
  Auth.extractAuthInfo Samples.bearerRequest
  = Some (Auth.mkAuthInfo "bearer" (Auth.TStr "sk-team-a")).
Proof.
  apply (X15_bearer_header Samples.bearerRequest (Str.chars "bearer") [" "; " "]%char
           (Str.chars "k-team-a") "s"%char).
  - vm_compute. reflexivity.
  - discriminate.
  - by repeat constructor.
  - reflexivity.
  - repeat (apply Forall_cons_2; [vm_compute; reflexivity|]). apply Forall_nil_2.
  - reflexivity.
Defined.

Lemma X18_witness :
  (JNull ∈ Samples.chatMessages → Messages.convertMessages Samples.chat = Throw TypeError)
  ∧ (∀ out, Messages.convertMessages Samples.chat = Ok out →
       out = omap Messages.converted Samples.chatMessages
       ∧ Forall (λ m, Messages.is_system m = false) out)
  ∧ (∀ msg, Messages.is_system msg = true →
       get (Messages.set_role msg) "role" = Some (JStr "user")
       ∧ ∀ k, k ≠ "role" → get (Messages.set_role msg) k = get msg k)
  ∧ (∀ msg s, get msg "content" = Some (JStr s) → s ≠ EmptyString →
       Messages.drops msg
       = existsb (λ marker, Str.includes (Str.chars marker) (Str.chars s)) Messages.markers).
Proof. apply (X18_system_messages Samples.chat Samples.chatMessages). reflexivity. Defined.

Lemma X19_witness :
  (JNull ∈ Samples.answerContent →
   Format.convert_parsed (Some Samples.answer) = Throw TypeError)
  ∧ (JNull ∉ Samples.answerContent →
     ∃ openaiResponse,
       Format.convert_parsed (Some Samples.answer) = Ok openaiResponse
       ∧ get openaiResponse "choices"
         = Some (JArr
             [JObj
                [("index", JNum 0);
                 ("message",
                  JObj [("role", JStr "assistant");
                        ("content",
                         JStr (Format.join_text
                                 ((λ item, get item "text")
                                    <$> Messages.text_blocks Samples.answerContent)))]);
                 ("finish_reason",
                  JStr (if is_str (get Samples.answer "stop_reason") "end_turn"
                        then "stop" else "length"))]])).
Proof. apply (X19_text_blocks Samples.answer Samples.answerContent). reflexivity. Defined.

Lemma X20_witness :
  ∃ tenants,
    get Samples.tenantsConfig "tenants" = Some (JArr tenants)
    ∧ ∀ tenant, tenant ∈ tenants →
        (∃ prefix, Validator.validateTenant tenant prefix = Ok tt)
        ∧ (∀ id, get tenant "id" = Some (JStr id) →
             Config.getTenant tenants (Some (JStr id)) = Ok (Some tenant))
        ∧ (∀ key, get tenant "key" = Some (JStr key) →
             Config.getTenantByKey tenants (Some (JStr key)) = Ok (Some tenant)).
Proof. apply (X20_tenants_checked Samples.tenantsConfig). vm_compute. reflexivity. Defined.

Lemma X27_witness :
  ¬ Registry.distinct_by "id"
      (Registry.updateTenant Samples.saved Samples.clock (Some (JStr "tenant-2"))
         (JObj [("id", JStr "tenant-1")]) Samples.tenants).2.
Proof.
  set (call := Registry.updateTenant Samples.saved Samples.clock (Some (JStr "tenant-2"))
                 (JObj [("id", JStr "tenant-1")]) Samples.tenants).
  destruct (X27_update_tenant Samples.saved Samples.clock (JStr "tenant-2")
              [("id", JStr "tenant-1")] Samples.tenants call.2
              (match call.1 with Ok r => r | Throw _ => JNull end))
    as (i & tenant & updated & Hi & Hg & _ & _ & _ & _ & _ & _ & _ & Hclash).
  { vm_compute. reflexivity. }
  destruct i as [|i].
  { cbn in Hi. injection Hi as <-. vm_compute in Hg. discriminate. }
  apply (Hclash 0%nat (JObj [("id", JStr "tenant-1"); ("name", JStr "fenger");
                             ("key", JStr "sk-team-a"); ("enabled", JBool true);
                             ("allowedModels", JArr [JStr "*sonnet*"; JStr "*haiku*"]);
                             ("limits", JObj [("daily", JObj [("maxUSD", JNum 100)])])])
           (JStr "tenant-1")); [discriminate|reflexivity|reflexivity|reflexivity].
Defined.

Lemma X28_witness :
  let tenants' := (Registry.regenerateApiKey Samples.saved Samples.clock Samples.random32
                     (Some (JStr "tenant-2")) Samples.tenants).2 in
  (∃ updated,
     Config.getTenantByKey tenants' (Some (JStr (Keys.generateApiKey Samples.random32)))
     = Ok (Some updated))
  ∧ ∀ t, Config.getTenantByKey tenants' (Some (JStr "sk-team-b")) ≠ Ok (Some t).
Proof.
  set (call := Registry.regenerateApiKey Samples.saved Samples.clock Samples.random32
                 (Some (JStr "tenant-2")) Samples.tenants).
  cbv zeta.
  destruct (X28_regenerate_key Samples.saved Samples.clock Samples.random32 (JStr "tenant-2")
              Samples.tenants call.2
              (match call.1 with Ok r => r | Throw _ => JNull end))
    as (i & tenant & updated & Hi & Hg & _ & _ & _ & _ & _ & Hnew).
  { vm_compute. reflexivity. }
  destruct Hnew as [Hfound Hold]; [vm_compute; reflexivity|].
  split; [by exists updated|].
  destruct Hold as [_ Hold].
  - intros a b x y Hab Hx Hy.
    destruct a as [|[|a]], b as [|[|b]]; try lia; try done.
    cbn in Hx, Hy. injection Hx as <-. injection Hy as <-. reflexivity.
  - assert (tenant = JObj [("id", JStr "tenant-2"); ("name", JStr "guest");
                           ("key", JStr "sk-team-b"); ("enabled", JBool false);
                           ("allowedModels", JArr [JStr "*"])]) as ->
      by (vm_compute in Hg; congruence).
    exact Hold.
Defined.

End samples_facts.
